(* ===== verification/_CoqProject ===== *)
-Q . S2P
Prelude.v
MemoryMap.v
Sched.v
Frame.v
Heap.v
KernelImage.v
Paging.v
UserMap.v
BootInfo.v
PhysMem.v
Loader.v
Ports.v
Descriptors.v
Interrupts.v
Lock.v
KMemory.v
Threads.v
Handoff.v
UserInit.v
Races.v
BlockIo.v
UserProgram.v
MemCheck.v
SelfCheck.v
KMain.v
KRun.v
Messages.v
