(* ===== verification/Prelude.v ===== *)
(** * ParanukOS: a verification development

    ParanukOS is a UEFI boot loader and a single-processor x86-64 microkernel
    in Rust.  This library translates its core into executable definitions and
    proves what makes each part correct, and what makes the parts fit together.
    This file is the prelude (panics, results, machine arithmetic, indexing,
    tactics, hints); the header documents the whole.

    ** The program

    The boot loader ([src/src/]) reads two ELF images from the boot volume,
    checks them ([crates/kernel-image]), places them in memory, builds the
    [BootInfo] structure ([crates/boot-info]) and jumps to the kernel.  The
    kernel ([crates/kernel]) sets up the serial port and the IDT, parses the
    firmware's memory map ([crates/kernel-memory/src/map.rs]), builds identity
    page tables and writes CR3, starts the frame allocator and the heap, checks
    both, installs GDT, TSS, interrupt stacks, interrupt controllers and timer,
    starts the preemptive scheduler ([crates/kernel-sched]) with the threads of
    [thread.rs] and [sched.rs], checks it, and runs one user program
    ([crates/user], [crates/user-lib]) at privilege level 3.

    ** Files

    - [MemoryMap]: [kernel-memory/src/map.rs], the descriptors as bytes with a
      stride, parsing, iteration, [ram_top].
    - [Sched]: [kernel-sched/src/lib.rs], the state table, the ring buffer and
      every operation; the abstract specification is a FIFO queue.
    - [Frame]: [kernel-memory/src/frame.rs], the two bitmaps as one byte array.
    - [Heap]: [kernel-memory/src/heap.rs], the first-fit free list with its
      headers inside a byte arena; the specification is a tiling of the arena.
    - [KernelImage]: [kernel-image/src/lib.rs], header and segment checks.
    - [Paging], [UserMap]: [kernel-memory/src/paging.rs] and [user_map.rs],
      tables as bytes; the specification is the processor's four-level walk.
    - [BootInfo]: [boot-info/src/lib.rs], the structure, its layout, validation
      and the exit codes.
    - [PhysMem]: physical memory as a function from addresses to bytes.
    - [Loader]: [src/bootloader/fs_loader.rs] over an interface to the firmware.
    - [Ports]: [serial.rs], [pic.rs] and [logging.rs] over the interface
      [PortIO]; models of the 16550, 8259 and 8254 are an instance.
    - [Descriptors]: [gdt.rs] and the gates of [idt.rs].
    - [Interrupts]: the entry code of [idt.rs] as instruction lists with an
      interpreter, the frames they build, the exception handler's decision.
    - [Lock]: [lock.rs] and the guards of [thread.rs], as operations and as a
      step relation over threads and interrupts.
    - [KMemory]: [kernel/src/memory.rs] and [heap.rs]; [FrameSource] states what
      the threads may expect of it.
    - [Threads]: [thread.rs] and [sched.rs] on any [StackMemory] and [PortIO]:
      slots, first frames, the interrupt handler with reaping and switching, and
      runs of the whole machine as a step relation.
    - [Handoff]: [src/bootloader/handoff.rs] and [src/main.rs].
    - [UserInit]: [user.rs], on [Threads] and [KMemory].
    - [Races]: [thread.rs] again, with an interrupt inside [create].
    - [BlockIo]: [src/bootloader/block_io.rs].
    - [UserProgram]: [user-lib] and [user], with the kernel's side of a call.
    - [MemCheck]: [heap_self_check] and [self_check] of [memory.rs].
    - [SelfCheck]: [self_check.rs] as a machine of threads under any schedule.
    - [KMain]: [kernel_main] of [kernel/src/main.rs] up to the enabling of
      interrupts, every component in the source's order, and the panic handler.
    - [KRun]: [kernel_main] from there to the exit code, with [run] of
      [self_check.rs]; what interrupts and other threads do between two
      statements is a parameter.
    - [Messages]: the text of every error and of every line the kernel logs, and
      the formatting of numbers.

    ** How code becomes definitions

    Integers are [Z]; their width is kept by the operations, which wrap,
    saturate or panic as the source's do ([add64] is the checked addition of the
    [dev] profile).  A function that can panic returns [exec]; [Result] and
    [option] are the source's own.  Mutable statics are fields of a record that
    is passed along ([Kernel], [System], [LockState], [Statics]); memory that
    several parts share (page tables, stacks, heap, [BootInfo]) is one function
    from addresses to bytes.  Loops carry fuel, and each theorem on a loop says
    that the fuel given suffices: [MAX_THREADS] rounds for reaping, one round
    per frame, block or descriptor for the walks, [SPIN_ROUNDS] and the source's
    own spin budgets for the waits.  Code outside the repository (firmware
    services, ports, the block device) is an interface, a class; where a theorem
    relies on documented behaviour the class states it as a law, and each has an
    instance the witnesses run on.

    ** What the theorems show

    - Memory: the map is read exactly; a frame is never in two hands; the heap
      stays a tiling whose payloads are apart; the page tables are the identity
      on RAM and nothing else; user mappings are exactly those asked for; no
      frame of the kernel's own memory is ever handed out; the memory self-check
      passes on what initialisation leaves, given two free frames.
    - Images and boot: the checks accept exactly the well-formed images; loading
      places them byte for byte or fails without touching other memory, or
      panics, exactly for the images whose addresses its arithmetic cannot
      handle; for the others the kernel receives the intended [BootInfo] and a
      failing boot loader reports the first failing step.
    - Processor: descriptors decode to the intended segments, the interrupt
      entry saves and restores every register, the controllers are programmed
      from any state.
    - Threads: the scheduler is a FIFO round robin without starvation; a context
      switch resumes exactly the context that was stopped; over every run in
      which no thread without a stack is chosen the stacks of threads stay apart;
      locks exclude each other and never deadlock on the single processor; the
      counter of the self-check loses no update under any such schedule; a user
      program's call always ends its thread.
    - The whole: from what the loader hands over, [kernel_boot] never panics and
      ends with memory, descriptors, controllers and timer as the components
      promise, or with one report of what is missing ([KMain]); under any
      interference that keeps the thread pool's invariant, [kernel_run] comes to
      exactly one report, of a failure the machine shows or of success after
      every check has passed, the user service's call included ([KRun]).
    - Diagnostics: the bytes on the serial line determine the log, down to the
      error and the numbers of every line, when no interrupt handler's line
      splits another ([Messages]).
    - What goes wrong: a clock tick inside [create] exchanges two threads
      ([Races]), and the self-check's verdict on the order of threads depends on
      when the clock strikes ([SelfCheck]).

    A creation is two steps, the registration with the scheduler and the making
    of the stack, in the runs of [Threads], the schedules of [SelfCheck] and the
    sequence of [KRun].  Their theorems go as far as the scheduler chooses no
    thread that is registered and has no stack; what happens when it does is the
    subject of [Races].  [thread_creation_exact] and [user_init_exact] take a
    call as a whole.  In [SelfCheck] a [Panic] also stands for waiting for a lock
    forever, which its theorem excludes.

    ** Not modelled

    The boot loader's output to the firmware's console; the panic message and the
    texts of the firmware library, which are not in the repository; the fault
    injections behind features; the build scripts and the test kernel of
    [tests/]; instructions without state of their own ([hlt], [spin_loop]) or
    that only read a register ([current_cs]). *)
From Stdlib Require Import ZArith Lia Bool.
From stdpp Require Import base tactics option list numbers.

#[global] Open Scope Z_scope.

(** ** Panics and results

    A Rust computation of the repository either finishes with a value or
    panics (slice index out of range, [debug_assert], arithmetic overflow with
    overflow checks, which the [dev] profile has).  [exec] is that outcome;
    [Result] is Rust's own [Result], a value like any other. *)
Inductive exec (A : Type) : Type :=
| Done (a : A)
| Panic.

Arguments Done {A} _.
Arguments Panic {A}.

Inductive Result (A E : Type) : Type :=
| Ok (a : A)
| Err (e : E).

Arguments Ok {A E} _.
Arguments Err {A E} _.

Definition exec_bind {A B : Type} (m : exec A) (k : A -> exec B) : exec B :=
  match m with
  | Done a => k a
  | Panic => Panic
  end.

(** The [?] operator inside a function that returns [Result]. *)
Definition try_bind {A B E : Type} (m : exec (Result A E)) (k : A -> exec (Result B E)) :
    exec (Result B E) :=
  exec_bind m (fun r => match r with Ok a => k a | Err e => Done (Err e) end).

(** [Option::ok_or] followed by [?]. *)
Definition ok_or {A E : Type} (o : option A) (e : E) : exec (Result A E) :=
  match o with
  | Some a => Done (Ok a)
  | None => Done (Err e)
  end.

(** The [?] operator inside a function that returns [Option]. *)
Definition opt_bind {A B : Type} (o : option A) (k : A -> exec (option B)) : exec (option B) :=
  match o with
  | Some a => k a
  | None => Done None
  end.

Declare Scope rust_scope.
Delimit Scope rust_scope with rust.

Notation "'let!' x ':=' m 'in' k" := (exec_bind m (fun x => k))
  (at level 10, x pattern, m at level 100, k at level 200,
   format "'[v' 'let!'  x  ':='  m  'in' '//' k ']'") : rust_scope.
Notation "'let?' x ':=' m 'in' k" := (try_bind m (fun x => k))
  (at level 10, x pattern, m at level 100, k at level 200,
   format "'[v' 'let?'  x  ':='  m  'in' '//' k ']'") : rust_scope.
Notation "'let?o' x ':=' m 'in' k" := (opt_bind m (fun x => k))
  (at level 10, x pattern, m at level 100, k at level 200,
   format "'[v' 'let?o'  x  ':='  m  'in' '//' k ']'") : rust_scope.

(** [let Some(x) = m else { d }]: also the [?] on an option in a function that
    returns its state beside the result. *)
Notation "'let*' x ':=' m 'else' d 'in' k" := (match m with Some x => k | None => d end)
  (at level 10, x pattern, m at level 100, d at level 100, k at level 200) : rust_scope.

#[global] Open Scope rust_scope.

Definition is_ok {A E : Type} (r : Result A E) : bool :=
  match r with Ok _ => true | Err _ => false end.

(** ** Machine integers

    [u8], [u16], [u32], [u64] and [usize] values are integers of [Z] inside
    their range; every target of the repository is x86-64, so [usize] is 64
    bits wide.  The plain operators panic on overflow, the [checked_],
    [saturating_] and [wrapping_] methods are the standard library's. *)
Definition U8_MAX : Z := 255.
Definition U16_MAX : Z := 65535.
Definition U32_MAX : Z := 4294967295.
Definition U64_MAX : Z := 18446744073709551615.
Definition USIZE_MAX : Z := U64_MAX.

Definition is_u8 (x : Z) : Prop := 0 <= x <= U8_MAX.
Definition is_u16 (x : Z) : Prop := 0 <= x <= U16_MAX.
Definition is_u32 (x : Z) : Prop := 0 <= x <= U32_MAX.
Definition is_u64 (x : Z) : Prop := 0 <= x <= U64_MAX.
(** No slice is longer than [isize::MAX] bytes. *)
Definition ISIZE_MAX : Z := 9223372036854775807.

Definition is_usize (x : Z) : Prop := 0 <= x <= USIZE_MAX.

(** [a + b], [a - b], [a * b] on [u64]/[usize]. *)
Definition add64 (a b : Z) : exec Z := if a + b <=? U64_MAX then Done (a + b) else Panic.
Definition sub64 (a b : Z) : exec Z := if b <=? a then Done (a - b) else Panic.
Definition mul64 (a b : Z) : exec Z := if a * b <=? U64_MAX then Done (a * b) else Panic.

Definition checked_add (a b : Z) : option Z := if a + b <=? U64_MAX then Some (a + b) else None.
Definition checked_sub (a b : Z) : option Z := if b <=? a then Some (a - b) else None.
Definition checked_mul (a b : Z) : option Z := if a * b <=? U64_MAX then Some (a * b) else None.
Definition saturating_add (a b : Z) : Z := Z.min (a + b) U64_MAX.
Definition saturating_sub (a b : Z) : Z := Z.max (a - b) 0.
Definition saturating_mul (a b : Z) : Z := Z.min (a * b) U64_MAX.

(** [a.div_ceil(b)], computed without an intermediate overflow. *)
Definition div_ceil (a b : Z) : Z := if a mod b =? 0 then a / b else a / b + 1.
Definition is_multiple_of (a b : Z) : bool := a mod b =? 0.
Definition is_power_of_two (a : Z) : bool := (0 <? a) && (2 ^ Z.log2 a =? a).

(** [!x] on a [w]-bit unsigned integer. *)
Definition bnot (w x : Z) : Z := Z.lxor x (Z.ones w).

(** ** Slices of bytes *)
Definition len {A : Type} (l : list A) : Z := Z.of_nat (length l).

(** [l.get(i)] and [l[i]]. *)
Definition get {A : Type} (l : list A) (i : Z) : option A :=
  if (0 <=? i) && (i <? len l) then l !! Z.to_nat i else None.
Definition index {A : Type} (l : list A) (i : Z) : exec A :=
  match get l i with Some a => Done a | None => Panic end.

(** [l[i] = a]. *)
Definition set_index {A : Type} (l : list A) (i : Z) (a : A) : exec (list A) :=
  if (0 <=? i) && (i <? len l) then Done (<[Z.to_nat i := a]> l) else Panic.

(** The [n] elements of [l] from [i]. *)
Definition sub_list {A : Type} (l : list A) (i n : Z) : list A :=
  take (Z.to_nat n) (drop (Z.to_nat i) l).

(** [l.get(a..b)] and [&l[a..b]]. *)
Definition get_range {A : Type} (l : list A) (a b : Z) : option (list A) :=
  if (0 <=? a) && (a <=? b) && (b <=? len l) then Some (sub_list l a (b - a)) else None.
Definition slice {A : Type} (l : list A) (a b : Z) : exec (list A) :=
  match get_range l a b with Some s => Done s | None => Panic end.

(** [l] with the elements from [i] on overwritten by [s]. *)
Definition splice {A : Type} (l : list A) (i : Z) (s : list A) : list A :=
  take (Z.to_nat i) l ++ s ++ drop (Z.to_nat i + length s) l.

(** [l[a..b].copy_from_slice(s)]: panics when the range is out of bounds or
    when the two lengths differ. *)
Definition copy_from_slice {A : Type} (l : list A) (a b : Z) (s : list A) : exec (list A) :=
  if (0 <=? a) && (a <=? b) && (b <=? len l) && (b - a =? len s) then Done (splice l a s)
  else Panic.

(** [l[a..b].fill(v)]. *)
Definition fill {A : Type} (l : list A) (a b : Z) (v : A) : exec (list A) :=
  if (0 <=? a) && (a <=? b) && (b <=? len l)
  then Done (splice l a (replicate (Z.to_nat (b - a)) v)) else Panic.

(** [l.iter().position(p)]: the least index whose element satisfies [p]. *)
Fixpoint position {A : Type} (p : A -> bool) (l : list A) : option Z :=
  match l with
  | [] => None
  | a :: l => if p a then Some 0 else (fun i => i + 1) <$> position p l
  end.

(** Little-endian encoding: [to_le_bytes] and [from_le_bytes]. *)
Fixpoint le_bytes (n : nat) (v : Z) : list Z :=
  match n with
  | O => []
  | S n => v mod 256 :: le_bytes n (v / 256)
  end.

Fixpoint le_val (bs : list Z) : Z :=
  match bs with
  | [] => 0
  | b :: bs => b + 256 * le_val bs
  end.

Definition bytes_ok (l : list Z) : Prop := Forall is_u8 l.

(** ** Automation

    [consts] unfolds the width constants, [rust] collects the rewrite rules
    for operations whose bounds are met. *)
Create HintDb consts.
#[export] Hint Unfold is_u8 is_u16 is_u32 is_u64 is_usize : consts.
#[export] Hint Unfold ISIZE_MAX USIZE_MAX U64_MAX U32_MAX U16_MAX U8_MAX : consts.

Ltac unfold_consts := autounfold with consts in *.
Ltac ulia := unfold_consts; lia.

(** Case analysis on the first conditional or match of the goal. *)
Ltac case_goal :=
  match goal with
  | |- context [if ?b then _ else _] => destruct b eqn:?
  | |- context [match ?x with _ => _ end] => destruct x eqn:?
  end.
Ltac case_hyp H :=
  match type of H with
  | context [if ?b then _ else _] => destruct b eqn:?
  | context [match ?x with _ => _ end] => destruct x eqn:?
  end.

(** ** Lemmas: outcomes *)
Lemma exec_bind_done {A B : Type} (m : exec A) (k : A -> exec B) (b : B) :
  exec_bind m k = Done b <-> exists a, m = Done a /\ k a = Done b.
Proof. destruct m; simpl; naive_solver. Qed.

Lemma try_bind_ok {A B E : Type} (m : exec (Result A E)) (k : A -> exec (Result B E)) (b : B) :
  try_bind m k = Done (Ok b) <-> exists a, m = Done (Ok a) /\ k a = Done (Ok b).
Proof. destruct m as [[]|]; unfold try_bind; simpl; naive_solver. Qed.

Lemma ok_or_ok {A E : Type} (o : option A) (e : E) (a : A) :
  ok_or o e = Done (Ok a) <-> o = Some a.
Proof. destruct o; simpl; naive_solver. Qed.

Lemma opt_bind_some {A B : Type} (o : option A) (k : A -> exec (option B)) (b : B) :
  opt_bind o k = Done (Some b) <-> exists a, o = Some a /\ k a = Done (Some b).
Proof. destruct o; simpl; naive_solver. Qed.

(** Turns a hypothesis that a chain of binds finished into its steps. *)
Ltac inv_exec :=
  repeat match goal with
  | H : exec_bind _ _ = Done _ |- _ =>
      apply exec_bind_done in H; destruct H as (? & ? & H)
  | H : try_bind _ _ = Done (Ok _) |- _ =>
      apply try_bind_ok in H; destruct H as (? & ? & H)
  | H : ok_or _ _ = Done (Ok _) |- _ => apply ok_or_ok in H
  | H : opt_bind _ _ = Done (Some _) |- _ =>
      apply opt_bind_some in H; destruct H as (? & ? & H)
  | H : Done _ = Done _ |- _ => injection H as H
  | H : Ok _ = Ok _ |- _ => injection H as H
  | H : Err _ = Err _ |- _ => injection H as H
  | H : Panic = Done _ |- _ => discriminate H
  | H : Done _ = Panic |- _ => discriminate H
  | H : Ok _ = Err _ |- _ => discriminate H
  | H : Err _ = Ok _ |- _ => discriminate H
  | H : Some _ = None |- _ => discriminate H
  | H : None = Some _ |- _ => discriminate H
  end.

(** Follows a computation that finished through its branches. *)
Ltac step_exec :=
  first [ progress inv_exec
        | progress simplify_eq/=
        | match goal with
          | H : (if ?b then _ else _) = Done _ |- _ => destruct b eqn:?
          | H : match ?x with _ => _ end = Done _ |- _ => destruct x eqn:?
          end ].

(** ** Lemmas: integers *)
Lemma add64_done a b : a + b <= U64_MAX -> add64 a b = Done (a + b).
Proof. intros H. unfold add64. destruct (Z.leb_spec (a + b) U64_MAX); [done|lia]. Qed.

Lemma sub64_done a b : b <= a -> sub64 a b = Done (a - b).
Proof. intros H. unfold sub64. destruct (Z.leb_spec b a); [done|lia]. Qed.

Lemma mul64_done a b : a * b <= U64_MAX -> mul64 a b = Done (a * b).
Proof. intros H. unfold mul64. destruct (Z.leb_spec (a * b) U64_MAX); [done|lia]. Qed.

Lemma add64_inv a b c : add64 a b = Done c <-> c = a + b /\ a + b <= U64_MAX.
Proof. unfold add64. destruct (Z.leb_spec (a + b) U64_MAX); naive_solver lia. Qed.

Lemma sub64_inv a b c : sub64 a b = Done c <-> c = a - b /\ b <= a.
Proof. unfold sub64. destruct (Z.leb_spec b a); naive_solver lia. Qed.

Lemma mul64_inv a b c : mul64 a b = Done c <-> c = a * b /\ a * b <= U64_MAX.
Proof. unfold mul64. destruct (Z.leb_spec (a * b) U64_MAX); naive_solver lia. Qed.

Lemma checked_add_some a b c : checked_add a b = Some c <-> c = a + b /\ a + b <= U64_MAX.
Proof. unfold checked_add. destruct (Z.leb_spec (a + b) U64_MAX); naive_solver lia. Qed.

Lemma checked_add_none a b : checked_add a b = None <-> U64_MAX < a + b.
Proof. unfold checked_add. destruct (Z.leb_spec (a + b) U64_MAX); naive_solver lia. Qed.

Lemma checked_mul_some a b c : checked_mul a b = Some c <-> c = a * b /\ a * b <= U64_MAX.
Proof. unfold checked_mul. destruct (Z.leb_spec (a * b) U64_MAX); naive_solver lia. Qed.

Lemma checked_mul_none a b : checked_mul a b = None <-> U64_MAX < a * b.
Proof. unfold checked_mul. destruct (Z.leb_spec (a * b) U64_MAX); naive_solver lia. Qed.

Lemma div_ceil_spec a b : 0 < b -> (div_ceil a b - 1) * b < a <= div_ceil a b * b.
Proof.
  intros Hb. unfold div_ceil.
  pose proof (Z.div_mod a b ltac:(lia)). pose proof (Z.mod_pos_bound a b Hb).
  destruct (Z.eqb_spec (a mod b) 0); nia.
Qed.

Lemma div_ceil_alt a b : 0 < b -> div_ceil a b = (a + b - 1) / b.
Proof.
  intros Hb. pose proof (div_ceil_spec a b Hb) as Hs.
  apply (Z.div_unique_pos _ _ _ (a + b - 1 - (div_ceil a b - 1) * b - b)); lia.
Qed.

Lemma is_multiple_of_spec a b : b <> 0 -> is_multiple_of a b = true <-> (b | a).
Proof.
  intros Hb. unfold is_multiple_of. rewrite Z.eqb_eq.
  split; intros H; [by apply Z.mod_divide | by apply Z.mod_divide in H].
Qed.

Lemma is_power_of_two_spec a : is_power_of_two a = true <-> exists k, 0 <= k /\ a = 2 ^ k.
Proof.
  unfold is_power_of_two. rewrite andb_true_iff, Z.ltb_lt, Z.eqb_eq. split.
  - intros [Ha He]. exists (Z.log2 a). split; [apply Z.log2_nonneg | done].
  - intros (k & Hk & ->). split; [apply Z.pow_pos_nonneg; lia | by rewrite Z.log2_pow2].
Qed.

(** Rounding down to a power of two with a mask. *)
Lemma land_bnot_ones x k w :
  0 <= k <= w -> 0 <= x < 2 ^ w -> Z.land x (bnot w (2 ^ k - 1)) = x - x mod 2 ^ k.
Proof.
  intros Hk Hx. unfold bnot.
  replace (2 ^ k - 1) with (Z.ones k) by (rewrite Z.ones_equiv; lia).
  replace (x - x mod 2 ^ k) with (x / 2 ^ k * 2 ^ k)
    by (pose proof (Z.div_mod x (2 ^ k) ltac:(apply Z.pow_nonzero; lia)); lia).
  rewrite <- Z.shiftr_div_pow2, <- Z.shiftl_mul_pow2 by lia.
  apply Z.bits_inj_iff'. intros n Hn.
  rewrite Z.land_spec, Z.lxor_spec, Z.shiftl_spec, !Z.testbit_ones_nonneg by lia.
  destruct (Z.ltb_spec n k).
  - rewrite (Z.testbit_neg_r _ (n - k)) by lia. destruct (Z.ltb_spec n w); [|lia].
    simpl. by rewrite andb_false_r.
  - rewrite Z.shiftr_spec by lia. replace (n - k + k) with n by lia.
    destruct (Z.ltb_spec n w); simpl; [by rewrite andb_true_r|].
    rewrite andb_false_r. symmetry.
    destruct (Z.eq_dec x 0) as [->|]; [apply Z.bits_0|].
    rewrite Z.bits_above_log2; [done|lia|]. apply Z.log2_lt_pow2; [lia|]. eapply Z.lt_le_trans; [apply Hx|].
    apply Z.pow_le_mono_r; lia.
Qed.

(** ** Lemmas: slices *)
Lemma len_nonneg {A : Type} (l : list A) : 0 <= len l.
Proof. unfold len. lia. Qed.

Lemma len_app {A : Type} (l k : list A) : len (l ++ k) = len l + len k.
Proof. unfold len. rewrite length_app. lia. Qed.

Lemma len_cons {A : Type} (x : A) (l : list A) : len (x :: l) = 1 + len l.
Proof. unfold len. simpl. lia. Qed.

Lemma len_insert {A : Type} (l : list A) i x : len (<[i := x]> l) = len l.
Proof. unfold len. by rewrite length_insert. Qed.

Lemma len_replicate {A : Type} n (x : A) : len (replicate n x) = Z.of_nat n.
Proof. unfold len. by rewrite length_replicate. Qed.

Lemma get_some {A : Type} (l : list A) i a :
  get l i = Some a <-> 0 <= i /\ l !! Z.to_nat i = Some a.
Proof.
  unfold get, len. destruct ((0 <=? i) && (i <? Z.of_nat (length l))) eqn:E.
  - split; [intros H; split; [lia|done]|naive_solver].
  - split; [done|]. intros [Hi Hl]. apply lookup_lt_Some in Hl. lia.
Qed.

Lemma get_none {A : Type} (l : list A) i : get l i = None <-> i < 0 \/ len l <= i.
Proof.
  unfold get, len. destruct ((0 <=? i) && (i <? Z.of_nat (length l))) eqn:E.
  - destruct (lookup_lt_is_Some_2 l (Z.to_nat i)) as [a Ha]; [lia|]. rewrite Ha.
    split; [done|lia].
  - split; [lia|done].
Qed.

Lemma get_lt_some {A : Type} (l : list A) i : 0 <= i < len l -> exists a, get l i = Some a.
Proof.
  intros Hi. destruct (get l i) eqn:E; [eauto|]. apply get_none in E. lia.
Qed.

Lemma get_in_range {A : Type} (l : list A) i a : get l i = Some a -> 0 <= i < len l.
Proof.
  intros H. destruct (decide (0 <= i < len l)); [done|].
  assert (get l i = None) by (apply get_none; lia). congruence.
Qed.

Lemma index_done {A : Type} (l : list A) i a : index l i = Done a <-> get l i = Some a.
Proof. unfold index. destruct (get l i); naive_solver. Qed.

Lemma set_index_done {A : Type} (l : list A) i a :
  0 <= i < len l -> set_index l i a = Done (<[Z.to_nat i := a]> l).
Proof. intros H. unfold set_index. by rewrite (proj2 (andb_true_iff _ _)) by lia. Qed.

Lemma set_index_inv {A : Type} (l k : list A) i a :
  set_index l i a = Done k <-> 0 <= i < len l /\ k = <[Z.to_nat i := a]> l.
Proof.
  unfold set_index. destruct ((0 <=? i) && (i <? len l)) eqn:E; naive_solver lia.
Qed.

Lemma get_insert {A : Type} (l : list A) i j a :
  0 <= i < len l -> 0 <= j ->
  get (<[Z.to_nat i := a]> l) j = if i =? j then Some a else get l j.
Proof.
  intros Hi Hj. unfold get. rewrite len_insert.
  destruct (Z.eqb_spec i j) as [->|Hne].
  - rewrite (proj2 (andb_true_iff _ _)) by lia. apply list_lookup_insert_eq. unfold len in *. lia.
  - by rewrite list_lookup_insert_ne by lia.
Qed.

Lemma get_insert_dec {A : Type} (l : list A) i j a :
  0 <= i < len l -> get (<[Z.to_nat i := a]> l) j = if decide (i = j) then Some a else get l j.
Proof.
  intros Hi. case_decide as E; [subst; rewrite get_insert by lia; by rewrite Z.eqb_refl|].
  unfold get. rewrite len_insert. case_match eqn:E2; [|done].
  apply list_lookup_insert_ne. lia.
Qed.

Lemma get_insert_eq {A : Type} (l : list A) i a :
  0 <= i < len l -> get (<[Z.to_nat i := a]> l) i = Some a.
Proof. intros Hi. rewrite get_insert by lia. by rewrite Z.eqb_refl. Qed.

Lemma get_insert_ne {A : Type} (l : list A) i j a :
  0 <= i -> i <> j -> get (<[Z.to_nat i := a]> l) j = get l j.
Proof.
  intros Hi Hne. unfold get. rewrite len_insert. case_match eqn:E; [|done].
  apply list_lookup_insert_ne. lia.
Qed.

Lemma get_insert_cases {A : Type} (l : list A) i j v y :
  0 <= i < len l -> get (<[Z.to_nat i := v]> l) j = Some y -> (j = i /\ y = v) \/ (j <> i /\ get l j = Some y).
Proof. intros Hi. rewrite get_insert_dec by done. case_decide; [intros [= <-]; by left|]. intros ?. right. split; congruence. Qed.

Lemma len_sub_list {A : Type} (l : list A) i n :
  0 <= i -> 0 <= n -> i + n <= len l -> len (sub_list l i n) = n.
Proof. intros. unfold sub_list, len in *. rewrite length_take, length_drop. lia. Qed.

Lemma sub_list_lookup {A : Type} (l : list A) i n k :
  0 <= i -> (k < Z.to_nat n)%nat -> sub_list l i n !! k = l !! (Z.to_nat i + k)%nat.
Proof. intros. unfold sub_list. rewrite lookup_take_lt by done. apply lookup_drop. Qed.

Lemma get_range_some {A : Type} (l : list A) a b s :
  get_range l a b = Some s <-> 0 <= a <= b /\ b <= len l /\ s = sub_list l a (b - a).
Proof.
  unfold get_range. destruct ((0 <=? a) && (a <=? b) && (b <=? len l)) eqn:E; naive_solver lia.
Qed.

Lemma get_range_none {A : Type} (l : list A) a b :
  0 <= a <= b -> get_range l a b = None <-> len l < b.
Proof.
  intros H. unfold get_range.
  destruct ((0 <=? a) && (a <=? b) && (b <=? len l)) eqn:E; naive_solver lia.
Qed.

Lemma len_splice {A : Type} (l : list A) i s :
  0 <= i -> i + len s <= len l -> len (splice l i s) = len l.
Proof.
  intros. unfold splice, len in *. rewrite !length_app, length_take, length_drop. lia.
Qed.

Lemma splice_lookup {A : Type} (l : list A) i s k :
  0 <= i -> i + len s <= len l ->
  splice l i s !! k =
    if decide (Z.to_nat i <= k < Z.to_nat i + length s)%nat then s !! (k - Z.to_nat i)%nat
    else l !! k.
Proof.
  intros Hi Hb. unfold splice, len in *.
  assert (Hlt : length (take (Z.to_nat i) l) = Z.to_nat i) by (rewrite length_take; lia).
  destruct (decide (k < Z.to_nat i)%nat).
  { rewrite lookup_app_l by lia. rewrite lookup_take_lt by lia. by case_decide; [lia|]. }
  rewrite lookup_app_r, Hlt by lia. case_decide.
  - by rewrite lookup_app_l by lia.
  - rewrite lookup_app_r by lia. rewrite lookup_drop. f_equal. lia.
Qed.

Lemma sub_list_splice_eq {A : Type} (l : list A) i s n :
  0 <= i -> i + len s <= len l -> n = len s -> sub_list (splice l i s) i n = s.
Proof.
  intros Hi Hb ->. apply list_eq. intros k.
  destruct (decide (k < length s)%nat).
  - rewrite sub_list_lookup by (unfold len; lia). rewrite splice_lookup by done.
    rewrite decide_True by lia. f_equal. lia.
  - rewrite !lookup_ge_None_2; [done|lia|]. unfold sub_list, len. rewrite length_take. lia.
Qed.

Lemma sub_list_splice_ne {A : Type} (l : list A) i s j n :
  0 <= i -> i + len s <= len l -> 0 <= j -> 0 <= n -> j + n <= i \/ i + len s <= j ->
  sub_list (splice l i s) j n = sub_list l j n.
Proof.
  intros Hi Hb Hj Hn Hd. apply list_eq. intros k.
  destruct (decide (k < Z.to_nat n)%nat).
  - rewrite !sub_list_lookup by done. rewrite splice_lookup by done.
    apply decide_False. unfold len in *. lia.
  - unfold sub_list. by rewrite !lookup_take_ge by lia.
Qed.

(** Two adjacent writes are one. *)
Lemma splice_splice {A : Type} (l : list A) i s1 s2 j :
  0 <= i -> j = i + len s1 -> j + len s2 <= len l ->
  splice (splice l i s1) j s2 = splice l i (s1 ++ s2).
Proof.
  intros Hi -> Hl. pose proof (len_nonneg s1). pose proof (len_nonneg s2).
  apply list_eq. intros k.
  rewrite splice_lookup by (rewrite ?len_splice; lia).
  rewrite !splice_lookup by (rewrite ?len_app; lia). rewrite length_app. unfold len in *.
  repeat case_decide; try lia; try done.
  - rewrite lookup_app_r by lia. f_equal. lia.
  - by rewrite lookup_app_l by lia.
Qed.

Lemma sub_list_cons {A : Type} (l : list A) i n a :
  get l i = Some a -> 0 < n -> sub_list l i n = a :: sub_list l (i + 1) (n - 1).
Proof.
  intros [Hi Ha]%get_some Hn. unfold sub_list. rewrite (drop_S _ _ _ Ha).
  replace (Z.to_nat n) with (S (Z.to_nat (n - 1))) by lia.
  replace (Z.to_nat (i + 1)) with (S (Z.to_nat i)) by lia. done.
Qed.

Lemma sub_list_0 {A : Type} (l : list A) i : sub_list l i 0 = [].
Proof. done. Qed.

Lemma sub_list_sub_list {A : Type} (l : list A) o n i k :
  0 <= o -> 0 <= i -> 0 <= k -> i + k <= n -> sub_list (sub_list l o n) i k = sub_list l (o + i) k.
Proof.
  intros. unfold sub_list. rewrite skipn_firstn_comm, take_take, drop_drop.
  f_equal; [lia|]. f_equal. lia.
Qed.

Lemma copy_from_slice_done {A : Type} (l : list A) a b s :
  0 <= a -> b = a + len s -> b <= len l -> copy_from_slice l a b s = Done (splice l a s).
Proof.
  intros Ha -> Hb. unfold copy_from_slice. pose proof (len_nonneg s).
  by rewrite !(proj2 (andb_true_iff _ _)) by lia.
Qed.

Lemma copy_from_slice_inv {A : Type} (l k : list A) a b s :
  copy_from_slice l a b s = Done k <->
  0 <= a /\ b = a + len s /\ b <= len l /\ k = splice l a s.
Proof.
  unfold copy_from_slice. pose proof (len_nonneg s).
  destruct ((0 <=? a) && (a <=? b) && (b <=? len l) && (b - a =? len s)) eqn:E;
    naive_solver lia.
Qed.

Lemma slice_done {A : Type} (l : list A) a b s :
  slice l a b = Done s <-> get_range l a b = Some s.
Proof. unfold slice. destruct (get_range l a b); naive_solver. Qed.

(** ** Lemmas: little-endian encoding *)
Lemma length_le_bytes n v : length (le_bytes n v) = n.
Proof. revert v. induction n; intros; simpl; [done|by rewrite IHn]. Qed.

Lemma len_le_bytes n v : len (le_bytes n v) = Z.of_nat n.
Proof. unfold len. by rewrite length_le_bytes. Qed.

Lemma le_bytes_ok n v : bytes_ok (le_bytes n v).
Proof.
  revert v. induction n; intros v; simpl; constructor; [|apply IHn].
  pose proof (Z.mod_pos_bound v 256). ulia.
Qed.

Lemma le_val_le_bytes n v : le_val (le_bytes n v) = v mod 2 ^ (8 * Z.of_nat n).
Proof.
  revert v. induction n as [|n IH]; intros v; simpl le_bytes; simpl le_val.
  - by rewrite Z.mod_1_r.
  - rewrite IH. replace (8 * Z.of_nat (S n)) with (8 + 8 * Z.of_nat n) by lia.
    rewrite Z.pow_add_r by lia. change (2 ^ 8) with 256.
    rewrite Z.rem_mul_r; [lia|lia|]. apply Z.pow_pos_nonneg; lia.
Qed.

Lemma le_val_bound bs : bytes_ok bs -> 0 <= le_val bs < 2 ^ (8 * len bs).
Proof.
  unfold len. induction 1 as [|b bs Hb _ IH]; simpl length; simpl le_val; [simpl; lia|].
  replace (8 * Z.of_nat (S (length bs))) with (8 + 8 * Z.of_nat (length bs)) by lia.
  rewrite Z.pow_add_r by lia. change (2 ^ 8) with 256. ulia.
Qed.

Lemma le_val_u32 v : is_u32 v -> le_val (le_bytes 4 v) = v.
Proof. intros H. rewrite le_val_le_bytes. apply Z.mod_small. ulia. Qed.

Lemma le_val_u64 v : is_u64 v -> le_val (le_bytes 8 v) = v.
Proof. intros H. rewrite le_val_le_bytes. apply Z.mod_small. ulia. Qed.

(** [bytes_ok] of a concrete buffer, by evaluation. *)
Lemma bytes_ok_b l : forallb (fun b => (0 <=? b) && (b <=? 255)) l = true -> bytes_ok l.
Proof.
  induction l as [|b l IH]; intros H; [constructor|].
  apply andb_true_iff in H as [Hb H]. constructor; [ulia|by apply IH].
Qed.

Lemma bytes_ok_sub_list l i n : bytes_ok l -> bytes_ok (sub_list l i n).
Proof. intros H. by apply Forall_take, Forall_drop. Qed.

Lemma bytes_ok_splice l i s : bytes_ok l -> bytes_ok s -> bytes_ok (splice l i s).
Proof.
  intros Hl Hs. apply Forall_app. split; [by apply Forall_take|].
  apply Forall_app. split; [done|by apply Forall_drop].
Qed.

(** Enumerating [f i, f (i+1), ...]. *)
Lemma fmap_seq_succ {A : Type} (f : Z -> A) i n :
  (fun j : nat => f (i + Z.of_nat j)) <$> seq 1 n =
  (fun j : nat => f (i + 1 + Z.of_nat j)) <$> seq 0 n.
Proof.
  rewrite <- (fmap_S_seq 0 n), <- list_fmap_compose. apply list_fmap_ext. intros ? j _. simpl.
  f_equal. lia.
Qed.

(** ** Lemmas: position *)
Lemma get_cons_0 {A : Type} (a : A) l : get (a :: l) 0 = Some a.
Proof. apply get_some. split; [lia|done]. Qed.

Lemma get_cons_pos {A : Type} (a : A) l i : 0 < i -> get (a :: l) i = get l (i - 1).
Proof.
  intros Hi. unfold get. rewrite len_cons.
  replace (Z.to_nat i) with (S (Z.to_nat (i - 1))) by lia. simpl.
  by destruct ((0 <=? i - 1) && (i - 1 <? len l)) eqn:E;
    destruct ((0 <=? i) && (i <? 1 + len l)) eqn:E2; try lia.
Qed.

Lemma position_some {A : Type} (p : A -> bool) l i :
  position p l = Some i ->
  (exists a, get l i = Some a /\ p a = true) /\
  (forall j a, 0 <= j < i -> get l j = Some a -> p a = false).
Proof.
  revert i. induction l as [|x l IH]; intros i H; [done|]. cbn [position] in H.
  destruct (p x) eqn:Ep.
  - injection H as <-. split; [exists x; by rewrite get_cons_0|lia].
  - destruct (position p l) as [k|]; [|done]. injection H as <-.
    destruct (IH k eq_refl) as [(a & Ha & Hpa) Hmin].
    pose proof (get_in_range _ _ _ Ha). split.
    + exists a. rewrite get_cons_pos by lia. by replace (k + 1 - 1) with k by lia.
    + intros j b Hj Hb. destruct (Z.eq_dec j 0) as [->|].
      * rewrite get_cons_0 in Hb. congruence.
      * rewrite get_cons_pos in Hb by lia. apply (Hmin (j - 1)); [lia|done].
Qed.

Lemma position_none {A : Type} (p : A -> bool) l :
  position p l = None <-> forall i a, get l i = Some a -> p a = false.
Proof.
  induction l as [|x l IH]; cbn [position].
  - split; [|done]. intros _ i a H. apply get_in_range in H. unfold len in H. simpl in H. lia.
  - destruct (p x) eqn:Ep.
    + split; [done|]. intros H. specialize (H 0 x (get_cons_0 x l)). congruence.
    + destruct (position p l) eqn:E; simpl.
      * split; [done|]. intros H. destruct (position_some _ _ _ E) as [(a & Ha & Hp) _].
        pose proof (get_in_range _ _ _ Ha).
        specialize (H (z + 1) a). rewrite get_cons_pos in H by lia.
        replace (z + 1 - 1) with z in H by lia. rewrite H in Hp; done.
      * split; [|done]. intros _ i a Ha. pose proof (get_in_range _ _ _ Ha).
        destruct (Z.eq_dec i 0) as [->|]; [rewrite get_cons_0 in Ha; congruence|].
        rewrite get_cons_pos in Ha by lia. by eapply IH.
Qed.
