(* ===== verification/MemoryMap.v ===== *)
(** * The UEFI memory map (crates/kernel-memory/src/map.rs)

    [MemoryKind], [Region], the error type and the parser
    [MemoryMap::from_bytes] with its iterator [Regions] and [ram_top].  The
    byte buffer is a list of bytes; reads outside it give zero, as in the
    source.  The theorems say which buffers are accepted, that an accepted map
    never overflows or panics afterwards, that iteration returns exactly the
    descriptors of the buffer, and that [ram_top] is the maximum over RAM. *)
From Stdlib Require Import ZArith Lia Bool.
From stdpp Require Import base tactics option list numbers sets.
From S2P Require Import Prelude.

#[local] Open Scope Z_scope.

(** ** Data *)
Definition PAGE_SIZE : Z := 4096.
Definition DESCRIPTOR_MIN_SIZE : Z := 40.
Definition OFF_TYPE : Z := 0.
Definition OFF_PHYSICAL_START : Z := 8.
Definition OFF_NUMBER_OF_PAGES : Z := 24.

#[export] Hint Unfold PAGE_SIZE DESCRIPTOR_MIN_SIZE OFF_TYPE OFF_PHYSICAL_START
  OFF_NUMBER_OF_PAGES : consts.

Inductive MemoryKind : Type :=
| Reserved
| LoaderCode
| LoaderData
| BootServicesCode
| BootServicesData
| RuntimeServicesCode
| RuntimeServicesData
| Conventional
| Unusable
| AcpiReclaim
| AcpiNvs
| Mmio
| MmioPortSpace
| PalCode
| Persistent
| Unaccepted
| Unknown (raw : Z).

#[export] Instance memory_kind_eq_dec : EqDecision MemoryKind.
Proof. solve_decision. Defined.

Definition from_raw (raw : Z) : MemoryKind :=
  match raw with
  | 0 => Reserved
  | 1 => LoaderCode
  | 2 => LoaderData
  | 3 => BootServicesCode
  | 4 => BootServicesData
  | 5 => RuntimeServicesCode
  | 6 => RuntimeServicesData
  | 7 => Conventional
  | 8 => Unusable
  | 9 => AcpiReclaim
  | 10 => AcpiNvs
  | 11 => Mmio
  | 12 => MmioPortSpace
  | 13 => PalCode
  | 14 => Persistent
  | 15 => Unaccepted
  | other => Unknown other
  end.

Definition raw (k : MemoryKind) : Z :=
  match k with
  | Reserved => 0
  | LoaderCode => 1
  | LoaderData => 2
  | BootServicesCode => 3
  | BootServicesData => 4
  | RuntimeServicesCode => 5
  | RuntimeServicesData => 6
  | Conventional => 7
  | Unusable => 8
  | AcpiReclaim => 9
  | AcpiNvs => 10
  | Mmio => 11
  | MmioPortSpace => 12
  | PalCode => 13
  | Persistent => 14
  | Unaccepted => 15
  | Unknown other => other
  end.

Definition is_ram (k : MemoryKind) : bool :=
  match k with
  | LoaderCode | LoaderData | BootServicesCode | BootServicesData
  | RuntimeServicesCode | RuntimeServicesData | Conventional | AcpiReclaim | AcpiNvs => true
  | _ => false
  end.

Record Region : Type := mkRegion {
  kind : MemoryKind;
  base : Z;
  pages : Z
}.

#[export] Instance region_eq_dec : EqDecision Region.
Proof. solve_decision. Defined.

(** [Region::end] (a keyword here): [base + pages * PAGE_SIZE]. *)
Definition region_end (r : Region) : exec Z :=
  let! n := mul64 (pages r) PAGE_SIZE in add64 (base r) n.

Definition byte_len (r : Region) : exec Z := mul64 (pages r) PAGE_SIZE.

Definition overlaps (r : Region) (start stop : Z) : exec bool :=
  if base r <? stop then let! e := region_end r in Done (start <? e) else Done false.

Inductive MapError : Type :=
| Empty
| StrideTooSmall (stride : Z)
| TooShort (needed got : Z)
| TooLarge (entries stride : Z)
| AddressOverflow (index : Z).

(** [buffer_len]: the [usize::try_from] of a [u64] never fails on x86-64. *)
Definition buffer_len (entries stride : Z) : option Z :=
  if stride <? DESCRIPTOR_MIN_SIZE then None else checked_mul entries stride.

Record MemoryMap : Type := mkMap {
  bytes : list Z;
  entries : Z;
  stride : Z;
  version : Z
}.

Definition read_u32 (bs : list Z) (offset : Z) : Z :=
  match checked_add offset 4 with
  | Some e => match get_range bs offset e with Some src => le_val src | None => 0 end
  | None => 0
  end.

Definition read_u64 (bs : list Z) (offset : Z) : Z :=
  match checked_add offset 8 with
  | Some e => match get_range bs offset e with Some src => le_val src | None => 0 end
  | None => 0
  end.

(** The body shared by [MemoryMap::get] and [Regions::next]. *)
Definition read_region (bs : list Z) (base_offset : Z) : exec Region :=
  let! o_type := add64 base_offset OFF_TYPE in
  let! o_base := add64 base_offset OFF_PHYSICAL_START in
  let! o_pages := add64 base_offset OFF_NUMBER_OF_PAGES in
  Done (mkRegion (from_raw (read_u32 bs o_type)) (read_u64 bs o_base) (read_u64 bs o_pages)).

Definition get_region (m : MemoryMap) (idx : Z) : exec Region :=
  read_region (bytes m) (saturating_mul idx (stride m)).

(** The checking loop of [from_bytes]: [n] descriptors remain, [idx] is next. *)
Fixpoint check_ends (m : MemoryMap) (n : nat) (idx : Z) : exec (Result unit MapError) :=
  match n with
  | O => Done (Ok tt)
  | S n =>
      let! region := get_region m idx in
      let? _ := ok_or
        (match checked_mul (pages region) PAGE_SIZE with
         | Some l => checked_add (base region) l
         | None => None
         end) (AddressOverflow idx) in
      check_ends m n (idx + 1)
  end.

Definition from_bytes (bs : list Z) (n_entries n_stride ver : Z) :
    exec (Result MemoryMap MapError) :=
  if n_entries =? 0 then Done (Err Empty)
  else if n_stride <? DESCRIPTOR_MIN_SIZE then Done (Err (StrideTooSmall n_stride))
  else
    let? needed := ok_or (buffer_len n_entries n_stride) (TooLarge n_entries n_stride) in
    if len bs <? needed then Done (Err (TooShort needed (len bs)))
    else
      let ents := needed / n_stride in
      let! view := slice bs 0 needed in
      let m := mkMap view ents n_stride ver in
      let? _ := check_ends m (Z.to_nat ents) 0 in
      Done (Ok m).

Definition map_len (m : MemoryMap) : Z := entries m.
Definition is_empty (m : MemoryMap) : bool := entries m =? 0.
Definition map_stride (m : MemoryMap) : Z := stride m mod 2 ^ 32.
Definition map_version (m : MemoryMap) : Z := version m.

(** The iterator. *)
Record Regions : Type := mkRegions {
  rg_bytes : list Z;
  rg_entries : Z;
  rg_stride : Z;
  rg_index : Z
}.

Definition iter (m : MemoryMap) : Regions := mkRegions (bytes m) (entries m) (stride m) 0.

Definition next (it : Regions) : exec (option Region * Regions) :=
  if rg_entries it <=? rg_index it then Done (None, it)
  else
    let! base_offset := mul64 (rg_index it) (rg_stride it) in
    let! i := add64 (rg_index it) 1 in
    let! r := read_region (rg_bytes it) base_offset in
    Done (Some r, mkRegions (rg_bytes it) (rg_entries it) (rg_stride it) i).

Definition size_hint (it : Regions) : exec (Z * option Z) :=
  let! remaining := sub64 (rg_entries it) (rg_index it) in Done (remaining, Some remaining).

(** [for region in it]: the regions produced before [next] answers [None], and
    the iterator at that point; [fuel] bounds the calls of [next]. *)
Fixpoint drain (fuel : nat) (it : Regions) : exec (list Region * Regions) :=
  match fuel with
  | O => Done ([], it)
  | S fuel =>
      let! (o, it') := next it in
      match o with
      | None => Done ([], it')
      | Some r => let! (rs, it'') := drain fuel it' in Done (r :: rs, it'')
      end
  end.

Definition regions (m : MemoryMap) : exec (list Region) :=
  let! (rs, _) := drain (Z.to_nat (entries m)) (iter m) in Done rs.

Fixpoint ram_top_loop (rs : list Region) (top : option Z) : exec (option Z) :=
  match rs with
  | [] => Done top
  | region :: rs =>
      if negb (is_ram (kind region)) then ram_top_loop rs top
      else
        let! e := region_end region in
        ram_top_loop rs
          (Some (match top with
                 | Some current => if e <=? current then current else e
                 | None => e
                 end))
  end.

Definition ram_top (m : MemoryMap) : exec (option Z) :=
  let! rs := regions m in ram_top_loop rs None.

(** ** Specification vocabulary *)

(** The end address as a mathematical integer. *)
Definition end_of (r : Region) : Z := base r + pages r * PAGE_SIZE.

(** Descriptor [i] of a buffer, read without machine arithmetic. *)
Definition region_at (bs : list Z) (strd : Z) (i : Z) : Region :=
  mkRegion (from_raw (le_val (sub_list bs (i * strd) 4)))
    (le_val (sub_list bs (i * strd + 8) 8)) (le_val (sub_list bs (i * strd + 24) 8)).

Definition region_list (m : MemoryMap) : list Region :=
  (fun i : nat => region_at (bytes m) (stride m) (Z.of_nat i)) <$> seq 0 (Z.to_nat (entries m)).

(** What [from_bytes] guarantees of a map it returns. *)
Record map_ok (m : MemoryMap) : Prop := mkMapOk {
  mo_bytes : bytes_ok (bytes m);
  mo_stride : DESCRIPTOR_MIN_SIZE <= stride m <= U32_MAX;
  mo_entries : 0 < entries m;
  mo_len : len (bytes m) = entries m * stride m;
  mo_total : entries m * stride m <= U64_MAX;
  mo_ends : Forall (fun r => end_of r <= U64_MAX) (region_list m)
}.

(** The descriptor array as the firmware lays it out: type, four bytes of
    padding, physical start, eight bytes of virtual start, page count and
    whatever fills the stride. *)
Record descriptor : Type := mkDesc {
  d_type : Z;
  d_base : Z;
  d_pages : Z;
  d_pad1 : list Z;
  d_pad2 : list Z;
  d_pad3 : list Z
}.

Definition encode_descriptor (d : descriptor) : list Z :=
  le_bytes 4 (d_type d) ++ d_pad1 d ++ le_bytes 8 (d_base d) ++ d_pad2 d
    ++ le_bytes 8 (d_pages d) ++ d_pad3 d.

Definition encode_map (ds : list descriptor) : list Z := concat (encode_descriptor <$> ds).

Definition descriptor_ok (strd : Z) (d : descriptor) : Prop :=
  is_u32 (d_type d) /\ is_u64 (d_base d) /\ is_u64 (d_pages d) /\
  len (d_pad1 d) = 4 /\ len (d_pad2 d) = 8 /\ len (d_pad3 d) = strd - 32 /\
  bytes_ok (d_pad1 d) /\ bytes_ok (d_pad2 d) /\ bytes_ok (d_pad3 d) /\
  d_base d + d_pages d * PAGE_SIZE <= U64_MAX.

Definition describe (d : descriptor) : Region :=
  mkRegion (from_raw (d_type d)) (d_base d) (d_pages d).

(** The descriptor buffer's specification: the first entry whose end
    overflows, and the outcome of parsing as one conditional. *)
Fixpoint first_overflow (bs : list Z) (strd : Z) (n : nat) (i : Z) : option Z :=
  match n with
  | O => None
  | S n =>
      if U64_MAX <? end_of (region_at bs strd i) then Some i
      else first_overflow bs strd n (i + 1)
  end.

Definition from_bytes_spec (bs : list Z) (n s v : Z) : Result MemoryMap MapError :=
  if n =? 0 then Err Empty
  else if s <? 40 then Err (StrideTooSmall s)
  else if U64_MAX <? n * s then Err (TooLarge n s)
  else if len bs <? n * s then Err (TooShort (n * s) (len bs))
  else match first_overflow bs s (Z.to_nat n) 0 with
       | Some i => Err (AddressOverflow i)
       | None => Ok (mkMap (sub_list bs 0 (n * s)) n s v)
       end.

(** The highest end of the RAM regions of a list, as a property. *)
Definition is_ram_top (rs : list Region) (top : option Z) : Prop :=
  match top with
  | None => forall r, r ∈ rs -> is_ram (kind r) = false
  | Some t =>
      (exists r, r ∈ rs /\ is_ram (kind r) = true /\ end_of r = t) /\
      (forall r, r ∈ rs -> is_ram (kind r) = true -> end_of r <= t)
  end.

(** ** Lemmas *)
Lemma raw_from_raw r : raw (from_raw r) = r.
Proof. destruct r as [|p|p]; [done| |done]. do 4 (try (destruct p as [p|p|]; try done)). Qed.

Lemma is_ram_from_raw r :
  is_ram (from_raw r) = bool_decide (r ∈ [1; 2; 3; 4; 5; 6; 7; 9; 10]).
Proof.
  destruct (bool_decide_reflect (r ∈ [1; 2; 3; 4; 5; 6; 7; 9; 10])) as [H|H].
  - repeat (apply elem_of_cons in H as [->|H]; [done|]). by apply elem_of_nil in H.
  - assert (Hn : ¬ (1 <= r <= 7 \/ 9 <= r <= 10)).
    { intros Hr. apply H. rewrite !elem_of_cons. lia. }
    destruct r as [|p|p]; [done| |done].
    do 4 (try (destruct p as [p|p|]; try done)); exfalso; lia.
Qed.

Lemma read_u32_in bs o :
  0 <= o -> o + 4 <= len bs -> o + 4 <= U64_MAX -> read_u32 bs o = le_val (sub_list bs o 4).
Proof.
  intros. unfold read_u32. rewrite (proj2 (checked_add_some _ _ _) (conj eq_refl H1)).
  rewrite (proj2 (get_range_some bs o (o + 4) (sub_list bs o (o + 4 - o)))) by (repeat split; lia).
  by replace (o + 4 - o) with 4 by lia.
Qed.

Lemma read_u64_in bs o :
  0 <= o -> o + 8 <= len bs -> o + 8 <= U64_MAX -> read_u64 bs o = le_val (sub_list bs o 8).
Proof.
  intros. unfold read_u64. rewrite (proj2 (checked_add_some _ _ _) (conj eq_refl H1)).
  rewrite (proj2 (get_range_some bs o (o + 8) (sub_list bs o (o + 8 - o)))) by (repeat split; lia).
  by replace (o + 8 - o) with 8 by lia.
Qed.

Lemma read_u32_out bs o : 0 <= o -> len bs < o + 4 -> read_u32 bs o = 0.
Proof.
  intros. unfold read_u32.
  destruct (checked_add o 4) eqn:E; [apply checked_add_some in E as [-> _]|done].
  by rewrite (proj2 (get_range_none bs o (o + 4) ltac:(lia))).
Qed.

Lemma read_u64_out bs o : 0 <= o -> len bs < o + 8 -> read_u64 bs o = 0.
Proof.
  intros. unfold read_u64.
  destruct (checked_add o 8) eqn:E; [apply checked_add_some in E as [-> _]|done].
  by rewrite (proj2 (get_range_none bs o (o + 8) ltac:(lia))).
Qed.

Lemma read_region_in bs o :
  0 <= o -> o + 32 <= len bs -> o + 32 <= U64_MAX ->
  read_region bs o =
    Done (mkRegion (from_raw (le_val (sub_list bs o 4))) (le_val (sub_list bs (o + 8) 8))
            (le_val (sub_list bs (o + 24) 8))).
Proof.
  intros. unfold read_region. rewrite !add64_done by ulia. simpl.
  unfold OFF_TYPE, OFF_PHYSICAL_START, OFF_NUMBER_OF_PAGES. rewrite Z.add_0_r.
  by rewrite read_u32_in, !read_u64_in by lia.
Qed.

Lemma region_at_u64 bs strd i :
  bytes_ok bs -> is_u64 (base (region_at bs strd i)) /\ is_u64 (pages (region_at bs strd i)).
Proof.
  intros Hb. split; simpl.
  all: match goal with |- is_u64 (le_val ?s) =>
    pose proof (le_val_bound s ltac:(by apply bytes_ok_sub_list)) as Hl;
    assert (Hn : len s <= 8) by (unfold len, sub_list; rewrite length_take; lia);
    pose proof (Z.pow_le_mono_r 2 (8 * len s) 64); ulia end.
Qed.

(** Geometry of the buffer: descriptor [i] lies inside it. *)
Lemma entry_in_range i n s :
  0 <= i < n -> DESCRIPTOR_MIN_SIZE <= s -> 0 <= i * s /\ i * s + s <= n * s /\ i + 1 <= n * s.
Proof. unfold DESCRIPTOR_MIN_SIZE. nia. Qed.

Section Geometry.

Context (m : MemoryMap).
Context (Hstride : DESCRIPTOR_MIN_SIZE <= stride m).
Context (Hlen : len (bytes m) = entries m * stride m).
Context (Htotal : entries m * stride m <= U64_MAX).

Lemma get_region_at i :
  0 <= i < entries m -> get_region m i = Done (region_at (bytes m) (stride m) i).
Proof.
  intros Hi. pose proof (entry_in_range i (entries m) (stride m) Hi Hstride).
  unfold DESCRIPTOR_MIN_SIZE in *.
  unfold get_region, saturating_mul. rewrite Z.min_l by lia. by rewrite read_region_in by lia.
Qed.

Lemma next_at it i :
  0 <= i < entries m -> it = mkRegions (bytes m) (entries m) (stride m) i ->
  next it = Done (Some (region_at (bytes m) (stride m) i),
                  mkRegions (bytes m) (entries m) (stride m) (i + 1)).
Proof.
  intros Hi ->. pose proof (entry_in_range i (entries m) (stride m) Hi Hstride).
  unfold next. simpl. rewrite (proj2 (Z.leb_gt _ _)) by lia.
  unfold DESCRIPTOR_MIN_SIZE in *.
  rewrite mul64_done, add64_done by lia. simpl. by rewrite read_region_in by lia.
Qed.

Lemma drain_at n i :
  0 <= i -> i + Z.of_nat n = entries m ->
  drain n (mkRegions (bytes m) (entries m) (stride m) i) =
    Done ((fun j : nat => region_at (bytes m) (stride m) (i + Z.of_nat j)) <$> seq 0 n,
          mkRegions (bytes m) (entries m) (stride m) (entries m)).
Proof.
  revert i. induction n as [|n IH]; intros i Hi Hn.
  { simpl. do 3 f_equal. lia. }
  cbn [drain]. rewrite (next_at _ i) by (done || lia). simpl.
  rewrite IH by lia. simpl. do 2 f_equal. f_equal.
  - f_equal. lia.
  - symmetry. apply (fmap_seq_succ (region_at (bytes m) (stride m))).
Qed.

Lemma check_ends_at n i :
  bytes_ok (bytes m) -> 0 <= i -> i + Z.of_nat n <= entries m ->
  check_ends m n i =
    Done (match first_overflow (bytes m) (stride m) n i with
          | Some j => Err (AddressOverflow j)
          | None => Ok tt
          end).
Proof.
  intros Hb. revert i. induction n as [|n IH]; intros i Hi Hn; [done|].
  cbn [check_ends first_overflow]. rewrite get_region_at by lia.
  pose proof (region_at_u64 (bytes m) (stride m) i Hb) as [Hbase Hpages].
  cbn [exec_bind]. generalize dependent (region_at (bytes m) (stride m) i).
  intros r Hbase Hpages. unfold end_of.
  destruct (checked_mul (pages r) PAGE_SIZE) as [l|] eqn:E.
  - apply checked_mul_some in E as [-> Hl].
    destruct (checked_add (base r) (pages r * PAGE_SIZE)) eqn:E2.
    + apply checked_add_some in E2 as [-> H2]. rewrite (proj2 (Z.ltb_ge _ _)) by lia.
      unfold ok_or, try_bind. simpl. apply IH; lia.
    + apply checked_add_none in E2. by rewrite (proj2 (Z.ltb_lt _ _)) by lia.
  - apply checked_mul_none in E. rewrite (proj2 (Z.ltb_lt _ _)) by ulia. done.
Qed.

End Geometry.

Lemma first_overflow_none bs s n i :
  first_overflow bs s n i = None <->
  Forall (fun r => end_of r <= U64_MAX)
    ((fun j : nat => region_at bs s (i + Z.of_nat j)) <$> seq 0 n).
Proof.
  revert i. induction n as [|n IH]; intros i; [simpl; split; [constructor|done]|].
  cbn [first_overflow seq]. rewrite fmap_cons, Forall_cons_iff, Z.add_0_r.
  rewrite (fmap_seq_succ (region_at bs s)), <- IH. destruct (Z.ltb_spec U64_MAX (end_of (region_at bs s i))); naive_solver lia.
Qed.

Lemma region_at_prefix bs n s i :
  0 <= i < n -> DESCRIPTOR_MIN_SIZE <= s ->
  region_at (sub_list bs 0 (n * s)) s i = region_at bs s i.
Proof.
  intros Hi Hs. pose proof (entry_in_range i n s Hi Hs). unfold DESCRIPTOR_MIN_SIZE in *.
  unfold region_at. by rewrite !sub_list_sub_list, !Z.add_0_l by lia.
Qed.

Lemma first_overflow_prefix bs n s k i :
  DESCRIPTOR_MIN_SIZE <= s -> 0 <= i -> i + Z.of_nat k <= n ->
  first_overflow (sub_list bs 0 (n * s)) s k i = first_overflow bs s k i.
Proof.
  intros Hs. revert i. induction k as [|k IH]; intros i Hi Hk; [done|].
  cbn [first_overflow]. rewrite region_at_prefix by lia. rewrite IH by lia. done.
Qed.

(** ** Theorems *)

(** Parsing never panics and its outcome, on every branch, is the one of the
    reference specification. *)
Lemma from_bytes_eq bs n s v :
  bytes_ok bs -> is_u64 n -> is_u32 s ->
  from_bytes bs n s v = Done (from_bytes_spec bs n s v).
Proof.
  intros Hb Hn Hs. unfold from_bytes, from_bytes_spec, buffer_len.
  destruct (Z.eqb_spec n 0); [done|]. unfold DESCRIPTOR_MIN_SIZE.
  destruct (Z.ltb_spec s 40); [done|].
  destruct (Z.ltb_spec U64_MAX (n * s)) as [Hov|Hov].
  { by rewrite (proj2 (checked_mul_none n s)) by lia. }
  rewrite (proj2 (checked_mul_some n s (n * s))) by lia. unfold ok_or, try_bind at 1. simpl.
  destruct (Z.ltb_spec (len bs) (n * s)); [done|].
  rewrite Z.div_mul by lia. unfold slice, get_range.
  rewrite !(proj2 (andb_true_iff _ _)) by ulia. cbn [exec_bind]. rewrite Z.sub_0_r.
  rewrite check_ends_at; simpl; unfold DESCRIPTOR_MIN_SIZE.
  - rewrite first_overflow_prefix by (unfold DESCRIPTOR_MIN_SIZE; ulia).
    by destruct (first_overflow bs s (Z.to_nat n) 0).
  - lia.
  - apply len_sub_list; ulia.
  - lia.
  - by apply bytes_ok_sub_list.
  - lia.
  - ulia.
Qed.

Lemma from_bytes_map_ok bs n s v m :
  bytes_ok bs -> is_u64 n -> is_u32 s -> from_bytes bs n s v = Done (Ok m) -> map_ok m.
Proof.
  intros Hb Hn Hs Hf. rewrite from_bytes_eq in Hf by done. injection Hf as Hf.
  unfold from_bytes_spec in Hf. repeat case_hyp Hf; try discriminate. injection Hf as <-.
  assert (len (sub_list bs 0 (n * s)) = n * s) by (apply len_sub_list; ulia).
  constructor; simpl; try ulia.
  - by apply bytes_ok_sub_list.
  - unfold region_list. simpl. apply (first_overflow_none (sub_list bs 0 (n * s)) s (Z.to_nat n) 0).
    by rewrite first_overflow_prefix by ulia.
Qed.

Lemma regions_ok m : map_ok m -> regions m = Done (region_list m).
Proof.
  intros [? [? ?] ? ? ? ?]. unfold regions, iter. rewrite (drain_at m) by ulia. done.
Qed.

Lemma region_end_done r :
  is_u64 (base r) -> is_u64 (pages r) -> end_of r <= U64_MAX -> region_end r = Done (end_of r).
Proof.
  intros. unfold region_end, end_of in *. rewrite mul64_done by ulia. cbn [exec_bind].
  by rewrite add64_done.
Qed.

Lemma ram_top_loop_spec rs top :
  Forall (fun r => end_of r <= U64_MAX /\ is_u64 (base r) /\ is_u64 (pages r)) rs ->
  (forall pre, is_ram_top pre top ->
    exists t, ram_top_loop rs top = Done t /\ is_ram_top (pre ++ rs) t).
Proof.
  intros Hrs. revert top. induction Hrs as [|r rs Hr _ IH]; intros top pre Htop.
  { exists top. by rewrite app_nil_r. }
  cbn [ram_top_loop]. rewrite (cons_middle r pre rs), (assoc_L (++)).
  destruct (is_ram (kind r)) eqn:Er; simpl.
  - rewrite region_end_done by naive_solver. simpl. apply IH.
    destruct top as [t|]; simpl in *.
    + destruct Htop as [(r0 & Hin & Hram & <-) Hmax].
      destruct (Z.leb_spec (end_of r) (end_of r0)).
      * split; [exists r0; by rewrite elem_of_app; eauto|].
        intros r' [Hr'| ->%list_elem_of_singleton]%elem_of_app; auto.
      * split; [exists r; rewrite elem_of_app, list_elem_of_singleton; eauto|].
        intros r' [Hr'| ->%list_elem_of_singleton]%elem_of_app Hram'; [|lia].
        specialize (Hmax r' Hr' Hram'). lia.
    + split; [exists r; rewrite elem_of_app, list_elem_of_singleton; eauto|].
      intros r' [Hr'| ->%list_elem_of_singleton]%elem_of_app Hram'; [|lia].
      rewrite (Htop r' Hr') in Hram'. discriminate.
  - apply IH. destruct top as [t|]; simpl in *.
    + destruct Htop as [(r0 & Hin & Hram & <-) Hmax].
      split; [exists r0; by rewrite elem_of_app; eauto|].
      intros r' [Hr'| ->%list_elem_of_singleton]%elem_of_app Hram'; [auto|congruence].
    + intros r' [Hr'| ->%list_elem_of_singleton]%elem_of_app; auto.
Qed.

Lemma map_ok_regions_bounded m :
  map_ok m ->
  Forall (fun r => end_of r <= U64_MAX /\ is_u64 (base r) /\ is_u64 (pages r)) (region_list m).
Proof.
  intros Hm. apply Forall_and. split; [apply Hm|]. unfold region_list.
  apply Forall_fmap, Forall_true. intros i. simpl. apply region_at_u64, Hm.
Qed.

Lemma bytes_ok_encode strd d : descriptor_ok strd d -> bytes_ok (encode_descriptor d).
Proof.
  intros (? & ? & ? & ? & ? & ? & ? & ? & ? & ?). unfold encode_descriptor.
  unfold bytes_ok. repeat (apply Forall_app; split); try done; apply le_bytes_ok.
Qed.

Lemma len_encode strd d :
  DESCRIPTOR_MIN_SIZE <= strd -> descriptor_ok strd d -> len (encode_descriptor d) = strd.
Proof.
  intros ? (? & ? & ? & ? & ? & ? & ? & ? & ? & ?). unfold encode_descriptor.
  rewrite !len_app, !len_le_bytes. ulia.
Qed.

(** Reading a field that starts after the prefix [a] of [a ++ b ++ c]. *)
Lemma sub_list_middle {A : Type} (a b c : list A) i n :
  i = len a -> n = len b -> sub_list (a ++ b ++ c) i n = b.
Proof.
  intros -> ->. unfold sub_list, len. rewrite !Nat2Z.id.
  rewrite drop_app_length. apply take_app_length.
Qed.

Lemma region_at_encode pre d post strd i :
  DESCRIPTOR_MIN_SIZE <= strd -> descriptor_ok strd d -> i * strd = len pre ->
  region_at (pre ++ encode_descriptor d ++ post) strd i = describe d.
Proof.
  intros Hs (Ht & Hb & Hp & H1 & H2 & H3 & _) Hi. unfold region_at, describe.
  unfold encode_descriptor. rewrite <- !(assoc_L (++)).
  rewrite sub_list_middle by (rewrite ?len_le_bytes; lia). rewrite le_val_u32 by done.
  replace (pre ++ le_bytes 4 (d_type d) ++ d_pad1 d ++ le_bytes 8 (d_base d) ++ d_pad2 d ++
      le_bytes 8 (d_pages d) ++ d_pad3 d ++ post)
    with ((pre ++ le_bytes 4 (d_type d) ++ d_pad1 d) ++ le_bytes 8 (d_base d) ++ (d_pad2 d ++
      le_bytes 8 (d_pages d) ++ d_pad3 d ++ post)) at 1 by by rewrite <- !(assoc_L (++)).
  rewrite sub_list_middle by (rewrite ?len_app, ?len_le_bytes; lia). rewrite le_val_u64 by done.
  replace (pre ++ le_bytes 4 (d_type d) ++ d_pad1 d ++ le_bytes 8 (d_base d) ++ d_pad2 d ++
      le_bytes 8 (d_pages d) ++ d_pad3 d ++ post)
    with ((pre ++ le_bytes 4 (d_type d) ++ d_pad1 d ++ le_bytes 8 (d_base d) ++ d_pad2 d) ++
      le_bytes 8 (d_pages d) ++ (d_pad3 d ++ post)) by by rewrite <- !(assoc_L (++)).
  rewrite sub_list_middle by (rewrite ?len_app, ?len_le_bytes; lia). by rewrite le_val_u64.
Qed.

Lemma len_encode_map strd ds :
  DESCRIPTOR_MIN_SIZE <= strd -> Forall (descriptor_ok strd) ds ->
  len (encode_map ds) = len ds * strd.
Proof.
  intros Hs. induction 1 as [|d ds Hd _ IH]; [done|].
  unfold encode_map in *. rewrite fmap_cons. cbn [concat]. rewrite len_app, len_cons, IH, (len_encode strd) by done. lia.
Qed.

Lemma region_list_encode strd ds pre post :
  DESCRIPTOR_MIN_SIZE <= strd -> Forall (descriptor_ok strd) ds -> len pre mod strd = 0 ->
  (fun j : nat => region_at (pre ++ encode_map ds ++ post) strd (len pre / strd + Z.of_nat j))
    <$> seq 0 (length ds) = describe <$> ds.
Proof.
  intros Hs Hds. revert pre. induction Hds as [|d ds Hd _ IH]; intros pre Hpre; [done|].
  unfold encode_map in *. cbn [length seq]. rewrite !fmap_cons. cbn [concat].
  assert (0 < strd) by (unfold DESCRIPTOR_MIN_SIZE in *; lia).
  f_equal.
  - rewrite <- (assoc_L (++)), Z.add_0_r. apply region_at_encode; [done|done|].
    pose proof (Z.div_mod (len pre) strd). lia.
  - rewrite (fmap_seq_succ (region_at _ strd)), <- (assoc_L (++)), (assoc_L (++)).
    assert (Hl : len (pre ++ encode_descriptor d) = len pre + 1 * strd)
      by (rewrite len_app, (len_encode strd) by done; lia).
    rewrite <- (IH (pre ++ encode_descriptor d)) by (rewrite Hl, Z.mod_add by lia; done).
    apply list_fmap_ext. intros ? j _. rewrite Hl, Z.div_add by lia. done.
Qed.

(** ** Claims *)

(** C21 (map.rs, [MemoryMap::from_bytes]): for every byte buffer, entry count
    and stride, parsing finishes without a panic and its outcome is the one of
    [from_bytes_spec]: the errors [Empty], [StrideTooSmall], [TooLarge],
    [TooShort] and [AddressOverflow] in this order of precedence (the last with
    the least offending index), and otherwise the map over exactly the first
    [entries * stride] bytes. *)
Theorem from_bytes_total bs n s v :
  bytes_ok bs -> is_u64 n -> is_u32 s ->
  from_bytes bs n s v = Done (from_bytes_spec bs n s v).
Proof. apply from_bytes_eq. Qed.

Lemma from_bytes_total_witness :
  from_bytes (replicate 48 0 ++ replicate 48 255) 2 48 1 =
  Done (Err (AddressOverflow 1)).
Proof.
  rewrite from_bytes_total.
  - vm_compute. reflexivity.
  - apply Forall_app; split; apply Forall_replicate; ulia.
  - ulia.
  - ulia.
Defined.

(** (map.rs): a firmware descriptor array, laid out with any stride of at
    least 40 bytes and any padding, is read back exactly: parsing succeeds and
    iterating the map yields the described regions in order.  In particular
    the stride of the array, and not the size of the standard descriptor,
    drives the traversal. *)
Lemma encode_parse_roundtrip ds strd v rest :
  ds <> [] -> DESCRIPTOR_MIN_SIZE <= strd <= U32_MAX -> Forall (descriptor_ok strd) ds ->
  len ds * strd <= U64_MAX -> bytes_ok rest ->
  exists m, from_bytes (encode_map ds ++ rest) (len ds) strd v = Done (Ok m) /\
            regions m = Done (describe <$> ds).
Proof.
  intros Hne Hs Hds Htot Hrest.
  pose proof (len_encode_map strd ds (proj1 Hs) Hds) as Hl.
  assert (Hpos : 0 < len ds) by (destruct ds; [done|unfold len; simpl; lia]).
  assert (Hb : bytes_ok (encode_map ds ++ rest)).
  { apply Forall_app; split; [|done]. clear -Hds. induction Hds; [constructor|].
    apply Forall_app. split; [by eapply bytes_ok_encode|done]. }
  assert (Hrl : (fun j : nat => region_at (encode_map ds ++ rest) strd (0 + Z.of_nat j))
      <$> seq 0 (length ds) = describe <$> ds)
    by (apply (region_list_encode strd ds [] rest); [tauto|done|by apply Z.mod_0_l; ulia]).
  assert (Hspec : from_bytes_spec (encode_map ds ++ rest) (len ds) strd v =
      Ok (mkMap (sub_list (encode_map ds ++ rest) 0 (len ds * strd)) (len ds) strd v)).
  { unfold from_bytes_spec. rewrite len_app, Hl. pose proof (len_nonneg rest).
    rewrite (proj2 (Z.eqb_neq _ _)), !(proj2 (Z.ltb_ge _ _)) by ulia.
    rewrite (proj2 (first_overflow_none _ _ _ 0)); [done|].
    unfold len at 1. rewrite Nat2Z.id, Hrl. apply Forall_fmap.
    eapply Forall_impl; [exact Hds|]. intros d Hd. simpl. apply Hd. }
  eexists. rewrite from_bytes_eq, Hspec; [split; [done|] | done | ulia | ulia].
  rewrite regions_ok.
  - unfold region_list. simpl. unfold len at 2. rewrite Nat2Z.id, <- Hrl. f_equal.
    apply list_fmap_ext. intros i x [-> Hi]%lookup_seq. unfold len in *.
    rewrite region_at_prefix by lia. done.
  - eapply (from_bytes_map_ok (encode_map ds ++ rest) (len ds) strd v); [done|ulia|ulia|].
    rewrite from_bytes_eq, Hspec by (done || ulia). done.
Qed.

Definition example_descriptor : descriptor :=
  mkDesc 7 0x100000 0x700 (replicate 4 0xAA) (replicate 8 0xAA) (replicate 16 0xAA).

Lemma encode_parse_roundtrip_witness :
  exists m, from_bytes (encode_map [example_descriptor; example_descriptor] ++ []) 2 48 1
              = Done (Ok m) /\
            regions m = Done [mkRegion Conventional 0x100000 0x700;
                              mkRegion Conventional 0x100000 0x700].
Proof.
  apply (encode_parse_roundtrip [example_descriptor; example_descriptor] 48 1 []).
  - discriminate.
  - ulia.
  - repeat constructor; vm_compute; try discriminate; repeat constructor; discriminate.
  - vm_compute. discriminate.
  - constructor.
Defined.

(** (map.rs, [ram_top]): on a parsed map [ram_top] finishes without a panic;
    it is [None] exactly when no descriptor is RAM, and otherwise the greatest
    end address of a RAM descriptor, so non-RAM above it never counts. *)
Lemma ram_top_maximum bs n s v m :
  bytes_ok bs -> is_u64 n -> is_u32 s -> from_bytes bs n s v = Done (Ok m) ->
  exists t, ram_top m = Done t /\ is_ram_top (region_list m) t.
Proof.
  intros Hb Hn Hs Hm. apply from_bytes_map_ok in Hm; [|done..].
  unfold ram_top. rewrite regions_ok by done. cbn [exec_bind].
  apply (ram_top_loop_spec (region_list m) None (map_ok_regions_bounded m Hm) []).
  intros r Hr. by apply elem_of_nil in Hr.
Qed.

Definition example_map_bytes : list Z :=
  encode_map [mkDesc 7 0x1000 0x9F [0;0;0;0] (replicate 8 0) (replicate 8 0);
              mkDesc 11 0xFEE00000 0x10 [0;0;0;0] (replicate 8 0) (replicate 8 0)].

Lemma ram_top_maximum_witness :
  exists m, from_bytes example_map_bytes 2 40 1 = Done (Ok m) /\
  exists t, ram_top m = Done t /\ is_ram_top (region_list m) t.
Proof.
  eexists. split; [vm_compute; reflexivity|].
  apply (ram_top_maximum example_map_bytes 2 40 1).
  - repeat constructor; vm_compute; discriminate.
  - ulia.
  - ulia.
  - vm_compute. reflexivity.
Defined.

(** (map.rs, [MemoryMap::get]): the documentation says that an index past
    the last descriptor yields an empty region.  It does as long as the byte
    offset [index * stride + 24] fits in [usize]; for larger indices the
    saturated product overflows in the addition of the field offset, and the
    call panics (wraps in a build without overflow checks). *)
Lemma get_out_of_range m idx :
  map_ok m -> entries m <= idx -> is_u64 idx ->
  get_region m idx =
    if idx * stride m + 24 <=? U64_MAX then Done (mkRegion Reserved 0 0) else Panic.
Proof.
  intros [Hb [Hs1 Hs2] Hpos Hl Ht He] Hidx Hu. unfold get_region, read_region, saturating_mul.
  assert (entries m * stride m <= idx * stride m) by (unfold DESCRIPTOR_MIN_SIZE in *; nia).
  destruct (Z.leb_spec (idx * stride m + 24) U64_MAX).
  - rewrite Z.min_l by lia. rewrite !add64_done by ulia. cbn [exec_bind].
    unfold OFF_TYPE, OFF_PHYSICAL_START, OFF_NUMBER_OF_PAGES.
    unfold DESCRIPTOR_MIN_SIZE in *. rewrite read_u32_out, !read_u64_out by nia. done.
  - unfold add64, OFF_NUMBER_OF_PAGES.
    rewrite (proj2 (Z.leb_gt (Z.min (idx * stride m) U64_MAX + 24) U64_MAX)) by lia.
    by repeat (case_match; cbn [exec_bind]).
Qed.

Lemma get_out_of_range_witness :
  exists m, map_ok m /\ get_region m 5 = Done (mkRegion Reserved 0 0) /\
            get_region m U64_MAX = Panic.
Proof.
  destruct (from_bytes example_map_bytes 2 40 1) as [[m|]|] eqn:E; try discriminate E.
  assert (Hm : map_ok m).
  { eapply (from_bytes_map_ok example_map_bytes 2 40 1); [|ulia|ulia|exact E].
    repeat constructor; vm_compute; discriminate. }
  vm_compute in E. injection E as <-. eexists. split; [exact Hm|].
  rewrite !get_out_of_range; [vm_compute; done|exact Hm|vm_compute; discriminate|ulia
    |exact Hm|vm_compute; discriminate|ulia].
Defined.
