(* ===== verification/Sched.v ===== *)
(** * The scheduler state machine (crates/kernel-sched/src/lib.rs)

    The thread table, the ready queue as the ring buffer the code keeps, and
    every operation of [Scheduler].  The theorems: the documented invariant
    (the queue holds exactly the ready non-idle threads, one thread runs, the
    idle thread is never queued) holds in every reachable state and no
    operation panics there; the ring buffer refines a FIFO list; rotation is
    strictly round robin and starves nobody. *)
From Stdlib Require Import ZArith Lia Bool.
From stdpp Require Import base tactics option list numbers sets relations.
From S2P Require Import Prelude.

#[local] Open Scope Z_scope.

(** ** Data *)
Definition MAX_THREADS : Z := 16.
Definition NO_THREAD : Z := USIZE_MAX.

#[export] Hint Unfold MAX_THREADS NO_THREAD : consts.

Inductive ThreadState : Type := Unused | Ready | Running | Exited.
Inductive ThreadKind : Type := Normal | Idle | Boot.

#[export] Instance thread_state_eq_dec : EqDecision ThreadState.
Proof. solve_decision. Defined.
#[export] Instance thread_kind_eq_dec : EqDecision ThreadKind.
Proof. solve_decision. Defined.

Inductive SchedError : Type :=
| NoFreeSlot
| InvalidId (id : Z)
| NoCurrentThread
| IdleAlreadyRegistered
| NothingToRun.

Inductive Decision : Type :=
| Keep
| Switch (from to : Z).

Record SchedStats : Type := mkStats {
  st_ticks : Z;
  st_switches : Z;
  st_ready : Z;
  st_live : Z
}.

Record Scheduler : Type := mkSched {
  states : list ThreadState;
  kinds : list ThreadKind;
  queue : list Z;
  head : Z;
  qlen : Z;
  current : Z;
  idle : Z;
  ticks : Z;
  switches : Z
}.

Definition set_states (s : Scheduler) (x : list ThreadState) : Scheduler :=
  mkSched x (kinds s) (queue s) (head s) (qlen s) (current s) (idle s) (ticks s) (switches s).
Definition set_kinds (s : Scheduler) (x : list ThreadKind) : Scheduler :=
  mkSched (states s) x (queue s) (head s) (qlen s) (current s) (idle s) (ticks s) (switches s).
Definition set_queue (s : Scheduler) (q : list Z) (h l : Z) : Scheduler :=
  mkSched (states s) (kinds s) q h l (current s) (idle s) (ticks s) (switches s).
Definition set_current (s : Scheduler) (x : Z) : Scheduler :=
  mkSched (states s) (kinds s) (queue s) (head s) (qlen s) x (idle s) (ticks s) (switches s).
Definition set_idle (s : Scheduler) (x : Z) : Scheduler :=
  mkSched (states s) (kinds s) (queue s) (head s) (qlen s) (current s) x (ticks s) (switches s).
Definition set_ticks (s : Scheduler) (x : Z) : Scheduler :=
  mkSched (states s) (kinds s) (queue s) (head s) (qlen s) (current s) (idle s) x (switches s).
Definition set_switches (s : Scheduler) (x : Z) : Scheduler :=
  mkSched (states s) (kinds s) (queue s) (head s) (qlen s) (current s) (idle s) (ticks s) x.

(** [self.states[id] = st] and [self.kinds[id] = k]. *)
Definition write_state (s : Scheduler) (id : Z) (st : ThreadState) : exec Scheduler :=
  let! x := set_index (states s) id st in Done (set_states s x).
Definition write_kind (s : Scheduler) (id : Z) (k : ThreadKind) : exec Scheduler :=
  let! x := set_index (kinds s) id k in Done (set_kinds s x).

(** ** Operations *)
Definition new : Scheduler :=
  mkSched (replicate (Z.to_nat MAX_THREADS) Unused) (replicate (Z.to_nat MAX_THREADS) Normal)
    (replicate (Z.to_nat MAX_THREADS) NO_THREAD) 0 0 NO_THREAD NO_THREAD 0 0.

Definition register_boot (s : Scheduler) (id : Z) : exec (Scheduler * Result unit SchedError) :=
  if MAX_THREADS <=? id then Done (s, Err (InvalidId id))
  else
    let! s := write_state s id Running in
    let! s := write_kind s id Boot in
    Done (set_current s id, Ok tt).

Definition register_idle (s : Scheduler) (id : Z) : exec (Scheduler * Result unit SchedError) :=
  if MAX_THREADS <=? id then Done (s, Err (InvalidId id))
  else if negb (idle s =? NO_THREAD) then Done (s, Err IdleAlreadyRegistered)
  else
    let! st := index (states s) id in
    if bool_decide (st <> Unused) then Done (s, Err (InvalidId id))
    else
      let! s := write_state s id Ready in
      let! s := write_kind s id Idle in
      Done (set_idle s id, Ok tt).

Definition is_state (st x : ThreadState) : bool := bool_decide (x = st).

Definition register_idle_any (s : Scheduler) : exec (Scheduler * Result Z SchedError) :=
  match position (is_state Unused) (states s) with
  | None => Done (s, Err NoFreeSlot)
  | Some id =>
      let! (s, r) := register_idle s id in
      match r with
      | Ok _ => Done (s, Ok id)
      | Err e => Done (s, Err e)
      end
  end.

Definition enqueue (s : Scheduler) (id : Z) : exec Scheduler :=
  if qlen s <? MAX_THREADS then
    let! tail := add64 (head s) (qlen s) in
    let! q := set_index (queue s) (tail mod MAX_THREADS) id in
    let! l := add64 (qlen s) 1 in
    Done (set_queue s q (head s) l)
  else Panic.

Definition dequeue (s : Scheduler) : exec (Scheduler * Z) :=
  if 0 <? qlen s then
    let! id := index (queue s) (head s) in
    let! q := set_index (queue s) (head s) NO_THREAD in
    let! h := add64 (head s) 1 in
    let! l := sub64 (qlen s) 1 in
    Done (set_queue s q (h mod MAX_THREADS) l, id)
  else Panic.

Definition create (s : Scheduler) : exec (Scheduler * Result Z SchedError) :=
  match position (is_state Unused) (states s) with
  | None => Done (s, Err NoFreeSlot)
  | Some id =>
      let! s := write_state s id Ready in
      let! s := write_kind s id Normal in
      let! s := enqueue s id in
      Done (s, Ok id)
  end.

Definition state (s : Scheduler) (id : Z) : Result ThreadState SchedError :=
  match get (states s) id with Some st => Ok st | None => Err (InvalidId id) end.

Definition thread_kind (s : Scheduler) (id : Z) : Result ThreadKind SchedError :=
  match get (kinds s) id with Some k => Ok k | None => Err (InvalidId id) end.

Definition stats (s : Scheduler) : SchedStats :=
  mkStats (ticks s) (switches s) (qlen s)
    (len (filter (fun st => st <> Unused) (states s))).

(** The ready queue in order: [(0..len).map(|o| queue[(head + o) % MAX])]. *)
Definition ready_queue (s : Scheduler) : list Z :=
  (fun o : nat => default NO_THREAD (get (queue s) ((head s + Z.of_nat o) mod MAX_THREADS)))
    <$> seq 0 (Z.to_nat (qlen s)).

Definition rotate (s : Scheduler) : exec (Scheduler * Decision) :=
  let from := current s in
  if from =? NO_THREAD then Done (s, Keep)
  else
    let! k := index (kinds s) from in
    let is_idle := bool_decide (k = Idle) in
    if qlen s =? 0 then Done (s, Keep)
    else
      let! s := write_state s from Ready in
      let! s := (if negb is_idle then enqueue s from else Done s) in
      let! (s, to) := dequeue s in
      let! s := write_state s to Running in
      let! n := add64 (switches s) 1 in
      Done (set_switches (set_current s to) n, Switch from to).

Definition on_tick (s : Scheduler) (reschedule : bool) : exec (Scheduler * Decision) :=
  let! t := add64 (ticks s) 1 in
  let s := set_ticks s t in
  if negb reschedule then Done (s, Keep) else rotate s.

Definition yield_current (s : Scheduler) : exec (Scheduler * Decision) := rotate s.

Definition pick_after_stop (s : Scheduler) : exec (Scheduler * Result Z SchedError) :=
  if 0 <? qlen s then
    let! (s, to) := dequeue s in
    let! s := write_state s to Running in
    Done (s, Ok to)
  else if negb (idle s =? NO_THREAD) then
    let! s := write_state s (idle s) Running in
    Done (s, Ok (idle s))
  else Done (s, Err NothingToRun).

Definition exit_current (s : Scheduler) : exec (Scheduler * Result Decision SchedError) :=
  let from := current s in
  if from =? NO_THREAD then Done (s, Err NoCurrentThread)
  else
    let! s := write_state s from Exited in
    let! (s, r) := pick_after_stop s in
    match r with
    | Err e => Done (s, Err e)
    | Ok to =>
        let! n := add64 (switches s) 1 in
        Done (set_switches (set_current s to) n, Ok (Switch from to))
    end.

Definition take_reapable (s : Scheduler) : exec (Scheduler * option Z) :=
  match position (is_state Exited) (states s) with
  | None => Done (s, None)
  | Some id =>
      let! s := write_state s id Unused in
      let! s := write_kind s id Normal in
      Done (s, Some id)
  end.

(** ** Specification *)

(** The ring buffer read as a list, from head to tail. *)
Definition ring_list (q : list Z) (h l : Z) : list Z :=
  (fun o : nat => default NO_THREAD (get q ((h + Z.of_nat o) mod MAX_THREADS)))
    <$> seq 0 (Z.to_nat l).

Definition idle_running (s : Scheduler) : bool :=
  bool_decide (get (kinds s) (current s) = Some Idle).

Record sched_inv (s : Scheduler) : Prop := mkInv {
  si_states : len (states s) = MAX_THREADS;
  si_kinds : len (kinds s) = MAX_THREADS;
  si_queue : len (queue s) = MAX_THREADS;
  si_head : 0 <= head s < MAX_THREADS;
  si_qlen : 0 <= qlen s <= MAX_THREADS;
  si_nodup : NoDup (ready_queue s);
  si_ready : forall id, id ∈ ready_queue s <->
    get (states s) id = Some Ready /\ get (kinds s) id <> Some Idle;
  si_running : forall id, get (states s) id = Some Running <->
    id = current s /\ current s <> NO_THREAD;
  si_idle : forall id, get (kinds s) id = Some Idle <-> id = idle s /\ idle s <> NO_THREAD;
  si_idle_state : idle s <> NO_THREAD ->
    get (states s) (idle s) = Some Ready \/ get (states s) (idle s) = Some Running
}.

(** The calls of the scheduler, with the protocol the kernel follows:
    the boot context is registered once and before anything runs
    (sched.rs, [init_boot]), and the idle thread never exits
    (thread.rs, [idle_main] loops forever). *)
Inductive sched_call : Type :=
| CRegisterBoot (id : Z)
| CRegisterIdle (id : Z)
| CRegisterIdleAny
| CCreate
| CTick (reschedule : bool)
| CYield
| CExit
| CTakeReapable.

Definition call_run (c : sched_call) (s : Scheduler) : exec Scheduler :=
  match c with
  | CRegisterBoot id => let! (s, _) := register_boot s id in Done s
  | CRegisterIdle id => let! (s, _) := register_idle s id in Done s
  | CRegisterIdleAny => let! (s, _) := register_idle_any s in Done s
  | CCreate => let! (s, _) := create s in Done s
  | CTick b => let! (s, _) := on_tick s b in Done s
  | CYield => let! (s, _) := yield_current s in Done s
  | CExit => let! (s, _) := exit_current s in Done s
  | CTakeReapable => let! (s, _) := take_reapable s in Done s
  end.

Definition call_allowed (c : sched_call) (s : Scheduler) : Prop :=
  match c with
  | CRegisterBoot id => current s = NO_THREAD /\ get (states s) id = Some Unused
  | CRegisterIdle id => is_usize id
  | CExit => idle_running s = false /\ (0 < qlen s \/ idle s <> NO_THREAD)
  | _ => True
  end.

(** The states [n] calls lead to from a new scheduler. *)
Inductive sched_reachable : Z -> Scheduler -> Prop :=
| reach_new : sched_reachable 0 new
| reach_call n s c s' :
    sched_reachable n s -> call_allowed c s -> call_run c s = Done s' ->
    sched_reachable (n + 1) s'.

Definition counters (s : Scheduler) : Z * Z := (ticks s, switches s).

(** The counters have not reached the end of their width. *)
Definition counters_ok (s : Scheduler) : Prop := 0 <= ticks s < U64_MAX /\ 0 <= switches s < U64_MAX.

(** The abstract round robin over a FIFO list: the running thread, the waiting
    ones in order, and whether the running one is the idle thread. *)
Definition fifo_rotate (running : Z) (is_idle : bool) (waiting : list Z) : Z * list Z :=
  match waiting with
  | [] => (running, [])
  | to :: rest => (to, rest ++ (if is_idle then [] else [running]))
  end.

(** The thread that follows one that exits: the head of the queue, else idle. *)
Definition successor (s : Scheduler) : option Z :=
  match ready_queue s with
  | to :: _ => Some to
  | [] => if idle s =? NO_THREAD then None else Some (idle s)
  end.

(** A cyclic order turned by [k] places. *)
Definition cycle (k : nat) (l : list Z) : list Z := drop k l ++ take k l.

(** [n] calls of [yield_current]. *)
Fixpoint yields (n : nat) (s : Scheduler) : exec Scheduler :=
  match n with
  | O => Done s
  | S n => let! (s, _) := yield_current s in yields n s
  end.

(** ** The ring buffer *)
Section Ring.

Context (q : list Z) (h l : Z).
Context (Hq : len q = MAX_THREADS) (Hh : 0 <= h < MAX_THREADS).

Lemma ring_mod_range o : 0 <= (h + o) mod MAX_THREADS < MAX_THREADS.
Proof. apply Z.mod_pos_bound. done. Qed.

Lemma ring_mod_inj a b :
  0 <= a < MAX_THREADS -> 0 <= b < MAX_THREADS ->
  (h + a) mod MAX_THREADS = (h + b) mod MAX_THREADS -> a = b.
Proof. unfold MAX_THREADS. intros. Z.div_mod_to_equations. lia. Qed.

Lemma ring_snoc id :
  0 <= l < MAX_THREADS ->
  ring_list (<[Z.to_nat ((h + l) mod MAX_THREADS) := id]> q) h (l + 1) = ring_list q h l ++ [id].
Proof.
  intros Hl. unfold ring_list. replace (Z.to_nat (l + 1)) with (S (Z.to_nat l)) by lia.
  rewrite seq_S, fmap_app. simpl. pose proof (ring_mod_range l). f_equal.
  - apply list_fmap_ext. intros i o [-> Ho]%lookup_seq. rewrite get_insert_dec by lia.
    rewrite decide_False; [done|]. intros E. apply ring_mod_inj in E; lia.
  - rewrite Z2Nat.id by lia. rewrite get_insert_dec by lia. by rewrite decide_True.
Qed.

Lemma ring_uncons :
  0 < l <= MAX_THREADS ->
  exists id, get q h = Some id /\
    ring_list q h l = id :: ring_list (<[Z.to_nat h := NO_THREAD]> q) ((h + 1) mod MAX_THREADS) (l - 1).
Proof.
  intros Hl. destruct (get_lt_some q h) as [id Hid]; [lia|]. exists id. split; [done|].
  unfold ring_list. replace (Z.to_nat l) with (S (Z.to_nat (l - 1))) by lia.
  cbn [seq]. rewrite fmap_cons. f_equal.
  - rewrite Z.add_0_r, Z.mod_small by lia. by rewrite Hid.
  - rewrite (fmap_seq_succ (fun z => default NO_THREAD (get q (z mod MAX_THREADS))) h).
    apply list_fmap_ext. intros i o [-> Ho]%lookup_seq.
    rewrite Z.add_mod_idemp_l by done. rewrite get_insert_dec by lia.
    rewrite decide_False; [done|]. intros E.
    assert (E2 : (h + 0) mod MAX_THREADS = (h + (1 + Z.of_nat (0 + i))) mod MAX_THREADS).
    { rewrite Z.add_0_r, (Z.mod_small h) by lia. rewrite E at 1. f_equal. lia. }
    apply ring_mod_inj in E2; ulia.
Qed.

End Ring.

Lemma length_ring_list q h l : 0 <= l -> len (ring_list q h l) = l.
Proof. intros. unfold ring_list, len. rewrite length_fmap, length_seq. lia. Qed.

Lemma enqueue_spec s id :
  len (queue s) = MAX_THREADS -> 0 <= head s < MAX_THREADS -> 0 <= qlen s < MAX_THREADS ->
  exists q, enqueue s id = Done (set_queue s q (head s) (qlen s + 1)) /\
    len q = MAX_THREADS /\
    ring_list q (head s) (qlen s + 1) = ready_queue s ++ [id].
Proof.
  intros Hq Hh Hl. pose proof (ring_mod_range (head s) (qlen s)).
  exists (<[Z.to_nat ((head s + qlen s) mod MAX_THREADS) := id]> (queue s)).
  unfold enqueue. rewrite (proj2 (Z.ltb_lt _ _)) by lia.
  rewrite add64_done by ulia. cbn [exec_bind]. rewrite set_index_done by lia. cbn [exec_bind].
  rewrite add64_done by ulia. split_and!; [done|by rewrite len_insert|].
  by apply ring_snoc.
Qed.

Lemma dequeue_spec s id rest :
  len (queue s) = MAX_THREADS -> 0 <= head s < MAX_THREADS -> 0 <= qlen s <= MAX_THREADS ->
  ready_queue s = id :: rest ->
  exists q h, dequeue s = Done (set_queue s q h (qlen s - 1), id) /\
    len q = MAX_THREADS /\ 0 <= h < MAX_THREADS /\ 0 < qlen s /\
    ring_list q h (qlen s - 1) = rest.
Proof.
  intros Hq Hh Hl Hr.
  assert (Hpos : 0 < qlen s).
  { pose proof (length_ring_list (queue s) (head s) (qlen s)) as E.
    change (ring_list (queue s) (head s) (qlen s)) with (ready_queue s) in E.
    rewrite Hr, len_cons in E. pose proof (len_nonneg rest). lia. }
  destruct (ring_uncons (queue s) (head s) (qlen s)) as (id' & Hid & E); [done..|lia|].
  change (ring_list (queue s) (head s) (qlen s)) with (ready_queue s) in E.
  rewrite Hr in E. injection E as <- Hrest.
  exists (<[Z.to_nat (head s) := NO_THREAD]> (queue s)), ((head s + 1) mod MAX_THREADS).
  unfold dequeue. rewrite (proj2 (Z.ltb_lt _ _)) by lia.
  rewrite (proj2 (index_done _ _ _) Hid). cbn [exec_bind].
  rewrite set_index_done by lia. cbn [exec_bind].
  rewrite add64_done by ulia. cbn [exec_bind]. rewrite sub64_done by lia.
  split_and!; [done|by rewrite len_insert|apply Z.mod_pos_bound; done..|done|done].
Qed.

(** A duplicate-free list of thread numbers is no longer than the table. *)
Lemma nodup_bounded (l : list Z) :
  NoDup l -> (forall id, id ∈ l -> 0 <= id < MAX_THREADS) -> len l <= MAX_THREADS.
Proof.
  intros Hn Hb. unfold len, MAX_THREADS in *.
  assert (Hs : l ⊆+ seqZ 0 16).
  { apply NoDup_submseteq; [done|]. intros x Hx. apply elem_of_seqZ. apply Hb in Hx. lia. }
  apply submseteq_length in Hs. rewrite length_seqZ in Hs. lia.
Qed.

(** ** The table under the invariant *)
Lemma len_ready_queue s : 0 <= qlen s -> len (ready_queue s) = qlen s.
Proof. apply length_ring_list. Qed.

Lemma write_state_done s id st :
  0 <= id < len (states s) -> write_state s id st = Done (set_states s (<[Z.to_nat id := st]> (states s))).
Proof. intros H. unfold write_state. by rewrite set_index_done. Qed.

Lemma write_kind_done s id k :
  0 <= id < len (kinds s) -> write_kind s id k = Done (set_kinds s (<[Z.to_nat id := k]> (kinds s))).
Proof. intros H. unfold write_kind. by rewrite set_index_done. Qed.

Section Inv.

Context (s : Scheduler) (Hinv : sched_inv s).

Lemma inv_state_range id st : get (states s) id = Some st -> 0 <= id < MAX_THREADS.
Proof. intros H%get_in_range. by rewrite si_states in H. Qed.

Lemma inv_kind_some id : 0 <= id < MAX_THREADS -> exists k, get (kinds s) id = Some k.
Proof. intros H. apply get_lt_some. by rewrite si_kinds. Qed.

Lemma inv_queued_range id : id ∈ ready_queue s -> 0 <= id < MAX_THREADS.
Proof. intros [H _]%si_ready; [|done]. by eapply inv_state_range. Qed.

Lemma inv_current : current s <> NO_THREAD -> get (states s) (current s) = Some Running.
Proof. intros H. by apply si_running. Qed.

Lemma inv_current_range : current s <> NO_THREAD -> 0 <= current s < MAX_THREADS.
Proof. intros H%inv_current. by eapply inv_state_range. Qed.

(** A thread that is in the table but not queued leaves room in the ring. *)
Lemma inv_room id : 0 <= id < MAX_THREADS -> id ∉ ready_queue s -> qlen s < MAX_THREADS.
Proof.
  intros Hid Hn.
  assert (H : len (id :: ready_queue s) <= MAX_THREADS).
  { apply nodup_bounded; [by apply NoDup_cons; split; [|apply si_nodup]|].
    intros x [->|Hx]%elem_of_cons; [done|by apply inv_queued_range]. }
  rewrite len_cons, len_ready_queue in H by (by apply si_qlen). lia.
Qed.

Lemma inv_not_queued id st :
  get (states s) id = Some st -> st <> Ready -> id ∉ ready_queue s.
Proof. intros H Hne [H' _]%si_ready; [congruence|done]. Qed.

End Inv.

#[export] Hint Resolve si_states si_kinds si_queue si_head si_qlen si_nodup : core.

(** One step of the invariant's table conditions: the updated slots are split
    off, the others are the invariant's. *)
Ltac table_case :=
  repeat (rewrite get_insert_dec by (rewrite ?len_insert; ulia); case_decide; subst);
  try solve [intuition congruence].

Lemma new_inv : sched_inv new.
Proof.
  assert (Hs : forall id, get (states new) id = Some Unused \/ get (states new) id = None).
  { intros id. destruct (get (states new) id) eqn:E; [|by right].
    apply get_some in E as [_ E]. apply lookup_replicate in E. naive_solver. }
  assert (Hk : forall id, get (kinds new) id = Some Normal \/ get (kinds new) id = None).
  { intros id. destruct (get (kinds new) id) eqn:E; [|by right].
    apply get_some in E as [_ E]. apply lookup_replicate in E. naive_solver. }
  constructor; try done; try (simpl; ulia).
  - apply NoDup_nil. done.
  - intros id. simpl. split; [intros H; by apply elem_of_nil in H|].
    destruct (Hs id) as [E|E]; simpl in E; naive_solver.
  - intros id. split; [destruct (Hs id); naive_solver|]. intros [_ []]. done.
  - intros id. split; [destruct (Hk id); naive_solver|]. intros [_ []]. done.
Qed.

(** *** Rotation *)
Lemma rotate_keep s :
  sched_inv s -> current s = NO_THREAD \/ ready_queue s = [] -> rotate s = Done (s, Keep).
Proof.
  intros Hinv H. unfold rotate. destruct (Z.eqb_spec (current s) NO_THREAD) as [|Hc]; [done|].
  destruct H as [|H]; [done|].
  destruct (inv_kind_some s Hinv (current s)) as [k Hk]; [by apply inv_current_range|].
  rewrite (proj2 (index_done _ _ _) Hk). cbn [exec_bind].
  pose proof (len_ready_queue s (proj1 (si_qlen s Hinv))) as E. rewrite H in E. by rewrite <- E.
Qed.

(** What a rotation that switches leaves behind. *)
Record rotated (s s' : Scheduler) (to : Z) (rest : list Z) : Prop := mkRotated {
  ro_states : states s' = <[Z.to_nat to := Running]> (<[Z.to_nat (current s) := Ready]> (states s));
  ro_kinds : kinds s' = kinds s;
  ro_queue : len (queue s') = MAX_THREADS;
  ro_head : 0 <= head s' < MAX_THREADS;
  ro_ready : ready_queue s' = rest ++ (if idle_running s then [] else [current s]);
  ro_qlen : qlen s' = qlen s - 1 + (if idle_running s then 0 else 1);
  ro_current : current s' = to;
  ro_idle : idle s' = idle s;
  ro_ticks : ticks s' = ticks s;
  ro_switches : switches s' = switches s + 1
}.

Lemma rotate_switch s to rest :
  sched_inv s -> 0 <= switches s < U64_MAX ->
  current s <> NO_THREAD -> ready_queue s = to :: rest ->
  exists s', rotate s = Done (s', Switch (current s) to) /\ rotated s s' to rest.
Proof.
  intros Hinv Hsw Hc Hq. pose proof (inv_current_range s Hinv Hc) as Hcr.
  destruct (inv_kind_some s Hinv (current s) Hcr) as [k Hk].
  pose proof (len_ready_queue s (proj1 (si_qlen s Hinv))) as Hl. rewrite Hq, len_cons in Hl.
  pose proof (len_nonneg rest).
  assert (Hto : 0 <= to < MAX_THREADS) by (apply (inv_queued_range s Hinv); rewrite Hq; by left).
  assert (Hroom : qlen s < MAX_THREADS).
  { apply (inv_room s Hinv (current s)); [done|]. by eapply inv_not_queued; [done|by apply inv_current|]. }
  unfold rotate. rewrite (proj2 (Z.eqb_neq _ _) Hc), (proj2 (index_done _ _ _) Hk). cbn [exec_bind].
  rewrite (proj2 (Z.eqb_neq (qlen s) 0)) by lia.
  rewrite write_state_done by (rewrite si_states; done). cbn [exec_bind].
  assert (Hidle : idle_running s = bool_decide (k = Idle)).
  { unfold idle_running. rewrite Hk. apply bool_decide_ext. naive_solver. }
  rewrite <- Hidle. set (s1 := set_states s _).
  assert (Hs1 : exists s2 q2 l2, (if negb (idle_running s) then enqueue s1 (current s) else Done s1) = Done s2 /\
      s2 = set_queue s1 q2 (head s) l2 /\ len q2 = MAX_THREADS /\
      l2 = qlen s + (if idle_running s then 0 else 1) /\
      ready_queue s2 = to :: rest ++ (if idle_running s then [] else [current s])).
  { destruct (idle_running s); simpl negb; cbn iota.
    - exists s1, (queue s1), (qlen s). split_and!; [done|done|exact (si_queue s Hinv)|lia|].
      by rewrite app_nil_r.
    - destruct (enqueue_spec s1 (current s)) as (q2 & E & Hq2 & Hr2);
        [exact (si_queue s Hinv)|exact (si_head s Hinv)|split; [exact (proj1 (si_qlen s Hinv))|done]|].
      exists (set_queue s1 q2 (head s) (qlen s + 1)), q2, (qlen s + 1).
      split_and!; try done. change (ring_list q2 (head s) (qlen s + 1) = to :: rest ++ [current s]).
      change (ready_queue s1) with (ready_queue s) in Hr2. rewrite Hq in Hr2. exact Hr2. }
  destruct Hs1 as (s2 & q2 & l2 & -> & E2 & Hq2 & -> & Hr2). cbn [exec_bind].
  destruct (dequeue_spec s2 to (rest ++ (if idle_running s then [] else [current s])))
    as (q3 & h3 & -> & Hq3 & Hh3 & _ & Hr3);
    [by subst s2|subst s2; exact (si_head s Hinv)|subst s2; simpl; destruct (idle_running s); ulia|done|].
  subst s2.
  cbn [exec_bind]. rewrite write_state_done by (simpl; rewrite len_insert, si_states; done).
  cbn [exec_bind]. rewrite add64_done by (simpl; lia). cbn [exec_bind].
  eexists. split; [done|]. constructor; try done. simpl. lia.
Qed.

Lemma rotated_inv s s' to rest :
  sched_inv s -> current s <> NO_THREAD -> ready_queue s = to :: rest ->
  rotated s s' to rest -> sched_inv s'.
Proof.
  intros Hinv Hc Hq Hro. pose proof (inv_current_range s Hinv Hc) as Hcr.
  assert (Hto : 0 <= to < MAX_THREADS) by (apply (inv_queued_range s Hinv); rewrite Hq; by left).
  pose proof (si_states _ Hinv) as Hls. pose proof (inv_current s Hinv Hc) as Hrun.
  pose proof (si_nodup _ Hinv) as Hnd. rewrite Hq, NoDup_cons in Hnd. destruct Hnd as [Hnin Hnd].
  pose proof (si_ready _ Hinv) as Hready. setoid_rewrite Hq in Hready.
  assert (Htoready : get (states s) to = Some Ready /\ get (kinds s) to <> Some Idle)
    by (apply Hready; by left).
  assert (Hne : to <> current s) by naive_solver.
  assert (Hcn : current s ∉ rest).
  { intros Hin. assert (get (states s) (current s) = Some Ready) by (apply Hready; by right). congruence. }
  pose proof (si_running _ Hinv) as Hrunning. pose proof (si_idle _ Hinv) as Hidle.
  pose proof (len_ready_queue s (proj1 (si_qlen s Hinv))) as Hl. rewrite Hq, len_cons in Hl.
  assert (Hroom : qlen s < MAX_THREADS).
  { apply (inv_room s Hinv (current s)); [done|]. by eapply inv_not_queued. }
  pose proof (len_nonneg rest).
  destruct Hro as [Es Ek Elq Eh Er El Ec Ei _ _].
  constructor; rewrite ?Es, ?Ek, ?Er, ?El, ?Ec, ?Ei; rewrite ?len_insert; auto.
  - destruct (idle_running s); lia.
  - apply NoDup_app. split_and!; [done| |destruct (idle_running s); [apply NoDup_nil; done|apply NoDup_singleton]].
    intros x Hx. destruct (idle_running s); [apply not_elem_of_nil|].
    rewrite list_elem_of_singleton. naive_solver.
  - intros id. rewrite elem_of_app. unfold idle_running.
    specialize (Hready id). rewrite elem_of_cons in Hready.
    case_bool_decide as Hk; [rewrite elem_of_nil|rewrite list_elem_of_singleton];
      table_case.
  - intros id. specialize (Hrunning id). table_case.
    split; [|done]. split; [done|ulia].
  - intros Hi. pose proof (si_idle_state _ Hinv Hi). table_case.
Qed.

(** *** Registration, creation and reaping *)
Lemma position_state s st id :
  position (is_state st) (states s) = Some id -> get (states s) id = Some st.
Proof.
  intros H. destruct (position_some _ _ _ H) as [(a & Ha & Hb) _].
  apply bool_decide_eq_true in Hb. by subst.
Qed.

(** The empty slot that [create] and [register_idle_any] take is the lowest. *)
Lemma position_least s st id :
  position (is_state st) (states s) = Some id <->
  get (states s) id = Some st /\ forall j, 0 <= j < id -> get (states s) j <> Some st.
Proof.
  split.
  - intros H. split; [by apply position_state|]. intros j Hj Hs.
    destruct (position_some _ _ _ H) as [_ Hmin]. specialize (Hmin j st Hj Hs).
    by apply bool_decide_eq_false in Hmin.
  - intros [Hid Hmin]. destruct (position (is_state st) (states s)) as [k|] eqn:E.
    + f_equal. destruct (position_some _ _ _ E) as [_ Hk]. apply position_state in E.
      destruct (Z.lt_trichotomy k id) as [Hlt|[->|Hlt]]; [|done|].
      * destruct (Hmin k); [apply get_in_range in E; lia|done].
      * specialize (Hk id st). apply get_in_range in Hid as Hr.
        assert (Hf : is_state st st = false) by (apply Hk; [lia|done]).
        by apply bool_decide_eq_false in Hf.
    + rewrite position_none in E. specialize (E id st Hid). by apply bool_decide_eq_false in E.
Qed.

Lemma position_absent s st :
  position (is_state st) (states s) = None <-> forall id, get (states s) id <> Some st.
Proof.
  rewrite position_none. split.
  - intros H id Hid. specialize (H id st Hid). by apply bool_decide_eq_false in H.
  - intros H i a Hi. apply bool_decide_eq_false. intros ->. by apply (H i).
Qed.

Lemma register_boot_inv s id :
  sched_inv s -> current s = NO_THREAD -> get (states s) id = Some Unused ->
  exists s', register_boot s id = Done (s', Ok tt) /\ sched_inv s' /\ current s' = id /\
    ready_queue s' = ready_queue s /\ counters s' = counters s.
Proof.
  intros Hinv Hc Hid. pose proof (inv_state_range s Hinv id _ Hid) as Hr.
  pose proof (si_states _ Hinv) as Hls. pose proof (si_kinds _ Hinv) as Hlk.
  unfold register_boot. rewrite (proj2 (Z.leb_gt _ _)) by lia.
  rewrite write_state_done by lia. cbn [exec_bind]. rewrite write_kind_done by (simpl; lia).
  eexists. split; [done|]. split; [|done].
  pose proof (si_running _ Hinv) as Hrunning. pose proof (si_idle _ Hinv) as Hidle.
  pose proof (si_ready _ Hinv) as Hready. pose proof (si_idle_state _ Hinv) as His.
  constructor; simpl; rewrite ?len_insert; auto; try (by apply Hinv).
  - intros x. change (ready_queue _) with (ready_queue s). rewrite (Hready x). table_case.
  - intros x. specialize (Hrunning x). table_case. split; [|done]. split; [done|ulia].
  - intros x. specialize (Hidle x). table_case.
  - intros Hn. destruct (His Hn); table_case.
Qed.

Lemma register_idle_spec s id :
  sched_inv s -> is_usize id ->
  match get (states s) id with
  | None => register_idle s id = Done (s, Err (InvalidId id))
  | Some st =>
      if idle s =? NO_THREAD then
        if bool_decide (st = Unused) then
          exists s', register_idle s id = Done (s', Ok tt) /\ sched_inv s' /\ idle s' = id /\
            current s' = current s /\ ready_queue s' = ready_queue s /\ counters s' = counters s
        else register_idle s id = Done (s, Err (InvalidId id))
      else register_idle s id = Done (s, Err IdleAlreadyRegistered)
  end.
Proof.
  intros Hinv Hu. pose proof (si_states _ Hinv) as Hls. pose proof (si_kinds _ Hinv) as Hlk.
  destruct (get (states s) id) as [st|] eqn:Hid.
  2: { apply get_none in Hid. unfold register_idle. by rewrite (proj2 (Z.leb_le _ _)) by ulia. }
  pose proof (inv_state_range s Hinv id _ Hid) as Hr.
  unfold register_idle. rewrite (proj2 (Z.leb_gt _ _)) by lia.
  destruct (Z.eqb_spec (idle s) NO_THREAD) as [Hn|Hn]; simpl negb; cbn iota; [|done].
  rewrite (proj2 (index_done _ _ _) Hid). cbn [exec_bind].
  case_bool_decide as Hst; [|by rewrite bool_decide_eq_true_2].
  subst st. rewrite bool_decide_eq_false_2 by auto.
  rewrite write_state_done by lia. cbn [exec_bind]. rewrite write_kind_done by (simpl; lia).
  eexists. split; [done|]. split; [|done].
  pose proof (si_running _ Hinv) as Hrunning. pose proof (si_idle _ Hinv) as Hidle.
  pose proof (si_ready _ Hinv) as Hready.
  constructor; simpl; rewrite ?len_insert; auto; try (by apply Hinv).
  - intros x. change (ready_queue _) with (ready_queue s). rewrite (Hready x). table_case.
  - intros x. specialize (Hrunning x). table_case.
  - intros x. specialize (Hidle x). table_case. split; [|done]. split; [done|ulia].
  - intros _. table_case.
Qed.

Lemma register_idle_any_spec s :
  sched_inv s ->
  match position (is_state Unused) (states s) with
  | None => register_idle_any s = Done (s, Err NoFreeSlot)
  | Some id =>
      if idle s =? NO_THREAD then
        exists s', register_idle_any s = Done (s', Ok id) /\ sched_inv s' /\ idle s' = id /\
          current s' = current s /\ ready_queue s' = ready_queue s /\ counters s' = counters s
      else register_idle_any s = Done (s, Err IdleAlreadyRegistered)
  end.
Proof.
  intros Hinv. unfold register_idle_any. destruct (position _ _) as [id|] eqn:E; [|done].
  apply position_state in E. pose proof (inv_state_range s Hinv id _ E) as Hr.
  pose proof (register_idle_spec s id Hinv ltac:(ulia)) as Hs. rewrite E in Hs.
  destruct (idle s =? NO_THREAD); [|by rewrite Hs].
  rewrite bool_decide_eq_true_2 in Hs by done. destruct Hs as (s' & -> & H). by eexists.
Qed.

Lemma create_spec s :
  sched_inv s ->
  match position (is_state Unused) (states s) with
  | None => create s = Done (s, Err NoFreeSlot)
  | Some id => exists s', create s = Done (s', Ok id) /\ sched_inv s' /\
      ready_queue s' = ready_queue s ++ [id] /\ current s' = current s /\ idle s' = idle s /\
      counters s' = counters s
  end.
Proof.
  intros Hinv. unfold create. destruct (position _ _) as [id|] eqn:E; [|done].
  apply position_state in E. pose proof (inv_state_range s Hinv id _ E) as Hr.
  pose proof (si_states _ Hinv) as Hls. pose proof (si_kinds _ Hinv) as Hlk.
  assert (Hnq : id ∉ ready_queue s) by (by eapply inv_not_queued).
  pose proof (inv_room s Hinv id Hr Hnq) as Hroom.
  rewrite write_state_done by lia. cbn [exec_bind]. rewrite write_kind_done by (simpl; lia).
  cbn [exec_bind]. pose proof (si_qlen _ Hinv) as Hql.
  match goal with |- context [enqueue ?s1 id] => destruct (enqueue_spec s1 id) as (q & -> & Hq & Hrq) end;
    [exact (si_queue s Hinv)|exact (si_head s Hinv)|simpl; lia|]. cbn [exec_bind].
  eexists. split; [done|]. split; [|done]. simpl in Hrq.
  pose proof (si_running _ Hinv) as Hrunning. pose proof (si_idle _ Hinv) as Hidle.
  pose proof (si_ready _ Hinv) as Hready. pose proof (si_idle_state _ Hinv) as His.
  constructor; simpl; rewrite ?len_insert; auto; try lia; try (by apply Hinv).
  - unfold ready_queue; simpl. fold (ring_list q (head s) (qlen s + 1)). rewrite Hrq.
    apply NoDup_app. split_and!; [exact (si_nodup s Hinv)| |apply NoDup_singleton].
    intros x Hx. rewrite list_elem_of_singleton. by intros ->.
  - intros x. unfold ready_queue; simpl. fold (ring_list q (head s) (qlen s + 1)).
    rewrite Hrq, elem_of_app, list_elem_of_singleton.
    change (ready_queue _) with (ready_queue s). rewrite (Hready x). table_case.
  - intros x. specialize (Hrunning x). table_case.
  - intros x. specialize (Hidle x). table_case.
  - intros Hn. destruct (His Hn); table_case.
Qed.

Lemma take_reapable_spec s :
  sched_inv s ->
  match position (is_state Exited) (states s) with
  | None => take_reapable s = Done (s, None)
  | Some id => exists s', take_reapable s = Done (s', Some id) /\ sched_inv s' /\
      states s' = <[Z.to_nat id := Unused]> (states s) /\
      ready_queue s' = ready_queue s /\ current s' = current s /\ idle s' = idle s /\
      counters s' = counters s
  end.
Proof.
  intros Hinv. unfold take_reapable. destruct (position _ _) as [id|] eqn:E; [|done].
  apply position_state in E. pose proof (inv_state_range s Hinv id _ E) as Hr.
  pose proof (si_states _ Hinv) as Hls. pose proof (si_kinds _ Hinv) as Hlk.
  rewrite write_state_done by lia. cbn [exec_bind]. rewrite write_kind_done by (simpl; lia).
  eexists. split; [done|]. split; [|done].
  pose proof (si_running _ Hinv) as Hrunning. pose proof (si_idle _ Hinv) as Hidle.
  pose proof (si_ready _ Hinv) as Hready. pose proof (si_idle_state _ Hinv) as His.
  constructor; simpl; rewrite ?len_insert; auto; try lia; try (by apply Hinv).
  - intros x. change (ready_queue _) with (ready_queue s). rewrite (Hready x). table_case.
  - intros x. specialize (Hrunning x). table_case.
  - intros x. specialize (Hidle x). table_case.
  - intros Hn. destruct (His Hn); table_case.
Qed.

(** *** Exit *)

Lemma exit_switch s to :
  sched_inv s -> 0 <= switches s < U64_MAX -> current s <> NO_THREAD ->
  idle_running s = false -> successor s = Some to ->
  exists s', exit_current s = Done (s', Ok (Switch (current s) to)) /\
    states s' = <[Z.to_nat to := Running]> (<[Z.to_nat (current s) := Exited]> (states s)) /\
    kinds s' = kinds s /\ len (queue s') = MAX_THREADS /\ 0 <= head s' < MAX_THREADS /\
    0 <= qlen s' <= MAX_THREADS /\ ready_queue s' = tail (ready_queue s) /\
    current s' = to /\ idle s' = idle s /\ ticks s' = ticks s /\ switches s' = switches s + 1.
Proof.
  intros Hinv Hsw Hc Hni Hsucc. pose proof (inv_current_range s Hinv Hc) as Hcr.
  pose proof (si_states _ Hinv) as Hls. pose proof (si_qlen _ Hinv) as Hql.
  unfold exit_current, pick_after_stop. rewrite (proj2 (Z.eqb_neq _ _) Hc).
  rewrite write_state_done by lia. cbn [exec_bind]. unfold successor in Hsucc.
  pose proof (len_ready_queue s ltac:(lia)) as Hl.
  destruct (ready_queue s) as [|to' rest] eqn:Hq.
  - change (0 = qlen s) in Hl. simpl (qlen (set_states _ _)).
    rewrite (proj2 (Z.ltb_ge 0 (qlen s))) by lia. simpl (idle (set_states _ _)).
    destruct (Z.eqb_spec (idle s) NO_THREAD) as [|Hn]; [done|]. injection Hsucc as <-.
    simpl negb. cbn iota.
    assert (Hir : 0 <= idle s < MAX_THREADS)
      by (destruct (si_idle_state _ Hinv Hn); by eapply inv_state_range).
    rewrite write_state_done by (simpl; rewrite len_insert; lia). cbn [exec_bind].
    rewrite add64_done by (simpl; lia). eexists. split; [done|].
    split_and!; try done; try (by apply Hinv).
  - rewrite len_cons in Hl. pose proof (len_nonneg rest). injection Hsucc as <-.
    assert (Hto : 0 <= to' < MAX_THREADS) by (apply (inv_queued_range s Hinv); rewrite Hq; by left).
    simpl (qlen (set_states _ _)). rewrite (proj2 (Z.ltb_lt 0 (qlen s))) by lia.
    destruct (dequeue_spec (set_states s (<[Z.to_nat (current s) := Exited]> (states s))) to' rest)
      as (q & h & -> & Hlq & Hh & _ & Hrest);
      [exact (si_queue s Hinv)|exact (si_head s Hinv)|exact Hql|exact Hq|].
    cbn [exec_bind]. rewrite write_state_done by (simpl; rewrite len_insert; lia).
    cbn [exec_bind]. rewrite add64_done by (simpl; lia). eexists. split; [done|].
    split_and!; try done; simpl; lia.
Qed.

(** The successor is another thread, ready to run. *)
Lemma successor_ready s to :
  sched_inv s -> current s <> NO_THREAD -> idle_running s = false -> successor s = Some to ->
  get (states s) to = Some Ready /\ to <> current s.
Proof.
  intros Hinv Hc Hni Hsucc. apply bool_decide_eq_false in Hni.
  pose proof (inv_current s Hinv Hc) as Hrun. unfold successor in Hsucc.
  pose proof (si_running _ Hinv) as Hrunning. pose proof (si_idle _ Hinv) as Hidle.
  destruct (ready_queue s) as [|x rest] eqn:Hq.
  - destruct (Z.eqb_spec (idle s) NO_THREAD) as [|Hn]; [done|]. injection Hsucc as <-.
    assert (idle s <> current s) by (specialize (Hidle (idle s)); intuition congruence).
    split; [|done]. destruct (si_idle_state s Hinv Hn) as [|Hx%Hrunning]; [done|].
    intuition congruence.
  - injection Hsucc as <-. assert (Hx : get (states s) x = Some Ready).
    { apply (si_ready s Hinv). rewrite Hq. by left. }
    split; [done|]. congruence.
Qed.

Lemma exit_inv s to s' :
  sched_inv s -> 0 <= switches s < U64_MAX -> current s <> NO_THREAD ->
  idle_running s = false -> successor s = Some to ->
  exit_current s = Done (s', Ok (Switch (current s) to)) -> sched_inv s'.
Proof.
  intros Hinv Hsw Hc Hni Hsucc Hex.
  destruct (exit_switch s to) as (s2 & Hex2 & Es & Ek & Elq & Eh & El & Er & Ec & Ei & _ & _);
    try done.
  rewrite Hex in Hex2. injection Hex2 as <-.
  pose proof (inv_current_range s Hinv Hc) as Hcr. pose proof (si_states _ Hinv) as Hls.
  pose proof (inv_current s Hinv Hc) as Hrun.
  pose proof (si_running _ Hinv) as Hrunning. pose proof (si_idle _ Hinv) as Hidle.
  pose proof (si_ready _ Hinv) as Hready. pose proof (si_idle_state _ Hinv) as His.
  pose proof (si_nodup _ Hinv) as Hnd.
  destruct (successor_ready s to Hinv Hc Hni Hsucc) as [Hto Hne].
  apply bool_decide_eq_false in Hni. unfold successor in Hsucc.
  pose proof (inv_state_range s Hinv to _ Hto) as Htor.
  constructor; rewrite ?Es, ?Ek, ?Er, ?Ec, ?Ei; rewrite ?len_insert; auto.
  - destruct (ready_queue s); [done|]. by apply NoDup_cons in Hnd as [_ ?].
  - intros id. specialize (Hready id). destruct (ready_queue s) as [|x rest] eqn:Hq; simpl tail.
    + destruct (Z.eqb_spec (idle s) NO_THREAD) as [|Hn]; [done|]. injection Hsucc as <-. rewrite elem_of_nil in *. table_case.
    + injection Hsucc as ->. apply NoDup_cons in Hnd as [Hnin _]. rewrite elem_of_cons in Hready.
      table_case.
  - intros id. specialize (Hrunning id). table_case. split; [|done]. split; [done|ulia].
  - intros Hn. specialize (Hidle (idle s)). destruct (His Hn); table_case.
Qed.

(** *** Every call *)
Lemma rotate_total s :
  sched_inv s -> 0 <= switches s < U64_MAX ->
  exists s' d, rotate s = Done (s', d) /\ sched_inv s' /\ ticks s' = ticks s /\
    switches s <= switches s' <= switches s + 1.
Proof.
  intros Hinv Hsw. destruct (decide (current s = NO_THREAD)) as [Hc|Hc].
  { rewrite rotate_keep by auto. exists s, Keep. split_and!; [done..|lia|lia]. }
  destruct (ready_queue s) as [|to rest] eqn:Hq.
  { rewrite rotate_keep by auto. exists s, Keep. split_and!; [done..|lia|lia]. }
  destruct (rotate_switch s to rest) as (s' & -> & Hro); [done..|].
  exists s', (Switch (current s) to). pose proof (ro_switches _ _ _ _ Hro).
  split_and!; [done|by eapply rotated_inv|by eapply ro_ticks|lia|lia].
Qed.

Lemma set_ticks_inv s t : sched_inv s -> sched_inv (set_ticks s t).
Proof. intros []. by constructor. Qed.

Lemma exit_total s :
  sched_inv s -> 0 <= switches s < U64_MAX -> call_allowed CExit s ->
  exists s' r, exit_current s = Done (s', r) /\ sched_inv s' /\ ticks s' = ticks s /\
    switches s <= switches s' <= switches s + 1.
Proof.
  intros Hinv Hsw [Hni Hrun]. destruct (decide (current s = NO_THREAD)) as [Hc|Hc].
  { unfold exit_current. rewrite (proj2 (Z.eqb_eq _ _) Hc).
    eexists _, _. split_and!; [done..|lia|lia]. }
  assert (Hsucc : exists to, successor s = Some to).
  { unfold successor. pose proof (len_ready_queue s (proj1 (si_qlen s Hinv))) as Hl.
    destruct (ready_queue s); [|by eexists]. change (0 = qlen s) in Hl.
    destruct (Z.eqb_spec (idle s) NO_THREAD); [|by eexists]. destruct Hrun; [lia|done]. }
  destruct Hsucc as [to Hsucc].
  destruct (exit_switch s to) as (s' & Hex & H); [done..|].
  eexists s', _. split; [done|]. split; [by eapply (exit_inv s to)|].
  destruct H as (_ & _ & _ & _ & _ & _ & _ & _ & -> & ->). lia.
Qed.

Lemma call_total c s :
  sched_inv s -> counters_ok s -> call_allowed c s ->
  exists s', call_run c s = Done s' /\ sched_inv s' /\
    ticks s <= ticks s' <= ticks s + 1 /\ switches s <= switches s' <= switches s + 1.
Proof.
  assert (Hsame : forall s s', counters s' = counters s ->
    ticks s <= ticks s' <= ticks s + 1 /\ switches s <= switches s' <= switches s + 1).
  { intros x y [= -> ->]. lia. }
  intros Hinv [Ht Hsw] Hal. destruct c; cbn [call_run].
  - destruct Hal as [Hc Hid].
    destruct (register_boot_inv s id) as (s' & -> & H & _ & _ & Hcnt); [done..|].
    exists s'. split_and!; auto; by apply Hsame.
  - pose proof (register_idle_spec s id Hinv Hal) as H. repeat case_match;
      try (rewrite H; exists s; split_and!; [done..|lia|lia|lia|lia]).
    destruct H as (s' & -> & H & _ & _ & _ & Hcnt). exists s'. split_and!; auto; by apply Hsame.
  - pose proof (register_idle_any_spec s Hinv) as H. repeat case_match;
      try (rewrite H; exists s; split_and!; [done..|lia|lia|lia|lia]).
    destruct H as (s' & -> & H & _ & _ & _ & Hcnt). exists s'. split_and!; auto; by apply Hsame.
  - pose proof (create_spec s Hinv) as H. case_match;
      [|rewrite H; exists s; split_and!; [done..|lia|lia|lia|lia]].
    destruct H as (s' & -> & H & _ & _ & _ & Hcnt). exists s'. split_and!; auto; by apply Hsame.
  - unfold on_tick. rewrite add64_done by lia. cbn [exec_bind]. destruct reschedule; simpl negb; cbn iota.
    + destruct (rotate_total (set_ticks s (ticks s + 1))) as (s' & d & -> & H & Ht' & Hs');
        [by apply set_ticks_inv|done|]. simpl in Ht', Hs'. exists s'. split_and!; auto; lia.
    + eexists. split; [done|]. split; [by apply set_ticks_inv|]. simpl. lia.
  - destruct (rotate_total s) as (s' & d & E & H & Ht' & Hs'); [done..|].
    unfold yield_current. rewrite E. exists s'. split_and!; auto; lia.
  - destruct (exit_total s) as (s' & r & -> & H & Ht' & Hs'); [done..|].
    exists s'. split_and!; auto; lia.
  - pose proof (take_reapable_spec s Hinv) as H. case_match;
      [|rewrite H; exists s; split_and!; [done..|lia|lia|lia|lia]].
    destruct H as (s' & -> & H & _ & _ & _ & _ & Hcnt). exists s'. split_and!; auto; by apply Hsame.
Qed.

Lemma reachable_counters n s :
  sched_reachable n s -> n <= U64_MAX ->
  sched_inv s /\ 0 <= ticks s <= n /\ 0 <= switches s <= n.
Proof.
  induction 1 as [|n s c s' Hr IH Hal Hrun]; intros Hn; [split; [apply new_inv|done]|].
  destruct IH as (Hinv & Ht & Hs); [lia|].
  destruct (call_total c s) as (s2 & Hrun2 & Hinv2 & Ht2 & Hs2); [done|split; lia|done|].
  rewrite Hrun in Hrun2. injection Hrun2 as <-. split; [done|lia].
Qed.

(** The slot a new thread takes. *)
Lemma create_states x x' id :
  create x = Done (x', Ok id) ->
  get (states x) id = Some Unused /\ states x' = <[Z.to_nat id := Ready]> (states x).
Proof.
  unfold create. destruct (position _ _) as [i|] eqn:E; [|done]. intros H.
  apply position_state in E. pose proof (get_in_range _ _ _ E) as Hi.
  rewrite write_state_done in H by done. cbn [exec_bind] in H.
  unfold write_kind, enqueue in H. repeat step_exec. done.
Qed.

Lemma register_idle_states x x' id :
  register_idle_any x = Done (x', Ok id) ->
  get (states x) id = Some Unused /\ states x' = <[Z.to_nat id := Ready]> (states x).
Proof.
  unfold register_idle_any. destruct (position _ _) as [i|] eqn:E; [|done]. intros H.
  apply position_state in E. pose proof (get_in_range _ _ _ E) as Hi.
  unfold register_idle in H. rewrite (proj2 (index_done _ _ _) E) in H. cbn [exec_bind] in H.
  destruct (MAX_THREADS <=? i); [done|]. destruct (negb (idle x =? NO_THREAD)); [done|].
  rewrite bool_decide_eq_false_2 in H by (intros []; done).
  rewrite write_state_done in H by done. cbn [exec_bind] in H. unfold write_kind in H.
  repeat step_exec. done.
Qed.

(** What a decision does to the scheduler. *)
Definition decided (x x' : Scheduler) (d : Decision) (next : Z) : Prop :=
  sched_inv x' /\ current x' = next /\
  ((d = Keep /\ next = current x /\ states x' = states x) \/
   (d = Switch (current x) next /\ next <> current x /\ get (states x) next = Some Ready /\
    exists st, (st = Ready \/ st = Exited) /\
      states x' = <[Z.to_nat next := Running]> (<[Z.to_nat (current x) := st]> (states x)))).

Lemma rotate_decided x :
  sched_inv x -> 0 <= switches x < U64_MAX -> current x <> NO_THREAD ->
  exists x' d, rotate x = Done (x', d) /\
    decided x x' d (fst (fifo_rotate (current x) (idle_running x) (ready_queue x))) /\
    ready_queue x' = snd (fifo_rotate (current x) (idle_running x) (ready_queue x)).
Proof.
  intros Hinv Hsw Hc. destruct (ready_queue x) as [|to rest] eqn:Hq.
  - exists x, Keep. rewrite rotate_keep by auto. split; [done|]. split; [|done].
    split_and!; [done|done|]. by left.
  - destruct (rotate_switch x to rest Hinv Hsw Hc Hq) as (x' & -> & Hro).
    exists x', (Switch (current x) to). split; [done|]. split; [|exact (ro_ready _ _ _ _ Hro)].
    assert (Hr : get (states x) to = Some Ready).
    { apply (si_ready _ Hinv to). rewrite Hq. by left. }
    split; [by apply (rotated_inv x x' to rest)|]. split; [exact (ro_current _ _ _ _ Hro)|].
    right. split; [done|]. split; [|split; [done|exists Ready; split; [by left|exact (ro_states _ _ _ _ Hro)]]].
    simpl. intros ->. by rewrite (inv_current x Hinv Hc) in Hr.
Qed.

Lemma exit_decided x next :
  sched_inv x -> 0 <= switches x < U64_MAX -> current x <> NO_THREAD -> idle_running x = false ->
  successor x = Some next ->
  exists x' d, exit_current x = Done (x', Ok d) /\ decided x x' d next /\ ready_queue x' = tail (ready_queue x).
Proof.
  intros Hinv Hsw Hc Hi Hs.
  destruct (exit_switch x next Hinv Hsw Hc Hi Hs) as (x' & E & Est & _ & _ & _ & _ & Hq & Hcur & _).
  destruct (successor_ready x next Hinv Hc Hi Hs) as [Hr Hne].
  exists x', (Switch (current x) next). split; [done|]. split; [|done].
  split; [by apply (exit_inv x next)|]. split; [done|]. right.
  split_and!; [done|done|done|]. exists Exited. split; [by right|done].
Qed.

(** What a decision leaves alone. *)
Lemma rotate_frame x x' d :
  sched_inv x -> 0 <= switches x < U64_MAX -> rotate x = Done (x', d) ->
  idle x' = idle x /\ ticks x' = ticks x /\ switches x <= switches x' <= switches x + 1.
Proof.
  intros Hinv Hsw E. destruct (decide (current x = NO_THREAD)) as [Hc|Hc];
    [|destruct (ready_queue x) as [|to rest] eqn:Hq].
  - rewrite rotate_keep in E by auto. injection E as <- _. split_and!; (done || lia).
  - rewrite rotate_keep in E by auto. injection E as <- _. split_and!; (done || lia).
  - destruct (rotate_switch x to rest Hinv Hsw Hc Hq) as (x2 & E2 & Hro). rewrite E in E2. injection E2 as <- _.
    rewrite (ro_idle _ _ _ _ Hro), (ro_ticks _ _ _ _ Hro), (ro_switches _ _ _ _ Hro). split_and!; (done || lia).
Qed.

Lemma exit_frame x x' d next :
  sched_inv x -> 0 <= switches x < U64_MAX -> current x <> NO_THREAD -> idle_running x = false ->
  successor x = Some next -> exit_current x = Done (x', Ok d) ->
  idle x' = idle x /\ ticks x' = ticks x /\ switches x' = switches x + 1 /\
  states x' = <[Z.to_nat next := Running]> (<[Z.to_nat (current x) := Exited]> (states x)).
Proof.
  intros Hinv Hsw Hc Hi Hs E.
  destruct (exit_switch x next Hinv Hsw Hc Hi Hs) as (x2 & E2 & Est & _ & _ & _ & _ & _ & _ & Hid & Ht & Hn).
  rewrite E in E2. injection E2 as <- _. done.
Qed.

(** *** Round robin *)
Lemma fifo_rotate_step s :
  sched_inv s -> 0 <= switches s < U64_MAX -> current s <> NO_THREAD ->
  exists s' d, rotate s = Done (s', d) /\ sched_inv s' /\
    (current s', ready_queue s') = fifo_rotate (current s) (idle_running s) (ready_queue s) /\
    d = (match ready_queue s with [] => Keep | to :: _ => Switch (current s) to end) /\
    switches s' = switches s + (match ready_queue s with [] => 0 | _ => 1 end) /\
    current s' <> NO_THREAD /\ kinds s' = kinds s.
Proof.
  intros Hinv Hsw Hc. destruct (ready_queue s) as [|to rest] eqn:Hq.
  - rewrite rotate_keep by auto. exists s, Keep. rewrite Hq. split_and!; [done..|lia|done|done].
  - destruct (rotate_switch s to rest) as (s' & -> & Hro); [done..|].
    exists s', (Switch (current s) to).
    assert (Hto : 0 <= to < MAX_THREADS) by (apply (inv_queued_range s Hinv); rewrite Hq; by left).
    rewrite (ro_current _ _ _ _ Hro), (ro_ready _ _ _ _ Hro), (ro_switches _ _ _ _ Hro).
    split_and!; [done|by eapply rotated_inv|done|done|done|ulia|by eapply ro_kinds].
Qed.

Lemma queued_not_idle s id : sched_inv s -> id ∈ ready_queue s -> get (kinds s) id <> Some Idle.
Proof. intros Hinv H. by apply (si_ready s Hinv) in H as [_ ?]. Qed.

Lemma cycle_step k (x : Z) l :
  (k <= length l)%nat -> cycle k (l ++ [x]) = cycle (S k) (x :: l).
Proof.
  intros Hk. unfold cycle. simpl. rewrite drop_app_le, take_app_le by done. by rewrite <- app_assoc.
Qed.

(** ** Claims *)

(** C6: after any sequence of allowed calls from a fresh scheduler (fewer than
    2^64 of them), the documented invariant holds: the ready queue has no
    duplicates and is exactly the set of [Ready] threads other than the idle
    one, at most one thread is [Running] and it is [current], and the idle
    thread is [Ready] or [Running] and never queued. *)
Theorem sched_invariant n s :
  sched_reachable n s -> n <= U64_MAX -> sched_inv s.
Proof. intros Hr Hn. by apply (reachable_counters n s). Qed.

Definition demo_state : Scheduler :=
  mkSched ([Ready; Ready; Running] ++ replicate 13 Unused)
    ([Boot; Idle; Normal] ++ replicate 13 Normal)
    ([NO_THREAD; 0] ++ replicate 14 NO_THREAD) 1 1 2 1 1 1.


Lemma demo_reachable : sched_reachable 4 demo_state.
Proof.
  change 4 with (0 + 1 + 1 + 1 + 1).
  apply (reach_call _ (mkSched ([Running; Ready; Ready] ++ replicate 13 Unused)
    ([Boot; Idle; Normal] ++ replicate 13 Normal) (2 :: replicate 15 NO_THREAD) 0 1 0 1 0 0)
    (CTick true)); [|done|reflexivity].
  apply (reach_call _ (mkSched ([Running; Ready] ++ replicate 14 Unused)
    ([Boot; Idle] ++ replicate 14 Normal) (replicate 16 NO_THREAD) 0 0 0 1 0 0)
    CCreate); [|done|reflexivity].
  apply (reach_call _ (mkSched ([Running] ++ replicate 15 Unused)
    ([Boot] ++ replicate 15 Normal) (replicate 16 NO_THREAD) 0 0 0 NO_THREAD 0 0)
    CRegisterIdleAny); [|done|reflexivity].
  apply (reach_call 0 new (CRegisterBoot 0)); [apply reach_new|by split|reflexivity].
Qed.

Lemma demo_inv : sched_inv demo_state.
Proof. apply (reachable_counters 4 demo_state demo_reachable). ulia. Qed.

Lemma sched_invariant_witness : sched_inv demo_state.
Proof. apply (sched_invariant 4); [apply demo_reachable|ulia]. Defined.

(** in a reachable state no allowed call panics: no table index out of
    range, no [debug_assert] of the ring buffer, no counter overflow. *)
Lemma sched_no_panic n s c :
  sched_reachable n s -> n < U64_MAX -> call_allowed c s ->
  exists s', call_run c s = Done s' /\ sched_reachable (n + 1) s'.
Proof.
  intros Hr Hn Hal. destruct (reachable_counters n s Hr) as (Hinv & Ht & Hs); [lia|].
  destruct (call_total c s) as (s' & Hrun & _); [done|split; lia|done|].
  exists s'. split; [done|by eapply reach_call].
Qed.

Lemma sched_no_panic_witness :
  exists s', call_run CExit demo_state = Done s' /\ sched_reachable (4 + 1) s'.
Proof.
  apply (sched_no_panic 4 demo_state CExit); [apply demo_reachable|ulia|].
  split; [reflexivity|left; reflexivity].
Defined.

(** C19: [rotate] implements the abstract FIFO rotation: the running thread and
    the ring buffer, read as a list, move exactly as [fifo_rotate] says (the
    head runs, the old thread goes to the tail unless it is the idle thread,
    an empty queue keeps the current thread), the decision names that switch,
    and the invariant is kept. *)
Theorem rotate_refines_fifo s :
  sched_inv s -> counters_ok s -> current s <> NO_THREAD ->
  exists s' d, rotate s = Done (s', d) /\ sched_inv s' /\
    (current s', ready_queue s') = fifo_rotate (current s) (idle_running s) (ready_queue s) /\
    d = (match ready_queue s with [] => Keep | to :: _ => Switch (current s) to end).
Proof.
  intros Hinv [_ Hsw] Hc. destruct (fifo_rotate_step s) as (s' & d & H1 & H2 & H3 & H4 & _); [done..|].
  by exists s', d.
Qed.

Lemma rotate_refines_fifo_witness :
  exists s' d, rotate demo_state = Done (s', d) /\ sched_inv s' /\
    (current s', ready_queue s') = (0, [2]) /\ d = Switch 2 0.
Proof. apply (rotate_refines_fifo demo_state demo_inv); [split; vm_compute; split; congruence|done]. Defined.

(** strict round robin.  With a non-idle thread running, [k] yields (up to
    a whole round) turn the cycle "running thread, then the queue" by exactly
    [k] places; after a whole round everything is back where it was. *)
Lemma round_robin k s :
  sched_inv s -> 0 <= switches s -> switches s + Z.of_nat k <= U64_MAX ->
  current s <> NO_THREAD -> idle_running s = false ->
  (k <= S (length (ready_queue s)))%nat ->
  exists s', yields k s = Done s' /\ sched_inv s' /\
    current s' :: ready_queue s' = cycle k (current s :: ready_queue s).
Proof.
  revert s. induction k as [|k IH]; intros s Hinv Hs0 Hs Hc Hi Hk.
  { exists s. split_and!; [done..|]. unfold cycle. by rewrite drop_0, take_0, app_nil_r. }
  destruct (fifo_rotate_step s) as (s1 & d & E & Hinv1 & Hf & _ & Hsw & Hc1 & Hk1); [done|lia|done|].
  cbn [yields]. unfold yield_current. rewrite E. cbn [exec_bind].
  rewrite Hi in Hf. destruct (ready_queue s) as [|to rest] eqn:Hq; simpl in Hf; injection Hf as Ecur Eq.
  - simpl in Hk. assert (k = O) as -> by lia. exists s1. rewrite Ecur, Eq. done.
  - assert (Hi1 : idle_running s1 = false).
    { apply bool_decide_eq_false. rewrite Hk1, Ecur. eapply queued_not_idle; [done|].
      rewrite Hq. by left. }
    destruct (IH s1) as (s' & E' & Hinv' & Hcyc); [done|lia|lia|done|done|..].
    { rewrite Eq, length_app. simpl in *. lia. }
    exists s'. split_and!; [done..|]. rewrite Hcyc, Ecur, Eq.
    rewrite <- cycle_step by (simpl in *; lia). done.
Qed.

Lemma round_robin_witness :
  exists s', yields 2 demo_state = Done s' /\ sched_inv s' /\
    current s' :: ready_queue s' = [2; 0].
Proof.
  apply (round_robin 2 demo_state demo_inv); try done; vm_compute; try congruence; lia.
Defined.

(** C22: nobody starves: the thread at position [j] of the ready queue is
    running after exactly [j + 1] yields or rescheduling ticks, whoever runs
    now (the idle thread included). *)
Theorem no_starvation j s id :
  sched_inv s -> 0 <= switches s -> switches s + Z.of_nat j < U64_MAX ->
  current s <> NO_THREAD -> ready_queue s !! j = Some id ->
  exists s', yields (S j) s = Done s' /\ current s' = id /\ get (states s') id = Some Running.
Proof.
  revert s. induction j as [|j IH]; intros s Hinv Hs0 Hs Hc Hj;
    destruct (fifo_rotate_step s) as (s1 & d & E & Hinv1 & Hf & _ & Hsw & Hc1 & _);
    [done|lia|done|..|done|lia|done|];
    change (yields (S ?n) s) with (let! (s, _) := yield_current s in yields n s);
    unfold yield_current; rewrite E; cbn [exec_bind];
    destruct (ready_queue s) as [|to rest]; try done; injection Hf as Ecur Eq; simpl in Hj.
  - injection Hj as ->. exists s1. split_and!; [done..|]. rewrite <- Ecur. by apply inv_current.
  - apply IH; [done|lia|lia|done|]. rewrite Eq. by apply lookup_app_l_Some.
Qed.

Lemma no_starvation_witness :
  exists s', yields 1 demo_state = Done s' /\ current s' = 0 /\ get (states s') 0 = Some Running.
Proof. apply (no_starvation 0 demo_state 0 demo_inv); try done; vm_compute; congruence. Defined.

(** [create] takes the lowest unused slot, appends it to the queue and
    changes neither the running nor the idle thread; it fails, leaving the
    scheduler as it was, exactly when no slot is unused. *)
Lemma create_lowest_slot s :
  sched_inv s ->
  (exists id s', create s = Done (s', Ok id) /\ sched_inv s' /\
     get (states s) id = Some Unused /\
     (forall j, 0 <= j < id -> get (states s) j <> Some Unused) /\
     ready_queue s' = ready_queue s ++ [id] /\ current s' = current s /\ idle s' = idle s) \/
  (create s = Done (s, Err NoFreeSlot) /\ forall id, get (states s) id <> Some Unused).
Proof.
  intros Hinv. pose proof (create_spec s Hinv) as H.
  destruct (position (is_state Unused) (states s)) as [id|] eqn:E.
  - left. destruct H as (s' & Hc & Hinv' & Hq & Hcur & Hi & _).
    apply position_least in E as [Hid Hmin]. by exists id, s'.
  - right. split; [done|by apply position_absent].
Qed.

Lemma create_lowest_slot_witness :
  exists id s', create demo_state = Done (s', Ok id) /\ id = 3.
Proof.
  destruct (create_lowest_slot demo_state demo_inv) as [(id & s' & H & _ & Hid & Hmin & _)|[H _]].
  - exists id, s'. split; [exact H|]. vm_compute in H. by injection H.
  - vm_compute in H. discriminate H.
Defined.

(** the life cycle of a thread.  When a non-idle thread exits and there is
    a successor (the head of the queue, else the idle thread), the successor
    runs, the thread is [Exited] and neither queued nor running; and
    [take_reapable] returns exactly the lowest exited slot, which is never the
    running thread, never the idle one and never queued, and makes it
    unused. *)
Lemma exit_then_reap s to :
  sched_inv s -> counters_ok s -> current s <> NO_THREAD -> idle_running s = false ->
  successor s = Some to ->
  exists s1 id s2,
    exit_current s = Done (s1, Ok (Switch (current s) to)) /\ sched_inv s1 /\
    current s1 = to /\ get (states s1) (current s) = Some Exited /\
    current s ∉ ready_queue s1 /\ ready_queue s1 = tail (ready_queue s) /\
    take_reapable s1 = Done (s2, Some id) /\ sched_inv s2 /\
    id <= current s /\ id <> to /\ id <> idle s /\ id ∉ ready_queue s2 /\
    get (states s2) id = Some Unused.
Proof.
  intros Hinv [_ Hsw] Hc Hi Hto.
  destruct (exit_switch s to) as (s1 & E & Es & _ & _ & _ & _ & Er & Ec & Ei & _); [done..|].
  pose proof (exit_inv s to s1 Hinv Hsw Hc Hi Hto E) as Hinv1.
  destruct (successor_ready s to Hinv Hc Hi Hto) as [Hready Hne].
  pose proof (inv_state_range s Hinv to _ Hready) as Htor.
  pose proof (inv_current_range s Hinv Hc) as Hcr. pose proof (si_states _ Hinv) as Hls.
  assert (Hlen1 : len (states s1) = MAX_THREADS) by (by apply si_states).
  assert (Hto_run : get (states s1) to = Some Running).
  { rewrite Es. apply get_insert_eq. rewrite len_insert. lia. }
  assert (Hex : get (states s1) (current s) = Some Exited).
  { rewrite Es. rewrite get_insert_ne by (try done; lia). apply get_insert_eq. lia. }
  pose proof (take_reapable_spec s1 Hinv1) as Ht.
  destruct (position (is_state Exited) (states s1)) as [id|] eqn:Hp.
  2: { rewrite position_absent in Hp. by destruct (Hp (current s)). }
  destruct Ht as (s2 & Ht & Hinv2 & Es2 & Er2 & _).
  apply position_least in Hp as [Hid Hmin].
  pose proof (inv_state_range s1 Hinv1 id _ Hid) as Hidr.
  assert (Hun : get (states s2) id = Some Unused) by (rewrite Es2; apply get_insert_eq; lia).
  exists s1, id, s2. split_and!; try done.
  - by eapply inv_not_queued.
  - destruct (Z.le_gt_cases id (current s)); [done|]. by destruct (Hmin (current s)); [lia|].
  - congruence.
  - intros ->. destruct (decide (idle s1 = NO_THREAD)) as [En|Hn]; [ulia|].
    destruct (si_idle_state s1 Hinv1 Hn); congruence.
  - by eapply inv_not_queued.
Qed.

Lemma exit_then_reap_witness :
  exists s1 id s2, exit_current demo_state = Done (s1, Ok (Switch 2 0)) /\
    take_reapable s1 = Done (s2, Some id) /\ id <= 2.
Proof.
  destruct (exit_then_reap demo_state 0 demo_inv) as (s1 & id & s2 & H1 & _ & _ & _ & _ & _ & H2 & _ & H3 & _);
    [split; vm_compute; split; congruence|done|done|done|].
  exists s1, id, s2. split; [exact H1|]. split; [exact H2|exact H3].
Defined.

(** [register_boot] does not detect a second registration (the doc comment
    says it returns [InvalidId]): with a thread already running, registering
    another slot succeeds and leaves two [Running] threads, so the invariant
    is lost. *)
Lemma register_boot_twice s id :
  sched_inv s -> current s <> NO_THREAD -> 0 <= id < MAX_THREADS -> id <> current s ->
  exists s', register_boot s id = Done (s', Ok tt) /\
    get (states s') id = Some Running /\ get (states s') (current s) = Some Running /\
    ~ sched_inv s'.
Proof.
  intros Hinv Hc Hid Hne. pose proof (si_states _ Hinv) as Hls. pose proof (si_kinds _ Hinv) as Hlk.
  unfold register_boot. rewrite (proj2 (Z.leb_gt _ _)) by lia.
  rewrite write_state_done by lia. cbn [exec_bind]. rewrite write_kind_done by (simpl; lia).
  eexists. split; [done|].
  assert (Hrun : get (<[Z.to_nat id := Running]> (states s)) (current s) = Some Running).
  { rewrite get_insert_ne by (try done; lia). by apply inv_current. }
  split_and!; [apply get_insert_eq; lia|done|].
  intros Hbad. apply (si_running _ Hbad) in Hrun as [Heq _]. by apply Hne.
Qed.

Lemma register_boot_twice_witness :
  exists s', register_boot demo_state 5 = Done (s', Ok tt) /\
    get (states s') 5 = Some Running /\ get (states s') 2 = Some Running /\ ~ sched_inv s'.
Proof. apply (register_boot_twice demo_state 5 demo_inv); [done|ulia|done]. Defined.

(** the comment of [take_reapable] ("the running thread cannot be
    [Exited]") does not survive a failed exit: with an empty queue and no
    idle thread [exit_current] returns [NothingToRun] but has already marked
    the current thread [Exited], and the next [take_reapable] can hand out
    the slot of the thread that is still current. *)
Lemma failed_exit_is_reapable s :
  sched_inv s -> current s <> NO_THREAD -> successor s = None ->
  (forall j, get (states s) j <> Some Exited) ->
  exists s1 s2, exit_current s = Done (s1, Err NothingToRun) /\ current s1 = current s /\
    take_reapable s1 = Done (s2, Some (current s)) /\ current s2 = current s /\
    get (states s2) (current s) = Some Unused.
Proof.
  intros Hinv Hc Hsucc Hnone. pose proof (inv_current_range s Hinv Hc) as Hcr.
  pose proof (si_states _ Hinv) as Hls. pose proof (si_kinds _ Hinv) as Hlk.
  unfold exit_current, pick_after_stop. rewrite (proj2 (Z.eqb_neq _ _) Hc).
  rewrite write_state_done by lia. cbn [exec_bind]. unfold successor in Hsucc.
  pose proof (len_ready_queue s (proj1 (si_qlen _ Hinv))) as Hl.
  destruct (ready_queue s); [|done]. change (0 = qlen s) in Hl.
  destruct (Z.eqb_spec (idle s) NO_THREAD) as [Hn|]; [|done].
  simpl (qlen (set_states _ _)). rewrite (proj2 (Z.ltb_ge 0 (qlen s))) by lia.
  simpl (idle (set_states _ _)). rewrite (proj2 (Z.eqb_eq _ _) Hn). simpl negb. cbn iota.
  cbn [exec_bind]. set (s1 := set_states s _).
  assert (Hp : position (is_state Exited) (states s1) = Some (current s)).
  { apply position_least. simpl. split; [apply get_insert_eq; lia|].
    intros j Hj. rewrite get_insert_ne by lia. apply Hnone. }
  eexists s1, _. split; [done|]. split; [done|]. unfold take_reapable. rewrite Hp.
  rewrite write_state_done by (simpl; rewrite len_insert; lia). cbn [exec_bind].
  rewrite write_kind_done by (simpl; lia). split; [done|]. split; [done|].
  simpl. apply get_insert_eq. rewrite len_insert. lia.
Qed.

Definition boot_only : Scheduler :=
  mkSched ([Running] ++ replicate 15 Unused) ([Boot] ++ replicate 15 Normal)
    (replicate 16 NO_THREAD) 0 0 0 NO_THREAD 0 0.

Lemma boot_only_inv : sched_inv boot_only.
Proof.
  apply (reachable_counters (0 + 1)); [|ulia].
  apply (reach_call 0 new (CRegisterBoot 0)); [apply reach_new|by split|reflexivity].
Qed.

Lemma failed_exit_is_reapable_witness :
  exists s1 s2, exit_current boot_only = Done (s1, Err NothingToRun) /\ current s1 = 0 /\
    take_reapable s1 = Done (s2, Some 0) /\ current s2 = 0 /\ get (states s2) 0 = Some Unused.
Proof.
  apply (failed_exit_is_reapable boot_only boot_only_inv); [done|done|].
  intros j. apply (proj1 (position_absent boot_only Exited)). reflexivity.
Defined.
