(* ===== verification/Frame.v ===== *)
(** * The physical frame allocator (crates/kernel-memory/src/frame.rs)

    The two bitmaps as byte lists with the bit operations of the code, the
    construction from the firmware's memory map, and every operation of
    [FrameAllocator].  The theorems describe the operations as set operations
    on the free frames: what [init] hands out, lowest address first for
    [alloc] and [alloc_contiguous], the error branches of [free], the free
    counter, and that no sequence of operations hands out a frame twice. *)
From Stdlib Require Import ZArith Lia Bool.
From stdpp Require Import base tactics option list numbers sets gmap relations.
From S2P Require Import Prelude MemoryMap.

#[local] Open Scope Z_scope.

(** ** Data *)
Definition MIN_FREE_ADDR : Z := 1024 * 1024.
Definition MAX_RESERVED_RANGES : Z := 8.

#[export] Hint Unfold MIN_FREE_ADDR MAX_RESERVED_RANGES : consts.

Record PhysFrame : Type := mkFrame { address : Z }.

Record PhysRange : Type := mkRange { range_start : Z; range_len : Z }.

Definition range_end (r : PhysRange) : exec Z := add64 (range_start r) (range_len r).
Definition range_frames (r : PhysRange) : Z := range_len r / PAGE_SIZE.
Definition range_contains (r : PhysRange) (addr : Z) : exec bool :=
  if range_start r <=? addr then let! e := range_end r in Done (addr <? e) else Done false.

Record ReservedRange : Type := mkReserved { res_start : Z; res_end : Z }.

Definition res_overlaps (r : ReservedRange) (start stop : Z) : bool :=
  (res_start r <? stop) && (start <? res_end r).
Definition res_is_empty (r : ReservedRange) : bool := res_end r <=? res_start r.
Definition res_default : ReservedRange := mkReserved 0 0.

Record Config : Type := mkConfig { managed_start : Z; limit : Z }.

Definition config_new (lim : Z) : Config := mkConfig MIN_FREE_ADDR lim.

Record FrameStats : Type := mkFrameStats { fs_managed : Z; fs_free : Z }.

Inductive InitError : Type :=
| BitmapTooSmall (needed got : Z)
| TooManyReservedRanges (count : Z)
| EmptyRange (start lim : Z)
| NoUsableMemory.

Inductive FreeError : Type :=
| NotManaged (addr : Z)
| AlreadyFree (addr : Z)
| Reserved_ (addr : Z).

Record FrameAllocator : Type := mkAlloc {
  allocatable : list Z;
  used : list Z;
  first_frame : Z;
  frames : Z;
  free_frames : Z;
  reserved : list ReservedRange;
  reserved_len : Z
}.

Definition with_bitmaps (a : FrameAllocator) (al us : list Z) (n : Z) : FrameAllocator :=
  mkAlloc al us (first_frame a) (frames a) n (reserved a) (reserved_len a).

(** ** Operations *)
Definition bitmap_bytes (n : Z) : exec Z := mul64 2 (div_ceil n 8).

Definition bit (bs : list Z) (i : Z) : exec bool :=
  let! b := index bs (i / 8) in
  Done (negb (Z.land b (Z.shiftl 1 (i mod 8)) =? 0)).

Definition set_bit (bs : list Z) (i : Z) (v : bool) : exec (list Z) :=
  let mask := Z.shiftl 1 (i mod 8) in
  let! b := index bs (i / 8) in
  set_index bs (i / 8) (if v then Z.lor b mask else Z.land b (bnot 8 mask)).

Definition stats (a : FrameAllocator) : FrameStats := mkFrameStats (frames a) (free_frames a).

Definition reserved_ranges (a : FrameAllocator) : exec (list ReservedRange) :=
  slice (reserved a) 0 (reserved_len a).

Definition frame_index (a : FrameAllocator) (addr : Z) : exec (option Z) :=
  let frame := addr / PAGE_SIZE in
  if negb (is_multiple_of addr PAGE_SIZE) || (frame <? first_frame a) then Done None
  else
    let! past := add64 (first_frame a) (frames a) in
    if past <=? frame then Done None
    else let! i := sub64 frame (first_frame a) in Done (Some i).

Definition is_reserved (a : FrameAllocator) (addr : Z) : exec bool :=
  let! stop := add64 addr PAGE_SIZE in
  let! rs := reserved_ranges a in
  Done (existsb (fun r => res_overlaps r addr stop) rs).

Definition is_allocatable (a : FrameAllocator) (i : Z) : exec bool := bit (allocatable a) i.
Definition is_used (a : FrameAllocator) (i : Z) : exec bool := bit (used a) i.

Definition is_free (a : FrameAllocator) (i : Z) : exec bool :=
  let! al := is_allocatable a i in
  if al then let! us := is_used a i in Done (negb us) else Done false.

Definition mark_available (a : FrameAllocator) (addr : Z) : exec FrameAllocator :=
  let! o := frame_index a addr in
  match o with
  | None => Done a
  | Some i =>
      let! al := set_bit (allocatable a) i true in
      let! us := set_bit (used a) i false in
      let! n := add64 (free_frames a) 1 in
      Done (with_bitmaps a al us n)
  end.

Definition mark_used (a : FrameAllocator) (i : Z) : exec FrameAllocator :=
  let! us := set_bit (used a) i true in
  let! n := sub64 (free_frames a) 1 in
  Done (with_bitmaps a (allocatable a) us n).

(** The [while address < end] loop of [init]; [fuel] bounds the iterations and
    running out of it is a panic, which the theorems exclude. *)
Fixpoint mark_region (fuel : nat) (a : FrameAllocator) (addr stop : Z) : exec FrameAllocator :=
  if addr <? stop then
    match fuel with
    | O => Panic
    | S fuel =>
        let! r := is_reserved a addr in
        let! a := (if negb r then mark_available a addr else Done a) in
        let! next := add64 addr PAGE_SIZE in
        mark_region fuel a next stop
    end
  else Done a.

(** The [for region in map.iter()] loop of [init]. *)
Fixpoint mark_regions (a : FrameAllocator) (rs : list Region) (start lim : Z) :
    exec FrameAllocator :=
  match rs with
  | [] => Done a
  | r :: rs =>
      match kind r with
      | Conventional =>
          let first := Z.max (base r) start in
          let! e := region_end r in
          let last := Z.min e lim in
          let! a := mark_region (Z.to_nat (div_ceil (last - first) PAGE_SIZE)) a first last in
          mark_regions a rs start lim
      | _ => mark_regions a rs start lim
      end
  end.

Definition init (bitmap : list Z) (map : MemoryMap) (rsv : list ReservedRange) (config : Config) :
    exec (Result FrameAllocator InitError) :=
  if MAX_RESERVED_RANGES <? len rsv then Done (Err (TooManyReservedRanges (len rsv)))
  else
    let first := div_ceil (managed_start config) PAGE_SIZE in
    let end_frame := limit config / PAGE_SIZE in
    if end_frame <=? first then Done (Err (EmptyRange (managed_start config) (limit config)))
    else
      let! n := sub64 end_frame first in
      let half := div_ceil n 8 in
      let! needed := mul64 2 half in
      if len bitmap <? needed then Done (Err (BitmapTooSmall needed (len bitmap)))
      else
        let! al := slice bitmap 0 half in
        let! us := slice bitmap half (len bitmap) in
        let! slots := copy_from_slice
          (replicate (Z.to_nat MAX_RESERVED_RANGES) res_default) 0 (len rsv) rsv in
        let! al := fill al 0 half 0 in
        let! us := fill us 0 half 255 in
        let a := mkAlloc al us first n 0 slots (len rsv) in
        let! start := mul64 first PAGE_SIZE in
        let! lim := mul64 end_frame PAGE_SIZE in
        let! rs := regions map in
        let! a := mark_regions a rs start lim in
        if free_frames a =? 0 then Done (Err NoUsableMemory) else Done (Ok a).

(** The scan of [find_free_run], [n] frames from [i] on. *)
Fixpoint find_loop (a : FrameAllocator) (count : Z) (n : nat) (i run_start run : Z) :
    exec (option Z) :=
  match n with
  | O => Done None
  | S n =>
      let! f := is_free a i in
      if negb f then find_loop a count n (i + 1) run_start 0
      else
        let run_start := if run =? 0 then i else run_start in
        let! run := add64 run 1 in
        if run =? count then Done (Some run_start)
        else find_loop a count n (i + 1) run_start run
  end.

Definition find_free_run (a : FrameAllocator) (count : Z) : exec (option Z) :=
  if (count =? 0) || (frames a <? count) then Done None
  else find_loop a count (Z.to_nat (frames a)) 0 0 0.

Definition alloc (a : FrameAllocator) : exec (FrameAllocator * option PhysFrame) :=
  let! o := find_free_run a 1 in
  match o with
  | None => Done (a, None)
  | Some i =>
      let! a := mark_used a i in
      let! f := add64 (first_frame a) i in
      let! addr := mul64 f PAGE_SIZE in
      Done (a, Some (mkFrame addr))
  end.

(** [for index in start..start + count { self.mark_used(index) }]. *)
Fixpoint mark_used_run (a : FrameAllocator) (n : nat) (i : Z) : exec FrameAllocator :=
  match n with
  | O => Done a
  | S n => let! a := mark_used a i in mark_used_run a n (i + 1)
  end.

Definition alloc_contiguous (a : FrameAllocator) (count : Z) :
    exec (FrameAllocator * option PhysRange) :=
  if count =? 0 then Done (a, None)
  else
    let! o := find_free_run a count in
    match o with
    | None => Done (a, None)
    | Some start =>
        let! _ := add64 start count in
        let! a := mark_used_run a (Z.to_nat count) start in
        let! f := add64 (first_frame a) start in
        let! addr := mul64 f PAGE_SIZE in
        let! l := mul64 count PAGE_SIZE in
        Done (a, Some (mkRange addr l))
    end.

Definition free (a : FrameAllocator) (frame : PhysFrame) :
    exec (FrameAllocator * Result unit FreeError) :=
  let! o := frame_index a (address frame) in
  match o with
  | None => Done (a, Err (NotManaged (address frame)))
  | Some i =>
      let! r := is_reserved a (address frame) in
      if r then Done (a, Err (Reserved_ (address frame)))
      else
        let! al := is_allocatable a i in
        if negb al then Done (a, Err (NotManaged (address frame)))
        else
          let! us := is_used a i in
          if negb us then Done (a, Err (AlreadyFree (address frame)))
          else
            let! u := set_bit (used a) i false in
            let! n := add64 (free_frames a) 1 in
            Done (with_bitmaps a (allocatable a) u n, Ok tt)
  end.

(** [for frame in first..last] of [first_free_in]. *)
Fixpoint first_free_loop (a : FrameAllocator) (n : nat) (frame : Z) : exec (option PhysFrame) :=
  match n with
  | O => Done None
  | S n =>
      let! addr := mul64 frame PAGE_SIZE in
      let! o := frame_index a addr in
      let! f := (match o with Some i => is_free a i | None => Done false end) in
      if f then Done (Some (mkFrame addr)) else first_free_loop a n (frame + 1)
  end.

Definition first_free_in (a : FrameAllocator) (start stop : Z) : exec (option PhysFrame) :=
  let first := start / PAGE_SIZE in
  let last := div_ceil stop PAGE_SIZE in
  first_free_loop a (Z.to_nat (last - first)) first.

(** ** Specification *)

(** Bit [i] of a byte string, as a number. *)
Definition bit_at (bs : list Z) (i : Z) : bool :=
  Z.testbit (default 0 (get bs (i / 8))) (i mod 8).

Definition free_at (a : FrameAllocator) (i : Z) : bool :=
  bit_at (allocatable a) i && negb (bit_at (used a) i).

(** The address of frame [i] of the bitmaps. *)
Definition frame_addr (a : FrameAllocator) (i : Z) : Z := (first_frame a + i) * PAGE_SIZE.

Definition reserved_at (a : FrameAllocator) (addr : Z) : bool :=
  existsb (fun r => res_overlaps r addr (addr + PAGE_SIZE))
    (take (Z.to_nat (reserved_len a)) (reserved a)).

(** The free frames and all frames the allocator may hand out, by index. *)
Definition free_set (a : FrameAllocator) : gset Z :=
  list_to_set (filter (fun i => free_at a i = true) (seqZ 0 (frames a))).
Definition pool (a : FrameAllocator) : gset Z :=
  list_to_set (filter (fun i => bit_at (allocatable a) i = true) (seqZ 0 (frames a))).

(** The shape of the bitmaps and of the managed range. *)
Record frame_shape (a : FrameAllocator) : Prop := mkShape {
  fs_allocatable : frames a <= 8 * len (allocatable a);
  fs_used : frames a <= 8 * len (used a);
  fs_abytes : bytes_ok (allocatable a);
  fs_ubytes : bytes_ok (used a);
  fs_first : 0 <= first_frame a;
  fs_frames : 0 < frames a;
  fs_limit : (first_frame a + frames a) * PAGE_SIZE <= U64_MAX;
  fs_reserved : 0 <= reserved_len a <= len (reserved a)
}.

(** The invariant of the allocator: the counter counts the free frames. *)
Record frame_inv (a : FrameAllocator) : Prop := mkFrameInv {
  fi_shape : frame_shape a;
  fi_count : free_frames a = Z.of_nat (size (free_set a));
  fi_reserved : forall i, i ∈ pool a -> reserved_at a (frame_addr a i) = false
}.

(** All [count] frames from [s] on are free. *)
Definition run_free (a : FrameAllocator) (s count : Z) : Prop :=
  0 <= s /\ s + count <= frames a /\ forall i, s <= i < s + count -> free_at a i = true.

(** ** Bits *)
Lemma land_bit b k : 0 <= k -> negb (Z.land b (Z.shiftl 1 k) =? 0) = Z.testbit b k.
Proof.
  intros Hk. destruct (Z.testbit b k) eqn:E.
  - apply negb_true_iff, Z.eqb_neq. intros H.
    assert (Z.testbit (Z.land b (Z.shiftl 1 k)) k = true) as F; [|by rewrite H, Z.bits_0 in F].
    rewrite Z.land_spec, E, Z.shiftl_spec, Z.sub_diag by lia. done.
  - apply negb_false_iff, Z.eqb_eq. apply Z.bits_inj'. intros n Hn.
    rewrite Z.land_spec, Z.bits_0. destruct (Z.eq_dec n k) as [->|]; [by rewrite E|].
    rewrite Z.shiftl_spec by lia. destruct (Z.ltb_spec n k); [by rewrite (Z.testbit_neg_r 1), andb_false_r by lia|].
    rewrite (Z.bits_above_log2 1 (n - k)) by (simpl; lia). apply andb_false_r.
Qed.

Lemma testbit_one n : Z.testbit 1 n = (n =? 0).
Proof.
  destruct (Z.eqb_spec n 0) as [->|]; [done|].
  destruct (Z.ltb_spec n 0); [by apply Z.testbit_neg_r|]. apply Z.bits_above_log2; simpl; lia.
Qed.

Lemma testbit_set b k (v : bool) n :
  0 <= k < 8 -> 0 <= n < 8 ->
  Z.testbit (if v then Z.lor b (Z.shiftl 1 k) else Z.land b (bnot 8 (Z.shiftl 1 k))) n =
  if k =? n then v else Z.testbit b n.
Proof.
  intros Hk Hn. unfold bnot.
  destruct v; rewrite ?Z.lor_spec, ?Z.land_spec, ?Z.lxor_spec, ?Z.testbit_ones_nonneg,
    Z.shiftl_spec, testbit_one by lia; destruct (Z.eqb_spec k n); destruct (Z.eqb_spec (n - k) 0);
    try lia; rewrite ?(proj2 (Z.ltb_lt n 8)) by lia; destruct (Z.testbit b n); done.
Qed.

Lemma byte_set b k (v : bool) :
  is_u8 b -> 0 <= k < 8 ->
  is_u8 (if v then Z.lor b (Z.shiftl 1 k) else Z.land b (bnot 8 (Z.shiftl 1 k))).
Proof.
  intros Hb Hk. set (x := if v then _ else _).
  assert (Hx : x = Z.land x (Z.ones 8)).
  { apply Z.bits_inj'. intros n Hn. rewrite Z.land_spec, Z.testbit_ones_nonneg by lia.
    destruct (Z.ltb_spec n 8); [by rewrite andb_true_r|]. rewrite andb_false_r.
    assert (Hbn : Z.testbit b n = false).
    { destruct (Z.eq_dec b 0) as [->|]; [apply Z.bits_0|]. apply Z.bits_above_log2; [ulia|].
      eapply Z.lt_le_trans; [apply (Z.log2_lt_pow2 b 8); ulia|lia]. }
    subst x. destruct v; rewrite ?Z.lor_spec, ?Z.land_spec, Hbn; [|done].
    rewrite Z.shiftl_spec, testbit_one by lia. destruct (Z.eqb_spec (n - k) 0); [lia|done]. }
  rewrite Hx, Z.land_ones by lia. pose proof (Z.mod_pos_bound x (2 ^ 8)). ulia.
Qed.

Lemma bit_index_range (bs : list Z) i : 0 <= i < 8 * len bs -> 0 <= i / 8 < len bs.
Proof. intros H. split; [apply Z.div_pos; lia|apply Z.div_lt_upper_bound; lia]. Qed.

Lemma bit_done bs i : 0 <= i < 8 * len bs -> bit bs i = Done (bit_at bs i).
Proof.
  intros Hi. unfold bit, bit_at, index. destruct (get_lt_some bs (i / 8)) as [b Hb].
  { by apply bit_index_range. }
  rewrite Hb. simpl. rewrite land_bit; [done|]. pose proof (Z.mod_pos_bound i 8). lia.
Qed.

Lemma set_bit_done bs i v :
  0 <= i < 8 * len bs -> bytes_ok bs ->
  exists bs', set_bit bs i v = Done bs' /\ len bs' = len bs /\ bytes_ok bs' /\
    forall j, 0 <= j < 8 * len bs -> bit_at bs' j = if i =? j then v else bit_at bs j.
Proof.
  intros Hi Hok. unfold set_bit, index. pose proof (bit_index_range bs i Hi) as Hr.
  destruct (get_lt_some bs (i / 8)) as [b Hb]; [done|]. rewrite Hb. cbn [exec_bind].
  rewrite set_index_done by done. pose proof (Z.mod_pos_bound i 8 ltac:(lia)) as Hm.
  eexists. split; [done|]. split; [apply len_insert|].
  assert (Hb8 : is_u8 b).
  { apply get_some in Hb as [_ Hb]. unfold bytes_ok in Hok. rewrite Forall_lookup in Hok. by eapply Hok. }
  split; [apply Forall_insert; [done|by apply byte_set]|].
  intros j Hj. unfold bit_at at 1. rewrite get_insert_dec by done.
  pose proof (Z.mod_pos_bound j 8 ltac:(lia)) as Hmj.
  case_decide as Hd.
  - simpl. rewrite testbit_set by done. unfold bit_at. rewrite <- Hd, Hb. simpl.
    destruct (Z.eqb_spec (i mod 8) (j mod 8)), (Z.eqb_spec i j); try done.
    + pose proof (Z.div_mod i 8). pose proof (Z.div_mod j 8). lia.
    + subst. done.
  - destruct (Z.eqb_spec i j); [by subst|done].
Qed.

(** ** Free frames *)
Lemma elem_free_set a i : i ∈ free_set a <-> 0 <= i < frames a /\ free_at a i = true.
Proof.
  unfold free_set. rewrite elem_of_list_to_set, list_elem_of_filter, elem_of_seqZ. naive_solver lia.
Qed.

Lemma elem_pool a i : i ∈ pool a <-> 0 <= i < frames a /\ bit_at (allocatable a) i = true.
Proof.
  unfold pool. rewrite elem_of_list_to_set, list_elem_of_filter, elem_of_seqZ. naive_solver lia.
Qed.

Lemma free_set_pool a : free_set a ⊆ pool a.
Proof.
  intros i. rewrite elem_free_set, elem_pool. unfold free_at. intros [Hi Hf].
  apply andb_true_iff in Hf. naive_solver.
Qed.

Lemma run_free_subset a s n :
  0 <= s -> 0 <= n -> run_free a s n <-> s + n <= frames a /\ forall i, s <= i < s + n -> i ∈ free_set a.
Proof.
  intros Hs Hn. unfold run_free. setoid_rewrite elem_free_set. split.
  - intros (_ & Hl & H). split; [done|]. intros i Hi. split; [lia|by apply H].
  - intros [Hl H]. split_and!; [done..|]. intros i Hi. by apply H.
Qed.

Section Shape.

Context (a : FrameAllocator) (Hs : frame_shape a).

Lemma is_free_done i : 0 <= i < frames a -> is_free a i = Done (free_at a i).
Proof.
  intros Hi. destruct Hs. unfold is_free, is_allocatable, is_used, free_at.
  rewrite !bit_done by lia. simpl. by destruct (bit_at (allocatable a) i).
Qed.

Lemma frame_index_done addr :
  0 <= addr ->
  frame_index a addr =
    Done (if is_multiple_of addr PAGE_SIZE && (first_frame a <=? addr / PAGE_SIZE)
             && (addr / PAGE_SIZE <? first_frame a + frames a)
          then Some (addr / PAGE_SIZE - first_frame a) else None).
Proof.
  intros Ha. destruct Hs. unfold frame_index. unfold PAGE_SIZE in *.
  destruct (is_multiple_of addr 4096); simpl; [|done].
  destruct (Z.ltb_spec (addr / 4096) (first_frame a)), (Z.leb_spec (first_frame a) (addr / 4096)); try lia; simpl; [done|].
  rewrite add64_done by ulia. cbn [exec_bind].
  destruct (Z.leb_spec (first_frame a + frames a) (addr / 4096)),
    (Z.ltb_spec (addr / 4096) (first_frame a + frames a)); try lia; [done|].
  by rewrite sub64_done by lia.
Qed.

(** [frame_index] inverts [frame_addr]. *)
Lemma frame_index_addr i : 0 <= i < frames a -> frame_index a (frame_addr a i) = Done (Some i).
Proof.
  intros Hi. destruct Hs. unfold frame_addr. rewrite frame_index_done by (unfold PAGE_SIZE; lia).
  rewrite Z.div_mul by done. 
  assert (Hm : is_multiple_of ((first_frame a + i) * PAGE_SIZE) PAGE_SIZE = true)
    by (apply is_multiple_of_spec; [done|by exists (first_frame a + i)]).
  rewrite Hm.
  rewrite (proj2 (Z.leb_le _ _)), (proj2 (Z.ltb_lt _ _)) by lia. simpl. do 2 f_equal. lia.
Qed.

Lemma frame_index_some addr i :
  0 <= addr -> frame_index a addr = Done (Some i) <-> 0 <= i < frames a /\ addr = frame_addr a i.
Proof.
  intros Ha. split.
  - rewrite frame_index_done by done. intros H. injection H as H. case_match eqn:E; [|done].
    injection H as <-. unfold is_multiple_of, frame_addr in *.
    pose proof (Z.div_mod addr PAGE_SIZE ltac:(done)). unfold PAGE_SIZE in *. lia.
  - intros [Hi ->]. by apply frame_index_addr.
Qed.

Lemma frame_index_none addr :
  0 <= addr -> frame_index a addr = Done None <-> forall i, 0 <= i < frames a -> addr <> frame_addr a i.
Proof.
  intros Ha. split.
  - intros H i Hi ->. rewrite frame_index_addr in H by done. done.
  - intros H. destruct (frame_index a addr) as [[i|]|] eqn:E; [|done|].
    + apply frame_index_some in E as [Hi ->]; [|done]. by destruct (H i Hi).
    + rewrite frame_index_done in E by done. done.
Qed.

Lemma is_reserved_done addr :
  addr + PAGE_SIZE <= U64_MAX -> is_reserved a addr = Done (reserved_at a addr).
Proof.
  intros Hl. destruct Hs. unfold is_reserved, reserved_ranges. rewrite add64_done by done.
  cbn [exec_bind]. unfold slice. 
  rewrite (proj2 (get_range_some (reserved a) 0 (reserved_len a) _)) by (split_and!; [lia|lia|lia|reflexivity]).
  cbn [exec_bind]. unfold reserved_at, sub_list. by rewrite Z.sub_0_r, drop_0.
Qed.

Lemma frame_addr_limit i : 0 <= i < frames a -> 0 <= frame_addr a i /\ frame_addr a i + PAGE_SIZE <= U64_MAX.
Proof. intros Hi. destruct Hs. unfold frame_addr, PAGE_SIZE in *. lia. Qed.

End Shape.

(** ** Marking *)
Lemma with_bitmaps_shape a al us n :
  frame_shape a -> len al = len (allocatable a) -> len us = len (used a) ->
  bytes_ok al -> bytes_ok us -> frame_shape (with_bitmaps a al us n).
Proof. intros [] Ha Hu ? ?. by constructor; simpl; rewrite ?Ha, ?Hu. Qed.

(** What an operation leaves alone: the managed range and the reservations. *)
Record same_config (a b : FrameAllocator) : Prop := mkSame {
  sc_first : first_frame b = first_frame a;
  sc_frames : frames b = frames a;
  sc_reserved : reserved b = reserved a;
  sc_reserved_len : reserved_len b = reserved_len a
}.

Lemma same_config_addr a b i : same_config a b -> frame_addr b i = frame_addr a i.
Proof. intros [H _ _ _]. unfold frame_addr. by rewrite H. Qed.

Lemma same_config_at a b addr : same_config a b -> reserved_at b addr = reserved_at a addr.
Proof. intros [_ _ H1 H2]. unfold reserved_at. by rewrite H1, H2. Qed.

#[export] Instance same_config_preorder : PreOrder same_config.
Proof.
  split; [by constructor|]. intros a b c [] []. constructor; congruence.
Qed.

Lemma mark_used_spec a i :
  frame_shape a -> i ∈ free_set a -> 0 < free_frames a ->
  exists a', mark_used a i = Done a' /\ frame_shape a' /\ same_config a a' /\
    free_set a' = free_set a ∖ {[i]} /\ pool a' = pool a /\ free_frames a' = free_frames a - 1.
Proof.
  intros Hs [Hi Hf]%elem_free_set Hn. pose proof Hs as Hs0. destruct Hs0. unfold mark_used.
  destruct (set_bit_done (used a) i true) as (us & -> & Hlen & Hok & Hbit); [lia|done|].
  cbn [exec_bind]. rewrite sub64_done by lia. eexists. split; [done|].
  split_and!; [by apply with_bitmaps_shape|by constructor| |done|done].
  apply set_eq. intros j. rewrite elem_of_difference, elem_of_singleton, !elem_free_set.
  unfold free_at. simpl. split.
  - intros [Hj Hb]. rewrite Hbit in Hb by lia. destruct (Z.eqb_spec i j).
    + by rewrite andb_false_r in Hb.
    + split; [done|]. congruence.
  - intros [[Hj Hb] Hne]. rewrite Hbit by lia. destruct (Z.eqb_spec i j); [by subst|done].
Qed.

Lemma mark_used_inv a i :
  frame_inv a -> i ∈ free_set a ->
  exists a', mark_used a i = Done a' /\ frame_inv a' /\ same_config a a' /\
    free_set a' = free_set a ∖ {[i]} /\ pool a' = pool a.
Proof.
  intros [Hs Hc Hr] Hi.
  assert (Hsz : size (free_set a) <> 0%nat) by (apply size_non_empty_iff; set_solver).
  destruct (mark_used_spec a i) as (a' & E & Hs' & Hsame & Hf & Hp & Hn); [done|done|lia|].
  exists a'. split_and!; try done. constructor; [done| |].
  - rewrite Hn, Hf, size_difference, size_singleton by set_solver. lia.
  - intros j. rewrite Hp, (same_config_addr a a') by done.
    rewrite (same_config_at a a') by done. apply Hr.
Qed.

(** The frames [s .. s+n). *)
Definition run_set (s : Z) (n : nat) : gset Z := list_to_set (seqZ s (Z.of_nat n)).

Lemma elem_run_set s n i : i ∈ run_set s n <-> s <= i < s + Z.of_nat n.
Proof. unfold run_set. rewrite elem_of_list_to_set, elem_of_seqZ. lia. Qed.

Lemma mark_used_run_inv n a i :
  frame_inv a -> run_set i n ⊆ free_set a ->
  exists a', mark_used_run a n i = Done a' /\ frame_inv a' /\ same_config a a' /\
    free_set a' = free_set a ∖ run_set i n /\ pool a' = pool a.
Proof.
  revert a i. induction n as [|n IH]; intros a i Hinv Hsub; cbn [mark_used_run].
  { exists a. split_and!; try done.
    apply set_eq. intros j. rewrite elem_of_difference, elem_run_set. intuition lia. }
  destruct (mark_used_inv a i) as (a1 & -> & Hinv1 & Hsame1 & Hf1 & Hp1); [done| |].
  { apply Hsub, elem_run_set. lia. }
  cbn [exec_bind]. destruct (IH a1 (i + 1)) as (a2 & -> & Hinv2 & Hsame2 & Hf2 & Hp2); [done| |].
  { intros j Hj%elem_run_set. rewrite Hf1. apply elem_of_difference. split.
    - apply Hsub, elem_run_set. lia.
    - rewrite elem_of_singleton. lia. }
  exists a2. split; [done|]. split; [done|]. split; [by etransitivity|]. split; [|congruence].
  rewrite Hf2, Hf1. apply set_eq. intros j.
  rewrite !elem_of_difference, elem_of_singleton, !elem_run_set. intuition lia.
Qed.

Lemma find_loop_spec a count n i run_start run :
  frame_shape a -> 0 < count <= frames a ->
  0 <= run < count -> i + Z.of_nat n = frames a -> 0 <= i - run ->
  (0 < run -> run_start = i - run) ->
  (forall k, i - run <= k < i -> free_at a k = true) ->
  (forall s, run_free a s count -> i - run <= s) ->
  exists r, find_loop a count n i run_start run = Done r /\
    match r with
    | Some s => run_free a s count /\ forall s', run_free a s' count -> s <= s'
    | None => forall s, ~ run_free a s count
    end.
Proof.
  intros Hs Hc. revert i run_start run.
  induction n as [|n IH]; intros i rs run Hrun Hi Hpos Hrs Hwin Hlow; cbn [find_loop].
  { exists None. split; [done|]. intros s Hf. pose proof (Hlow s Hf). destruct Hf as (_ & ? & _). lia. }
  rewrite is_free_done by (try done; lia). cbn [exec_bind].
  destruct (free_at a i) eqn:Ef; simpl negb; cbn iota.
  - pose proof (fs_limit a Hs). pose proof (fs_first a Hs).
    rewrite add64_done by (unfold PAGE_SIZE in *; ulia). cbn [exec_bind].
    assert (Hrs' : (if run =? 0 then i else rs) = i - run)
      by (destruct (Z.eqb_spec run 0); [lia|apply Hrs; lia]).
    assert (Hwin' : forall k, i - run <= k < i + 1 -> free_at a k = true).
    { intros k Hk. destruct (Z.eq_dec k i) as [->|]; [done|]. apply Hwin. lia. }
    rewrite Hrs'. destruct (Z.eqb_spec (run + 1) count) as [Heq|Hne].
    + exists (Some (i - run)). split; [done|]. split; [|done].
      split_and!; [lia|lia|]. intros k Hk. apply Hwin'. lia.
    + apply IH; try lia; [intros k Hk; apply Hwin'; lia|].
      intros s Hf. specialize (Hlow s Hf). lia.
  - apply IH; try lia. intros s Hf. specialize (Hlow s Hf).
    destruct (Z.le_gt_cases (i + 1) s); [lia|]. destruct Hf as (Hs0 & Hb & Hf).
    rewrite Hf in Ef; [done|lia].
Qed.

Lemma find_free_run_spec a count :
  frame_shape a -> 0 < count ->
  exists r, find_free_run a count = Done r /\
    match r with
    | Some s => run_free a s count /\ forall s', run_free a s' count -> s <= s'
    | None => forall s, ~ run_free a s count
    end.
Proof.
  intros Hs Hc. unfold find_free_run. destruct (Z.eqb_spec count 0); [lia|]. simpl.
  destruct (Z.ltb_spec (frames a) count).
  - exists None. split; [done|]. intros s (? & ? & _). lia.
  - pose proof (fs_frames a Hs). apply find_loop_spec; try done; try lia.
    intros s (? & _). lia.
Qed.

(** [alloc] and [alloc_contiguous] are the same scan: the lowest run. *)
Lemma alloc_spec a :
  frame_inv a ->
  (exists i a', alloc a = Done (a', Some (mkFrame (frame_addr a i))) /\ frame_inv a' /\
     same_config a a' /\ i ∈ free_set a /\ (forall j, j ∈ free_set a -> i <= j) /\
     free_set a' = free_set a ∖ {[i]} /\ pool a' = pool a) \/
  (alloc a = Done (a, None) /\ free_set a = ∅).
Proof.
  intros Hinv. pose proof (fi_shape a Hinv) as Hs. unfold alloc.
  destruct (find_free_run_spec a 1 Hs) as (r & -> & Hr); [lia|]. cbn [exec_bind].
  assert (Hone : forall s, s ∈ free_set a <-> run_free a s 1).
  { intros s. rewrite elem_free_set. unfold run_free. split.
    - intros [Hb Hf]. split_and!; [lia..|]. intros k Hk. by replace k with s by lia.
    - intros (Hb & Hl & Hf). split; [lia|]. apply Hf. lia. }
  destruct r as [i|].
  - left. destruct Hr as [Hi Hmin]. rewrite <- Hone in Hi.
    destruct (mark_used_inv a i) as (a' & -> & Hinv' & Hsame & Hf & Hp); [done..|].
    cbn [exec_bind]. pose proof Hi as [Hib _]%elem_free_set.
    pose proof (frame_addr_limit a Hs i Hib) as Hlim. pose proof (sc_first _ _ Hsame) as Hff.
    pose proof (fs_first a Hs). unfold frame_addr, PAGE_SIZE in *.
    rewrite add64_done by ulia. cbn [exec_bind]. rewrite Hff, mul64_done by lia.
    exists i, a'. split; [done|]. split_and!; try done.
    intros j Hj. apply Hmin. by apply Hone.
  - right. split; [done|]. apply set_eq. intros s. rewrite Hone. split; [intros H; by apply Hr in H|set_solver].
Qed.

Lemma alloc_contiguous_spec a count :
  frame_inv a -> 0 < count <= U64_MAX ->
  (exists s a', alloc_contiguous a count =
       Done (a', Some (mkRange (frame_addr a s) (count * PAGE_SIZE))) /\
     frame_inv a' /\ same_config a a' /\ run_free a s count /\
     (forall s', run_free a s' count -> s <= s') /\
     free_set a' = free_set a ∖ run_set s (Z.to_nat count) /\ pool a' = pool a) \/
  (alloc_contiguous a count = Done (a, None) /\ forall s, ~ run_free a s count).
Proof.
  intros Hinv Hc. pose proof (fi_shape a Hinv) as Hs. unfold alloc_contiguous.
  destruct (Z.eqb_spec count 0); [lia|].
  destruct (find_free_run_spec a count Hs) as (r & -> & Hr); [lia|]. cbn [exec_bind].
  destruct r as [s|]; [left|right; done]. destruct Hr as [Hrun Hmin].
  pose proof Hrun as (Hs0 & Hb & Hf). pose proof (fs_limit a Hs). pose proof (fs_first a Hs).
  rewrite add64_done by (unfold PAGE_SIZE in *; ulia). cbn [exec_bind].
  destruct (mark_used_run_inv (Z.to_nat count) a s) as (a' & -> & Hinv' & Hsame & Hfs & Hp); [done| |].
  { intros i Hi%elem_run_set. apply elem_free_set. split; [lia|]. apply Hf. lia. }
  cbn [exec_bind]. pose proof (sc_first _ _ Hsame) as Hff. unfold frame_addr, PAGE_SIZE in *.
  rewrite Hff. rewrite add64_done by ulia. cbn [exec_bind]. rewrite mul64_done by lia. cbn [exec_bind].
  rewrite mul64_done by lia. by exists s, a'.
Qed.

(** ** Releasing a frame *)
Lemma free_spec a addr :
  frame_inv a -> is_u64 addr ->
  match free a (mkFrame addr) with
  | Done (a', Ok _) => frame_inv a' /\ same_config a a' /\ pool a' = pool a /\
      exists i, addr = frame_addr a i /\ i ∈ pool a ∖ free_set a /\
        free_set a' = {[i]} ∪ free_set a
  | Done (a', Err (NotManaged x)) => a' = a /\ x = addr /\
      forall i, 0 <= i < frames a -> addr = frame_addr a i -> i ∉ pool a /\ reserved_at a addr = false
  | Done (a', Err (AlreadyFree x)) => a' = a /\ x = addr /\
      exists i, addr = frame_addr a i /\ i ∈ free_set a
  | Done (a', Err (Reserved_ x)) => a' = a /\ x = addr /\ reserved_at a addr = true /\
      exists i, 0 <= i < frames a /\ addr = frame_addr a i
  | Panic => False
  end.
Proof.
  intros Hinv Hu. pose proof (fi_shape a Hinv) as Hs. pose proof (fs_limit a Hs).
  unfold free. cbn [address].
  destruct (frame_index a addr) as [[i|]|] eqn:E; cbn [exec_bind].
  2: { rewrite frame_index_none in E by (done || ulia). split_and!; [done..|]. intros i Hi Ha. by destruct (E i Hi). }
  2: { rewrite frame_index_done in E by (done || ulia). done. }
  apply frame_index_some in E as [Hi ->]; [|done|ulia].
  pose proof (frame_addr_limit a Hs i Hi) as Hlim. rewrite is_reserved_done by (done || lia).
  cbn [exec_bind]. destruct (reserved_at a (frame_addr a i)) eqn:Er; [split_and!; [done..|by exists i]|].
  pose proof (fs_allocatable a Hs). pose proof (fs_used a Hs).
  unfold is_allocatable, is_used. rewrite !bit_done by lia. cbn [exec_bind].
  assert (Hinj : forall j, frame_addr a i = frame_addr a j -> j = i)
    by (unfold frame_addr, PAGE_SIZE; intros; lia).
  destruct (bit_at (allocatable a) i) eqn:Ea; simpl negb; cbn iota.
  2: { split_and!; [done..|]. intros j Hj Hji%Hinj. subst j. rewrite elem_pool. naive_solver congruence. }
  destruct (bit_at (used a) i) eqn:Eu; simpl negb; cbn iota.
  2: { split_and!; [done..|]. exists i. rewrite elem_free_set. unfold free_at. by rewrite Ea, Eu. }
  destruct (set_bit_done (used a) i false) as (us & -> & Hlen & Hok & Hbit); [lia|by destruct Hs|].
  cbn [exec_bind].
  assert (Hnf : i ∉ free_set a) by (rewrite elem_free_set; unfold free_at; rewrite Ea, Eu; naive_solver).
  assert (Hsz : (size (free_set a) <= Z.to_nat (frames a))%nat).
  { unfold free_set. rewrite size_list_to_set by apply NoDup_filter, NoDup_seqZ.
    rewrite length_filter, length_seqZ. done. }
  pose proof (fi_count a Hinv). pose proof (fs_first a Hs). pose proof (fs_frames a Hs).
  rewrite add64_done by (unfold PAGE_SIZE in *; ulia). cbn [exec_bind].
  assert (Hf : free_set (with_bitmaps a (allocatable a) us (free_frames a + 1)) = {[i]} ∪ free_set a).
  { apply set_eq. intros j. rewrite elem_of_union, elem_of_singleton, !elem_free_set.
    unfold free_at. simpl. split.
    - intros [Hj Hb]. rewrite Hbit in Hb by lia. destruct (Z.eqb_spec i j); [by left|by right].
    - intros [->|[Hj Hb]]; [|split; [done|]]; rewrite Hbit by lia.
      + by rewrite Z.eqb_refl, Ea.
      + destruct (Z.eqb_spec i j); [by subst; rewrite Ea|done]. }
  split_and!.
  - constructor; [by apply with_bitmaps_shape; destruct Hs| |apply (fi_reserved a Hinv)].
    rewrite Hf, size_union, size_singleton by set_solver. simpl. lia.
  - by constructor.
  - done.
  - exists i. split_and!; [done| |done]. apply elem_of_difference. split; [|done]. by rewrite elem_pool.
Qed.

(** ** Construction *)
Lemma size_free_set a : 0 <= frames a -> Z.of_nat (size (free_set a)) <= frames a.
Proof.
  intros H. unfold free_set. rewrite size_list_to_set by apply NoDup_filter, NoDup_seqZ.
  pose proof (length_filter (fun i => free_at a i = true) (seqZ 0 (frames a))) as Hl.
  rewrite length_seqZ in Hl. lia.
Qed.

Lemma mark_available_spec a i :
  frame_shape a -> 0 <= i < frames a -> 0 <= free_frames a < U64_MAX ->
  exists a', mark_available a (frame_addr a i) = Done a' /\ frame_shape a' /\ same_config a a' /\
    free_set a' = {[i]} ∪ free_set a /\ pool a' = {[i]} ∪ pool a /\
    free_frames a' = free_frames a + 1.
Proof.
  intros Hs Hi Hn. unfold mark_available. rewrite frame_index_addr by done. cbn [exec_bind].
  pose proof Hs as Hs0. destruct Hs0.
  destruct (set_bit_done (allocatable a) i true) as (al & -> & Hlal & Hokal & Hbal); [lia|done|].
  destruct (set_bit_done (used a) i false) as (us & -> & Hlus & Hokus & Hbus); [lia|done|].
  cbn [exec_bind]. rewrite add64_done by lia. eexists. split; [done|].
  split; [by apply with_bitmaps_shape|]. split; [by constructor|]. split_and!; [| |done].
  - apply set_eq. intros j. rewrite elem_of_union, elem_of_singleton, !elem_free_set.
    unfold free_at. simpl. destruct (Z.eqb_spec i j) as [->|Hne].
    + rewrite Hbal, Hbus, Z.eqb_refl by lia. naive_solver.
    + split.
      * intros [Hj Hb]. rewrite Hbal, Hbus in Hb by lia. right.
        by rewrite (proj2 (Z.eqb_neq i j)) in Hb.
      * intros [->|[Hj Hb]]; [done|]. rewrite Hbal, Hbus by lia.
        by rewrite (proj2 (Z.eqb_neq i j)).
  - apply set_eq. intros j. rewrite elem_of_union, elem_of_singleton, !elem_pool. simpl.
    destruct (Z.eqb_spec i j) as [->|Hne].
    + rewrite Hbal, Z.eqb_refl by lia. naive_solver.
    + split.
      * intros [Hj Hb]. rewrite Hbal in Hb by lia. right. by rewrite (proj2 (Z.eqb_neq i j)) in Hb.
      * intros [->|[Hj Hb]]; [done|]. rewrite Hbal by lia. by rewrite (proj2 (Z.eqb_neq i j)).
Qed.

(** The frames the [while] loop visits from [addr] up to [stop]: those at
    page-sized steps from [addr], in range and not reserved. *)
Definition span_gives (a : FrameAllocator) (addr stop i : Z) : bool :=
  is_multiple_of addr PAGE_SIZE && (addr <=? frame_addr a i) && (frame_addr a i <? stop) &&
  negb (reserved_at a (frame_addr a i)).
Definition span_set (a : FrameAllocator) (addr stop : Z) : gset Z :=
  list_to_set (filter (fun i => span_gives a addr stop i = true) (seqZ 0 (frames a))).

Lemma elem_span_set a addr stop i :
  i ∈ span_set a addr stop <-> 0 <= i < frames a /\ span_gives a addr stop i = true.
Proof.
  unfold span_set. rewrite elem_of_list_to_set, list_elem_of_filter, elem_of_seqZ. naive_solver lia.
Qed.

Lemma span_set_same a b addr stop : same_config a b -> span_set b addr stop = span_set a addr stop.
Proof.
  intros Hsame. apply set_eq. intros i. rewrite !elem_span_set. unfold span_gives.
  rewrite (same_config_addr a b), (same_config_at a b), (sc_frames a b) by done. done.
Qed.

Lemma span_set_empty a addr stop : stop <= addr -> span_set a addr stop = ∅.
Proof.
  intros H. apply set_eq. intros i. rewrite elem_span_set. unfold span_gives.
  split; [|set_solver]. intros [_ Hg]. lia.
Qed.

(** The first step of the loop, when [addr] is the address of a frame. *)
Lemma span_set_hit a i stop :
  0 <= i < frames a -> 0 <= first_frame a -> frame_addr a i < stop ->
  span_set a (frame_addr a i) stop =
    (if reserved_at a (frame_addr a i) then ∅ else {[i]}) ∪ span_set a (frame_addr a i + PAGE_SIZE) stop.
Proof.
  intros Hi Hf Hlt. apply set_eq. intros j. rewrite elem_of_union, !elem_span_set. unfold span_gives.
  assert (Hm : is_multiple_of (frame_addr a i) PAGE_SIZE = true)
    by (apply is_multiple_of_spec; [done|by exists (first_frame a + i)]).
  assert (Hm2 : is_multiple_of (frame_addr a i + PAGE_SIZE) PAGE_SIZE = true)
    by (apply is_multiple_of_spec; [done|exists (first_frame a + i + 1); unfold frame_addr; lia]).
  rewrite Hm, Hm2. simpl. destruct (Z.eq_dec j i) as [->|Hne].
  - destruct (reserved_at a (frame_addr a i)); simpl; rewrite ?andb_false_r.
    + set_solver.
    + rewrite elem_of_singleton. unfold frame_addr, PAGE_SIZE in *. split; [by left|].
      intros _. split; [done|]. lia.
  - assert (Hj : (frame_addr a i <=? frame_addr a j) = (frame_addr a i + PAGE_SIZE <=? frame_addr a j)).
    { unfold frame_addr, PAGE_SIZE in *. lia. }
    rewrite Hj. split; [by right|]. intros [H|H]; [|done].
    destruct (reserved_at a (frame_addr a i)); set_solver.
Qed.

(** ... and when it is not: nothing at [addr], and no later frame is missed. *)
Lemma span_set_miss a addr stop :
  (forall i, 0 <= i < frames a -> addr <> frame_addr a i) ->
  span_set a addr stop = span_set a (addr + PAGE_SIZE) stop.
Proof.
  intros Hno. apply set_eq. intros j. rewrite !elem_span_set. unfold span_gives.
  assert (Hm : is_multiple_of (addr + PAGE_SIZE) PAGE_SIZE = is_multiple_of addr PAGE_SIZE).
  { unfold is_multiple_of. rewrite <- (Z.mod_add addr 1 PAGE_SIZE) by done. by rewrite Z.mul_1_l. }
  rewrite Hm, !andb_true_iff, !Z.leb_le, !Z.ltb_lt.
  split; intros (Hj & ((Hg & Hle) & Hlt) & Hr); specialize (Hno j Hj);
    (split; [done|]); (split; [split; [split; [done|]|done]|done]).
  - unfold is_multiple_of, frame_addr, PAGE_SIZE in *.
    apply Z.eqb_eq, Z.mod_divide in Hg as [k ->]; [|done]. lia.
  - unfold PAGE_SIZE in *. lia.
Qed.

(** What the marking loops preserve: nothing has been handed out yet. *)
Definition fresh (a : FrameAllocator) : Prop := frame_shape a /\ pool a = free_set a.

Lemma mark_region_spec fuel a addr stop :
  fresh a -> 0 <= addr -> stop - addr <= Z.of_nat fuel * PAGE_SIZE ->
  stop <= (first_frame a + frames a) * PAGE_SIZE ->
  0 <= free_frames a -> free_frames a + Z.of_nat (size (span_set a addr stop)) <= U64_MAX ->
  exists a', mark_region fuel a addr stop = Done a' /\ fresh a' /\ same_config a a' /\
    free_set a' = span_set a addr stop ∪ free_set a /\
    free_frames a' = free_frames a + Z.of_nat (size (span_set a addr stop)).
Proof.
  revert a addr. induction fuel as [|fuel IH]; intros a addr [Hs Hp] Ha Hfuel Hstop Hn Hmax.
  - cbn [mark_region]. destruct (Z.ltb_spec addr stop); [lia|].
    exists a. rewrite span_set_empty, size_empty by lia. split_and!; try done; [set_solver|lia].
  - cbn [mark_region]. destruct (Z.ltb_spec addr stop) as [Hlt|Hge].
    2: { exists a. rewrite span_set_empty, size_empty by lia. split_and!; try done; [set_solver|lia]. }
    pose proof (fs_limit a Hs) as Hl. pose proof (fs_first a Hs) as Hff.
    assert (Hadd : addr + PAGE_SIZE <= U64_MAX) by (unfold PAGE_SIZE in *; ulia).
    rewrite is_reserved_done by done. cbn [exec_bind]. rewrite add64_done by done.
    destruct (frame_index a addr) as [[i|]|] eqn:Ei.
    + apply frame_index_some in Ei as [Hi ->]; [|done..].
      pose proof (span_set_hit a i stop Hi Hff Hlt) as Hspan.
      destruct (reserved_at a (frame_addr a i)); simpl negb; cbn iota; cbn [exec_bind].
      * rewrite (left_id_L ∅ (∪)) in Hspan. rewrite Hspan in *. apply IH; try done; unfold PAGE_SIZE in *; lia.
      * assert (Hnot : i ∉ span_set a (frame_addr a i + PAGE_SIZE) stop).
        { rewrite elem_span_set. unfold span_gives, PAGE_SIZE. lia. }
        rewrite Hspan, size_union, size_singleton in Hmax by set_solver.
        destruct (mark_available_spec a i) as (a1 & -> & Hs1 & Hsame1 & Hf1 & Hp1 & Hn1); [done|done|lia|].
        cbn [exec_bind]. pose proof (span_set_same a a1 (frame_addr a i + PAGE_SIZE) stop Hsame1) as Hsp1.
        destruct (IH a1 (frame_addr a i + PAGE_SIZE)) as (a2 & -> & Hfr2 & Hsame2 & Hf2 & Hn2).
        { split; [done|]. by rewrite Hf1, Hp1, Hp. }
        { unfold PAGE_SIZE. lia. }
        { unfold PAGE_SIZE in *. lia. }
        { by rewrite (sc_first _ _ Hsame1), (sc_frames _ _ Hsame1). }
        { lia. }
        { rewrite Hsp1, Hn1. lia. }
        exists a2. split; [done|]. split; [done|]. split; [by etransitivity|].
        rewrite Hf2, Hn2, Hsp1, Hf1, Hn1, Hspan. rewrite size_union, size_singleton by set_solver.
        split; [set_solver|lia].
    + rewrite frame_index_none in Ei by done. pose proof (span_set_miss a addr stop Ei) as Hspan.
      assert (Hnone : (if negb (reserved_at a addr) then mark_available a addr else Done a) = Done a).
      { destruct (reserved_at a addr); [done|]. simpl. unfold mark_available.
        by rewrite (proj2 (frame_index_none a Hs addr Ha) Ei). }
      rewrite Hnone. cbn [exec_bind]. rewrite Hspan in *. apply IH; try done; unfold PAGE_SIZE in *; lia.
    + rewrite frame_index_done in Ei by done. done.
Qed.

(** The frames a region of the memory map contributes. *)
Definition region_set (a : FrameAllocator) (r : Region) : gset Z :=
  match kind r with
  | Conventional =>
      span_set a (Z.max (base r) (first_frame a * PAGE_SIZE))
        (Z.min (end_of r) ((first_frame a + frames a) * PAGE_SIZE))
  | _ => ∅
  end.

Definition contributed (a : FrameAllocator) (rs : list Region) : Z :=
  foldr (fun r n => Z.of_nat (size (region_set a r)) + n) 0 rs.

Lemma region_set_same a b r : same_config a b -> region_set b r = region_set a r.
Proof.
  intros H. unfold region_set. rewrite (sc_first a b), (sc_frames a b) by done.
  destruct (kind r); try done. by apply span_set_same.
Qed.

Lemma contributed_same a b rs : same_config a b -> contributed b rs = contributed a rs.
Proof.
  intros H. induction rs as [|r rs IH]; [done|]. simpl. by rewrite IH, (region_set_same a b).
Qed.

Lemma contributed_nonneg a rs : 0 <= contributed a rs.
Proof. induction rs; simpl; lia. Qed.

Definition region_fits (r : Region) : Prop :=
  end_of r <= U64_MAX /\ is_u64 (base r) /\ is_u64 (pages r).

Lemma mark_regions_spec rs a :
  fresh a -> Forall region_fits rs ->
  0 <= free_frames a -> free_frames a + contributed a rs <= U64_MAX ->
  exists a', mark_regions a rs (first_frame a * PAGE_SIZE) ((first_frame a + frames a) * PAGE_SIZE)
      = Done a' /\ fresh a' /\ same_config a a' /\
    (forall i, i ∈ free_set a' <-> i ∈ free_set a \/ exists r, r ∈ rs /\ i ∈ region_set a r) /\
    free_frames a' = free_frames a + contributed a rs.
Proof.
  revert a. induction rs as [|r rs IH]; intros a Hfr Hfit Hn Hmax; cbn [mark_regions].
  { exists a. split_and!; try done; [|simpl; lia]. intros i. set_solver. }
  apply Forall_cons_iff in Hfit as [(He & Hb & Hp) Hfit]. simpl in Hmax.
  pose proof (contributed_nonneg a rs) as Hc.
  destruct (decide (kind r = Conventional)) as [Ek|Ek].
  2: { assert (Hrs : region_set a r = ∅) by (unfold region_set; by destruct (kind r)).
       rewrite Hrs, size_empty in Hmax. destruct (IH a) as (a' & E & Hfr' & Hs' & Hf' & Hn'); [done..|lia|].
       exists a'. split_and!; try done.
       - by destruct (kind r).
       - intros i. rewrite Hf'. setoid_rewrite elem_of_cons.
         split; intros [?|(x & ? & ?)]; eauto. destruct_or?; subst; set_solver.
       - simpl. rewrite Hrs, size_empty. lia. }
  rewrite Ek. rewrite region_end_done by done. cbn [exec_bind].
  assert (Hrs : region_set a r = span_set a (Z.max (base r) (first_frame a * PAGE_SIZE))
    (Z.min (end_of r) ((first_frame a + frames a) * PAGE_SIZE))) by (unfold region_set; by rewrite Ek).
  set (first := Z.max (base r) _) in *. set (last := Z.min (end_of r) _) in *.
  destruct (mark_region_spec (Z.to_nat (div_ceil (last - first) PAGE_SIZE)) a first last)
    as (a1 & -> & Hfr1 & Hs1 & Hf1 & Hn1); [done|ulia| |lia|lia|rewrite <- Hrs; lia|].
  { pose proof (div_ceil_spec (last - first) PAGE_SIZE ltac:(done)) as Hd. unfold PAGE_SIZE in *. lia. }
  cbn [exec_bind]. rewrite <- Hrs in Hf1, Hn1.
  destruct (IH a1) as (a2 & E2 & Hfr2 & Hs2 & Hf2 & Hn2);
    [done|done|lia|rewrite (contributed_same a a1) by done; lia|].
  rewrite (sc_first _ _ Hs1), (sc_frames _ _ Hs1) in E2. rewrite E2.
  exists a2. split; [done|]. split; [done|]. split; [by etransitivity|]. split.
  - intros i. rewrite Hf2, Hf1, elem_of_union. setoid_rewrite elem_of_cons.
    setoid_rewrite (region_set_same a a1); [|done].
    split; [intros [[?|?]|(x & ? & ?)]; eauto|].
    intros [?|(x & [->|?] & ?)]; eauto.
  - simpl. rewrite Hn2, Hn1, (contributed_same a a1) by done. lia.
Qed.

(** The allocator [init] starts marking from. *)
Definition blank (bitmap : list Z) (rsv : list ReservedRange) (config : Config) : FrameAllocator :=
  let first := div_ceil (managed_start config) PAGE_SIZE in
  let n := limit config / PAGE_SIZE - first in
  let half := div_ceil n 8 in
  mkAlloc (replicate (Z.to_nat half) 0)
    (replicate (Z.to_nat half) 255 ++ drop (Z.to_nat (2 * half)) bitmap)
    first n 0 (rsv ++ replicate (Z.to_nat (MAX_RESERVED_RANGES - len rsv)) res_default) (len rsv).

Definition config_ok (c : Config) : Prop := is_u64 (managed_start c) /\ is_u64 (limit c).

Lemma div_ceil_nonneg x y : 0 <= x -> 0 < y -> 0 <= div_ceil x y.
Proof. intros. rewrite div_ceil_alt by lia. apply Z.div_pos; lia. Qed.

Section Init.

Context (bitmap : list Z) (rsv : list ReservedRange) (config : Config).
Context (Hbytes : bytes_ok bitmap) (Hcfg : config_ok config).
Context (Hrsv : len rsv <= MAX_RESERVED_RANGES).
Context (Hrange : div_ceil (managed_start config) PAGE_SIZE < limit config / PAGE_SIZE).

Let a0 := blank bitmap rsv config.
Let half := div_ceil (frames a0) 8.

Context (Hbitmap : 2 * half <= len bitmap).

Lemma blank_range : 0 <= first_frame a0 /\ 0 < frames a0 /\
  first_frame a0 + frames a0 = limit config / PAGE_SIZE /\
  (first_frame a0 + frames a0) * PAGE_SIZE <= limit config.
Proof.
  destruct Hcfg as [Hm Hl]. subst a0. simpl.
  pose proof (div_ceil_nonneg (managed_start config) PAGE_SIZE ltac:(ulia) ltac:(done)).
  pose proof (Z.mul_div_le (limit config) PAGE_SIZE ltac:(done)). lia.
Qed.

Lemma blank_half : 0 <= half /\ frames a0 <= 8 * half.
Proof.
  pose proof blank_range. pose proof (div_ceil_spec (frames a0) 8 ltac:(lia)).
  pose proof (div_ceil_nonneg (frames a0) 8). subst half. lia.
Qed.

Lemma blank_shape : frame_shape a0.
Proof.
  destruct blank_range as (H1 & H2 & H3 & H4). destruct blank_half as [H5 H6].
  pose proof (len_nonneg rsv). destruct Hcfg as [Hm Hl].
  assert (Ha : len (allocatable a0) = half).
  { change (len (replicate (Z.to_nat half) 0) = half). rewrite len_replicate. lia. }
  assert (Hu : half <= len (used a0)).
  { change (half <= len (replicate (Z.to_nat half) 255 ++ drop (Z.to_nat (2 * half)) bitmap)).
    rewrite len_app, len_replicate. pose proof (len_nonneg (drop (Z.to_nat (2 * half)) bitmap)). lia. }
  constructor; try lia.
  - apply Forall_replicate. ulia.
  - apply Forall_app. split; [apply Forall_replicate; ulia|by apply Forall_drop].
  - ulia.
  - simpl. rewrite len_app, len_replicate. ulia.
Qed.

Lemma blank_empty : pool a0 = ∅.
Proof.
  apply set_eq. intros i. rewrite elem_pool. split; [|set_solver]. intros [_ Hb].
  unfold bit_at in Hb. simpl in Hb. destruct (get _ _) as [x|] eqn:E in Hb; [|by rewrite Z.bits_0 in Hb].
  apply get_some in E as [_ E]. apply lookup_replicate in E as [-> _].
  simpl in Hb. by rewrite Z.bits_0 in Hb.
Qed.

Lemma blank_fresh : fresh a0.
Proof.
  split; [apply blank_shape|]. pose proof blank_empty. pose proof (free_set_pool a0). set_solver.
Qed.

(** Past its checks, [init] marks the regions on the blank allocator. *)
Lemma init_marks map :
  init bitmap map rsv config =
    let! rs := regions map in
    let! a := mark_regions a0 rs (first_frame a0 * PAGE_SIZE)
      ((first_frame a0 + frames a0) * PAGE_SIZE) in
    if free_frames a =? 0 then Done (Err NoUsableMemory) else Done (Ok a).
Proof.
  destruct blank_range as (H1 & H2 & H3 & H4). destruct blank_half as [H5 H6].
  pose proof (len_nonneg rsv) as Hr0. destruct Hcfg as [Hm Hl].
  unfold init. rewrite (proj2 (Z.ltb_ge _ _)) by lia. rewrite (proj2 (Z.leb_gt _ _)) by lia.
  rewrite sub64_done by lia. cbn [exec_bind].
  change (limit config / PAGE_SIZE - div_ceil (managed_start config) PAGE_SIZE) with (frames a0).
  fold half. assert (Hh : half * PAGE_SIZE <= U64_MAX).
  { unfold half. rewrite div_ceil_alt by lia. pose proof (Z.mul_div_le (frames a0 + 8 - 1) 8 ltac:(lia)).
    unfold PAGE_SIZE in *. ulia. }
  rewrite mul64_done by (unfold PAGE_SIZE in *; ulia). cbn [exec_bind].
  rewrite (proj2 (Z.ltb_ge _ _)) by lia.
  unfold slice. rewrite (proj2 (get_range_some bitmap 0 half _)) by (split_and!; [lia|lia|lia|reflexivity]).
  rewrite (proj2 (get_range_some bitmap half (len bitmap) _)) by (split_and!; [lia|lia|lia|reflexivity]).
  cbn [exec_bind].
  rewrite copy_from_slice_done by (rewrite ?len_replicate; ulia). cbn [exec_bind]. unfold fill.
  rewrite !len_sub_list by lia. rewrite !(proj2 (andb_true_iff _ _)) by (rewrite ?andb_true_iff; lia).
  cbn [exec_bind].
  rewrite mul64_done by (unfold PAGE_SIZE in *; simpl in *; ulia). cbn [exec_bind].
  rewrite mul64_done by (unfold PAGE_SIZE in *; simpl in *; ulia). cbn [exec_bind].
  rewrite <- H3. change (div_ceil (managed_start config) PAGE_SIZE) with (first_frame a0).
  match goal with |- exec_bind _ (fun rs => exec_bind (mark_regions ?x _ _ _) _) = _ => assert (E : x = a0) end.
  2: by rewrite E.
  subst a0. unfold blank. fold half. f_equal.
  - unfold splice, sub_list. rewrite Z.sub_0_r, drop_0. simpl. rewrite drop_ge, app_nil_r; [done|].
    rewrite length_replicate, length_take. lia.
  - unfold splice, sub_list. rewrite Z.sub_0_r. simpl. rewrite length_replicate, firstn_all2; [|rewrite length_drop; unfold len; lia].
    rewrite drop_drop. do 2 f_equal. change (div_ceil _ 8) with half. lia.
  - unfold splice. change (Z.to_nat 0) with 0%nat. rewrite take_0, drop_replicate, app_nil_l.
    do 2 f_equal. unfold len. lia.
Qed.

End Init.

(** The checks [init] makes before it touches the bitmaps. *)
Definition init_check (bitmap : list Z) (rsv : list ReservedRange) (config : Config) : option InitError :=
  let first := div_ceil (managed_start config) PAGE_SIZE in
  let end_frame := limit config / PAGE_SIZE in
  let needed := 2 * div_ceil (end_frame - first) 8 in
  if MAX_RESERVED_RANGES <? len rsv then Some (TooManyReservedRanges (len rsv))
  else if end_frame <=? first then Some (EmptyRange (managed_start config) (limit config))
  else if len bitmap <? needed then Some (BitmapTooSmall needed (len bitmap))
  else None.

(** A page the allocator may hand out, said in terms of the memory map. *)
Definition usable_page (rs : list Region) (rsv : list ReservedRange) (config : Config) (p : Z) : Prop :=
  (PAGE_SIZE | p) /\ managed_start config <= p /\ p + PAGE_SIZE <= limit config /\
  (exists r, r ∈ rs /\ kind r = Conventional /\ base r <= p /\ p + PAGE_SIZE <= end_of r) /\
  forall x, x ∈ rsv -> res_overlaps x p (p + PAGE_SIZE) = false.

Definition free_page (a : FrameAllocator) (p : Z) : Prop :=
  exists i, i ∈ free_set a /\ p = frame_addr a i.

(** Two conventional regions do not share memory. *)
Definition region_apart (r1 r2 : Region) : Prop :=
  kind r1 = Conventional -> kind r2 = Conventional ->
  end_of r1 <= base r2 \/ end_of r2 <= base r1.

Definition page_aligned (r : Region) : Prop := (PAGE_SIZE | base r).

Lemma elem_region_set a r i :
  0 <= base r -> page_aligned r -> frame_shape a ->
  i ∈ region_set a r <-> 0 <= i < frames a /\ kind r = Conventional /\
    base r <= frame_addr a i /\ frame_addr a i + PAGE_SIZE <= end_of r /\
    reserved_at a (frame_addr a i) = false.
Proof.
  intros Hb [k Hk] Hs. pose proof (fs_first a Hs). unfold region_set.
  assert (Hm : is_multiple_of (Z.max (base r) (first_frame a * PAGE_SIZE)) PAGE_SIZE = true).
  { apply is_multiple_of_spec; [done|]. exists (Z.max k (first_frame a)). unfold PAGE_SIZE in *. lia. }
  destruct (kind r); try (split; [set_solver|naive_solver]; fail).
  rewrite elem_span_set. unfold span_gives. rewrite Hm, !andb_true_iff, Z.leb_le, Z.ltb_lt, negb_true_iff.
  unfold end_of, frame_addr, PAGE_SIZE in *.
  split; [intros (? & ((_ & ?) & ?) & ?)|intros (? & _ & ? & ? & ?)]; split_and!; try done; lia.
Qed.

Lemma elem_union_fmap {A : Type} (f : A -> gset Z) l i :
  i ∈ ⋃ (f <$> l) <-> exists x, x ∈ l /\ i ∈ f x.
Proof.
  rewrite elem_of_union_list. setoid_rewrite list_elem_of_fmap. split.
  - intros (X & (x & -> & Hx) & Hi). by exists x.
  - intros (x & Hx & Hi). exists (f x). split; [by exists x|done].
Qed.

Lemma contributed_disjoint a rs :
  frame_shape a -> ForallOrdPairs region_apart rs -> Forall region_fits rs ->
  Forall page_aligned rs ->
  contributed a rs = Z.of_nat (size (⋃ (region_set a <$> rs))).
Proof.
  intros Hs. induction 1 as [|r rs Hr Hrs IH]; intros Hfit Hal; [done|].
  apply Forall_cons_iff in Hfit as [Hf Hfit], Hal as [Ha Hal].
  cbn [contributed foldr fmap list_fmap union_list]. fold (contributed a rs). rewrite IH by done.
  rewrite size_union; [lia|]. intros i Hi Hu. apply elem_union_fmap in Hu as (r2 & Hin & HiX). rewrite Forall_forall in Hr, Hfit, Hal.
  destruct Hf as (_ & Hb & _). destruct (Hfit r2 Hin) as (_ & Hb2 & _).
  apply elem_region_set in Hi as (_ & Hk1 & ? & ? & _); [|ulia|done|done].
  apply elem_region_set in HiX as (_ & Hk2 & ? & ? & _); [|ulia|by apply Hal|done].
  destruct (Hr r2 Hin Hk1 Hk2); unfold PAGE_SIZE in *; lia.
Qed.

Lemma init_checked bitmap map rsv config e :
  config_ok config -> init_check bitmap rsv config = Some e -> init bitmap map rsv config = Done (Err e).
Proof.
  intros [Hm Hl]. unfold init_check, init. case_match; [by intros [= <-]|].
  case_match eqn:E; [by intros [= <-]|]. apply Z.leb_gt in E.
  pose proof (div_ceil_nonneg (managed_start config) PAGE_SIZE ltac:(ulia) ltac:(done)).
  pose proof (Z.mul_div_le (limit config) PAGE_SIZE ltac:(done)).
  set (n := limit config / PAGE_SIZE - _). pose proof (div_ceil_spec n 8 ltac:(lia)).
  rewrite sub64_done by lia. cbn [exec_bind]. fold n.
  rewrite mul64_done by (unfold PAGE_SIZE in *; ulia). cbn [exec_bind].
  case_match; [by intros [= <-]|done].
Qed.

Lemma blank_reserved bitmap rsv config p :
  reserved_at (blank bitmap rsv config) p = existsb (fun r => res_overlaps r p (p + PAGE_SIZE)) rsv.
Proof.
  unfold reserved_at, blank. simpl. unfold len. rewrite Nat2Z.id, take_app_length. done.
Qed.

Lemma existsb_false_forall {A : Type} (f : A -> bool) l :
  existsb f l = false <-> forall x, x ∈ l -> f x = false.
Proof.
  induction l as [|y l IH]; simpl; [set_solver|]. rewrite orb_false_iff, IH.
  setoid_rewrite elem_of_cons. naive_solver.
Qed.

Section InitOk.

Context (bitmap : list Z) (map : MemoryMap) (rsv : list ReservedRange) (config : Config).
Context (Hbytes : bytes_ok bitmap) (Hcfg : config_ok config) (Hmap : map_ok map).
Context (Halign : Forall page_aligned (region_list map)).
Context (Hapart : ForallOrdPairs region_apart (region_list map)).
Context (Hcheck : init_check bitmap rsv config = None).

Let a0 := blank bitmap rsv config.

Lemma init_check_none :
  len rsv <= MAX_RESERVED_RANGES /\
  div_ceil (managed_start config) PAGE_SIZE < limit config / PAGE_SIZE /\
  2 * div_ceil (frames a0) 8 <= len bitmap.
Proof using Hcheck. unfold init_check in Hcheck. subst a0. simpl. repeat case_match; try done. lia. Qed.

Lemma init_contributes p :
  (exists i, (exists r, r ∈ region_list map /\ i ∈ region_set a0 r) /\ p = frame_addr a0 i) <->
  usable_page (region_list map) rsv config p.
Proof.
  destruct init_check_none as (H1 & H2 & H3).
  assert (Hs : frame_shape a0) by (by apply blank_shape).
  pose proof (map_ok_regions_bounded map Hmap) as Hb. rewrite Forall_forall in Hb, Halign.
  pose proof (div_ceil_spec (managed_start config) PAGE_SIZE ltac:(done)) as Hd.
  pose proof (Z.div_mod (limit config) PAGE_SIZE ltac:(done)) as Hl.
  pose proof (Z.mod_pos_bound (limit config) PAGE_SIZE ltac:(done)) as Hlm.
  unfold usable_page. rewrite <- (existsb_false_forall (fun x => res_overlaps x p (p + PAGE_SIZE))).
  rewrite <- (blank_reserved bitmap rsv config p). fold a0.
  assert (Ef : first_frame a0 = div_ceil (managed_start config) PAGE_SIZE) by done.
  assert (En : frames a0 = limit config / PAGE_SIZE - first_frame a0) by done.
  split.
  - intros (i & (r & Hr & Hi) & ->). destruct (Hb r Hr) as (_ & Hbr & _).
    apply elem_region_set in Hi as (Hi & Hk & Hlo & Hhi & Hres); [|ulia|by apply Halign|done].
    split; [by exists (first_frame a0 + i)|]. unfold frame_addr in *.
    split_and!; [unfold PAGE_SIZE in *; lia..|by exists r|done].
  - intros ([k ->] & Hlo & Hhi & (r & Hr & Hk & Hbr & Her) & Hres).
    destruct (Hb r Hr) as (_ & Hbb & _).
    assert (Ea : frame_addr a0 (k - first_frame a0) = k * PAGE_SIZE) by (unfold frame_addr; lia).
    exists (k - first_frame a0). split; [|done]. exists r. split; [done|].
    apply elem_region_set; [ulia|by apply Halign|done|]. rewrite Ea.
    split_and!; try done; unfold PAGE_SIZE in *; lia.
Qed.

Lemma init_ok :
  exists a, mark_regions a0 (region_list map) (first_frame a0 * PAGE_SIZE)
      ((first_frame a0 + frames a0) * PAGE_SIZE) = Done a /\
    init bitmap map rsv config =
      (if free_frames a =? 0 then Done (Err NoUsableMemory) else Done (Ok a)) /\
    frame_inv a /\ same_config a0 a /\ pool a = free_set a /\
    forall p, free_page a p <-> usable_page (region_list map) rsv config p.
Proof.
  destruct init_check_none as (H1 & H2 & H3).
  assert (Hfr0 : fresh a0) by (by apply blank_fresh).
  assert (Hp0 : pool a0 = ∅) by (by apply blank_empty).
  pose proof (map_ok_regions_bounded map Hmap) as Hb.
  pose proof (contributed_disjoint a0 (region_list map) (proj1 Hfr0) Hapart Hb Halign) as Hc.
  assert (HU : forall i, i ∈ ⋃ (region_set a0 <$> region_list map) <->
    exists r, r ∈ region_list map /\ i ∈ region_set a0 r).
  { apply elem_union_fmap. }
  assert (Hsz : contributed a0 (region_list map) <= frames a0).
  { rewrite Hc. transitivity (Z.of_nat (size (list_to_set (seqZ 0 (frames a0)) : gset Z))).
    - apply inj_le, subseteq_size. intros i (r & Hr & Hi)%HU. rewrite elem_of_list_to_set, elem_of_seqZ.
      rewrite Forall_forall in Hb, Halign. destruct (Hb r Hr) as (_ & Hbr & _).
      apply elem_region_set in Hi as (Hi & _); [lia|ulia|by apply Halign|exact (proj1 Hfr0)].
    - rewrite size_list_to_set by apply NoDup_seqZ. rewrite length_seqZ.
      destruct Hfr0 as [[] _]. lia. }
  destruct (mark_regions_spec (region_list map) a0) as (a & Em & [Hs Hp] & Hsame & Hf & Hn); [done|done|done| |].
  { simpl (free_frames a0). destruct Hfr0 as [[] _]. unfold PAGE_SIZE in *. ulia. }
  exists a. split; [done|]. split.
  { rewrite init_marks by done. fold a0.
    rewrite (regions_ok map Hmap). cbn [exec_bind]. rewrite Em. done. }
  assert (Hf' : forall i, i ∈ free_set a <-> exists r, r ∈ region_list map /\ i ∈ region_set a0 r).
  { intros i. rewrite Hf. destruct Hfr0 as [_ <-]. rewrite Hp0. set_solver. }
  split_and!; [|done|done|].
  - constructor; [done| |].
    + rewrite Hn, Hc. change (free_frames a0) with 0. rewrite Z.add_0_l. do 2 f_equal.
      apply set_eq. intros i. by rewrite HU, Hf'.
    + intros i. rewrite Hp, Hf'. intros (r & Hr & Hi).
      rewrite Forall_forall in Hb, Halign. destruct (Hb r Hr) as (_ & Hbr & _).
      apply elem_region_set in Hi; [|ulia|by apply Halign|exact (proj1 Hfr0)].
      rewrite (same_config_at a0 a), (same_config_addr a0 a) by done. naive_solver.
  - intros p. rewrite <- init_contributes. unfold free_page.
    setoid_rewrite Hf'. by setoid_rewrite (same_config_addr a0 a).
Qed.

End InitOk.

(** ** Operation sequences *)
Inductive frame_op : Type :=
| OpAlloc
| OpAllocContiguous (count : Z)
| OpFree (addr : Z).

(** The pages of a range. *)
Definition range_pages (r : PhysRange) : list Z :=
  (fun i : nat => range_start r + Z.of_nat i * PAGE_SIZE) <$> seq 0 (Z.to_nat (range_frames r)).

(** Runs an operation, and a sequence of them, and keeps the pages handed out
    and not released since. *)
Definition frame_step (op : frame_op) (a : FrameAllocator) (owned : list Z) :
    exec (FrameAllocator * list Z) :=
  match op with
  | OpAlloc =>
      let! (a, o) := alloc a in
      Done (a, match o with Some f => address f :: owned | None => owned end)
  | OpAllocContiguous n =>
      let! (a, o) := alloc_contiguous a n in
      Done (a, match o with Some r => range_pages r ++ owned | None => owned end)
  | OpFree p =>
      let! (a, r) := free a (mkFrame p) in
      Done (a, match r with Ok _ => filter (fun q => q <> p) owned | Err _ => owned end)
  end.

Fixpoint frame_run (ops : list frame_op) (a : FrameAllocator) (owned : list Z) :
    exec (FrameAllocator * list Z) :=
  match ops with
  | [] => Done (a, owned)
  | op :: ops => let! (a, owned) := frame_step op a owned in frame_run ops a owned
  end.

Definition op_ok (op : frame_op) : Prop :=
  match op with
  | OpAlloc => True
  | OpAllocContiguous n => is_usize n
  | OpFree p => is_u64 p
  end.

(** The pages in the hands of the callers: allocatable and not free. *)
Definition owned_by (a : FrameAllocator) (owned : list Z) : Prop :=
  NoDup owned /\ forall p, p ∈ owned <-> exists i, i ∈ pool a ∖ free_set a /\ p = frame_addr a i.

Lemma frame_addr_inj a i j : frame_addr a i = frame_addr a j -> i = j.
Proof. unfold frame_addr, PAGE_SIZE. lia. Qed.

Lemma range_pages_run a s count :
  0 <= count -> range_pages (mkRange (frame_addr a s) (count * PAGE_SIZE)) =
  frame_addr a <$> seqZ s count.
Proof.
  intros Hc. unfold range_pages, range_frames. simpl. rewrite Z.div_mul by done.
  unfold seqZ. rewrite <- list_fmap_compose. apply list_fmap_ext. intros ? i _.
  unfold frame_addr. simpl. lia.
Qed.

Lemma owned_none a : pool a = free_set a -> owned_by a [].
Proof.
  intros Hp. split; [apply NoDup_nil; done|]. rewrite Hp.
  intros p. split; [intros H; by apply elem_of_nil in H|]. intros (i & Hi & _). set_solver.
Qed.

(** Handing out [new] keeps the ledger. *)
Lemma owned_extend a a' owned (new : list Z) :
  owned_by a owned -> same_config a a' -> pool a' = pool a -> NoDup new ->
  (forall i, i ∈ new -> i ∈ free_set a) ->
  (forall i, i ∈ free_set a' <-> i ∈ free_set a /\ i ∉ new) ->
  owned_by a' ((frame_addr a <$> new) ++ owned).
Proof.
  intros [Hnd Hown] Hsame Hp Hnew Hsub Hf. split.
  - apply NoDup_app. split_and!; [|..|done].
    + apply NoDup_fmap_2; [intros ?? ?%frame_addr_inj; done|done].
    + intros p (i & -> & Hi)%list_elem_of_fmap Hin. apply Hown in Hin as (j & Hj & E%frame_addr_inj).
      subst j. apply Hsub in Hi. set_solver.
  - intros p. rewrite elem_of_app, list_elem_of_fmap, Hown, Hp.
    setoid_rewrite (same_config_addr a a'); [|done].
    setoid_rewrite elem_of_difference. setoid_rewrite Hf. split.
    + intros [(i & -> & Hi)|(i & [? ?] & ->)]; exists i; (split; [|done]); split.
      * by apply free_set_pool, Hsub.
      * tauto.
      * done.
      * tauto.
    + intros (i & [Hi Hn] & ->). destruct (decide (i ∈ new)); [by left; exists i|].
      right. exists i. split; [|done]. split; [done|tauto].
Qed.

Lemma owned_release a a' owned i :
  owned_by a owned -> same_config a a' -> pool a' = pool a ->
  free_set a' = {[i]} ∪ free_set a ->
  owned_by a' (filter (fun q => q <> frame_addr a i) owned).
Proof.
  intros [Hnd Hown] Hsame Hp Hf. split; [by apply NoDup_filter|].
  intros p. rewrite list_elem_of_filter, Hown, Hp, Hf.
  setoid_rewrite (same_config_addr a a'); [|done]. split.
  - intros (Hne & j & Hj & ->). exists j. split; [|done].
    assert (j <> i) by congruence. set_solver.
  - intros (j & Hj & ->). split; [intros E%frame_addr_inj; subst; set_solver|].
    exists j. split; [|done]. set_solver.
Qed.

Lemma frame_step_owned op a owned :
  frame_inv a -> owned_by a owned -> op_ok op ->
  exists a' owned', frame_step op a owned = Done (a', owned') /\
    frame_inv a' /\ same_config a a' /\ pool a' = pool a /\ owned_by a' owned'.
Proof.
  intros Hinv Hown Hok. destruct op as [|n|p]; cbn [frame_step].
  - destruct (alloc_spec a Hinv) as [(i & a' & -> & Hinv' & Hsame & Hi & _ & Hf & Hp)|[-> _]];
      cbn [exec_bind address]; [|by exists a, owned].
    exists a'. eexists. split; [done|]. split; [done|]. split; [done|]. split; [done|].
    apply (owned_extend a a' owned [i]); try done; [apply NoDup_singleton|set_solver|].
    rewrite Hf. set_solver.
  - unfold op_ok in Hok. destruct (Z.eqb_spec n 0) as [->|Hn].
    { exists a, owned. split_and!; done. }
    destruct (alloc_contiguous_spec a n Hinv) as [(s & a' & -> & Hinv' & Hsame & Hrun & _ & Hf & Hp)|[-> _]];
      [ulia| |by exists a, owned]. cbn [exec_bind].
    exists a'. eexists. split; [done|]. split; [done|]. split; [done|]. split; [done|].
    rewrite range_pages_run by ulia. destruct Hrun as (Hs0 & Hsl & Hrun).
    apply (owned_extend a a' owned (seqZ s n)); try done; [apply NoDup_seqZ|..].
    + intros i Hi%elem_of_seqZ. apply elem_free_set. split; [lia|]. apply Hrun. lia.
    + intros i. rewrite Hf, elem_of_difference, elem_run_set, elem_of_seqZ. rewrite Z2Nat.id by ulia. done.
  - pose proof (free_spec a p Hinv Hok) as H. destruct (free a (mkFrame p)) as [[a' [[]|e]]|] eqn:E; [| |done].
    + destruct H as (Hinv' & Hsame & Hp & i & -> & Hi & Hf). cbn [exec_bind].
      exists a'. eexists. split; [done|]. split; [done|]. split; [done|]. split; [done|].
      by apply (owned_release a a' owned i).
    + cbn [exec_bind]. assert (a' = a) as -> by (destruct e; naive_solver). by exists a, owned.
Qed.

(** ** A small machine for the witnesses: 16 pages above 1 MiB, two reserved *)
Definition demo_map : MemoryMap :=
  mkMap (encode_map [mkDesc 7 0x100000 16 (replicate 4 0) (replicate 8 0) (replicate 8 0)]) 1 40 1.
Definition demo_config : Config := config_new 0x110000.
Definition demo_reserved : list ReservedRange := [mkReserved 0x102000 0x104000].
Definition demo_bitmap : list Z := replicate 4 0x5A.
Definition demo_alloc : FrameAllocator :=
  match init demo_bitmap demo_map demo_reserved demo_config with
  | Done (Ok a) => a
  | _ => blank demo_bitmap demo_reserved demo_config
  end.

Lemma demo_regions : region_list demo_map = [mkRegion Conventional 0x100000 16].
Proof. vm_compute. reflexivity. Qed.

Lemma demo_map_ok : map_ok demo_map.
Proof.
  constructor; [by apply bytes_ok_b|vm_compute; split; discriminate|done|done|vm_compute; discriminate|].
  rewrite demo_regions. constructor; [vm_compute; discriminate|constructor].
Qed.

Lemma demo_alloc_ok :
  init demo_bitmap demo_map demo_reserved demo_config = Done (Ok demo_alloc) /\
  frame_inv demo_alloc /\ pool demo_alloc = free_set demo_alloc.
Proof.
  destruct (init_ok demo_bitmap demo_map demo_reserved demo_config) as (a & Em & E & Hinv & _ & Hp & _).
  - by apply bytes_ok_b.
  - split; vm_compute; split; discriminate.
  - apply demo_map_ok.
  - rewrite demo_regions. apply Forall_singleton. exists 256. vm_compute. reflexivity.
  - rewrite demo_regions. constructor; constructor.
  - reflexivity.
  - assert (Ea : a = demo_alloc).
    { vm_compute in Em. injection Em as <-. vm_compute. reflexivity. }
    rewrite Ea in E, Hinv, Hp. split; [|exact (conj Hinv Hp)].
    vm_compute. reflexivity.
Qed.

Lemma demo_owned : owned_by demo_alloc [].
Proof. apply owned_none, demo_alloc_ok. Qed.

(** ** Claims *)

(** C20: construction.  On a parsed memory map whose regions are page aligned
    and whose conventional regions do not overlap, [init] finishes without a
    panic: the three argument errors are reported in the order of the code;
    otherwise the free pages are exactly the pages inside the managed range
    that lie wholly inside a conventional region and touch no reserved range
    ([NoUsableMemory] when there are none), the free counter counts them, and
    nothing is handed out yet.  Without alignment pages are missed or only
    partly conventional ([unaligned_regions]), with an overlap the counter is
    too high ([overlapping_regions_overcount]). *)
Theorem init_hands_out_usable_pages bitmap map rsv config :
  bytes_ok bitmap -> config_ok config -> map_ok map ->
  Forall page_aligned (region_list map) -> ForallOrdPairs region_apart (region_list map) ->
  match init_check bitmap rsv config with
  | Some e => init bitmap map rsv config = Done (Err e)
  | None =>
      (exists a, init bitmap map rsv config = Done (Ok a) /\ frame_inv a /\ owned_by a [] /\
         forall p, free_page a p <-> usable_page (region_list map) rsv config p) \/
      (init bitmap map rsv config = Done (Err NoUsableMemory) /\
         forall p, ~ usable_page (region_list map) rsv config p)
  end.
Proof.
  intros Hb Hc Hm Hal Hap. destruct (init_check bitmap rsv config) as [e|] eqn:Hck.
  { by apply init_checked. }
  destruct (init_ok bitmap map rsv config) as (a & _ & -> & Hinv & _ & Hp & Hfree); [done..|].
  destruct (Z.eqb_spec (free_frames a) 0) as [H0|H0]; [right|left].
  - split; [done|]. intros p (i & Hi & _)%Hfree. rewrite (fi_count a Hinv) in H0.
    assert (free_set a = ∅) by (apply leibniz_equiv, size_empty_iff; lia). set_solver.
  - exists a. split_and!; try done. by apply owned_none.
Qed.

Lemma init_hands_out_usable_pages_witness :
  exists a, init demo_bitmap demo_map demo_reserved demo_config = Done (Ok a) /\
    frame_inv a /\ owned_by a [] /\
    forall p, free_page a p <-> usable_page (region_list demo_map) demo_reserved demo_config p.
Proof.
  destruct (init_hands_out_usable_pages demo_bitmap demo_map demo_reserved demo_config) as [H|[H _]].
  - by apply bytes_ok_b.
  - split; vm_compute; split; discriminate.
  - apply demo_map_ok.
  - rewrite demo_regions. apply Forall_singleton. exists 256. vm_compute. reflexivity.
  - rewrite demo_regions. constructor; constructor.
  - exact H.
  - vm_compute in H. discriminate H.
Defined.

(** [alloc] takes the free frame with the lowest address and removes
    exactly it from the free frames, keeping the invariant; it returns [None],
    leaving the allocator as it was, exactly when no frame is free. *)
Lemma alloc_lowest a :
  frame_inv a ->
  (exists i a', alloc a = Done (a', Some (mkFrame (frame_addr a i))) /\ frame_inv a' /\
     i ∈ free_set a /\ (forall p, free_page a p -> frame_addr a i <= p) /\
     free_set a' = free_set a ∖ {[i]} /\ free_frames a' = free_frames a - 1) \/
  (alloc a = Done (a, None) /\ free_frames a = 0).
Proof.
  intros Hinv. destruct (alloc_spec a Hinv) as [(i & a' & E & Hinv' & Hsame & Hi & Hmin & Hf & _)|[E H0]].
  - left. exists i, a'. split_and!; try done.
    + intros p (j & Hj%Hmin & ->). unfold frame_addr, PAGE_SIZE. lia.
    + rewrite (fi_count a' Hinv'), (fi_count a Hinv), Hf, size_difference, size_singleton by set_solver.
      assert (size (free_set a) <> 0%nat) by (apply size_non_empty_iff; set_solver). lia.
  - right. split; [done|]. by rewrite (fi_count a Hinv), H0, size_empty.
Qed.

Lemma alloc_lowest_witness :
  exists i a', alloc demo_alloc = Done (a', Some (mkFrame (frame_addr demo_alloc i))) /\
    (forall p, free_page demo_alloc p -> frame_addr demo_alloc i <= p).
Proof.
  destruct (alloc_lowest demo_alloc) as [(i & a' & E & _ & _ & H & _)|[E _]].
  - apply demo_alloc_ok.
  - exists i, a'. split; [exact E|exact H].
  - vm_compute in E. discriminate E.
Defined.

(** C38 [alloc_contiguous] is first fit: it returns the lowest run of [count]
    free frames, removes exactly those, and returns [None] (changing nothing)
    when the request is empty or no such run exists, however many scattered
    frames are free. *)
Theorem alloc_contiguous_first_fit a count :
  frame_inv a -> is_usize count ->
  (exists s a', alloc_contiguous a count =
       Done (a', Some (mkRange (frame_addr a s) (count * PAGE_SIZE))) /\
     frame_inv a' /\ run_free a s count /\ (forall s', run_free a s' count -> s <= s') /\
     free_set a' = free_set a ∖ run_set s (Z.to_nat count)) \/
  (alloc_contiguous a count = Done (a, None) /\ (count = 0 \/ forall s, ~ run_free a s count)).
Proof.
  intros Hinv Hc. destruct (decide (count = 0)) as [->|Hn]; [by right; eauto|].
  destruct (alloc_contiguous_spec a count Hinv) as [(s & a' & E & H & _ & Hr & Hm & Hf & _)|[E H]];
    [ulia|left; by exists s, a'|right; eauto].
Qed.

Lemma alloc_contiguous_first_fit_witness :
  exists s a', alloc_contiguous demo_alloc 3 =
      Done (a', Some (mkRange (frame_addr demo_alloc s) 0x3000)) /\ run_free demo_alloc s 3.
Proof.
  destruct (alloc_contiguous_first_fit demo_alloc 3) as [(s & a' & E & _ & H & _)|[E _]].
  - apply demo_alloc_ok.
  - ulia.
  - exists s, a'. split; [exact E|exact H].
  - vm_compute in E. discriminate E.
Defined.

(** C23: [free] on every address: it never panics; it succeeds exactly on the
    pages handed out and not yet released, which become free again; it
    reports [Reserved] inside a reserved range, [AlreadyFree] on a free page,
    and [NotManaged] on an unaligned address, one outside the managed range
    or one that was never allocatable; every error leaves the allocator as it
    was. *)
Theorem free_every_branch a addr :
  frame_inv a -> is_u64 addr ->
  match free a (mkFrame addr) with
  | Done (a', Ok _) => frame_inv a' /\ pool a' = pool a /\
      exists i, addr = frame_addr a i /\ i ∈ pool a ∖ free_set a /\
        free_set a' = {[i]} ∪ free_set a
  | Done (a', Err (NotManaged x)) => a' = a /\ x = addr /\
      forall i, 0 <= i < frames a -> addr = frame_addr a i -> i ∉ pool a /\ reserved_at a addr = false
  | Done (a', Err (AlreadyFree x)) => a' = a /\ x = addr /\ free_page a addr
  | Done (a', Err (Reserved_ x)) => a' = a /\ x = addr /\ reserved_at a addr = true /\
      exists i, 0 <= i < frames a /\ addr = frame_addr a i
  | Panic => False
  end.
Proof.
  intros Hinv Hu. pose proof (free_spec a addr Hinv Hu) as H. unfold free_page.
  destruct (free a (mkFrame addr)) as [[a' [|[]]]|]; naive_solver.
Qed.

Lemma free_every_branch_witness :
  is_u64 0x102000 /\ free demo_alloc (mkFrame 0x102000) = Done (demo_alloc, Err (Reserved_ 0x102000)) /\
  reserved_at demo_alloc 0x102000 = true.
Proof.
  split; [ulia|]. pose proof (free_every_branch demo_alloc 0x102000) as H.
  specialize (H (proj1 (proj2 demo_alloc_ok)) ltac:(ulia)).
  replace (free demo_alloc (mkFrame 0x102000)) with
    (Done (demo_alloc, Err (A := unit) (Reserved_ 0x102000))) in * by (vm_compute; reflexivity).
  split; [reflexivity|]. apply H.
Defined.

(** C7: no double allocation.  Whatever sequence of [alloc], [alloc_contiguous]
    and [free] calls is made, with whatever arguments, none panics, the free
    counter stays exact, and the pages in the callers' hands are pairwise
    distinct: a page is handed out again only after it was released. *)
Theorem no_double_allocation ops a owned :
  frame_inv a -> owned_by a owned -> Forall op_ok ops ->
  exists a' owned', frame_run ops a owned = Done (a', owned') /\
    frame_inv a' /\ pool a' = pool a /\ owned_by a' owned'.
Proof.
  revert a owned. induction ops as [|op ops IH]; intros a owned Hinv Hown Hok; cbn [frame_run].
  { by exists a, owned. }
  apply Forall_cons_iff in Hok as [Hop Hok].
  destruct (frame_step_owned op a owned) as (a1 & owned1 & -> & Hinv1 & _ & Hp1 & Hown1); [done..|].
  cbn [exec_bind]. destruct (IH a1 owned1) as (a2 & owned2 & -> & Hinv2 & Hp2 & Hown2); [done..|].
  exists a2, owned2. split_and!; try done. congruence.
Qed.

Lemma no_double_allocation_witness :
  exists a' owned',
    frame_run [OpAlloc; OpAllocContiguous 2; OpFree 0x100000; OpAlloc] demo_alloc [] = Done (a', owned') /\
    frame_inv a' /\ pool a' = pool demo_alloc /\ owned_by a' owned'.
Proof.
  apply no_double_allocation; [apply demo_alloc_ok|apply demo_owned|].
  repeat constructor; vm_compute; discriminate.
Defined.

(** [alloc] followed by [free] of the frame it returned restores the set
    of free frames and the counter, and the next [alloc] returns the same
    frame. *)
Lemma alloc_free_roundtrip a a1 f :
  frame_inv a -> alloc a = Done (a1, Some f) ->
  exists a2, free a1 f = Done (a2, Ok tt) /\ frame_inv a2 /\ free_set a2 = free_set a /\
    free_frames a2 = free_frames a /\ exists a3, alloc a2 = Done (a3, Some f).
Proof.
  intros Hinv E. destruct (alloc_spec a Hinv) as [(i & a' & E' & Hinv1 & Hsame & Hi & Hmin & Hf & Hp)|[E' _]];
    rewrite E in E'; [|done]. injection E' as <- ->.
  pose proof (proj1 (proj1 (elem_free_set a i) Hi)) as Hib.
  pose proof (frame_addr_limit a (fi_shape a Hinv) i Hib) as Hlim.
  pose proof (free_spec a1 (frame_addr a i) Hinv1 ltac:(unfold PAGE_SIZE in *; ulia)) as H.
  rewrite <- (same_config_addr a a1) in * by done.
  assert (Hin : i ∈ pool a1 ∖ free_set a1) by (rewrite Hp, Hf; pose proof (free_set_pool a); set_solver).
  assert (Hr : reserved_at a1 (frame_addr a1 i) = false) by (apply (fi_reserved a1 Hinv1); set_solver).
  assert (Hib1 : 0 <= i < frames a1) by (apply elem_pool; set_solver).
  destruct (free a1 (mkFrame (frame_addr a1 i))) as [[a2 [[]|[]]]|]; [| | | |done].
  2: { destruct H as (_ & _ & H). destruct (H i Hib1 eq_refl). set_solver. }
  2: { destruct H as (_ & _ & j & Ej%frame_addr_inj & Hj). set_solver. }
  2: { destruct H as (_ & _ & H & _). congruence. }
  destruct H as (Hinv2 & Hsame2 & Hp2 & j & Ej%frame_addr_inj & _ & Hf2). subst j.
  assert (Hfs : free_set a2 = free_set a).
  { rewrite Hf2, Hf. apply set_eq. intros j. destruct (decide (j = i)); set_solver. }
  exists a2. split; [done|]. split; [done|]. split; [done|].
  split; [by rewrite (fi_count a2 Hinv2), (fi_count a Hinv), Hfs|].
  destruct (alloc_spec a2 Hinv2) as [(k & a3 & E3 & _ & _ & Hk & Hmin3 & _)|[_ H0]].
  - assert (k = i) as ->. { rewrite Hfs in Hk, Hmin3. specialize (Hmin k Hk). specialize (Hmin3 i Hi). lia. }
    exists a3. by rewrite E3, (same_config_addr a1 a2).
  - rewrite Hfs in H0. set_solver.
Qed.

Lemma alloc_free_roundtrip_witness :
  exists a1 a2, alloc demo_alloc = Done (a1, Some (mkFrame 0x100000)) /\
    free a1 (mkFrame 0x100000) = Done (a2, Ok tt) /\ free_frames a2 = free_frames demo_alloc.
Proof.
  destruct (alloc demo_alloc) as [[a1 [f|]]|] eqn:E; try (vm_compute in E; discriminate E).
  destruct (alloc_free_roundtrip demo_alloc a1 f) as (a2 & H & _ & _ & Hn & _).
  - apply demo_alloc_ok.
  - exact E.
  - exists a1, a2. vm_compute in E. injection E as <- <-. split_and!; done.
Defined.

Definition overlap_map : MemoryMap :=
  mkMap (encode_map (replicate 2 (mkDesc 7 0x100000 4 (replicate 4 0) (replicate 8 0) (replicate 8 0)))) 2 40 1.

(** The allocator's comment says a frame is handed out when it lies wholly in a
    conventional region.  The loop steps by pages from where the region or the
    managed range begins: from an unaligned start no address is a frame's, and
    all four pages are missed; from the managed range's start the last frame is
    handed out though only half of it is conventional. *)
Definition unaligned_map (base : Z) : MemoryMap :=
  mkMap (encode_map [mkDesc 7 base 4 (replicate 4 0) (replicate 8 0) (replicate 8 0)]) 1 40 1.

Lemma unaligned_regions :
  (forall base, base = 0x100800 \/ base = 0xFF800 ->
     from_bytes (bytes (unaligned_map base)) 1 40 1 = Done (Ok (unaligned_map base))) /\
  init demo_bitmap (unaligned_map 0x100800) [] demo_config = Done (Err NoUsableMemory) /\
  exists a, init demo_bitmap (unaligned_map 0xFF800) [] demo_config = Done (Ok a) /\
    free_set a = {[0; 1; 2; 3]} /\ frame_addr a 3 = 0x103000 /\
    region_list (unaligned_map 0xFF800) = [mkRegion Conventional 0xFF800 4].
Proof.
  split; [intros base [->| ->]; vm_compute; reflexivity|]. split; [vm_compute; reflexivity|].
  eexists. split_and!; vm_compute; reflexivity.
Qed.

(** the field comment says the free counter is in sync with the bitmaps.
    Two conventional descriptors that overlap break it: here both describe
    the same four pages, eight frames are counted and four are free. *)
Lemma overlapping_regions_overcount :
  exists a, from_bytes (encode_map (replicate 2 (mkDesc 7 0x100000 4 (replicate 4 0) (replicate 8 0)
      (replicate 8 0)))) 2 40 1 = Done (Ok overlap_map) /\
    init demo_bitmap overlap_map [] demo_config = Done (Ok a) /\
    free_frames a = 8 /\ size (free_set a) = 4%nat.
Proof. eexists. split_and!; vm_compute; reflexivity. Qed.
