(* ===== verification/Heap.v ===== *)
(** * The kernel heap (crates/kernel-memory/src/heap.rs)

    The first-fit free list whose whole state lives in block headers inside
    the arena, a byte list here as in the code.  The operations read and write
    those bytes; the specification is a tiling of the arena into blocks.  The
    theorems: every operation keeps the tiling (blocks cover the arena, the
    list links exactly the free ones in address order, no two free blocks are
    adjacent, the statistics are exact), an allocation is aligned, disjoint
    from every other and leaves their contents alone, a release coalesces, a
    double release is refused, and nothing panics. *)
From Stdlib Require Import ZArith Lia Bool.
From stdpp Require Import base tactics option list numbers.
From S2P Require Import Prelude.

#[local] Open Scope Z_scope.

(** ** Data *)
Definition HEADER_SIZE : Z := 24.
Definition MIN_PAYLOAD : Z := 16.
Definition MIN_BLOCK : Z := HEADER_SIZE + MIN_PAYLOAD.
Definition HEADER_ALIGN : Z := 8.
Definition MAX_ALIGN : Z := 4096.
Definition MAGIC_FREE : Z := 0x46524545.
Definition MAGIC_ALLOC : Z := 0x414C4C4F.
Definition NONE : Z := USIZE_MAX.

#[export] Hint Unfold HEADER_SIZE MIN_PAYLOAD MIN_BLOCK HEADER_ALIGN MAX_ALIGN : consts.
#[export] Hint Unfold MAGIC_FREE MAGIC_ALLOC NONE : consts.

Inductive FreeListError : Type :=
| OutOfArena (offset : Z)
| AlreadyFree (offset : Z)
| NotAllocated (offset : Z)
| Corrupted (offset : Z).

Record HeapStats : Type := mkHeapStats { hs_blocks : Z; hs_bytes : Z; hs_largest : Z }.

Record FreeList : Type := mkFreeList {
  head : Z;
  arena_len : Z;
  free_blocks : Z;
  free_bytes : Z;
  largest_free : Z
}.

Definition set_head (h : FreeList) (x : Z) : FreeList :=
  mkFreeList x (arena_len h) (free_blocks h) (free_bytes h) (largest_free h).
Definition set_stats (h : FreeList) (n b l : Z) : FreeList :=
  mkFreeList (head h) (arena_len h) n b l.

(** ** Operations *)
Definition align_up (value align : Z) : exec (option Z) :=
  let! m := sub64 align 1 in
  Done ((fun v => Z.land v (bnot 64 m)) <$> checked_add value m).

(** [arena[at..at + n].copy_from_slice(bytes)]. *)
Definition put (arena : list Z) (at_ n : Z) (bs : list Z) : exec (list Z) :=
  let! stop := add64 at_ n in copy_from_slice arena at_ stop bs.

Definition write_header (arena : list Z) (offset magic size next : Z) : exec (list Z) :=
  let! arena := put arena offset 4 (le_bytes 4 magic) in
  let! o4 := add64 offset 4 in
  let! arena := put arena o4 4 (le_bytes 4 0) in
  let! o8 := add64 offset 8 in
  let! arena := put arena o8 8 (le_bytes 8 size) in
  let! o16 := add64 offset 16 in
  put arena o16 8 (le_bytes 8 next).

Definition read_header (arena : list Z) (offset : Z) : option (Z * Z * Z) :=
  match checked_add offset HEADER_SIZE with
  | None => None
  | Some stop =>
      match get_range arena offset stop with
      | None => None
      | Some header =>
          Some (le_val (sub_list header 0 4), le_val (sub_list header 8 8),
                le_val (sub_list header 16 8))
      end
  end.

Definition empty : FreeList := mkFreeList NONE 0 0 0 0.

(** [len & !(HEADER_ALIGN - 1)]. *)
Definition round_down (n : Z) : Z := Z.land n (bnot 64 (HEADER_ALIGN - 1)).

Definition init (arena : list Z) : exec (FreeList * list Z) :=
  let n := round_down (len arena) in
  if n <? MIN_BLOCK then Done (empty, arena)
  else
    let! arena := write_header arena 0 MAGIC_FREE n NONE in
    let! payload := sub64 n HEADER_SIZE in
    Done (mkFreeList 0 n 1 payload payload, arena).

Definition stats (h : FreeList) : HeapStats :=
  mkHeapStats (free_blocks h) (free_bytes h) (largest_free h).
Definition is_empty (h : FreeList) : bool := head h =? NONE.
Definition arena_matches (h : FreeList) (arena : list Z) : bool :=
  round_down (len arena) =? arena_len h.
Definition max_blocks (h : FreeList) : Z := arena_len h / HEADER_ALIGN + 2.

(** Every walk of the list is bounded by its own [guard]; this much fuel is
    enough for the guard to fire first. *)
Definition walk_fuel (h : FreeList) : nat := S (Z.to_nat (max_blocks h)).

Fixpoint recompute_loop (fuel : nat) (h : FreeList) (arena : list Z)
    (current guard n bytes largest : Z) : exec (Z * Z * Z) :=
  if current =? NONE then Done (n, bytes, largest)
  else
    match fuel with
    | O => Panic
    | S fuel =>
        let! guard := add64 guard 1 in
        if max_blocks h <? guard then Done (n, bytes, largest)
        else
          let* (magic, size, next) := read_header arena current else Done (n, bytes, largest) in
          let! bad := (if negb (magic =? MAGIC_FREE) || (size <? HEADER_SIZE) then Done true
                       else let! e := add64 current size in Done (arena_len h <? e)) in
          if bad then Done (n, bytes, largest)
          else
            let! n := add64 n 1 in
            let! payload := sub64 size HEADER_SIZE in
            let! bytes := add64 bytes payload in
            recompute_loop fuel h arena next guard n bytes (Z.max largest payload)
    end.

Definition recompute (h : FreeList) (arena : list Z) : exec FreeList :=
  let! (n, b, l) := recompute_loop (walk_fuel h) h arena (head h) 0 0 0 0 in
  Done (set_stats h n b l).

(** The end of [alloc]: the block [current] fits; write the headers of the
    allocated block, of the tail and of the front, and relink. *)
Definition alloc_commit (h : FreeList) (arena : list Z)
    (previous current next block_end payload front_gap payload_end : Z) :
    exec (FreeList * list Z * option Z) :=
  let! header_offset := sub64 payload HEADER_SIZE in
  let! o := align_up payload_end HEADER_ALIGN in
  let* tail_start := o else Done (h, arena, None) in
  let* tail := checked_sub block_end tail_start else Done (h, arena, None) in
  let has_tail := MIN_BLOCK <=? tail in
  let! alloc_size :=
    (if has_tail then sub64 tail_start header_offset else sub64 block_end header_offset) in
  let* previous_size :=
    (if previous =? NONE then Some 0
     else match read_header arena previous with Some (_, s, _) => Some s | None => None end)
    else Done (h, arena, None) in
  let! arena := write_header arena header_offset MAGIC_ALLOC alloc_size NONE in
  let! arena :=
    (if has_tail then write_header arena tail_start MAGIC_FREE tail next else Done arena) in
  let new_next := if has_tail then tail_start else next in
  let! arena :=
    (if 0 <? front_gap then write_header arena current MAGIC_FREE front_gap new_next
     else Done arena) in
  let new_next := if 0 <? front_gap then current else new_next in
  let! (h, arena) :=
    (if previous =? NONE then Done (set_head h new_next, arena)
     else
       let! arena := write_header arena previous MAGIC_FREE previous_size new_next in
       Done (h, arena)) in
  let! h := recompute h arena in
  Done (h, arena, Some payload).

(** Where the payload goes in the block at [current], and the gap before it. *)
Definition place (current align : Z) : exec (option (Z * Z)) :=
  let! payload_min := add64 current HEADER_SIZE in
  let! o := align_up payload_min align in
  let* payload := o else Done None in
  let! front_gap := sub64 payload payload_min in
  if (0 <? front_gap) && (front_gap <? MIN_BLOCK) then
    let* lifted := checked_add payload_min MIN_BLOCK else Done None in
    let! o := align_up lifted align in
    let* payload := o else Done None in
    let! front_gap := sub64 payload payload_min in
    Done (Some (payload, front_gap))
  else Done (Some (payload, front_gap)).

Fixpoint alloc_loop (fuel : nat) (h : FreeList) (arena : list Z) (size align : Z)
    (previous current guard : Z) : exec (FreeList * list Z * option Z) :=
  if current =? NONE then Done (h, arena, None)
  else
    match fuel with
    | O => Panic
    | S fuel =>
        let! guard := add64 guard 1 in
        if max_blocks h <? guard then Done (h, arena, None)
        else
          let* (magic, block_size, next) := read_header arena current else Done (h, arena, None) in
          if negb (magic =? MAGIC_FREE) || (block_size <? HEADER_SIZE) then Done (h, arena, None)
          else
            let* block_end := checked_add current block_size else Done (h, arena, None) in
            if arena_len h <? block_end then Done (h, arena, None)
            else
              let! o := place current align in
              let* (payload, front_gap) := o else Done (h, arena, None) in
              let* payload_end := checked_add payload size else Done (h, arena, None) in
              if block_end <? payload_end then
                alloc_loop fuel h arena size align current next guard
              else alloc_commit h arena previous current next block_end payload front_gap payload_end
    end.

Definition alloc (h : FreeList) (arena : list Z) (size align : Z) :
    exec (FreeList * list Z * option Z) :=
  if (size =? 0) || negb (is_power_of_two align) || (MAX_ALIGN <? align)
     || (head h =? NONE) || negb (arena_matches h arena)
  then Done (h, arena, None)
  else alloc_loop (walk_fuel h) h arena size align NONE (head h) 0.

Fixpoint previous_free_loop (fuel : nat) (h : FreeList) (arena : list Z)
    (target previous current guard : Z) : exec (option Z) :=
  if current =? NONE then Done None
  else
    match fuel with
    | O => Panic
    | S fuel =>
        let! guard := add64 guard 1 in
        if max_blocks h <? guard then Done None
        else if current =? target then Done (Some previous)
        else
          let* (_, _, next) := read_header arena current else Done None in
          previous_free_loop fuel h arena target current next guard
    end.

Definition previous_free (h : FreeList) (arena : list Z) (target : Z) : exec (option Z) :=
  previous_free_loop (walk_fuel h) h arena target NONE (head h) 0.

(** The search of [dealloc] for the place of a block in address order: the
    free blocks before and after it. *)
Fixpoint dealloc_loop (fuel : nat) (h : FreeList) (arena : list Z)
    (offset header block_end previous current guard : Z) : exec (Result (Z * Z) FreeListError) :=
  if current =? NONE then Done (Ok (previous, current))
  else
    match fuel with
    | O => Panic
    | S fuel =>
        let! guard := add64 guard 1 in
        if max_blocks h <? guard then Done (Err (Corrupted current))
        else
          let* (magic, size, next) := read_header arena current
            else Done (Err (Corrupted current)) in
          let! bad := (if negb (magic =? MAGIC_FREE) || (size <? HEADER_SIZE) then Done true
                       else let! e := add64 current size in Done (arena_len h <? e)) in
          if bad then Done (Err (Corrupted current))
          else if header <=? current then
            if current <? block_end then Done (Err (AlreadyFree offset))
            else Done (Ok (previous, current))
          else
            let! e := add64 current size in
            if header <? e then Done (Err (AlreadyFree offset))
            else dealloc_loop fuel h arena offset header block_end current next guard
    end.

(** The end of [dealloc]: merge with the neighbours and relink. *)
Definition dealloc_commit (h : FreeList) (arena : list Z)
    (header block_size block_end previous current : Z) :
    exec (FreeList * list Z * Result unit FreeListError) :=
  let* (size, current) :=
    (if negb (current =? NONE) && (block_end =? current) then
       match read_header arena current with
       | Some (_, next_size, next_next) => Some (add64 block_size next_size, next_next)
       | None => None
       end
     else Some (Done block_size, current))
    else Done (h, arena, Err (Corrupted current)) in
  let! size := size in
  let! merged :=
    (if negb (previous =? NONE) then
       match read_header arena previous with
       | None => Done (Err (Corrupted previous))
       | Some (_, previous_size, _) =>
           let! e := add64 previous previous_size in
           if e =? header then
             let! size := add64 size previous_size in
             let! o := previous_free h arena previous in
             match o with
             | Some p => Done (Ok (previous, size, p))
             | None => Done (Err (Corrupted previous))
             end
           else Done (Ok (header, size, previous))
       end
     else Done (Ok (header, size, previous))) in
  match merged with
  | Err e => Done (h, arena, Err e)
  | Ok (start, size, previous) =>
      let! arena := write_header arena start MAGIC_FREE size current in
      if previous =? NONE then
        let h := set_head h start in
        let! h := recompute h arena in
        Done (h, arena, Ok tt)
      else
        let* (_, previous_size, _) := read_header arena previous
          else Done (h, arena, Err (Corrupted previous)) in
        let! arena := write_header arena previous MAGIC_FREE previous_size start in
        let! h := recompute h arena in
        Done (h, arena, Ok tt)
  end.

Definition dealloc (h : FreeList) (arena : list Z) (offset : Z) :
    exec (FreeList * list Z * Result unit FreeListError) :=
  if negb (arena_matches h arena) || (offset <? HEADER_SIZE) || (arena_len h <=? offset)
     || negb (is_multiple_of offset HEADER_ALIGN)
  then Done (h, arena, Err (OutOfArena offset))
  else
    let! header := sub64 offset HEADER_SIZE in
    let* (magic, block_size, _) := read_header arena header
      else Done (h, arena, Err (Corrupted header)) in
    if magic =? MAGIC_FREE then Done (h, arena, Err (AlreadyFree offset))
    else if negb (magic =? MAGIC_ALLOC) then Done (h, arena, Err (NotAllocated offset))
    else
      let* block_end := checked_add header block_size
        else Done (h, arena, Err (Corrupted header)) in
      if (block_size <? HEADER_SIZE) || (arena_len h <? block_end)
      then Done (h, arena, Err (Corrupted header))
      else
        let! r := dealloc_loop (walk_fuel h) h arena offset header block_end NONE (head h) 0 in
        match r with
        | Err e => Done (h, arena, Err e)
        | Ok (previous, current) =>
            dealloc_commit h arena header block_size block_end previous current
        end.

(** ** Specification *)

(** A tiling of the arena: the size of each block, in address order, and
    whether it is free. *)
Notation tiling := (list (Z * bool)).

Fixpoint span (bs : tiling) : Z :=
  match bs with
  | [] => 0
  | (sz, _) :: bs => sz + span bs
  end.

(** The offset of the first free block of a tiling that starts at [o], and
    [nx] when there is none; likewise the last one. *)
Fixpoint first_free (o : Z) (bs : tiling) (nx : Z) : Z :=
  match bs with
  | [] => nx
  | (sz, f) :: bs => if f then o else first_free (o + sz) bs nx
  end.

Fixpoint last_free (o : Z) (bs : tiling) (pv : Z) : Z :=
  match bs with
  | [] => pv
  | (sz, f) :: bs => last_free (o + sz) bs (if f then o else pv)
  end.

(** The least a block can be: a header and eight bytes. *)
Definition LEAST_BLOCK : Z := HEADER_SIZE + HEADER_ALIGN.
#[export] Hint Unfold LEAST_BLOCK : consts.

Definition header_of (sz : Z) (f : bool) (next : Z) : Z * Z * Z :=
  if f then (MAGIC_FREE, sz, next) else (MAGIC_ALLOC, sz, NONE).

(** The bytes of the arena hold the headers of the tiling: the free blocks
    are linked in address order and the last one links to [nx]. *)
Fixpoint blocks_ok (arena : list Z) (o : Z) (bs : tiling) (nx : Z) : Prop :=
  match bs with
  | [] => True
  | (sz, f) :: bs =>
      LEAST_BLOCK <= sz /\ (HEADER_ALIGN | sz) /\
      read_header arena o = Some (header_of sz f (first_free (o + sz) bs nx)) /\
      blocks_ok arena (o + sz) bs nx
  end.

(** No two free blocks are neighbours ([before] is the flag of the block
    before the tiling). *)
Fixpoint coalesced_after (before : bool) (bs : tiling) : bool :=
  match bs with
  | [] => true
  | (_, f) :: bs => negb (before && f) && coalesced_after f bs
  end.
Definition coalesced (bs : tiling) : bool := coalesced_after false bs.

Fixpoint last_flag (before : bool) (bs : tiling) : bool :=
  match bs with
  | [] => before
  | (_, f) :: bs => last_flag f bs
  end.

Fixpoint count_free (bs : tiling) : Z :=
  match bs with
  | [] => 0
  | (_, f) :: bs => (if f then 1 else 0) + count_free bs
  end.
Fixpoint bytes_free (bs : tiling) : Z :=
  match bs with
  | [] => 0
  | (sz, f) :: bs => (if f then sz - HEADER_SIZE else 0) + bytes_free bs
  end.
Fixpoint max_free (bs : tiling) : Z :=
  match bs with
  | [] => 0
  | (sz, f) :: bs => Z.max (if f then sz - HEADER_SIZE else 0) (max_free bs)
  end.

(** What the list and the arena satisfy apart from the statistics. *)
Record heap_shape (h : FreeList) (arena : list Z) (bs : tiling) : Prop := mkShape {
  hs_ok : bytes_ok arena;
  hs_len : len arena <= ISIZE_MAX;
  hs_arena : round_down (len arena) = arena_len h;
  hs_span : span bs = arena_len h;
  hs_tiles : blocks_ok arena 0 bs NONE;
  hs_head : head h = first_free 0 bs NONE
}.

Record heap_inv (h : FreeList) (arena : list Z) (bs : tiling) : Prop := mkHeapInv {
  hi_shape : heap_shape h arena bs;
  hi_coalesced : coalesced bs = true;
  hi_stats : stats h = mkHeapStats (count_free bs) (bytes_free bs) (max_free bs)
}.

(** The payloads in use: offset and capacity. *)
Fixpoint live (o : Z) (bs : tiling) : list (Z * Z) :=
  match bs with
  | [] => []
  | (sz, f) :: bs =>
      if f then live (o + sz) bs else (o + HEADER_SIZE, sz - HEADER_SIZE) :: live (o + sz) bs
  end.

(** Rounding up, and where [alloc] puts a payload, in plain arithmetic. *)
Definition up (x a : Z) : Z := (x + a - 1) / a * a.
Definition payload_at (current align : Z) : Z :=
  let p := up (current + HEADER_SIZE) align in
  let gap := p - (current + HEADER_SIZE) in
  if (0 <? gap) && (gap <? MIN_BLOCK) then up (current + HEADER_SIZE + MIN_BLOCK) align else p.
Definition fits (current sz size align : Z) : bool := payload_at current align + size <=? current + sz.

(** The blocks an allocation cuts the free block at [current] into: a free
    front when the payload does not start at the front, the allocated block,
    and a free tail when a block is left over. *)
Definition carve (current sz payload size : Z) : tiling :=
  let front_gap := payload - (current + HEADER_SIZE) in
  let header := payload - HEADER_SIZE in
  let tail_start := up (payload + size) HEADER_ALIGN in
  let tail := current + sz - tail_start in
  (if 0 <? front_gap then [(front_gap, true)] else []) ++
  (if MIN_BLOCK <=? tail then [(tail_start - header, false); (tail, true)]
   else [(current + sz - header, false)]).

(** No free block of the tiling can take the request. *)
Fixpoint none_fits (o : Z) (bs : tiling) (size align : Z) : Prop :=
  match bs with
  | [] => True
  | (sz, f) :: bs => (f = true -> fits o sz size align = false) /\ none_fits (o + sz) bs size align
  end.

(** ** Rounding *)
Lemma round_down_eq n : 0 <= n <= U64_MAX -> round_down n = n - n mod 8.
Proof. intros H. unfold round_down. apply (land_bnot_ones n 3 64); ulia. Qed.

Lemma round_down_bounds n : 0 <= n <= U64_MAX -> n - 7 <= round_down n <= n /\ (8 | round_down n).
Proof.
  intros H. rewrite round_down_eq by done. pose proof (Z.mod_pos_bound n 8 ltac:(lia)).
  split; [lia|]. exists (n / 8). pose proof (Z.div_mod n 8). lia.
Qed.

Lemma up_spec x a : 0 < a -> x <= up x a < x + a /\ (a | up x a).
Proof.
  intros Ha. unfold up. pose proof (Z.div_mod (x + a - 1) a ltac:(lia)).
  pose proof (Z.mod_pos_bound (x + a - 1) a Ha). split; [lia|]. by exists ((x + a - 1) / a).
Qed.

Lemma up_least x a y : 0 < a -> x <= y -> (a | y) -> up x a <= y.
Proof.
  intros Ha Hxy [k ->]. destruct (up_spec x a Ha) as [Hb [j Hj]]. rewrite Hj in *.
  assert (j < k + 1) by (apply (Z.mul_lt_mono_pos_r a); lia). nia.
Qed.

Lemma align_up_done x a k :
  0 <= x -> x + a <= U64_MAX -> 0 <= k <= 12 -> a = 2 ^ k -> align_up x a = Done (Some (up x a)).
Proof.
  intros Hx Hb Hk Ha. assert (0 < a) by (subst; apply Z.pow_pos_nonneg; lia).
  unfold align_up. rewrite sub64_done by lia. cbn [exec_bind].
  rewrite (proj2 (checked_add_some x (a - 1) (x + (a - 1)))) by (split; [done|lia]). simpl. do 2 f_equal.
  rewrite Ha. rewrite land_bnot_ones by (rewrite <- ?Ha; ulia). rewrite <- Ha. unfold up.
  replace (x + (a - 1)) with (x + a - 1) by lia. pose proof (Z.div_mod (x + a - 1) a ltac:(lia)). lia.
Qed.

(** ** Headers *)
Definition header_bytes (magic size next : Z) : list Z :=
  le_bytes 4 magic ++ le_bytes 4 0 ++ le_bytes 8 size ++ le_bytes 8 next.

Lemma len_header_bytes m s n : len (header_bytes m s n) = 24.
Proof. unfold header_bytes. by rewrite !len_app, !len_le_bytes. Qed.

(** Everything outside [lo, hi) is as it was. *)
Record outside (arena arena' : list Z) (lo hi : Z) : Prop := mkOutside {
  os_len : len arena' = len arena;
  os_sub : forall o n, 0 <= o -> 0 <= n -> o + n <= lo \/ hi <= o ->
    sub_list arena' o n = sub_list arena o n
}.

Lemma outside_refl arena lo hi : outside arena arena lo hi.
Proof. done. Qed.

Lemma outside_trans a b c lo hi : outside a b lo hi -> outside b c lo hi -> outside a c lo hi.
Proof.
  intros [Hl H] [Hl' H']. split; [congruence|]. intros o n Ho Hn Hd. rewrite H', H; done.
Qed.

Lemma outside_widen a b lo hi lo' hi' :
  outside a b lo hi -> lo' <= lo -> hi <= hi' -> outside a b lo' hi'.
Proof. intros [Hl H] ? ?. split; [done|]. intros. apply H; lia. Qed.

Lemma put_done arena o n bs :
  0 <= o -> n = len bs -> o + n <= len arena -> len arena <= ISIZE_MAX ->
  put arena o n bs = Done (splice arena o bs).
Proof.
  intros Ho -> Hl Hm. unfold put. rewrite add64_done by ulia. cbn [exec_bind].
  by apply copy_from_slice_done.
Qed.

Lemma write_header_done arena o m s n :
  0 <= o -> o + 24 <= len arena -> len arena <= ISIZE_MAX ->
  write_header arena o m s n = Done (splice arena o (header_bytes m s n)).
Proof.
  intros Ho Hl Hm. unfold write_header.
  rewrite put_done by (rewrite ?len_le_bytes; lia). cbn [exec_bind].
  rewrite !add64_done by ulia. cbn [exec_bind].
  rewrite put_done by (rewrite ?len_splice; rewrite ?len_le_bytes; lia). cbn [exec_bind].
  rewrite splice_splice by (rewrite ?len_le_bytes; lia).
  rewrite put_done by (rewrite ?len_splice; rewrite ?len_app, ?len_le_bytes; lia). cbn [exec_bind].
  rewrite splice_splice by (rewrite ?len_app, ?len_le_bytes; lia).
  rewrite put_done by (rewrite ?len_splice; rewrite ?len_app, ?len_le_bytes; lia).
  rewrite splice_splice by (rewrite ?len_app, ?len_le_bytes; lia).
  unfold header_bytes. by rewrite <- !app_assoc.
Qed.

Lemma read_header_done arena o :
  0 <= o -> o + 24 <= len arena -> len arena <= ISIZE_MAX ->
  read_header arena o = Some (le_val (sub_list arena o 4), le_val (sub_list arena (o + 8) 8),
                              le_val (sub_list arena (o + 16) 8)).
Proof.
  intros Ho Hl Hm. unfold read_header, HEADER_SIZE.
  rewrite (proj2 (checked_add_some o 24 (o + 24))) by (split; [done|ulia]).
  rewrite (proj2 (get_range_some arena o (o + 24) _)) by (split_and!; [lia|lia|lia|reflexivity]).
  replace (o + 24 - o) with 24 by lia. by rewrite !sub_list_sub_list, Z.add_0_r by lia.
Qed.

Lemma read_header_some arena o x :
  read_header arena o = Some x -> 0 <= o /\ o + 24 <= len arena.
Proof.
  unfold read_header. intros H. destruct (checked_add o HEADER_SIZE) as [e|] eqn:E; [|done].
  apply checked_add_some in E as [-> _]. destruct (get_range arena o (o + HEADER_SIZE)) eqn:E2; [|done].
  apply get_range_some in E2. unfold HEADER_SIZE in *. lia.
Qed.

Lemma read_header_outside arena arena' lo hi o :
  outside arena arena' lo hi -> 0 <= o -> o + 24 <= len arena -> len arena <= ISIZE_MAX ->
  o + 24 <= lo \/ hi <= o -> read_header arena' o = read_header arena o.
Proof.
  intros [Hl H] Ho Hb Hm Hd. rewrite !read_header_done by lia.
  rewrite !H by lia. done.
Qed.

(** Writing a header: it is read back, and nothing else changes. *)
Lemma write_header_spec arena o m s n :
  bytes_ok arena -> 0 <= o -> o + 24 <= len arena -> len arena <= ISIZE_MAX ->
  is_u32 m -> is_u64 s -> is_u64 n ->
  exists arena', write_header arena o m s n = Done arena' /\ bytes_ok arena' /\
    outside arena arena' o (o + 24) /\ read_header arena' o = Some (m, s, n).
Proof.
  intros Hok Ho Hl Hm H1 H2 H3. eexists. split; [by apply write_header_done|].
  pose proof (len_header_bytes m s n) as Hh.
  split_and!.
  - apply bytes_ok_splice; [done|]. unfold header_bytes, bytes_ok.
    rewrite !Forall_app. repeat split; apply le_bytes_ok.
  - split; [apply len_splice; lia|]. intros i k Hi Hk Hd. apply sub_list_splice_ne; lia.
  - rewrite read_header_done by (rewrite ?len_splice; lia).
    assert (E : sub_list (splice arena o (header_bytes m s n)) o 24 = header_bytes m s n)
      by (apply sub_list_splice_eq; lia).
    rewrite <- (Z.add_0_r o) at 2. rewrite <- !(sub_list_sub_list _ o 24) by lia. rewrite E.
    unfold header_bytes.
    change (sub_list _ 0 4) with (le_bytes 4 m). change (sub_list _ 8 8) with (le_bytes 8 s).
    change (sub_list _ 16 8) with (le_bytes 8 n). by rewrite le_val_u32, !le_val_u64.
Qed.

(** ** Tilings *)
Lemma span_app l1 l2 : span (l1 ++ l2) = span l1 + span l2.
Proof. induction l1 as [|[sz f] l1 IH]; simpl; lia. Qed.

Lemma first_free_app o l1 l2 nx :
  first_free o (l1 ++ l2) nx = first_free o l1 (first_free (o + span l1) l2 nx).
Proof.
  revert o. induction l1 as [|[sz []] l1 IH]; intros o; simpl; [by rewrite Z.add_0_r|done|].
  rewrite IH. do 2 f_equal. lia.
Qed.

Lemma last_free_app o l1 l2 pv :
  last_free o (l1 ++ l2) pv = last_free (o + span l1) l2 (last_free o l1 pv).
Proof.
  revert o pv. induction l1 as [|[sz f] l1 IH]; intros o pv; simpl; [by rewrite Z.add_0_r|].
  rewrite IH. f_equal. lia.
Qed.

Lemma blocks_ok_app arena o l1 l2 nx :
  blocks_ok arena o (l1 ++ l2) nx <->
  blocks_ok arena o l1 (first_free (o + span l1) l2 nx) /\ blocks_ok arena (o + span l1) l2 nx.
Proof.
  revert o. induction l1 as [|[sz f] l1 IH]; intros o; simpl.
  { rewrite Z.add_0_r. tauto. }
  rewrite IH, first_free_app, Z.add_assoc. tauto.
Qed.

Lemma live_app o l1 l2 : live o (l1 ++ l2) = live o l1 ++ live (o + span l1) l2.
Proof.
  revert o. induction l1 as [|[sz []] l1 IH]; intros o; simpl; [by rewrite Z.add_0_r|..];
    rewrite IH, Z.add_assoc; done.
Qed.

Lemma count_free_app l1 l2 : count_free (l1 ++ l2) = count_free l1 + count_free l2.
Proof. induction l1 as [|[sz f] l1 IH]; simpl; lia. Qed.

Lemma coalesced_after_app b l1 l2 :
  coalesced_after b (l1 ++ l2) = coalesced_after b l1 && coalesced_after (last_flag b l1) l2.
Proof.
  revert b. induction l1 as [|[sz f] l1 IH]; intros b; simpl; [done|]. rewrite IH. by rewrite andb_assoc.
Qed.

Lemma count_free_nonneg bs : 0 <= count_free bs.
Proof. induction bs as [|[sz []] bs IH]; simpl; lia. Qed.

Lemma none_fits_app o l1 l2 size align :
  none_fits o (l1 ++ l2) size align <->
  none_fits o l1 size align /\ none_fits (o + span l1) l2 size align.
Proof.
  revert o. induction l1 as [|[sz f] l1 IH]; intros o; simpl; [rewrite Z.add_0_r; tauto|].
  rewrite IH, Z.add_assoc. tauto.
Qed.

Section Blocks.

Context (arena : list Z).

Lemma blocks_span o bs nx : blocks_ok arena o bs nx -> 0 <= span bs /\ LEAST_BLOCK * count_free bs <= span bs.
Proof.
  revert o. induction bs as [|[sz []] bs IH]; intros o; simpl; [lia|..];
    intros (H1 & _ & _ & H2); apply IH in H2; ulia.
Qed.

Lemma blocks_aligned o bs nx : blocks_ok arena o bs nx -> (HEADER_ALIGN | span bs).
Proof.
  revert o. induction bs as [|[sz f] bs IH]; intros o; simpl; [intros; apply Z.divide_0_r|].
  intros (_ & H1 & _ & H2). apply IH in H2. by apply Z.divide_add_r.
Qed.

Lemma first_free_range o bs nx :
  blocks_ok arena o bs nx -> first_free o bs nx = nx /\ count_free bs = 0 \/
  o <= first_free o bs nx /\ first_free o bs nx + LEAST_BLOCK <= o + span bs /\ 0 < count_free bs.
Proof.
  revert o. induction bs as [|[sz []] bs IH]; intros o; simpl; [by left|..];
    intros (H1 & _ & _ & H2); pose proof (blocks_span _ _ _ H2); pose proof (count_free_nonneg bs).
  - right. ulia.
  - destruct (IH _ H2) as [|]; [by left|right; ulia].
Qed.

(** The last free block, split off. *)
Lemma last_free_split o bs pv :
  (last_free o bs pv = pv /\ count_free bs = 0) \/
  exists p1 sz p2, bs = p1 ++ (sz, true) :: p2 /\ count_free p2 = 0 /\
    last_free o bs pv = o + span p1.
Proof.
  revert o pv. induction bs as [|[sz f] bs IH]; intros o pv; simpl; [by left|].
  destruct (IH (o + sz) (if f then o else pv)) as [[E Hc]|(p1 & s1 & p2 & -> & Hc & E)].
  - destruct f; [right|left; split; [done|lia]].
    exists [], sz, bs. split_and!; [done..|]. simpl. rewrite E. lia.
  - right. exists ((sz, f) :: p1), s1, p2. split_and!; [done..|]. rewrite E. simpl. lia.
Qed.

(** Blocks without a free one do not care where the list goes on. *)
Lemma blocks_ok_no_free o bs nx nx' :
  count_free bs = 0 -> blocks_ok arena o bs nx -> blocks_ok arena o bs nx'.
Proof.
  revert o. induction bs as [|[sz []] bs IH]; intros o; simpl; [done|..].
  - intros H. pose proof (count_free_nonneg bs). lia.
  - intros Hc (H1 & H2 & H3 & H4). split_and!; [done..|]. by apply IH.
Qed.

Lemma first_free_no_free o bs nx : count_free bs = 0 -> first_free o bs nx = nx.
Proof.
  revert o. induction bs as [|[sz []] bs IH]; intros o; simpl; [done| |by apply IH].
  pose proof (count_free_nonneg bs). lia.
Qed.

End Blocks.

Lemma blocks_ok_outside arena arena' lo hi o bs nx :
  outside arena arena' lo hi -> len arena <= ISIZE_MAX -> 0 <= o ->
  o + span bs <= lo \/ hi <= o -> blocks_ok arena o bs nx -> blocks_ok arena' o bs nx.
Proof.
  intros Hout Hm. revert o. induction bs as [|[sz f] bs IH]; intros o Ho Hd; simpl; [done|].
  intros (H1 & H2 & H3 & H4). pose proof (blocks_span _ _ _ _ H4) as [Hsp _].
  apply read_header_some in H3 as Hr. simpl in Hd.
  split_and!; [done..| |apply IH; try done; ulia].
  erewrite read_header_outside; [exact H3|done|lia|lia|done|ulia].
Qed.

(** Relinking the last free block of a prefix to a new successor. *)
Lemma relink arena o bs nx nx' p :
  bytes_ok arena -> len arena <= ISIZE_MAX -> 0 <= o -> is_u64 nx' ->
  o + span bs <= len arena ->
  blocks_ok arena o bs nx -> last_free o bs NONE = p -> p <> NONE ->
  exists sz next arena', read_header arena p = Some (MAGIC_FREE, sz, next) /\
    write_header arena p MAGIC_FREE sz nx' = Done arena' /\ bytes_ok arena' /\
    outside arena arena' o (o + span bs) /\ o <= p /\ p + 24 <= o + span bs /\
    outside arena arena' p (p + 24) /\
    blocks_ok arena' o bs nx'.
Proof.
  intros Hok Hm Ho Hu Hb Hbs Hp Hne.
  destruct (last_free_split o bs NONE) as [[E _]|(p1 & sz & p2 & Ebs & Hc & E)]; [congruence|].
  subst bs. rewrite Hp in E. rewrite span_app in Hb |- *. simpl in Hb |- *.
  apply blocks_ok_app in Hbs as [H1 (Hl & Ha & Hh & H2)].
  pose proof (blocks_span _ _ _ _ H1) as [Hs1 _]. pose proof (blocks_span _ _ _ _ H2) as [Hs2 _].
  rewrite <- E in Hh, H2. simpl in Hh.
  destruct (write_header_spec arena p MAGIC_FREE sz nx') as (arena' & Ew & Hok' & Hout & Hr);
    [done|lia|ulia|done|ulia|ulia|done|].
  exists sz, (first_free (p + sz) p2 nx), arena'. split_and!; [done..| |lia|ulia|done|].
  - eapply outside_widen; [done|lia|ulia].
  - apply blocks_ok_app. simpl. rewrite <- E. split_and!; [|done|done| |].
    + eapply blocks_ok_outside; [done|done|done|lia|]. simpl in H1. by rewrite E.
    + rewrite Hr. simpl. by rewrite first_free_no_free.
    + eapply blocks_ok_no_free; [done|]. eapply blocks_ok_outside; [done|done|ulia|ulia|done].
Qed.

(** ** Walking the list *)
Lemma bytes_free_bound arena o bs nx :
  blocks_ok arena o bs nx -> 0 <= bytes_free bs <= span bs /\ 0 <= max_free bs.
Proof.
  revert o. induction bs as [|[sz []] bs IH]; intros o; simpl; [lia|..];
    intros (H1 & _ & _ & H2); apply IH in H2; ulia.
Qed.

Section Walk.

Context (h : FreeList) (arena : list Z) (bs : tiling) (Hs : heap_shape h arena bs).

Lemma shape_len : 0 <= arena_len h <= len arena /\ len arena <= ISIZE_MAX /\ (8 | arena_len h).
Proof.
  destruct Hs as [_ Hm <- _ _ _]. pose proof (len_nonneg arena).
  pose proof (round_down_bounds (len arena) ltac:(ulia)) as [? ?].
  split_and!; try done; try lia.
  destruct (Z.le_gt_cases 0 (round_down (len arena))); [done|].
  destruct (Z.le_gt_cases 8 (len arena)); [lia|].
  rewrite round_down_eq in * by ulia. pose proof (Z.mod_le (len arena) 8). lia.
Qed.

Lemma walk_guard pre suf : bs = pre ++ suf -> count_free suf <= max_blocks h.
Proof.
  intros E. destruct Hs as [_ _ _ Hsp Hb _]. pose proof (blocks_span _ _ _ _ Hb) as [? ?].
  rewrite E, count_free_app in *. pose proof (count_free_nonneg pre). unfold max_blocks.
  pose proof (count_free_nonneg suf).
  pose proof (Z.div_mod (arena_len h) HEADER_ALIGN ltac:(done)).
  pose proof (Z.mod_pos_bound (arena_len h) HEADER_ALIGN ltac:(done)). ulia.
Qed.

(** A suffix that starts with a free block: its header and its bounds. *)
Lemma walk_free pre sz suf :
  bs = pre ++ (sz, true) :: suf ->
  read_header arena (span pre) = Some (MAGIC_FREE, sz, first_free (span pre + sz) suf NONE) /\
  0 <= span pre /\ LEAST_BLOCK <= sz /\ (8 | sz) /\ (8 | span pre) /\
  span pre + sz + span suf = arena_len h /\ 0 <= span suf /\ span pre <> NONE.
Proof.
  intros E. destruct Hs as [_ _ _ Hsp Hb _]. pose proof shape_len as Hl.
  rewrite E in Hb, Hsp. rewrite span_app in Hsp. simpl in Hsp.
  apply blocks_ok_app in Hb as [H1 (H2 & H3 & H4 & H5)].
  pose proof (blocks_span _ _ _ _ H1) as [? _]. pose proof (blocks_span _ _ _ _ H5) as [? _].
  pose proof (blocks_aligned _ _ _ _ H1). simpl in H4. split_and!; try done; try lia. ulia.
Qed.

Lemma free_tests sz cur :
  LEAST_BLOCK <= sz -> cur + sz <= arena_len h ->
  (if negb (MAGIC_FREE =? MAGIC_FREE) || (sz <? HEADER_SIZE) then Done true
   else let! e := add64 cur sz in Done (arena_len h <? e)) = Done false.
Proof.
  intros H1 H2. pose proof shape_len. rewrite Z.eqb_refl. simpl.
  destruct (Z.ltb_spec sz HEADER_SIZE); [ulia|]. rewrite add64_done by ulia. cbn [exec_bind].
  by destruct (Z.ltb_spec (arena_len h) (cur + sz)); [lia|].
Qed.

Lemma recompute_loop_spec suf : forall pre fuel guard n bytes largest,
  bs = pre ++ suf -> 0 <= guard -> guard + count_free suf <= max_blocks h ->
  count_free suf <= Z.of_nat fuel -> 0 <= n <= span pre -> 0 <= bytes <= span pre -> 0 <= largest ->
  recompute_loop fuel h arena (first_free (span pre) suf NONE) guard n bytes largest =
    Done (n + count_free suf, bytes + bytes_free suf, Z.max largest (max_free suf)).
Proof.
  induction suf as [|[sz f] suf IH]; intros pre fuel guard n bytes largest E Hg Hgm Hfu Hn Hb Hl.
  { simpl. destruct fuel; simpl; do 3 f_equal; lia. }
  assert (E' : bs = (pre ++ [(sz, f)]) ++ suf) by (by rewrite <- app_assoc).
  assert (Esp : span (pre ++ [(sz, f)]) = span pre + sz) by (rewrite span_app; simpl; lia).
  pose proof (count_free_nonneg suf).
  assert (Hsz : 0 <= sz).
  { destruct Hs as [_ _ _ _ Hbl _]. rewrite E in Hbl. apply blocks_ok_app in Hbl as [_ (? & _)]. ulia. }
  destruct f; simpl in Hgm, Hfu |- *.
  - destruct (walk_free _ _ _ E) as (Hr & Hp0 & Hlb & _ & _ & Hsp & Hss & Hnn).
    destruct fuel as [|fuel]; [lia|]. cbn [recompute_loop]. pose proof shape_len.
    rewrite (proj2 (Z.eqb_neq _ _) Hnn).
    assert (max_blocks h <= ISIZE_MAX).
    { unfold max_blocks. pose proof (Z.mul_div_le (arena_len h) HEADER_ALIGN ltac:(done)).
      unfold HEADER_ALIGN in *. destruct (Z.le_gt_cases (arena_len h / 8 + 2) ISIZE_MAX); ulia. }
    rewrite add64_done by ulia. cbn [exec_bind].
    rewrite (proj2 (Z.ltb_ge _ _)) by lia. rewrite Hr. cbv beta iota.
    rewrite free_tests by lia. cbn [exec_bind].
    rewrite add64_done by ulia. cbn [exec_bind]. rewrite sub64_done by ulia. cbn [exec_bind].
    rewrite add64_done by ulia. cbn [exec_bind].
    rewrite <- Esp. rewrite (IH (pre ++ [(sz, true)])); try done; try lia; try ulia.
    apply f_equal, f_equal2; [apply f_equal2|]; lia.
  - rewrite <- Esp. rewrite (IH (pre ++ [(sz, false)])); try done; try lia.
    apply f_equal, f_equal2; [apply f_equal2|]; lia.
Qed.

Lemma recompute_done :
  recompute h arena = Done (set_stats h (count_free bs) (bytes_free bs) (max_free bs)).
Proof.
  unfold recompute. destruct Hs as [_ _ _ _ Hb Eh]. rewrite Eh.
  pose proof (walk_guard [] bs eq_refl). pose proof (count_free_nonneg bs).
  change 0 with (span []) at 1. rewrite (recompute_loop_spec bs []); try done; try lia.
  - cbn [exec_bind]. rewrite !Z.add_0_l. pose proof (bytes_free_bound _ _ _ _ Hb).
    by rewrite Z.max_r by lia.
  - unfold walk_fuel. lia.
Qed.

Lemma max_blocks_bound : 0 <= max_blocks h <= ISIZE_MAX.
Proof.
  pose proof shape_len as (H1 & H2 & _). unfold max_blocks.
  pose proof (Z.div_pos (arena_len h) HEADER_ALIGN ltac:(lia) ltac:(done)).
  pose proof (Z.mul_div_le (arena_len h) HEADER_ALIGN ltac:(done)). ulia.
Qed.

Lemma previous_free_loop_spec target suf : forall pre fuel guard tpre tsz tpost,
  bs = pre ++ suf -> suf = tpre ++ (tsz, true) :: tpost -> target = span pre + span tpre ->
  0 <= guard -> guard + count_free suf <= max_blocks h -> count_free suf <= Z.of_nat fuel ->
  previous_free_loop fuel h arena target (last_free 0 pre NONE) (first_free (span pre) suf NONE) guard =
    Done (Some (last_free 0 (pre ++ tpre) NONE)).
Proof.
  induction suf as [|[sz f] suf IH]; intros pre fuel guard tpre tsz tpost E Et Ht Hg Hgm Hfu.
  { by destruct tpre. }
  assert (E' : bs = (pre ++ [(sz, f)]) ++ suf) by (by rewrite <- app_assoc).
  assert (Esp : span (pre ++ [(sz, f)]) = span pre + sz) by (rewrite span_app; simpl; lia).
  pose proof (count_free_nonneg suf). pose proof max_blocks_bound.
  destruct f; simpl in Hgm, Hfu |- *.
  - destruct (walk_free _ _ _ E) as (Hr & Hp0 & Hlb & _ & _ & Hsp & Hss & Hnn).
    destruct fuel as [|fuel]; [lia|]. cbn [previous_free_loop].
    rewrite (proj2 (Z.eqb_neq _ _) Hnn), add64_done by ulia. cbn [exec_bind].
    rewrite (proj2 (Z.ltb_ge _ _)) by lia.
    destruct tpre as [|[s1 f1] tpre].
    { simpl in Ht. rewrite Ht, Z.add_0_r, Z.eqb_refl, app_nil_r. done. }
    injection Et as <- <- Et. assert (Hts : 0 <= span tpre).
    { destruct Hs as [_ _ _ _ Hb _]. rewrite E', Et in Hb. apply blocks_ok_app in Hb as [_ Hb].
      apply blocks_ok_app in Hb as [Hb _]. apply (blocks_span _ _ _ _ Hb). }
    simpl in Ht. rewrite (proj2 (Z.eqb_neq (span pre) target)) by ulia.
    rewrite Hr. rewrite <- Esp.
    replace (span pre) with (last_free 0 (pre ++ [(sz, true)]) NONE) by (rewrite last_free_app; simpl; lia).
    rewrite (IH (pre ++ [(sz, true)]) fuel (guard + 1) tpre tsz tpost); try done; try lia.
    do 3 f_equal. by rewrite <- app_assoc.
  - destruct tpre as [|[s1 f1] tpre]; [done|]. injection Et as <- <- Et. simpl in Ht.
    rewrite <- Esp. replace (last_free 0 pre NONE) with (last_free 0 (pre ++ [(sz, false)]) NONE)
      by (rewrite last_free_app; done).
    rewrite (IH (pre ++ [(sz, false)]) fuel guard tpre tsz tpost); try done; try lia.
    do 3 f_equal. by rewrite <- app_assoc.
Qed.

Lemma previous_free_done pre sz post :
  bs = pre ++ (sz, true) :: post -> previous_free h arena (span pre) = Done (Some (last_free 0 pre NONE)).
Proof.
  intros E. unfold previous_free. destruct Hs as [_ _ _ _ _ Eh]. rewrite Eh.
  pose proof (walk_guard [] bs eq_refl). pose proof (count_free_nonneg bs).
  apply (previous_free_loop_spec _ bs [] _ _ pre sz post); try done. unfold walk_fuel. lia.
Qed.

End Walk.

(** ** Allocation *)
Lemma place_done cur align k :
  0 <= cur -> cur <= ISIZE_MAX -> 0 <= k <= 12 -> align = 2 ^ k ->
  place cur align = Done (Some (payload_at cur align, payload_at cur align - (cur + HEADER_SIZE))).
Proof.
  intros H0 Hm Hk Ha. assert (0 < align) by (subst; apply Z.pow_pos_nonneg; lia).
  assert (align <= 4096) by (subst; change 4096 with (2 ^ 12); apply Z.pow_le_mono_r; lia).
  unfold place, payload_at. rewrite add64_done by ulia. cbn [exec_bind].
  rewrite (align_up_done _ align k) by ulia. cbn [exec_bind].
  destruct (up_spec (cur + HEADER_SIZE) align) as [Hu _]; [done|].
  rewrite sub64_done by lia. cbn [exec_bind].
  destruct ((0 <? _) && _) eqn:E; [|done].
  rewrite (proj2 (checked_add_some (cur + HEADER_SIZE) MIN_BLOCK (cur + HEADER_SIZE + MIN_BLOCK)))
    by (split; [done|ulia]).
  rewrite (align_up_done _ align k) by ulia. cbn [exec_bind].
  destruct (up_spec (cur + HEADER_SIZE + MIN_BLOCK) align) as [Hu2 _]; [done|].
  by rewrite sub64_done by ulia.
Qed.

(** The payload is aligned, for the caller and for its header, and the gap in
    front of it is empty or a block of its own. *)
Lemma payload_at_spec cur align k :
  0 <= k <= 12 -> align = 2 ^ k -> (8 | cur) ->
  (align | payload_at cur align) /\ (8 | payload_at cur align) /\
  cur + HEADER_SIZE <= payload_at cur align /\
  payload_at cur align < cur + HEADER_SIZE + MIN_BLOCK + align /\
  (payload_at cur align = cur + HEADER_SIZE \/ cur + HEADER_SIZE + MIN_BLOCK <= payload_at cur align).
Proof.
  intros Hk Ha [c Hc]. assert (Hpos : 0 < align) by (subst; apply Z.pow_pos_nonneg; lia).
  destruct (up_spec (cur + HEADER_SIZE) align Hpos) as [Hu Hd].
  destruct (up_spec (cur + HEADER_SIZE + MIN_BLOCK) align Hpos) as [Hu2 Hd2].
  destruct (Z.le_gt_cases 3 k) as [Hk3|Hk3].
  - assert (H8 : (8 | align)).
    { exists (2 ^ (k - 3)). change 8 with (2 ^ 3). rewrite <- Z.pow_add_r by lia. rewrite Ha. f_equal. lia. }
    unfold payload_at. destruct ((0 <? _) && _) eqn:E.
    + split_and!; [done|by etransitivity|ulia|ulia|ulia].
    + split_and!; [done|by etransitivity|ulia|ulia|ulia].
  - assert (H8 : (align | 8)).
    { exists (2 ^ (3 - k)). change 8 with (2 ^ 3). rewrite Ha, <- Z.pow_add_r by lia. f_equal. lia. }
    assert (H24 : (align | cur + HEADER_SIZE)).
    { transitivity 8; [done|]. exists (c + 3). ulia. }
    assert (E : up (cur + HEADER_SIZE) align = cur + HEADER_SIZE).
    { pose proof (up_least (cur + HEADER_SIZE) align (cur + HEADER_SIZE) Hpos ltac:(lia) H24). lia. }
    unfold payload_at. rewrite E, Z.sub_diag. simpl.
    split_and!; [done|exists (c + 3); ulia|lia|ulia|by left].
Qed.

(** The contents of every payload in use are as they were. *)
Definition keeps (arena arena' : list Z) (bs : tiling) : Prop :=
  forall o n, (o, n) ∈ live 0 bs -> sub_list arena' o n = sub_list arena o n.

Lemma live_range arena nx bs : forall o p n,
  blocks_ok arena o bs nx -> (p, n) ∈ live o bs ->
  o + HEADER_SIZE <= p /\ p + n <= o + span bs /\ 0 <= n.
Proof.
  induction bs as [|[sz f] bs IH]; intros o p n; simpl; [intros _ H; by apply elem_of_nil in H|].
  intros (H1 & _ & _ & H2) Hin. pose proof (blocks_span _ _ _ _ H2) as [Hsp _].
  destruct f; [|apply elem_of_cons in Hin as [[= -> ->]|Hin]]; [|ulia|];
    destruct (IH _ _ _ H2 Hin); ulia.
Qed.

(** A payload in use never meets a free block. *)
Lemma live_apart arena nx bs pre sz post p n :
  blocks_ok arena 0 bs nx -> bs = pre ++ (sz, true) :: post -> (p, n) ∈ live 0 bs ->
  0 <= p /\ 0 <= n /\ (p + n <= span pre \/ span pre + sz <= p).
Proof.
  intros Hb -> Hin. rewrite live_app in Hin. apply blocks_ok_app in Hb as [H1 (H2 & _ & _ & H3)].
  pose proof (blocks_span _ _ _ _ H1) as [? _]. simpl in Hin.
  apply elem_of_app in Hin as [Hin|Hin].
  - destruct (live_range _ _ _ _ _ _ H1 Hin). ulia.
  - destruct (live_range _ _ _ _ _ _ H3 Hin). ulia.
Qed.

(** The end of a block behind its new payload at [hdr]: it becomes a free block
    when it is long enough. *)
Lemma carve_tail arena hdr tail_start stop next :
  let has_tail := MIN_BLOCK <=? stop - tail_start in
  bytes_ok arena -> len arena <= ISIZE_MAX -> 0 <= hdr -> hdr + 32 <= tail_start <= stop -> stop <= len arena ->
  (8 | hdr) -> (8 | tail_start) -> (8 | stop) -> is_u64 next ->
  read_header arena hdr = Some (MAGIC_ALLOC, if has_tail then tail_start - hdr else stop - hdr, NONE) ->
  exists arena', (if has_tail then write_header arena tail_start MAGIC_FREE (stop - tail_start) next
      else Done arena) = Done arena' /\ bytes_ok arena' /\ outside arena arena' tail_start stop /\
    blocks_ok arena' hdr (if has_tail then [(tail_start - hdr, false); (stop - tail_start, true)]
                          else [(stop - hdr, false)]) next.
Proof.
  intros has_tail Hok Hm H0 Ht Hs [h Hh] [w Hw] [e He] Hu Hr. destruct has_tail eqn:Et; unfold has_tail in Et.
  - apply Z.leb_le in Et.
    destruct (write_header_spec arena tail_start MAGIC_FREE (stop - tail_start) next)
      as (arena2 & E2 & Hok2 & Hout2 & Hr2); [done|ulia|ulia|lia|ulia|ulia|done|].
    exists arena2. split_and!; [done..|eapply outside_widen; [done|lia|ulia]|].
    replace (hdr + (tail_start - hdr)) with tail_start by lia. simpl.
    replace (hdr + (tail_start - hdr)) with tail_start by lia.
    split_and!; [ulia|exists (w - h); ulia| |ulia|exists (e - w); ulia|done|done].
    rewrite (read_header_outside arena arena2 _ _ _ Hout2) by ulia. exact Hr.
  - exists arena. split_and!; [done..|]. simpl. split_and!; [ulia|exists (e - h); ulia|exact Hr|done].
Qed.

(** The block headers of an allocation, written into the free block. *)
Lemma carve_writes arena cur sz p size next :
  bytes_ok arena -> len arena <= ISIZE_MAX -> 0 <= cur -> cur + sz <= len arena -> (8 | cur) -> (8 | sz) ->
  (8 | p) -> (p = cur + HEADER_SIZE \/ cur + HEADER_SIZE + MIN_BLOCK <= p) -> 0 < size ->
  p + size <= cur + sz -> is_u64 next ->
  let tail_start := up (p + size) HEADER_ALIGN in
  let tail := cur + sz - tail_start in
  let gap := p - (cur + HEADER_SIZE) in
  let has_tail := MIN_BLOCK <=? tail in
  let asz := if has_tail then tail_start - (p - HEADER_SIZE) else cur + sz - (p - HEADER_SIZE) in
  let nn := if has_tail then tail_start else next in
  exists arena1 arena2 arena3,
    write_header arena (p - HEADER_SIZE) MAGIC_ALLOC asz NONE = Done arena1 /\
    (if has_tail then write_header arena1 tail_start MAGIC_FREE tail next else Done arena1) = Done arena2 /\
    (if 0 <? gap then write_header arena2 cur MAGIC_FREE gap nn else Done arena2) = Done arena3 /\
    bytes_ok arena3 /\ outside arena arena3 cur (cur + sz) /\
    blocks_ok arena3 cur (carve cur sz p size) next /\
    first_free cur (carve cur sz p size) next = (if 0 <? gap then cur else nn) /\
    span (carve cur sz p size) = sz /\ tail_start <= cur + sz.
Proof.
  intros Hok Hm H0 Hb [c Hc] [s Hs] [q Hq] Hp Hsize Hend Hu tail_start tail gap has_tail asz nn.
  destruct (up_spec (p + size) HEADER_ALIGN ltac:(done)) as [Hts [w Hw]].
  fold tail_start in Hts, Hw.
  assert (Htb : p + 8 <= tail_start <= cur + sz) by ulia.
  set (hdr := p - HEADER_SIZE) in *.
  assert (Hasz : 0 <= asz <= len arena) by (subst asz; destruct has_tail; ulia).
  destruct (write_header_spec arena hdr MAGIC_ALLOC asz NONE)
    as (arena1 & E1 & Hok1 & Hout1 & Hr1); [done|ulia|ulia|done|ulia|ulia|ulia|].
  exists arena1.
  assert (Hlen1 : len arena1 = len arena) by apply Hout1.
  destruct (carve_tail arena1 hdr tail_start (cur + sz) next) as (arena2 & E2 & Hok2 & Hout2 & Hb2);
    [done|lia|ulia|ulia|lia|exists (q - 3); ulia|exists w; ulia|exists (c + s); lia|done| |].
  { fold tail has_tail. subst asz. by destruct has_tail. }
  fold tail has_tail in E2, Hb2. exists arena2.
  assert (Hlen2 : len arena2 = len arena) by (rewrite (os_len _ _ _ _ Hout2); done).
  assert (Hsp2 : span (if has_tail then [(tail_start - hdr, false); (tail, true)]
    else [(cur + sz - hdr, false)]) = cur + sz - hdr) by (subst tail; destruct has_tail; simpl; lia).
  assert (Hff2 : first_free hdr (if has_tail then [(tail_start - hdr, false); (tail, true)]
    else [(cur + sz - hdr, false)]) next = nn).
  { subst nn. destruct has_tail; simpl; lia. }
  assert (Hout12 : outside arena arena2 cur (cur + sz)).
  { eapply outside_trans; eapply outside_widen; [exact Hout1|ulia|ulia|exact Hout2|ulia|ulia]. }
  unfold carve. fold gap tail_start. fold hdr. fold tail. fold has_tail.
  destruct (Z.ltb_spec 0 gap) as [Hg|Hg].
  - destruct (write_header_spec arena2 cur MAGIC_FREE gap nn)
      as (arena3 & E3 & Hok3 & Hout3 & Hr3);
      [done|lia|ulia|lia|ulia|ulia|subst nn; destruct has_tail; ulia|].
    exists arena3. assert (Hh : cur + gap = hdr) by (subst gap hdr; ulia).
    split_and!; try done.
    + eapply outside_trans; [exact Hout12|]. eapply outside_widen; [exact Hout3|lia|ulia].
    + simpl. rewrite Hh. split_and!; [ulia|exists (q - c - 3); ulia|by rewrite Hff2|].
      eapply blocks_ok_outside; [exact Hout3|lia|ulia|ulia|exact Hb2].
    + simpl. rewrite Hsp2. lia.
    + lia.
  - assert (Hh : cur = hdr) by (subst gap hdr; ulia).
    exists arena2. simpl. rewrite Hsp2. split_and!; try done; try lia.
    + rewrite Hh at 1. exact Hb2.
    + rewrite Hh at 1. exact Hff2.
Qed.

Lemma first_free_indep o bs x y : 0 < count_free bs -> first_free o bs x = first_free o bs y.
Proof.
  revert o. induction bs as [|[sz []] bs IH]; intros o; simpl; [lia|done|]. intros. apply IH. lia.
Qed.

Lemma last_free_none arena bs old :
  blocks_ok arena 0 bs old -> len arena <= ISIZE_MAX -> span bs <= len arena ->
  last_free 0 bs NONE = NONE <-> count_free bs = 0.
Proof.
  intros Hb Hm Hl. destruct (last_free_split 0 bs NONE) as [[E Hc]|(p1 & sz & p2 & -> & Hc & E)].
  - by rewrite E, Hc.
  - rewrite E, count_free_app. simpl. pose proof (count_free_nonneg p1).
    rewrite span_app in Hl. simpl in Hl. apply blocks_ok_app in Hb as [H1 (H2 & _ & _ & H3)].
    pose proof (blocks_span _ _ _ _ H1). pose proof (blocks_span _ _ _ _ H3). split; ulia.
Qed.

(** The last step of both operations: a prefix whose last free block (or the
    head) is linked to the new rest of the list. *)
Lemma link_prefix h arena pre rest old :
  bytes_ok arena -> len arena <= ISIZE_MAX -> round_down (len arena) = arena_len h ->
  arena_len h <= len arena -> span (pre ++ rest) = arena_len h ->
  blocks_ok arena 0 pre old -> blocks_ok arena (span pre) rest NONE -> head h = first_free 0 pre old ->
  let nn := first_free (span pre) rest NONE in
  let previous := last_free 0 pre NONE in
  if previous =? NONE then heap_shape (set_head h nn) arena (pre ++ rest)
  else exists psz pnext arena',
    read_header arena previous = Some (MAGIC_FREE, psz, pnext) /\
    write_header arena previous MAGIC_FREE psz nn = Done arena' /\
    heap_shape h arena' (pre ++ rest) /\ outside arena arena' previous (previous + 24) /\
    exists p1 sz p2, pre = p1 ++ (sz, true) :: p2 /\ previous = span p1 /\ 24 <= sz.
Proof.
  intros Hok Hm Hrd Hal Hsp Hpre Hrest Hhd nn previous.
  pose proof (blocks_span _ _ _ _ Hpre) as [Hs1 _]. pose proof (blocks_span _ _ _ _ Hrest) as [Hs2 _].
  pose proof Hsp as Hsp'. rewrite span_app in Hsp'.
  pose proof (last_free_none arena pre old Hpre Hm ltac:(lia)) as Hln.
  destruct (Z.eqb_spec previous NONE) as [Ep|Ep].
  - apply Hln in Ep. constructor; try done.
    + apply blocks_ok_app. split; [|done]. by eapply blocks_ok_no_free.
    + simpl. by rewrite first_free_app, first_free_no_free.
  - assert (Hc : 0 < count_free pre).
    { pose proof (count_free_nonneg pre). destruct (Z.eq_dec (count_free pre) 0) as [E|]; [|lia].
      by apply Hln in E. }
    assert (Hnn : is_u64 nn).
    { destruct (first_free_range arena (span pre) rest NONE Hrest); subst nn; ulia. }
    destruct (relink arena 0 pre old nn previous) as (sz & next & arena' & Hr & Ew & Hok' & Hout & H1 & H2 & Hout' & Hb');
      [done|done|lia|done|lia|done|done|done|].
    exists sz, next, arena'. split_and!; try done.
    + assert (Hlen' : len arena' = len arena) by apply Hout.
      constructor; try done; try (by rewrite Hlen'); try lia.
      * apply blocks_ok_app. split; [done|].
        eapply blocks_ok_outside; [exact Hout'|done|lia|lia|exact Hrest].
      * rewrite Hhd, first_free_app. by apply first_free_indep.
    + destruct (last_free_split 0 pre NONE) as [[E _]|(p1 & s1 & p2 & -> & _ & E)]; [done|].
      exists p1, s1, p2. split_and!; [done|exact E|].
      apply blocks_ok_app in Hpre as [_ (? & _)]. ulia.
Qed.

(** A block of the tiling, split off the shape. *)
Lemma shape_split h arena pre sz f post :
  heap_shape h arena (pre ++ (sz, f) :: post) ->
  blocks_ok arena 0 pre (first_free (span pre) ((sz, f) :: post) NONE) /\
  read_header arena (span pre) = Some (header_of sz f (first_free (span pre + sz) post NONE)) /\
  blocks_ok arena (span pre + sz) post NONE /\
  LEAST_BLOCK <= sz /\ (8 | sz) /\ (8 | span pre) /\ 0 <= span pre /\ 0 <= span post /\
  span pre + sz + span post = arena_len h.
Proof.
  intros [_ _ _ Hsp Hb _]. rewrite span_app in Hsp. simpl in Hsp.
  apply blocks_ok_app in Hb as [H1 (H2 & H3 & H4 & H5)].
  pose proof (blocks_span _ _ _ _ H1). pose proof (blocks_span _ _ _ _ H5).
  pose proof (blocks_aligned _ _ _ _ H1). split_and!; try done; lia.
Qed.

(** Writes inside a free block, and to the header of an earlier free one, leave
    the payloads alone. *)
Lemma keeps_in_free h arena a1 a2 pre sz post :
  heap_shape h arena (pre ++ (sz, true) :: post) -> outside arena a1 (span pre) (span pre + sz) ->
  (a2 = a1 \/ exists p1 s p2, pre = p1 ++ (s, true) :: p2 /\ 24 <= s /\ outside a1 a2 (span p1) (span p1 + 24)) ->
  keeps arena a2 (pre ++ (sz, true) :: post).
Proof.
  intros [_ _ _ _ Hb _] Ho H2 o n Hin. destruct (live_apart _ _ _ _ _ _ _ _ Hb eq_refl Hin) as (H0 & Hn & Hd).
  destruct H2 as [->|(p1 & s & p2 & Epre & Hs & Ho2)]; [apply (os_sub _ _ _ _ Ho); lia|].
  rewrite Epre, <- app_assoc in Hb, Hin. simpl in Hb, Hin.
  destruct (live_apart _ _ _ _ _ _ _ _ Hb eq_refl Hin) as (_ & _ & Hd').
  rewrite (os_sub _ _ _ _ Ho2) by lia. apply (os_sub _ _ _ _ Ho); lia.
Qed.

Lemma alloc_commit_spec h arena pre sz post p size :
  heap_shape h arena (pre ++ (sz, true) :: post) ->
  (8 | p) -> (p = span pre + HEADER_SIZE \/ span pre + HEADER_SIZE + MIN_BLOCK <= p) -> 0 < size ->
  p + size <= span pre + sz ->
  exists h' arena', alloc_commit h arena (last_free 0 pre NONE) (span pre)
      (first_free (span pre + sz) post NONE) (span pre + sz) p (p - (span pre + HEADER_SIZE)) (p + size)
      = Done (h', arena', Some p) /\
    heap_shape h' arena' (pre ++ carve (span pre) sz p size ++ post) /\
    stats h' = mkHeapStats (count_free (pre ++ carve (span pre) sz p size ++ post))
      (bytes_free (pre ++ carve (span pre) sz p size ++ post))
      (max_free (pre ++ carve (span pre) sz p size ++ post)) /\
    keeps arena arena' (pre ++ (sz, true) :: post).
Proof.
  intros Hsh H8p Hp Hsize Hend. pose proof (shape_len _ _ _ Hsh) as (Hal & Hm & _).
  destruct (shape_split _ _ _ _ _ _ Hsh) as (Hpre & Hcur & Hpost & Hlb & H8 & H8c & Hc0 & Hp0 & Hsp).
  set (cur := span pre) in *. set (next := first_free (cur + sz) post NONE) in *.
  assert (Hnext : is_u64 next) by (destruct (first_free_range _ _ _ _ Hpost); subst next; ulia).
  destruct (carve_writes arena cur sz p size next) as
    (arena1 & arena2 & arena3 & E1 & E2 & E3 & Hok3 & Hout3 & Hb3 & Hff3 & Hsp3 & Hts);
    try done; try lia; [by destruct Hsh|].
  set (mid := carve cur sz p size) in *. pose proof (os_len _ _ _ _ Hout3) as Hlen3.
  assert (Hrest : blocks_ok arena3 (span pre) (mid ++ post) NONE).
  { apply blocks_ok_app. fold cur. rewrite Hsp3. split; [exact Hb3|].
    eapply blocks_ok_outside; [exact Hout3|lia|ulia|lia|exact Hpost]. }
  assert (Hnn : first_free (span pre) (mid ++ post) NONE = first_free cur mid next).
  { rewrite first_free_app. fold cur. by rewrite Hsp3. }
  assert (Hpre3 : blocks_ok arena3 0 pre cur).
  { eapply blocks_ok_outside; [exact Hout3|lia|lia|lia|exact Hpre]. }
  pose proof (link_prefix h arena3 pre (mid ++ post) cur Hok3 ltac:(lia)
    ltac:(rewrite Hlen3; apply (hs_arena _ _ _ Hsh)) ltac:(lia)
    ltac:(rewrite !span_app; fold cur; lia) Hpre3 Hrest
    ltac:(rewrite (hs_head _ _ _ Hsh), first_free_app; done)) as Hlink.
  rewrite Hnn, Hff3 in Hlink. cbv zeta in Hlink. unfold alloc_commit.
  rewrite sub64_done by ulia. cbn [exec_bind].
  rewrite (align_up_done (p + size) HEADER_ALIGN 3) by (try done; ulia). cbn [exec_bind].
  unfold checked_sub. rewrite (proj2 (Z.leb_le (up (p + size) HEADER_ALIGN) (cur + sz))) by lia.
  set (ht := MIN_BLOCK <=? cur + sz - up (p + size) HEADER_ALIGN) in *.
  assert (Hsub : (if ht then sub64 (up (p + size) HEADER_ALIGN) (p - HEADER_SIZE)
      else sub64 (cur + sz) (p - HEADER_SIZE)) =
    Done (if ht then up (p + size) HEADER_ALIGN - (p - HEADER_SIZE) else cur + sz - (p - HEADER_SIZE))).
  { destruct (up_spec (p + size) HEADER_ALIGN ltac:(done)). destruct ht; apply sub64_done; ulia. }
  rewrite Hsub. cbn [exec_bind]. cbv zeta in E1, E2, E3.
  destruct (Z.eqb_spec (last_free 0 pre NONE) NONE) as [Ep|Ep].
  - rewrite E1. cbn [exec_bind]. rewrite E2. cbn [exec_bind]. rewrite E3. cbn [exec_bind].
    rewrite (recompute_done _ _ _ Hlink). cbn [exec_bind].
    eexists _, arena3. split; [done|]. split; [|split; [done|]].
    + destruct Hlink. by constructor.
    + apply (keeps_in_free h arena arena3); [done|done|by left].
  - destruct Hlink as (psz & pnext & arena4 & Hr & Ew & Hsh4 & Hout4 & Hsplit).
    assert (Hr0 : read_header arena (last_free 0 pre NONE) = Some (MAGIC_FREE, psz, pnext)).
    { rewrite <- Hr. symmetry. pose proof (read_header_some _ _ _ Hr) as [? ?].
      destruct Hsplit as (p1 & s & p2 & Epre & Elo & Hs24).
      assert (Hb2 := Hpre). rewrite Epre in Hb2. apply blocks_ok_app in Hb2 as [_ (_ & _ & _ & Hb2)].
      pose proof (blocks_span _ _ _ _ Hb2). assert (cur = span p1 + s + span p2).
      { unfold cur. rewrite Epre, span_app. simpl. lia. }
      apply (read_header_outside _ _ _ _ _ Hout3); lia. }
    rewrite Hr0. rewrite E1. cbn [exec_bind]. rewrite E2. cbn [exec_bind]. rewrite E3. cbn [exec_bind].
    rewrite Ew. cbn [exec_bind]. rewrite (recompute_done _ _ _ Hsh4). cbn [exec_bind].
    eexists _, arena4. split; [done|]. split; [|split; [done|]].
    2: { apply (keeps_in_free h arena arena3); [done|done|right]. destruct Hsplit as (p1 & s & p2 & Epre & Elo & Hs24).
         exists p1, s, p2. rewrite <- Elo. done. }
    destruct Hsh4. by constructor.
Qed.

Lemma coalesced_carve pre sz post cur p size :
  coalesced (pre ++ (sz, true) :: post) = true -> coalesced (pre ++ carve cur sz p size ++ post) = true.
Proof.
  unfold coalesced. rewrite !coalesced_after_app, !andb_true_iff. simpl. rewrite !andb_true_iff.
  intros (H1 & H2 & H3). split; [done|]. rewrite andb_true_r, negb_true_iff in H2.
  unfold carve. rewrite H2.
  destruct (0 <? _), (MIN_BLOCK <=? _); simpl; split; try done; by destruct post as [|[? []]].
Qed.

(** What a successful allocation did: the first free block that fits was cut. *)
Definition allocated (h : FreeList) (arena : list Z) (bs : tiling) (size align : Z)
    (h' : FreeList) (arena' : list Z) (p : Z) : Prop :=
  exists pre sz post, bs = pre ++ (sz, true) :: post /\ none_fits 0 pre size align /\
    fits (span pre) sz size align = true /\ p = payload_at (span pre) align /\
    heap_inv h' arena' (pre ++ carve (span pre) sz p size ++ post) /\ keeps arena arena' bs.

Lemma none_fits_overflow arena nx bs size align k : forall o,
  blocks_ok arena o bs nx -> o + span bs <= ISIZE_MAX -> 0 <= k <= 12 -> align = 2 ^ k -> (8 | o) ->
  U64_MAX < o + 8192 + size -> 0 <= o -> none_fits o bs size align.
Proof.
  induction bs as [|[sz f] bs IH]; intros o; simpl; [done|].
  intros (H1 & H2 & _ & H3) Hsp Hk Ha Ho Hsz Ho0. pose proof (blocks_span _ _ _ _ H3). split.
  - intros _. unfold fits. destruct (payload_at_spec o align k Hk Ha Ho) as (_ & _ & ? & _). ulia.
  - apply IH; try done; try ulia. by apply Z.divide_add_r.
Qed.

Section AllocLoop.

Context (h : FreeList) (arena : list Z) (bs : tiling) (size align k : Z).
Context (Hinv : heap_inv h arena bs) (Hsize : 0 < size <= USIZE_MAX).
Context (Hk : 0 <= k <= 12) (Halign : align = 2 ^ k).

Lemma alloc_loop_spec suf : forall pre fuel guard,
  bs = pre ++ suf -> none_fits 0 pre size align ->
  0 <= guard -> guard + count_free suf <= max_blocks h -> count_free suf <= Z.of_nat fuel ->
  (alloc_loop fuel h arena size align (last_free 0 pre NONE) (first_free (span pre) suf NONE) guard
     = Done (h, arena, None) /\ none_fits 0 bs size align) \/
  exists h' arena' p,
    alloc_loop fuel h arena size align (last_free 0 pre NONE) (first_free (span pre) suf NONE) guard
      = Done (h', arena', Some p) /\ allocated h arena bs size align h' arena' p.
Proof.
  pose proof (hi_shape _ _ _ Hinv) as Hs.
  induction suf as [|[sz f] suf IH]; intros pre fuel guard E Hnone Hg Hgm Hfu.
  { left. rewrite app_nil_r in E. subst bs. split; [by destruct fuel|done]. }
  assert (E' : bs = (pre ++ [(sz, f)]) ++ suf) by (by rewrite <- app_assoc).
  assert (Esp : span (pre ++ [(sz, f)]) = span pre + sz) by (rewrite span_app; simpl; lia).
  pose proof (count_free_nonneg suf). pose proof (max_blocks_bound _ _ _ Hs).
  destruct f; simpl in Hgm, Hfu |- *.
  2: { rewrite <- Esp. replace (last_free 0 pre NONE) with (last_free 0 (pre ++ [(sz, false)]) NONE)
         by (rewrite last_free_app; done).
       apply IH; try done; try lia. apply none_fits_app. split; [done|]. simpl. done. }
  destruct (walk_free _ _ _ Hs _ _ _ E) as (Hr & Hp0 & Hlb & H8s & H8p & Hsp & Hss & Hnn).
  pose proof (shape_len _ _ _ Hs) as (Hal & Hm & _).
  destruct (payload_at_spec (span pre) align k Hk Halign H8p) as (Hd & Hd8 & Hlo & Hhi & Hgap).
  assert (Hal4 : align <= 4096) by (subst align; change 4096 with (2 ^ 12); apply Z.pow_le_mono_r; lia).
  destruct fuel as [|fuel]; [lia|]. cbn [alloc_loop].
  rewrite (proj2 (Z.eqb_neq _ _) Hnn), add64_done by ulia. cbn [exec_bind].
  rewrite (proj2 (Z.ltb_ge _ _)) by lia. rewrite Hr, Z.eqb_refl. simpl negb. cbn [orb].
  rewrite (proj2 (Z.ltb_ge sz HEADER_SIZE)) by ulia.
  rewrite (proj2 (checked_add_some (span pre) sz (span pre + sz))) by (split; [done|ulia]).
  rewrite (proj2 (Z.ltb_ge (arena_len h) (span pre + sz))) by lia.
  rewrite (place_done (span pre) align k) by (try done; ulia). cbn [exec_bind].
  destruct (checked_add (payload_at (span pre) align) size) as [e|] eqn:Ec.
  - apply checked_add_some in Ec as [-> Hov].
    destruct (Z.ltb_spec (span pre + sz) (payload_at (span pre) align + size)) as [Hno|Hfit].
    + rewrite <- Esp. replace (span pre) with (last_free 0 (pre ++ [(sz, true)]) NONE) by (rewrite last_free_app; simpl; lia).
      apply IH; try done; try lia. apply none_fits_app. simpl. split_and!; try done.
      intros _. rewrite ?Z.add_0_l. unfold fits. lia.
    + right. rewrite E in Hs. destruct (alloc_commit_spec h arena pre sz suf (payload_at (span pre) align) size)
        as (h' & arena' & -> & Hsh' & Hst' & Hkeep); [done|done|done|lia|lia|].
      exists h', arena', (payload_at (span pre) align). split; [done|].
      exists pre, sz, suf. split_and!; try done; [unfold fits; lia| |by rewrite E].
      constructor; [done| |done]. apply coalesced_carve. rewrite <- E. apply Hinv.
  - apply checked_add_none in Ec. left. split; [done|].
    destruct Hs as [_ _ _ Hspan Hb _]. rewrite E in Hb |- *.
    apply none_fits_app. split; [done|]. apply blocks_ok_app in Hb as [_ Hb].
    eapply (none_fits_overflow arena NONE _ _ _ k); try done; simpl; ulia.
Qed.

End AllocLoop.

Lemma is_power_align align : is_power_of_two align = true -> align <= MAX_ALIGN ->
  exists k, 0 <= k <= 12 /\ align = 2 ^ k.
Proof.
  intros [k [Hk ->]]%is_power_of_two_spec Hm. exists k. split; [|done]. split; [done|].
  apply (Z.pow_le_mono_r_iff 2); try lia. exact Hm.
Qed.

Lemma heap_alloc_spec h arena bs size align :
  heap_inv h arena bs -> is_usize size -> is_usize align ->
  (alloc h arena size align = Done (h, arena, None) /\
     (size = 0 \/ is_power_of_two align = false \/ MAX_ALIGN < align \/ none_fits 0 bs size align)) \/
  exists h' arena' p, alloc h arena size align = Done (h', arena', Some p) /\
    (exists k, 0 <= k <= 12 /\ align = 2 ^ k) /\ 0 < size /\
    allocated h arena bs size align h' arena' p.
Proof.
  intros Hinv Hsz Hal. pose proof (hi_shape _ _ _ Hinv) as Hs. unfold alloc.
  destruct (Z.eqb_spec size 0) as [->|Hn0]; [left; cbn [orb]; eauto|].
  destruct (is_power_of_two align) eqn:Epow; cbn [orb negb]; [|left; eauto].
  destruct (Z.ltb_spec MAX_ALIGN align); cbn [orb]; [left; eauto|].
  destruct (is_power_align align Epow ltac:(lia)) as (k & Hk & Ha).
  unfold arena_matches. rewrite (hs_arena _ _ _ Hs), Z.eqb_refl. cbn [negb]. rewrite orb_false_r.
  rewrite (hs_head _ _ _ Hs). pose proof (walk_guard _ _ _ Hs [] bs eq_refl).
  pose proof (count_free_nonneg bs).
  destruct (alloc_loop_spec h arena bs size align k Hinv ltac:(ulia) Hk Ha bs [] (walk_fuel h) 0)
    as [[E Hnone]|(h' & arena' & p & E & Hd)]; try done; try lia; try (unfold walk_fuel; lia).
  - left. cbn [last_free span] in E. rewrite E. split; [by case_match|]. eauto.
  - right. cbn [last_free span] in E. exists h', arena', p.
    split; [|split_and!; [by exists k|ulia|done]].
    destruct (Z.eqb_spec (first_free 0 bs NONE) NONE) as [En|]; [|done].
    exfalso. rewrite En in E. by destruct (walk_fuel h).
Qed.

(** ** Release *)

(** A freed block absorbs the free block after it and the one before it. *)
Definition merge_next (sz : Z) (post : tiling) : Z * tiling :=
  match post with
  | (ns, true) :: post' => (sz + ns, post')
  | _ => (sz, post)
  end.
Definition merge_prev (pre : tiling) (sz : Z) : tiling * Z :=
  match rev pre with
  | (ps, true) :: pre' => (rev pre', sz + ps)
  | _ => (pre, sz)
  end.
Definition release (pre : tiling) (sz : Z) (post : tiling) : tiling :=
  let (sz1, post1) := merge_next sz post in
  let (pre1, sz2) := merge_prev pre sz1 in
  pre1 ++ (sz2, true) :: post1.

(** The payloads in use apart from the block between [pre] and [post]. *)
Definition others (pre : tiling) (sz : Z) (post : tiling) : list (Z * Z) :=
  live 0 pre ++ live (span pre + sz) post.

Lemma others_apart arena nx pre sz f post p n :
  blocks_ok arena 0 (pre ++ (sz, f) :: post) nx -> (p, n) ∈ others pre sz post ->
  0 <= p /\ 0 <= n /\ (p + n <= span pre \/ span pre + sz + HEADER_SIZE <= p).
Proof.
  intros Hb Hin. apply blocks_ok_app in Hb as [H1 (H2 & _ & _ & H3)].
  pose proof (blocks_span _ _ _ _ H1) as [? _].
  apply elem_of_app in Hin as [Hin|Hin].
  - destruct (live_range _ _ _ _ _ _ H1 Hin). ulia.
  - destruct (live_range _ _ _ _ _ _ H3 Hin). ulia.
Qed.

Lemma last_flag_snoc l x f : forall b, last_flag b (l ++ [(x, f)]) = f.
Proof. induction l as [|[? g] l IH]; intros b; [done|apply IH]. Qed.

Lemma merge_prev_cases pre sz :
  (exists pre' ps, pre = pre' ++ [(ps, true)] /\ merge_prev pre sz = (pre', sz + ps)) \/
  (last_flag false pre = false /\ merge_prev pre sz = (pre, sz)).
Proof.
  unfold merge_prev. destruct pre as [|[ps f] pre' _] using rev_ind; [by right|].
  rewrite rev_app_distr, last_flag_snoc. simpl.
  destruct f; [left|right; done]. exists pre', ps. by rewrite rev_involutive.
Qed.

Lemma merge_next_cases sz post :
  (exists ns post', post = (ns, true) :: post' /\ merge_next sz post = (sz + ns, post')) \/
  (merge_next sz post = (sz, post) /\ forall ns post', post <> (ns, true) :: post').
Proof. destruct post as [|[ns []] post']; [right|left|right]; simpl; eauto; split; try done; naive_solver. Qed.

(** The first free block, split off. *)
Lemma first_free_split o bs nx :
  (first_free o bs nx = nx /\ count_free bs = 0) \/
  exists q1 s q2, bs = q1 ++ (s, true) :: q2 /\ count_free q1 = 0 /\ first_free o bs nx = o + span q1.
Proof.
  revert o. induction bs as [|[sz []] bs IH]; intros o; simpl; [by left| |].
  - right. exists [], sz, bs. split_and!; [done..|]. simpl. lia.
  - destruct (IH (o + sz)) as [[-> ?]|(q1 & s & q2 & -> & ? & ->)]; [by left|].
    right. exists ((sz, false) :: q1), s, q2. split_and!; [done..|]. simpl. lia.
Qed.

Section DeallocLoop.

Context (h : FreeList) (arena : list Z) (pre : tiling) (sz : Z) (post : tiling) (off : Z).
Context (Hs : heap_shape h arena (pre ++ (sz, false) :: post)).

Lemma dealloc_loop_spec suf : forall w fuel guard,
  pre = w ++ suf -> 0 <= guard ->
  guard + count_free suf + count_free post <= max_blocks h ->
  count_free suf + count_free post <= Z.of_nat fuel ->
  dealloc_loop fuel h arena off (span pre) (span pre + sz) (last_free 0 w NONE)
    (first_free (span w) (suf ++ (sz, false) :: post) NONE) guard =
  Done (Ok (last_free 0 pre NONE, first_free (span pre + sz) post NONE)).
Proof.
  pose proof (max_blocks_bound _ _ _ Hs) as Hmb. pose proof (shape_len _ _ _ Hs) as (Hal & Hm & _).
  pose proof (count_free_nonneg post) as Hcp.
  induction suf as [|[s f] suf IH]; intros w fuel guard E Hg Hgm Hfu.
  - rewrite app_nil_r in E. subst w. cbn [app first_free].
    destruct (first_free_split (span pre + sz) post NONE) as [[Ef Hc]|(q1 & s & q2 & Ep & Hc & Ef)].
    { rewrite Ef. by destruct fuel. }
    rewrite Ef. assert (Ebs : pre ++ (sz, false) :: post = (pre ++ (sz, false) :: q1) ++ (s, true) :: q2)
      by (rewrite Ep, <- app_assoc; done).
    destruct (walk_free _ _ _ Hs _ _ _ Ebs) as (Hr & Hp0 & Hlb & _ & _ & Hsp & Hss & Hnn).
    destruct (shape_split _ _ _ _ _ _ Hs) as (_ & _ & Hpost & Hlb2 & _ & _ & Hp2 & _ & _).
    rewrite Ep in Hpost. apply blocks_ok_app in Hpost as [Hq1 _]. pose proof (blocks_span _ _ _ _ Hq1) as [Hq0 _].
    assert (Esp : span (pre ++ (sz, false) :: q1) = span pre + sz + span q1) by (rewrite span_app; simpl; lia).
    rewrite Esp in *. subst post. rewrite count_free_app in *. simpl in Hgm, Hfu.
    pose proof (count_free_nonneg q2). simpl in Hgm, Hfu.
    destruct fuel as [|fuel]; [lia|]. cbn [dealloc_loop].
    rewrite (proj2 (Z.eqb_neq _ _) Hnn), add64_done by ulia. cbn [exec_bind].
    rewrite (proj2 (Z.ltb_ge _ _)) by lia. rewrite Hr. cbv beta iota.
    rewrite (free_tests _ _ _ Hs) by lia. cbn [exec_bind].
    rewrite (proj2 (Z.leb_le _ _)), (proj2 (Z.ltb_ge _ _)) by ulia. done.
  - assert (E' : pre = (w ++ [(s, f)]) ++ suf) by (by rewrite <- app_assoc).
    assert (Esp : span (w ++ [(s, f)]) = span w + s) by (rewrite span_app; simpl; lia).
    pose proof (count_free_nonneg suf).
    destruct f; simpl in Hgm, Hfu |- *.
    2: { rewrite <- Esp. replace (last_free 0 w NONE) with (last_free 0 (w ++ [(s, false)]) NONE)
           by (rewrite last_free_app; done). apply IH; try done; lia. }
    assert (Ebs : pre ++ (sz, false) :: post = w ++ (s, true) :: (suf ++ (sz, false) :: post))
      by (rewrite E, <- app_assoc; done).
    destruct (walk_free _ _ _ Hs _ _ _ Ebs) as (Hr & Hp0 & Hlb & _ & _ & Hsp & Hss & Hnn).
    destruct (shape_split _ _ _ _ _ _ Hs) as (Hpre & _ & _ & Hlb2 & _).
    rewrite E in Hpre. apply blocks_ok_app in Hpre as [_ (_ & _ & _ & Hsuf)].
    pose proof (blocks_span _ _ _ _ Hsuf) as [Hs0 _].
    assert (Epre : span pre = span w + s + span suf) by (rewrite E, span_app; simpl; lia).
    destruct fuel as [|fuel]; [lia|]. cbn [dealloc_loop].
    rewrite (proj2 (Z.eqb_neq _ _) Hnn), add64_done by ulia. cbn [exec_bind].
    rewrite (proj2 (Z.ltb_ge _ _)) by lia. rewrite Hr. cbv beta iota.
    rewrite (free_tests _ _ _ Hs) by lia. cbn [exec_bind].
    rewrite (proj2 (Z.leb_gt _ _)) by ulia. rewrite add64_done by ulia. cbn [exec_bind].
    rewrite (proj2 (Z.ltb_ge (span pre) _)) by lia.
    rewrite <- Esp. replace (span w) with (last_free 0 (w ++ [(s, true)]) NONE) by (rewrite last_free_app; simpl; lia).
    apply IH; try done; lia.
Qed.

End DeallocLoop.

Section DeallocCommit.

Context (h : FreeList) (arena : list Z) (pre : tiling) (sz : Z) (post : tiling).
Context (Hs : heap_shape h arena (pre ++ (sz, false) :: post)).

Lemma commit_next sz1 post1 :
  merge_next sz post = (sz1, post1) ->
  (let current := first_free (span pre + sz) post NONE in
   if negb (current =? NONE) && (span pre + sz =? current) then
     match read_header arena current with
     | Some (_, next_size, next_next) => Some (add64 sz next_size, next_next)
     | None => None
     end
   else Some (Done sz, current)) = Some (Done sz1, first_free (span pre + sz1) post1 NONE).
Proof.
  pose proof (shape_len _ _ _ Hs) as (Hal & Hm & _).
  destruct (shape_split _ _ _ _ _ _ Hs) as (_ & _ & Hpost & Hlb & _ & _ & Hp0 & _ & Hsp).
  intros Hmn. destruct (merge_next_cases sz post) as [(ns & post' & -> & E)|[E Hno]]; rewrite E in Hmn;
    injection Hmn as <- <-; cbv zeta.
  - simpl in Hpost, Hsp. destruct Hpost as (Hlb2 & _ & Hr & Hpost'). cbn [first_free].
    pose proof (blocks_span _ _ _ _ Hpost') as [? _].
    rewrite (proj2 (Z.eqb_neq _ _)), Z.eqb_refl by ulia. simpl. rewrite Hr. simpl.
    rewrite add64_done by ulia. do 3 f_equal. lia.
  - destruct post as [|[ns []] post']; [done|by destruct (Hno ns post')|].
    destruct Hpost as (Hlb2 & _ & _ & Hpost'). cbn [first_free].
    destruct (first_free_range _ _ _ _ Hpost') as [[-> _]|(Hff & _)]; [done|].
    rewrite (proj2 (Z.eqb_neq (span pre + sz) _)) by ulia. by rewrite andb_false_r.
Qed.

Lemma commit_prev sz1 pre1 sz2 :
  merge_prev pre sz1 = (pre1, sz2) -> 0 <= sz1 <= arena_len h ->
  (let previous := last_free 0 pre NONE in
   if negb (previous =? NONE) then
     match read_header arena previous with
     | None => Done (Err (Corrupted previous))
     | Some (_, previous_size, _) =>
         let! e := add64 previous previous_size in
         if e =? span pre then
           let! size := add64 sz1 previous_size in
           let! o := previous_free h arena previous in
           match o with
           | Some p => Done (Ok (previous, size, p))
           | None => Done (Err (Corrupted previous))
           end
         else Done (Ok (span pre, sz1, previous))
     end
   else Done (Ok (span pre, sz1, previous))) = Done (Ok (span pre1, sz2, last_free 0 pre1 NONE)).
Proof.
  pose proof (shape_len _ _ _ Hs) as (Hal & Hm & _). intros Hmp Hsz1. cbv zeta.
  destruct (merge_prev_cases pre sz1) as [(pre' & ps & Ep & E)|[Hlf E]]; rewrite E in Hmp;
    injection Hmp as <- <-.
  - assert (Ebs : pre ++ (sz, false) :: post = pre' ++ (ps, true) :: (sz, false) :: post)
      by (by rewrite Ep, <- app_assoc).
    destruct (walk_free _ _ _ Hs _ _ _ Ebs) as (Hr & Hp0 & Hlb & _ & _ & Hsp & Hss & Hnn).
    assert (El : last_free 0 pre NONE = span pre') by (rewrite Ep, last_free_app; simpl; lia).
    rewrite El, (proj2 (Z.eqb_neq _ _) Hnn). simpl negb. cbn iota. rewrite Hr.
    rewrite add64_done by ulia. cbn [exec_bind].
    rewrite Ep at 1. rewrite span_app. simpl span. rewrite Z.add_0_r, Z.eqb_refl.
    rewrite add64_done by ulia. cbn [exec_bind].
    by rewrite (previous_free_done _ _ _ Hs _ _ _ Ebs).
  - destruct (last_free_split 0 pre NONE) as [[El _]|(p1 & s & p2 & Ep & Hc & El)].
    { by rewrite El. }
    assert (Ebs : pre ++ (sz, false) :: post = p1 ++ (s, true) :: (p2 ++ (sz, false) :: post))
      by (by rewrite Ep, <- app_assoc).
    destruct (walk_free _ _ _ Hs _ _ _ Ebs) as (Hr & Hp0 & Hlb & _ & _ & Hsp & Hss & Hnn).
    rewrite El, Z.add_0_l, (proj2 (Z.eqb_neq _ _) Hnn). simpl negb. cbn iota. rewrite Hr.
    rewrite add64_done by ulia. cbn [exec_bind].
    destruct (shape_split _ _ _ _ _ _ Hs) as (Hpre & _). rewrite Ep in Hpre.
    apply blocks_ok_app in Hpre as [_ (_ & _ & _ & Hp2)].
    destruct p2 as [|[s2 f2] p2]; [by rewrite Ep, last_flag_snoc in Hlf|].
    destruct Hp2 as (Hlb2 & _ & _ & Hp2). pose proof (blocks_span _ _ _ _ Hp2) as [? _].
    rewrite (proj2 (Z.eqb_neq (span p1 + s) (span pre))) by (rewrite Ep, span_app; simpl; ulia).
    done.
Qed.

(** The headers around the merged block. *)
Lemma release_shape sz1 post1 pre1 sz2 :
  merge_next sz post = (sz1, post1) -> merge_prev pre sz1 = (pre1, sz2) ->
  exists old, blocks_ok arena 0 pre1 old /\ blocks_ok arena (span pre1 + sz2) post1 NONE /\
    head h = first_free 0 pre1 old /\ span pre1 + sz2 = span pre + sz1 /\
    span pre1 + sz2 + span post1 = arena_len h /\ LEAST_BLOCK <= sz2 /\ (8 | sz2) /\
    0 <= span pre1 <= span pre /\ sz <= sz1 <= arena_len h /\ 0 <= span post1.
Proof.
  pose proof (hs_head _ _ _ Hs) as Hh.
  destruct (shape_split _ _ _ _ _ _ Hs) as (Hpre & _ & Hpost & Hlb & H8 & _ & Hp0 & Hq0 & Hsp).
  intros Hmn Hmp. rewrite first_free_app in Hh. rewrite Z.add_0_l in Hh.
  assert (Hpost1 : blocks_ok arena (span pre + sz1) post1 NONE /\ sz1 + span post1 = sz + span post /\
    (8 | sz1) /\ sz <= sz1 /\ 0 <= span post1).
  { destruct (merge_next_cases sz post) as [(ns & post' & -> & E)|[E _]]; rewrite E in Hmn;
      injection Hmn as <- <-; [|split_and!; try done; lia].
    destruct Hpost as (Hlb2 & H82 & _ & Hpost). pose proof (blocks_span _ _ _ _ Hpost) as [? _].
    rewrite Z.add_assoc. split_and!; try done; [simpl; lia|by apply Z.divide_add_r|ulia]. }
  destruct Hpost1 as (Hpost1 & Hsp1 & H81 & Hle & Hq1).
  destruct (merge_prev_cases pre sz1) as [(pre' & ps & Ep & E)|[_ E]]; rewrite E in Hmp;
    injection Hmp as <- <-.
  - rewrite Ep in Hpre, Hh. rewrite first_free_app in Hh.
    apply blocks_ok_app in Hpre as [Hpre (Hlb2 & H82 & _)].
    pose proof (blocks_span _ _ _ _ Hpre) as [? _].
    assert (Esp : span pre = span pre' + ps) by (rewrite Ep, span_app; simpl; lia).
    eexists. split_and!; [exact Hpre| |exact Hh|..]; try lia; try ulia.
    + replace (span pre' + (sz1 + ps)) with (span pre + sz1) by lia. done.
    + by apply Z.divide_add_r.
  - eexists. split_and!; [exact Hpre|done|exact Hh|..]; try lia; try ulia. done.
Qed.

(** What every release leaves alone. *)
Lemma release_keeps arena1 arena2 pre1 lo :
  0 <= span pre1 <= span pre ->
  (pre1 = pre \/ exists ps, pre = pre1 ++ [(ps, true)]) ->
  outside arena arena1 (span pre1) (span pre1 + 24) -> outside arena1 arena2 lo (lo + 24) ->
  (arena2 = arena1 \/ exists p1 s p2, pre1 = p1 ++ (s, true) :: p2 /\ lo = span p1 /\ 24 <= s) ->
  forall o n, (o, n) ∈ others pre sz post -> sub_list arena2 o n = sub_list arena o n.
Proof.
  intros Hb Hpre1 Hout1 Hout2 Hlo o n Hin. pose proof Hs as [_ _ _ _ Hbl _].
  destruct (shape_split _ _ _ _ _ _ Hs) as (_ & _ & _ & Hlb & _ & _ & Hp0 & _).
  destruct (others_apart _ _ _ _ _ _ _ _ Hbl Hin) as (Ho & Hn & Hd).
  assert (Hfree : forall q1 s q2, pre = q1 ++ (s, true) :: q2 -> o + n <= span q1 \/ span q1 + s <= o).
  { intros q1 s q2 Eq. rewrite Eq, <- app_assoc in Hbl.
    assert (Hin' : (o, n) ∈ live 0 (q1 ++ (s, true) :: (q2 ++ (sz, false) :: post))).
    { unfold others in Hin. rewrite Eq in Hin. rewrite app_comm_cons, app_assoc, live_app.
      rewrite elem_of_app in Hin |- *. destruct Hin; [by left|right]. simpl. right. done. }
    destruct (live_apart _ _ _ _ _ _ _ _ Hbl eq_refl Hin') as (_ & _ & ?). done. }
  assert (H1 : sub_list arena1 o n = sub_list arena o n).
  { apply (os_sub _ _ _ _ Hout1); try done.
    destruct Hpre1 as [->|[ps Ep]]; [ulia|]. destruct (Hfree pre1 ps [] Ep) as [?|?]; [by left|].
    right. assert (Hl : 24 <= ps); [|lia].
    rewrite Ep, <- app_assoc in Hbl. apply blocks_ok_app in Hbl as [_ (? & _)]. ulia. }
  rewrite <- H1. destruct Hlo as [->|(p1 & s & p2 & E & -> & Hs24)]; [done|].
  apply (os_sub _ _ _ _ Hout2); try done.
  destruct Hpre1 as [->|[ps Ep]].
  - destruct (Hfree p1 s p2 E); lia.
  - rewrite E, <- app_assoc in Ep. destruct (Hfree p1 s _ Ep); lia.
Qed.

End DeallocCommit.

Lemma coalesced_release pre sz post :
  coalesced (pre ++ (sz, false) :: post) = true -> coalesced (release pre sz post) = true.
Proof.
  unfold coalesced, release. rewrite coalesced_after_app. simpl. rewrite andb_false_r. simpl.
  intros [H1 H2]%andb_true_iff.
  destruct (merge_next_cases sz post) as [(ns & post' & -> & ->)|[-> Hno]].
  - simpl in H2. destruct (merge_prev_cases pre (sz + ns)) as [(pre' & ps & -> & ->)|[Hl ->]].
    + rewrite coalesced_after_app in H1 |- *. simpl in H1 |- *. apply andb_true_iff in H1 as [-> H1].
      rewrite andb_true_r in H1. rewrite H1. by rewrite H2.
    + rewrite coalesced_after_app. simpl. by rewrite H1, Hl, H2.
  - assert (H3 : coalesced_after true post = true).
    { destruct post as [|[ns []] post']; [done|by destruct (Hno ns post')|done]. }
    destruct (merge_prev_cases pre sz) as [(pre' & ps & -> & ->)|[Hl ->]].
    + rewrite coalesced_after_app in H1 |- *. simpl in H1 |- *. apply andb_true_iff in H1 as [-> H1].
      rewrite andb_true_r in H1. rewrite H1. by rewrite H3.
    + rewrite coalesced_after_app. simpl. by rewrite H1, Hl, H3.
Qed.

Lemma dealloc_commit_spec h arena pre sz post :
  heap_shape h arena (pre ++ (sz, false) :: post) ->
  exists h' arena', dealloc_commit h arena (span pre) sz (span pre + sz) (last_free 0 pre NONE)
      (first_free (span pre + sz) post NONE) = Done (h', arena', Ok tt) /\
    heap_shape h' arena' (release pre sz post) /\
    stats h' = mkHeapStats (count_free (release pre sz post)) (bytes_free (release pre sz post))
      (max_free (release pre sz post)) /\
    forall o n, (o, n) ∈ others pre sz post -> sub_list arena' o n = sub_list arena o n.
Proof.
  intros Hs. pose proof (shape_len _ _ _ Hs) as (Hal & Hm & _). unfold dealloc_commit, release.
  destruct (merge_next sz post) as [sz1 post1] eqn:Emn.
  destruct (merge_prev pre sz1) as [pre1 sz2] eqn:Emp.
  destruct (release_shape _ _ _ _ _ Hs _ _ _ _ Emn Emp)
    as (old & Hpre1 & Hpost1 & Hhd & Hend & Hsp & Hlb & H8 & Hp1 & Hsz1 & Hq1).
  pose proof (shape_split _ _ _ _ _ _ Hs) as (_ & _ & _ & Hlb0 & _).
  pose proof (commit_next _ _ _ _ _ Hs _ _ Emn) as Hcn. cbv zeta in Hcn.
  rewrite Hcn. cbn [exec_bind].
  pose proof (commit_prev _ _ _ _ _ Hs _ _ _ Emp ltac:(ulia)) as Hcp. cbv zeta in Hcp.
  rewrite Hcp. cbn [exec_bind].
  set (next := first_free (span pre + sz1) post1 NONE).
  assert (Hnext : next = first_free (span pre1 + sz2) post1 NONE) by (by rewrite Hend).
  assert (Hu : is_u64 next).
  { rewrite Hnext. destruct (first_free_range _ _ _ _ Hpost1); ulia. }
  destruct (write_header_spec arena (span pre1) MAGIC_FREE sz2 next) as (arena1 & Ew & Hok1 & Hout1 & Hr1);
    [by destruct Hs|lia|ulia|done|ulia|ulia|done|].
  pose proof (os_len _ _ _ _ Hout1) as Hlen1.
  rewrite Ew. cbn [exec_bind].
  assert (Hrest : blocks_ok arena1 (span pre1) ((sz2, true) :: post1) NONE).
  { simpl. split_and!; [done|done|by rewrite Hr1, Hnext|].
    eapply blocks_ok_outside; [exact Hout1|done|ulia|ulia|exact Hpost1]. }
  pose proof (link_prefix h arena1 pre1 ((sz2, true) :: post1) old Hok1 ltac:(lia)
    ltac:(rewrite Hlen1; apply (hs_arena _ _ _ Hs)) ltac:(lia)
    ltac:(rewrite span_app; simpl; lia)
    ltac:(eapply blocks_ok_outside; [exact Hout1|done|lia|lia|exact Hpre1]) Hrest Hhd) as Hlink.
  cbv zeta in Hlink. cbn [first_free] in Hlink.
  assert (Hp1cases : pre1 = pre \/ exists ps, pre = pre1 ++ [(ps, true)]).
  { destruct (merge_prev_cases pre sz1) as [(pre' & ps & Ep & E)|[_ E]]; rewrite E in Emp;
      injection Emp as <- <-; eauto. }
  destruct (Z.eqb_spec (last_free 0 pre1 NONE) NONE) as [Ep|Ep].
  - rewrite (recompute_done _ _ _ Hlink). cbn [exec_bind]. eexists _, arena1. split; [done|].
    split; [destruct Hlink; by constructor|]. split; [done|].
    eapply (release_keeps _ _ _ _ _ Hs arena1 arena1 pre1 0); eauto. apply outside_refl.
  - destruct Hlink as (psz & pnext & arena2 & Hr & Ew2 & Hsh2 & Hout2 & Hsplit).
    rewrite Hr, Ew2. cbn [exec_bind]. rewrite (recompute_done _ _ _ Hsh2). cbn [exec_bind].
    eexists _, arena2. split; [done|]. split; [destruct Hsh2; by constructor|]. split; [done|].
    eapply (release_keeps _ _ _ _ _ Hs arena1 arena2 pre1); eauto.
Qed.

Lemma dealloc_spec h arena pre sz post :
  heap_inv h arena (pre ++ (sz, false) :: post) ->
  exists h' arena', dealloc h arena (span pre + HEADER_SIZE) = Done (h', arena', Ok tt) /\
    heap_inv h' arena' (release pre sz post) /\
    forall o n, (o, n) ∈ others pre sz post -> sub_list arena' o n = sub_list arena o n.
Proof.
  intros [Hs Hco Hst]. pose proof (shape_len _ _ _ Hs) as (Hal & Hm & _).
  destruct (shape_split _ _ _ _ _ _ Hs) as (Hpre & Hr & Hpost & Hlb & H8 & H8p & Hp0 & Hq0 & Hsp).
  destruct (dealloc_commit_spec _ _ _ _ _ Hs) as (h' & arena' & E & Hs' & Hst' & Hk).
  exists h', arena'. split; [|split; [by constructor; [|apply coalesced_release|]|done]].
  unfold dealloc, arena_matches. rewrite (hs_arena _ _ _ Hs), Z.eqb_refl. cbn [negb orb].
  rewrite (proj2 (Z.ltb_ge _ _)) by ulia. rewrite (proj2 (Z.leb_gt _ _)) by ulia. cbn [orb].
  assert (Hmul : is_multiple_of (span pre + HEADER_SIZE) HEADER_ALIGN = true).
  { apply is_multiple_of_spec; [done|]. apply Z.divide_add_r; [done|by exists 3]. }
  rewrite Hmul. cbn [negb]. rewrite sub64_done by ulia. cbn [exec_bind].
  replace (span pre + HEADER_SIZE - HEADER_SIZE) with (span pre) by lia. rewrite Hr.
  cbn [header_of]. change (MAGIC_ALLOC =? MAGIC_FREE) with false. change (MAGIC_ALLOC =? MAGIC_ALLOC) with true.
  cbn [negb]. rewrite (proj2 (checked_add_some (span pre) sz (span pre + sz))) by (split; [done|ulia]).
  rewrite (proj2 (Z.ltb_ge sz HEADER_SIZE)), (proj2 (Z.ltb_ge (arena_len h) (span pre + sz))) by ulia.
  cbn [orb]. rewrite (hs_head _ _ _ Hs).
  pose proof (walk_guard _ _ _ Hs [] _ eq_refl) as Hg. rewrite count_free_app in Hg. simpl in Hg.
  pose proof (dealloc_loop_spec h arena pre sz post (span pre + HEADER_SIZE) Hs pre [] (walk_fuel h) 0) as Hloop.
  cbn [last_free span] in Hloop. rewrite Hloop; [|done|lia|lia|unfold walk_fuel; lia].
  cbn [exec_bind]. exact E.
Qed.

(** Whatever is read inside a free block, releasing it is refused. *)
Lemma dealloc_loop_inside h arena pre sz post off header e :
  heap_shape h arena (pre ++ (sz, true) :: post) -> span pre < header < span pre + sz -> forall suf w fuel guard,
  pre = w ++ suf -> 0 <= guard -> guard + count_free suf < max_blocks h ->
  count_free suf < Z.of_nat fuel ->
  dealloc_loop fuel h arena off header e (last_free 0 w NONE)
    (first_free (span w) (suf ++ (sz, true) :: post) NONE) guard = Done (Err (AlreadyFree off)).
Proof.
  intros Hs Hh. pose proof (max_blocks_bound _ _ _ Hs) as Hmb. pose proof (shape_len _ _ _ Hs) as (Hal & Hm & _).
  assert (Hblock : forall fuel guard pv w s rest, (0 < fuel)%nat -> 0 <= guard < max_blocks h ->
    pre ++ (sz, true) :: post = w ++ (s, true) :: rest -> span w < header ->
    dealloc_loop fuel h arena off header e pv (span w) guard =
      if header <? span w + s then Done (Err (AlreadyFree off))
      else dealloc_loop (pred fuel) h arena off header e (span w) (first_free (span w + s) rest NONE) (guard + 1)).
  { intros fuel guard pv w s rest Hfu Hg Ebs Hlt.
    destruct (walk_free _ _ _ Hs _ _ _ Ebs) as (Hr & Hp0 & Hlb & _ & _ & Hsp & Hss & Hnn).
    destruct fuel as [|fuel]; [lia|]. cbn [dealloc_loop pred].
    rewrite (proj2 (Z.eqb_neq _ _) Hnn), add64_done by ulia. cbn [exec_bind].
    rewrite (proj2 (Z.ltb_ge (max_blocks h) _)) by lia. rewrite Hr. cbv beta iota.
    rewrite (free_tests _ _ _ Hs) by lia. cbn [exec_bind].
    rewrite (proj2 (Z.leb_gt _ _)) by lia. rewrite add64_done by ulia. done. }
  induction suf as [|[s f] suf IH]; intros w fuel guard E Hg Hgm Hfu.
  - rewrite app_nil_r in E. subst w. cbn [app first_free]. simpl in Hgm, Hfu.
    rewrite (Hblock _ _ _ pre sz post) by (try done; lia).
    by rewrite (proj2 (Z.ltb_lt _ _)) by lia.
  - assert (E' : pre = (w ++ [(s, f)]) ++ suf) by (by rewrite <- app_assoc).
    assert (Esp : span (w ++ [(s, f)]) = span w + s) by (rewrite span_app; simpl; lia).
    pose proof (count_free_nonneg suf).
    destruct (shape_split _ _ _ _ _ _ Hs) as (Hpre & _). rewrite E' in Hpre.
    apply blocks_ok_app in Hpre as [Hw Hsuf]. apply blocks_ok_app in Hw as [_ (Hlb & _)].
    pose proof (blocks_span _ _ _ _ Hsuf) as [Hs0 _].
    assert (Epre : span pre = span w + s + span suf) by (rewrite E, span_app; simpl; lia).
    destruct f; simpl in Hgm, Hfu |- *.
    + rewrite (Hblock _ _ _ w s (suf ++ (sz, true) :: post)); [|lia|lia|by rewrite E, <- app_assoc|ulia].
      rewrite (proj2 (Z.ltb_ge _ _)) by lia. rewrite <- Esp.
      replace (span w) with (last_free 0 (w ++ [(s, true)]) NONE) by (rewrite last_free_app; simpl; lia).
      apply IH; try done; lia.
    + rewrite <- Esp. replace (last_free 0 w NONE) with (last_free 0 (w ++ [(s, false)]) NONE)
        by (rewrite last_free_app; done). apply IH; try done; lia.
Qed.

Lemma dealloc_free_spec h arena pre sz post header :
  heap_inv h arena (pre ++ (sz, true) :: post) -> span pre <= header < span pre + sz ->
  exists e, dealloc h arena (header + HEADER_SIZE) = Done (h, arena, Err e) /\
    (header = span pre -> e = AlreadyFree (header + HEADER_SIZE)).
Proof.
  intros [Hs Hco Hst] Hh. pose proof (shape_len _ _ _ Hs) as (Hal & Hm & _).
  destruct (shape_split _ _ _ _ _ _ Hs) as (Hpre & Hr & Hpost & Hlb & H8 & H8p & Hp0 & Hq0 & Hsp).
  unfold dealloc, arena_matches. rewrite (hs_arena _ _ _ Hs), Z.eqb_refl. cbn [negb orb].
  rewrite (proj2 (Z.ltb_ge _ _)) by ulia. cbn [orb].
  destruct (Z.eq_dec header (span pre)) as [->|Hne].
  - rewrite (proj2 (Z.leb_gt _ _)) by ulia. cbn [orb].
    assert (Hmul : is_multiple_of (span pre + HEADER_SIZE) HEADER_ALIGN = true).
    { apply is_multiple_of_spec; [done|]. apply Z.divide_add_r; [done|by exists 3]. }
    rewrite Hmul. cbn [negb]. rewrite sub64_done by ulia. cbn [exec_bind].
    replace (span pre + HEADER_SIZE - HEADER_SIZE) with (span pre) by lia. rewrite Hr. cbn. eauto.
  - destruct (_ || _); [eexists; split; [done|lia]|].
    rewrite sub64_done by ulia. cbn [exec_bind].
    replace (header + HEADER_SIZE - HEADER_SIZE) with header by lia.
    destruct (read_header arena header) as [[[m s] x]|]; [|eexists; split; [done|lia]].
    destruct (m =? MAGIC_FREE); [eexists; split; [done|lia]|].
    destruct (negb (m =? MAGIC_ALLOC)); [eexists; split; [done|lia]|].
    destruct (checked_add header s) as [e|]; [|eexists; split; [done|lia]].
    destruct (_ || _); [eexists; split; [done|lia]|].
    pose proof (walk_guard _ _ _ Hs [] _ eq_refl) as Hg. rewrite count_free_app in Hg. simpl in Hg.
    pose proof (count_free_nonneg post). rewrite (hs_head _ _ _ Hs).
    pose proof (dealloc_loop_inside h arena pre sz post (header + HEADER_SIZE) header e Hs ltac:(lia)
      pre [] (walk_fuel h) 0 eq_refl ltac:(lia) ltac:(lia) ltac:(unfold walk_fuel; lia)) as Hloop.
    cbn [last_free span] in Hloop. rewrite Hloop. cbn [exec_bind]. eexists. split; [done|lia].
Qed.

(** ** Payloads in use *)
Lemma live_split o bs p n :
  (p, n) ∈ live o bs -> exists pre sz post, bs = pre ++ (sz, false) :: post /\
    p = o + span pre + HEADER_SIZE /\ n = sz - HEADER_SIZE.
Proof.
  revert o. induction bs as [|[sz f] bs IH]; intros o; simpl; [intros H; by apply elem_of_nil in H|].
  intros H. assert (Hrec : (p, n) ∈ live (o + sz) bs -> exists pre s post, (sz, f) :: bs = pre ++ (s, false) :: post /\
    p = o + span pre + HEADER_SIZE /\ n = s - HEADER_SIZE).
  { intros (pre & s & post & -> & -> & ->)%IH. exists ((sz, f) :: pre), s, post. simpl. split_and!; [done|lia|done]. }
  destruct f; [by apply Hrec|]. apply elem_of_cons in H as [[= -> ->]|H]; [|by apply Hrec].
  exists [], sz, bs. simpl. split_and!; [done|lia|done].
Qed.

Lemma live_none arena o bs nx :
  blocks_ok arena o bs nx -> live o bs = [] -> coalesced bs = true -> bs = [] \/ bs = [(span bs, true)].
Proof.
  destruct bs as [|[s1 []] [|[s2 []] bs]]; simpl; try done; auto.
  intros _ _ _. right. by rewrite Z.add_0_r.
Qed.

Lemma carve_live pre sz post size align k :
  0 <= k <= 12 -> align = 2 ^ k -> (8 | span pre) -> 0 < size ->
  fits (span pre) sz size align = true -> (8 | sz) ->
  let p := payload_at (span pre) align in
  exists cap, size <= cap /\
    live 0 (pre ++ carve (span pre) sz p size ++ post) =
      live 0 pre ++ (p, cap) :: live (span pre + sz) post /\
    live 0 (pre ++ (sz, true) :: post) = live 0 pre ++ live (span pre + sz) post.
Proof.
  intros Hk Ha [c Hc] Hsize Hfit [s Hs] p.
  destruct (payload_at_spec (span pre) align k Hk Ha ltac:(by exists c)) as (_ & _ & Hlo & _ & Hgap).
  fold p in Hlo, Hgap. unfold fits in Hfit. fold p in Hfit.
  destruct (up_spec (p + size) HEADER_ALIGN ltac:(done)) as [Hts [w Hw]].
  rewrite !live_app. simpl (0 + _). unfold carve.
  set (ts := up (p + size) HEADER_ALIGN) in *.
  destruct (Z.ltb_spec 0 (p - (span pre + HEADER_SIZE))), (Z.leb_spec MIN_BLOCK (span pre + sz - ts));
    [exists (ts - p)|exists (span pre + sz - p)|exists (ts - p)|exists (span pre + sz - p)];
    (split; [ulia|split; [|done]]); cbn [app live span]; repeat first [lia | ulia | progress f_equal].
Qed.

Lemma release_carve pre sz post p size :
  coalesced (pre ++ (sz, true) :: post) = true ->
  span pre + HEADER_SIZE <= p ->
  exists pre' a post', pre ++ carve (span pre) sz p size ++ post = pre' ++ (a, false) :: post' /\
    p = span pre' + HEADER_SIZE /\ release pre' a post' = pre ++ (sz, true) :: post.
Proof.
  unfold coalesced. rewrite coalesced_after_app. simpl. intros [_ [Hl Hp]%andb_true_iff]%andb_true_iff Hlo.
  rewrite andb_true_r in Hl. apply negb_true_iff in Hl.
  assert (Hpost : forall x, merge_next x post = (x, post)).
  { intros x. destruct post as [|[? []] ?]; done. }
  assert (Hpre : forall x, merge_prev pre x = (pre, x)).
  { intros x. destruct (merge_prev_cases pre x) as [(pre' & ps & -> & _)|[_ E]]; [|done].
    by rewrite last_flag_snoc in Hl. }
  assert (Hfront : forall g x, merge_prev (pre ++ [(g, true)]) x = (pre, x + g)).
  { intros g x. unfold merge_prev. rewrite rev_app_distr. simpl. by rewrite rev_involutive. }
  unfold carve. set (ts := up (p + size) HEADER_ALIGN).
  destruct (Z.ltb_spec 0 (p - (span pre + HEADER_SIZE))), (Z.leb_spec MIN_BLOCK (span pre + sz - ts)).
  - eexists (pre ++ [_]), _, (_ :: post). rewrite <- !app_assoc. split; [done|].
    rewrite span_app. simpl span. split; [lia|]. unfold release. cbn [merge_next]. rewrite Hfront.
    do 3 f_equal. ulia.
  - eexists (pre ++ [_]), _, post. rewrite <- !app_assoc. split; [done|].
    rewrite span_app. simpl span. split; [lia|]. unfold release. rewrite Hpost, Hfront.
    do 3 f_equal. ulia.
  - eexists pre, _, (_ :: post). split; [done|]. split; [lia|]. unfold release. cbn [merge_next]. rewrite Hpre.
    do 3 f_equal. lia.
  - eexists pre, _, post. split; [done|]. split; [lia|]. unfold release. rewrite Hpost, Hpre.
    do 3 f_equal. lia.
Qed.

Lemma init_spec arena :
  bytes_ok arena -> len arena <= ISIZE_MAX ->
  if round_down (len arena) <? MIN_BLOCK then init arena = Done (empty, arena)
  else exists h arena', init arena = Done (h, arena') /\
    heap_inv h arena' [(round_down (len arena), true)] /\ len arena' = len arena.
Proof.
  intros Hok Hm. unfold init. destruct (Z.ltb_spec (round_down (len arena)) MIN_BLOCK) as [|Hb]; [done|].
  pose proof (len_nonneg arena). destruct (round_down_bounds (len arena) ltac:(ulia)) as [Hr H8].
  destruct (write_header_spec arena 0 MAGIC_FREE (round_down (len arena)) NONE)
    as (arena' & E & Hok' & Hout & Hrd); [done|lia|ulia|done|ulia|ulia|ulia|].
  rewrite E. cbn [exec_bind]. rewrite sub64_done by ulia. cbn [exec_bind].
  pose proof (os_len _ _ _ _ Hout) as Hl. eexists _, arena'. split; [done|]. split; [|done].
  constructor; [constructor|done|]; simpl; rewrite ?Hl; try done; try lia.
  - split_and!; [ulia|done|done|done].
  - unfold stats. simpl. f_equal; ulia.
Qed.

Lemma payload_write_shape h arena bs p n q s :
  heap_shape h arena bs -> (p, n) ∈ live 0 bs -> p <= q -> q + len s <= p + n -> bytes_ok s ->
  heap_shape h (splice arena q s) bs.
Proof.
  intros Hs Hin Hq Hle Hok. pose proof (shape_len _ _ _ Hs) as (Hal & Hm & _).
  destruct (live_split _ _ _ _ Hin) as (pre & sz & post & -> & -> & ->).
  destruct (shape_split _ _ _ _ _ _ Hs) as (Hpre & Hr & Hpost & Hlb & H8 & H8p & Hp0 & Hq0 & Hsp).
  pose proof (len_nonneg s).
  assert (Hout : outside arena (splice arena q s) q (q + len s)).
  { split; [apply len_splice; ulia|]. intros. apply sub_list_splice_ne; ulia. }
  pose proof (os_len _ _ _ _ Hout) as Hl. destruct Hs as [Hb Hlen Ha Hspan Ht Hh].
  constructor; rewrite ?Hl; try done; [by apply bytes_ok_splice|].
  apply blocks_ok_app. simpl. split; [|split_and!; [done|done|..]].
  - eapply blocks_ok_outside; [exact Hout|done|lia|ulia|exact Hpre].
  - rewrite (read_header_outside _ _ _ _ _ Hout) by ulia. exact Hr.
  - eapply blocks_ok_outside; [exact Hout|done|ulia|ulia|exact Hpost].
Qed.

(** ** A 256-byte arena for the witnesses *)
Definition demo_arena : list Z := replicate 256 0xCC.
Definition demo_heap : FreeList * list Z :=
  match init demo_arena with Done x => x | Panic => (empty, demo_arena) end.
Definition demo_heap2 : FreeList * list Z :=
  match alloc (fst demo_heap) (snd demo_heap) 20 16 with
  | Done (h, a, _) => (h, a)
  | Panic => demo_heap
  end.

Lemma demo_heap_inv : heap_inv (fst demo_heap) (snd demo_heap) [(256, true)].
Proof.
  pose proof (init_spec demo_arena ltac:(by apply bytes_ok_b) ltac:(vm_compute; discriminate)) as H.
  change (round_down (len demo_arena)) with 256 in H.
  change (256 <? MIN_BLOCK) with false in H. cbn iota in H. unfold demo_heap.
  destruct H as (h & a & -> & H & _). exact H.
Qed.

Lemma demo_heap2_inv :
  heap_inv (fst demo_heap2) (snd demo_heap2) [(40, true); (48, false); (168, true)].
Proof.
  unfold demo_heap2.
  destruct (heap_alloc_spec _ _ _ 20 16 demo_heap_inv ltac:(ulia) ltac:(ulia))
    as [[E _]|(h & a & p & E & _ & _ & pre & sz & post & Ebs & _ & _ & -> & Hinv & _)].
  { exfalso. assert (Hx : match alloc (fst demo_heap) (snd demo_heap) 20 16 with
      Done (_, _, Some _) => True | _ => False end) by (vm_compute; exact I). by rewrite E in Hx. }
  rewrite E. destruct pre as [|[? ?] [|]]; try discriminate Ebs.
  injection Ebs as <- <-. exact Hinv.
Qed.

(** ** The arena keeps its length *)
Lemma put_len arena a n bs arena' : put arena a n bs = Done arena' -> len arena' = len arena.
Proof.
  unfold put. intros H. inv_exec. apply copy_from_slice_inv in H as (? & ? & ? & ->).
  apply len_splice; lia.
Qed.

Lemma write_header_len arena o m s n arena' :
  write_header arena o m s n = Done arena' -> len arena' = len arena.
Proof.
  unfold write_header. intros H. inv_exec.
  repeat match goal with E : put _ _ _ _ = Done _ |- _ => apply put_len in E end. congruence.
Qed.

Ltac arena_len_solve :=
  repeat first
    [ progress inv_exec
    | match goal with
      | E : write_header _ _ _ _ _ = Done _ |- _ => apply write_header_len in E
      | E : Done _ = Done _ |- _ => injection E as E; subst
      | E : (_, _) = (_, _) |- _ => injection E as ? ?; subst
      | E : exec_bind _ _ = Done _ |- _ => apply exec_bind_done in E as ([? ?] & ? & E)
      | E : context [match ?x with _ => _ end] |- _ => destruct x eqn:?
      end
    | discriminate
    | congruence ].

Lemma alloc_commit_len h arena pr cu nx be pa fg pe h' arena' r :
  alloc_commit h arena pr cu nx be pa fg pe = Done (h', arena', r) -> len arena' = len arena.
Proof. unfold alloc_commit. intros H. arena_len_solve. Qed.

Lemma alloc_len h arena size align h' arena' r :
  alloc h arena size align = Done (h', arena', r) -> len arena' = len arena.
Proof.
  unfold alloc. case_match; [intros [= <- <- <-]; done|].
  generalize (walk_fuel h) NONE (head h) 0. intros fuel.
  induction fuel as [|fuel IH]; intros pr cu g; cbn [alloc_loop]; (case_match; [intros [= <- <- <-]; done|]); [done|].
  intros HE. apply exec_bind_done in HE as (g' & _ & HE).
  repeat (case_match; try (injection HE as <- <- <-; done)).
  apply exec_bind_done in HE as (o & _ & HE).
  repeat (case_match; try (injection HE as <- <- <-; done)); [by eapply IH|by eapply alloc_commit_len].
Qed.

Lemma dealloc_commit_len h arena he bs be pr cu h' arena' r :
  dealloc_commit h arena he bs be pr cu = Done (h', arena', r) -> len arena' = len arena.
Proof. unfold dealloc_commit. intros H. arena_len_solve. Qed.

Lemma dealloc_len h arena off h' arena' r :
  dealloc h arena off = Done (h', arena', r) -> len arena' = len arena.
Proof.
  unfold dealloc. intros HE. repeat (case_match; try (injection HE as <- <- <-; done)).
  apply exec_bind_done in HE as (hd & _ & HE).
  repeat (case_match; try (injection HE as <- <- <-; done)).
  apply exec_bind_done in HE as (res & _ & HE). case_match; [|injection HE as <- <- <-; done].
  case_match. by eapply dealloc_commit_len.
Qed.

(** ** Claims *)

(** initialisation.  An arena that rounds down to at least one block
    becomes a single free block that covers it; a smaller one yields the empty
    list, untouched.  No panic either way. *)
Lemma heap_init_one_block arena :
  bytes_ok arena -> len arena <= ISIZE_MAX ->
  if round_down (len arena) <? MIN_BLOCK then init arena = Done (empty, arena)
  else exists h arena', init arena = Done (h, arena') /\
    heap_inv h arena' [(round_down (len arena), true)] /\ len arena' = len arena.
Proof. apply init_spec. Qed.

Lemma heap_init_one_block_witness :
  exists h arena', init demo_arena = Done (h, arena') /\ heap_inv h arena' [(256, true)] /\
    len arena' = 256.
Proof.
  apply (heap_init_one_block demo_arena); [by apply bytes_ok_b|vm_compute; discriminate].
Defined.

Lemma heap_alloc_full h arena bs size align :
  heap_inv h arena bs -> is_usize size -> is_usize align ->
  match alloc h arena size align with
  | Done (h', arena', Some p) =>
      (align | p) /\
      exists bs' pre sz post cap,
        bs = pre ++ (sz, true) :: post /\ none_fits 0 pre size align /\
        p = payload_at (span pre) align /\
        heap_inv h' arena' bs' /\ size <= cap /\
        live 0 bs = live 0 pre ++ live (span pre + sz) post /\
        live 0 bs' = live 0 pre ++ (p, cap) :: live (span pre + sz) post /\
        keeps arena arena' bs
  | Done (h', arena', None) => h' = h /\ arena' = arena /\
      (size = 0 \/ is_power_of_two align = false \/ MAX_ALIGN < align \/ none_fits 0 bs size align)
  | Panic => False
  end.
Proof.
  intros Hinv Hsz Hal.
  destruct (heap_alloc_spec h arena bs size align Hinv Hsz Hal)
    as [[-> H]|(h' & arena' & p & -> & (k & Hk & Ha) & Hpos & pre & sz & post & Ebs & Hnone & Hfit & Ep & Hinv' & Hkeep)].
  { done. }
  pose proof (hi_shape _ _ _ Hinv) as Hs. rewrite Ebs in Hs.
  destruct (shape_split _ _ _ _ _ _ Hs) as (_ & _ & _ & _ & H8 & H8p & _).
  destruct (payload_at_spec (span pre) align k Hk Ha H8p) as (Hd & _).
  destruct (carve_live pre sz post size align k Hk Ha H8p Hpos Hfit H8) as (cap & Hcap & Hl' & Hl).
  split; [by rewrite Ep|].
  exists (pre ++ carve (span pre) sz p size ++ post), pre, sz, post, cap.
  rewrite Ep in *. rewrite Ebs at 2. by split_and!.
Qed.

(** C17: allocation.  In a well-formed heap [alloc] never panics.  If it
    succeeds, the payload comes from the first free block that can take it,
    is aligned as asked, has room for the request, is added to the payloads in
    use (the others keep their place and their bytes) and the heap stays
    well formed, statistics included.  If it fails, nothing changed and the
    request was empty, the alignment unusable, or no free block could take
    it. *)
Theorem heap_alloc_sound h arena bs size align :
  heap_inv h arena bs -> is_usize size -> is_usize align ->
  match alloc h arena size align with
  | Done (h', arena', Some p) =>
      (align | p) /\
      exists bs' pre sz post cap,
        bs = pre ++ (sz, true) :: post /\ none_fits 0 pre size align /\
        p = payload_at (span pre) align /\
        heap_inv h' arena' bs' /\ size <= cap /\
        live 0 bs = live 0 pre ++ live (span pre + sz) post /\
        live 0 bs' = live 0 pre ++ (p, cap) :: live (span pre + sz) post /\
        keeps arena arena' bs
  | Done (h', arena', None) => h' = h /\ arena' = arena /\
      (size = 0 \/ is_power_of_two align = false \/ MAX_ALIGN < align \/ none_fits 0 bs size align)
  | Panic => False
  end.
Proof. apply heap_alloc_full. Qed.

Lemma heap_alloc_sound_witness :
  match alloc (fst demo_heap) (snd demo_heap) 20 16 with
  | Done (_, _, Some p) => (16 | p) /\ p = 64
  | _ => False
  end.
Proof.
  pose proof (heap_alloc_sound (fst demo_heap) (snd demo_heap) [(256, true)] 20 16
    demo_heap_inv ltac:(ulia) ltac:(ulia)) as H.
  destruct (alloc (fst demo_heap) (snd demo_heap) 20 16) as [[[h a] [p|]]|] eqn:E; [|vm_compute in E; discriminate E..].
  split; [apply H|]. vm_compute in E. by injection E.
Defined.

(** Releasing a block removes its payload and no other. *)
Lemma live_release pre sz post : live 0 (release pre sz post) = others pre sz post.
Proof.
  unfold release, others, merge_next, merge_prev.
  assert (Hpost : forall o, live (o + fst (match post with (ns, true) :: post' => (sz + ns, post') | _ => (sz, post) end))
                              (snd (match post with (ns, true) :: post' => (sz + ns, post') | _ => (sz, post) end)) =
                            live (o + sz) post).
  { intros o. destruct post as [|[ns []] post']; [done| |done]. simpl. f_equal. lia. }
  destruct (match post with (ns, true) :: post' => (sz + ns, post') | _ => (sz, post) end) as [sz1 post1].
  cbn [fst snd] in Hpost. destruct (rev pre) as [|[ps []] pre'] eqn:E.
  - rewrite live_app. simpl. by rewrite Hpost.
  - apply (f_equal (@rev _)) in E. rewrite rev_involutive in E. simpl in E. rewrite E, !live_app, span_app. simpl.
    rewrite app_nil_r, Z.add_0_r. f_equal. rewrite <- Hpost. f_equal. lia.
  - rewrite live_app. simpl. by rewrite Hpost.
Qed.

(** C18: release.  Releasing a payload in use succeeds without a panic, removes
    exactly that payload, merges its block with the free neighbours on both
    sides (so no two free blocks are ever adjacent), leaves the bytes of all
    other payloads alone and keeps the heap well formed. *)
Theorem heap_dealloc_sound h arena bs p n :
  heap_inv h arena bs -> (p, n) ∈ live 0 bs ->
  exists pre sz post h' arena',
    bs = pre ++ (sz, false) :: post /\ p = span pre + HEADER_SIZE /\ n = sz - HEADER_SIZE /\
    dealloc h arena p = Done (h', arena', Ok tt) /\
    heap_inv h' arena' (release pre sz post) /\ live 0 (release pre sz post) = others pre sz post /\
    forall o k, (o, k) ∈ others pre sz post -> sub_list arena' o k = sub_list arena o k.
Proof.
  intros Hinv Hin. destruct (live_split _ _ _ _ Hin) as (pre & sz & post & -> & -> & ->).
  destruct (dealloc_spec h arena pre sz post Hinv) as (h' & arena' & E & Hinv' & Hk).
  rewrite Z.add_0_l. exists pre, sz, post, h', arena'. pose proof (live_release pre sz post). by split_and!.
Qed.

Lemma heap_dealloc_sound_witness :
  exists h' arena', dealloc (fst demo_heap2) (snd demo_heap2) 64 = Done (h', arena', Ok tt) /\
    heap_inv h' arena' [(256, true)].
Proof.
  destruct (heap_dealloc_sound _ _ _ 64 24 demo_heap2_inv)
    as (pre & sz & post & h' & arena' & Ebs & Ep & En & E & Hinv & _).
  - vm_compute. left.
  - exists h', arena'. split; [exact E|].
    destruct pre as [|[? ?] [|[? ?] [|[? ?] pre]]]; try discriminate Ebs; [|destruct pre; discriminate Ebs].
    injection Ebs as <- <- <- <-. exact Hinv.
Defined.

(** double release.  Whatever offset is given, if the header it implies
    lies anywhere inside a free block (a payload released before, even when
    its block was merged into a larger one since), [dealloc] refuses, without
    a panic and without changing anything; at the start of a free block the
    error is [AlreadyFree]. *)
Lemma heap_double_free_refused h arena pre sz post header :
  heap_inv h arena (pre ++ (sz, true) :: post) -> span pre <= header < span pre + sz ->
  exists e, dealloc h arena (header + HEADER_SIZE) = Done (h, arena, Err e) /\
    (header = span pre -> e = AlreadyFree (header + HEADER_SIZE)).
Proof. apply dealloc_free_spec. Qed.

Lemma heap_double_free_refused_witness :
  exists e, dealloc (fst demo_heap) (snd demo_heap) 64 = Done (fst demo_heap, snd demo_heap, Err e) /\
    (40 = 0 -> e = AlreadyFree 64).
Proof. apply (heap_double_free_refused _ _ [] 256 [] 40 demo_heap_inv). simpl. lia. Defined.

Lemma alloc_dealloc_restores h arena bs size align h1 arena1 p :
  heap_inv h arena bs -> is_usize size -> is_usize align ->
  alloc h arena size align = Done (h1, arena1, Some p) ->
  exists arena2, dealloc h1 arena1 p = Done (h, arena2, Ok tt) /\ heap_inv h arena2 bs.
Proof.
  intros Hinv Hsz Hal E.
  destruct (heap_alloc_spec h arena bs size align Hinv Hsz Hal)
    as [[E' H]|(h' & arena' & p' & E' & (k & Hk & Ha) & Hpos & pre & sz & post & Ebs & _ & _ & Ep & Hinv' & _)];
    rewrite E in E'; [done|]. injection E' as <- <- <-.
  pose proof (hi_shape _ _ _ Hinv) as Hs. rewrite Ebs in Hs.
  destruct (shape_split _ _ _ _ _ _ Hs) as (_ & _ & _ & _ & _ & H8p & _).
  destruct (payload_at_spec (span pre) align k Hk Ha H8p) as (_ & _ & Hlo & _).
  destruct (release_carve pre sz post p size) as (pre' & a & post' & Ecut & Ep' & Erel);
    [rewrite <- Ebs; apply Hinv|lia|].
  rewrite Ecut in Hinv'. destruct (dealloc_spec h1 arena1 pre' a post' Hinv') as (h2 & arena2 & Ed & Hinv2 & _).
  rewrite Erel, <- Ebs in Hinv2. exists arena2. rewrite Ep', Ed.
  assert (Eh : h2 = h); [|by rewrite Eh in *].
  pose proof (hi_stats _ _ _ Hinv2) as H2. rewrite <- (hi_stats _ _ _ Hinv) in H2.
  destruct Hinv2 as [[_ _ _ Hsp2 _ Hh2] _ _], Hinv as [[_ _ _ Hsp _ Hh] _ _].
  destruct h2, h. unfold stats in H2. simpl in *. injection H2 as -> -> ->. f_equal; congruence.
Qed.

(** an allocation followed by its release restores the free list exactly,
    head and statistics included, and the tiling of the arena. *)
Lemma heap_alloc_dealloc_roundtrip h arena bs size align h1 arena1 p :
  heap_inv h arena bs -> is_usize size -> is_usize align ->
  alloc h arena size align = Done (h1, arena1, Some p) ->
  exists arena2, dealloc h1 arena1 p = Done (h, arena2, Ok tt) /\ heap_inv h arena2 bs.
Proof. apply alloc_dealloc_restores. Qed.

Lemma heap_alloc_dealloc_roundtrip_witness :
  exists h1 arena1 arena2, alloc (fst demo_heap2) (snd demo_heap2) 8 8 = Done (h1, arena1, Some 24) /\
    dealloc h1 arena1 24 = Done (fst demo_heap2, arena2, Ok tt).
Proof.
  destruct (alloc (fst demo_heap2) (snd demo_heap2) 8 8) as [[[h1 a1] [p|]]|] eqn:E; [|vm_compute in E; discriminate E..].
  destruct (heap_alloc_dealloc_roundtrip _ _ _ 8 8 h1 a1 p demo_heap2_inv ltac:(ulia) ltac:(ulia) E)
    as (arena2 & Ed & _).
  assert (Ep : p = 24) by (vm_compute in E; injection E; congruence).
  rewrite Ep in Ed. exists h1, a1, arena2. rewrite Ep. split; [reflexivity|exact Ed].
Defined.

Lemma payloads_isolated h arena bs p n q s :
  heap_inv h arena bs -> (p, n) ∈ live 0 bs ->
  p <= q -> q + len s <= p + n -> bytes_ok s ->
  HEADER_SIZE <= p /\ p + n <= len arena /\
  (forall p' n', (p', n') ∈ live 0 bs ->
     (p', n') = (p, n) \/ p + n + HEADER_SIZE <= p' \/ p' + n' + HEADER_SIZE <= p) /\
  heap_inv h (splice arena q s) bs.
Proof.
  intros Hinv Hin Hq Hle Hok. pose proof (hi_shape _ _ _ Hinv) as Hs.
  pose proof (shape_len _ _ _ Hs) as (Hal & _).
  destruct (live_range _ _ _ _ _ _ (hs_tiles _ _ _ Hs) Hin) as (H1 & H2 & _).
  rewrite (hs_span _ _ _ Hs) in H2. split_and!; try lia.
  - intros p' n' Hin'. destruct (live_split _ _ _ _ Hin) as (pre & sz & post & Ebs & -> & ->).
    rewrite Ebs, live_app in Hin'. pose proof (hs_tiles _ _ _ Hs) as Hb. rewrite Ebs in Hb.
    simpl in Hin'. rewrite elem_of_app, elem_of_cons in Hin'.
    assert (Ho : (p', n') = (0 + span pre + HEADER_SIZE, sz - HEADER_SIZE) \/ (p', n') ∈ others pre sz post).
    { unfold others. rewrite elem_of_app. naive_solver. }
    destruct Ho as [->|Ho]; [by left|right].
    destruct (others_apart _ _ _ _ _ _ _ _ Hb Ho). ulia.
  - constructor; [|apply Hinv|apply Hinv]. by eapply payload_write_shape.
Qed.

(** the payloads in use lie inside the arena, behind a header of their
    own, and never overlap: of any two, one ends at least a header before the
    other starts.  Writing inside one of them cannot damage the heap. *)
Lemma heap_payloads_isolated h arena bs p n q s :
  heap_inv h arena bs -> (p, n) ∈ live 0 bs ->
  p <= q -> q + len s <= p + n -> bytes_ok s ->
  HEADER_SIZE <= p /\ p + n <= len arena /\
  (forall p' n', (p', n') ∈ live 0 bs ->
     (p', n') = (p, n) \/ p + n + HEADER_SIZE <= p' \/ p' + n' + HEADER_SIZE <= p) /\
  heap_inv h (splice arena q s) bs.
Proof. apply payloads_isolated. Qed.

Lemma heap_payloads_isolated_witness :
  heap_inv (fst demo_heap2) (splice (snd demo_heap2) 70 (replicate 10 0xFF))
    [(40, true); (48, false); (168, true)].
Proof.
  apply (heap_payloads_isolated _ _ _ 64 24 70 (replicate 10 0xFF) demo_heap2_inv).
  - vm_compute. left.
  - lia.
  - vm_compute. discriminate.
  - by apply bytes_ok_b.
Defined.

(** nothing leaks and nothing stays fragmented: when no payload is in use
    the arena is one free block again and the statistics are the initial
    ones. *)
Lemma heap_all_released h arena bs :
  heap_inv h arena bs -> live 0 bs = [] -> 0 < arena_len h ->
  bs = [(arena_len h, true)] /\ head h = 0 /\
  stats h = mkHeapStats 1 (arena_len h - HEADER_SIZE) (arena_len h - HEADER_SIZE).
Proof.
  intros Hinv Hl Hpos. pose proof (hi_shape _ _ _ Hinv) as Hs.
  destruct (live_none _ _ _ _ (hs_tiles _ _ _ Hs) Hl (hi_coalesced _ _ _ Hinv)) as [E|E].
  { pose proof (hs_span _ _ _ Hs). subst bs. simpl in *. lia. }
  rewrite (hs_span _ _ _ Hs) in E. pose proof (hs_tiles _ _ _ Hs) as Hb.
  rewrite (hs_head _ _ _ Hs), (hi_stats _ _ _ Hinv), E in *. simpl in Hb |- *.
  split_and!; try done. f_equal; ulia.
Qed.

Lemma heap_all_released_witness :
  [(256, true)] = [(arena_len (fst demo_heap), true)] /\ head (fst demo_heap) = 0 /\
  stats (fst demo_heap) = mkHeapStats 1 232 232.
Proof. apply (heap_all_released _ _ _ demo_heap_inv); reflexivity. Defined.
