(* ===== verification/KernelImage.v ===== *)
(** * Kernel image validation (crates/kernel-image/src/lib.rs)

    The ELF64 header check, the lazy iterator over the [PT_LOAD] program
    headers and the four checks built on it.  The theorems: every check
    finishes without a panic on every byte string, together they accept
    exactly the well-formed images (segments inside the file, no address
    overflow, pairwise disjoint, entry point in an executable segment), and
    [loaded_span] is the least page-aligned range that covers the segments. *)
From Stdlib Require Import ZArith Lia Bool.
From stdpp Require Import base tactics option list numbers.
From S2P Require Import Prelude.

#[local] Open Scope Z_scope.

(** ** Data *)
Definition ELF_HEADER_MIN_LEN : Z := 64.
Definition EI_CLASS : Z := 4.
Definition EI_DATA : Z := 5.
Definition E_TYPE_OFFSET : Z := 16.
Definition E_MACHINE_OFFSET : Z := 18.
Definition E_ENTRY_OFFSET : Z := 24.
Definition ELFCLASS64 : Z := 2.
Definition ELFDATA2LSB : Z := 1.
Definition ET_EXEC : Z := 2.
Definition EM_X86_64 : Z := 62.
Definition ELF_MAGIC : list Z := [0x7f; 0x45; 0x4C; 0x46].
Definition PF_X : Z := 1.
Definition PF_W : Z := 2.
Definition PF_R : Z := 4.
Definition PAGE_SIZE : Z := 4096.
Definition PHDR_LEN : Z := 56.
Definition PT_LOAD : Z := 1.
Definition P_TYPE_OFFSET : Z := 0.
Definition P_FLAGS_OFFSET : Z := 4.
Definition P_OFFSET_OFFSET : Z := 8.
Definition P_PADDR_OFFSET : Z := 24.
Definition P_VADDR_OFFSET : Z := 16.
Definition P_FILESZ_OFFSET : Z := 32.
Definition P_MEMSZ_OFFSET : Z := 40.
Definition E_PHOFF_OFFSET : Z := 32.
Definition E_PHENTSIZE_OFFSET : Z := 54.
Definition E_PHNUM_OFFSET : Z := 56.

Create HintDb elf.
#[export] Hint Unfold ELF_HEADER_MIN_LEN EI_CLASS EI_DATA E_TYPE_OFFSET E_MACHINE_OFFSET : elf.
#[export] Hint Unfold E_ENTRY_OFFSET PAGE_SIZE PHDR_LEN P_TYPE_OFFSET P_FLAGS_OFFSET : elf.
#[export] Hint Unfold P_OFFSET_OFFSET P_PADDR_OFFSET P_VADDR_OFFSET P_FILESZ_OFFSET : elf.
#[export] Hint Unfold P_MEMSZ_OFFSET E_PHOFF_OFFSET E_PHENTSIZE_OFFSET E_PHNUM_OFFSET : elf.

Ltac elia := autounfold with elf consts in *; lia.

Inductive ImageError : Type :=
| TooSmall (n : Z)
| NotElf
| NotElf64
| NotLittleEndian
| NotExecutable (e_type : Z)
| UnsupportedMachine (machine : Z).

Record Segment : Type := mkSegment {
  offset : Z;
  paddr : Z;
  vaddr : Z;
  filesz : Z;
  memsz : Z;
  flags : Z
}.

Inductive SegmentError : Type :=
| BadProgramHeaders
| FileszLargerThanMemsz
| DataOutOfBounds
| AddressOverflow
| EmptySegment
| OverlappingSegments
| EntryNotExecutable.

#[export] Instance segment_error_eq_dec : EqDecision SegmentError.
Proof. solve_decision. Defined.

Record SegmentIter : Type := mkIter {
  it_data : list Z;
  table_offset : Z;
  entry_size : Z;
  remaining : Z;
  it_index : Z
}.

(** ** Reading *)
Definition read_u16 (data : list Z) (off : Z) : exec Z :=
  let! b0 := index data off in
  let! o1 := add64 off 1 in
  let! b1 := index data o1 in
  Done (le_val [b0; b1]).

Definition read_u32 (data : list Z) (off : Z) : exec Z :=
  let! b0 := index data off in
  let! o1 := add64 off 1 in
  let! b1 := index data o1 in
  let! o2 := add64 off 2 in
  let! b2 := index data o2 in
  let! o3 := add64 off 3 in
  let! b3 := index data o3 in
  Done (le_val [b0; b1; b2; b3]).

Definition read_u64 (data : list Z) (off : Z) : exec Z :=
  let! stop := add64 off 8 in
  let! raw := slice data off stop in
  Done (le_val raw).

Definition validate (data : list Z) : exec (Result Z ImageError) :=
  if len data <? ELF_HEADER_MIN_LEN then Done (Err (TooSmall (len data)))
  else
    let! magic := slice data 0 4 in
    if negb (bool_decide (magic = ELF_MAGIC)) then Done (Err NotElf)
    else
      let! class := index data EI_CLASS in
      if negb (class =? ELFCLASS64) then Done (Err NotElf64)
      else
        let! enc := index data EI_DATA in
        if negb (enc =? ELFDATA2LSB) then Done (Err NotLittleEndian)
        else
          let! e_type := read_u16 data E_TYPE_OFFSET in
          if negb (e_type =? ET_EXEC) then Done (Err (NotExecutable e_type))
          else
            let! e_machine := read_u16 data E_MACHINE_OFFSET in
            if negb (e_machine =? EM_X86_64) then Done (Err (UnsupportedMachine e_machine))
            else
              let! entry := read_u64 data E_ENTRY_OFFSET in
              Done (Ok entry).

(** ** Segments *)
Definition page_range (s : Segment) : exec (Z * Z) :=
  let start := Z.land (paddr s) (bnot 64 (PAGE_SIZE - 1)) in
  let! e := add64 (paddr s) (memsz s) in
  let! stop := mul64 (div_ceil e PAGE_SIZE) PAGE_SIZE in
  Done (start, stop).

Definition is_executable (s : Segment) : bool := negb (Z.land (flags s) PF_X =? 0).

(** The [while self.remaining > 0] loop of [next]; the fuel is [remaining]. *)
Fixpoint next_loop (fuel : nat) (it : SegmentIter) :
    exec (option (Result Segment SegmentError) * SegmentIter) :=
  if 0 <? remaining it then
    match fuel with
    | O => Panic
    | S fuel =>
        let i := it_index it in
        let it := mkIter (it_data it) (table_offset it) (entry_size it) (remaining it - 1) (i + 1) in
        let! scaled := mul64 i (entry_size it) in
        let! entry := add64 (table_offset it) scaled in
        let* stop := checked_add entry PHDR_LEN else Done (None, it) in
        if len (it_data it) <? stop then Done (Some (Err BadProgramHeaders), it)
        else
          let! entry_data := slice (it_data it) entry stop in
          let! p_type := read_u32 entry_data P_TYPE_OFFSET in
          if negb (p_type =? PT_LOAD) then next_loop fuel it
          else
            let! off := read_u64 entry_data P_OFFSET_OFFSET in
            let! pa := read_u64 entry_data P_PADDR_OFFSET in
            let! va := read_u64 entry_data P_VADDR_OFFSET in
            let! fsz := read_u64 entry_data P_FILESZ_OFFSET in
            let! msz := read_u64 entry_data P_MEMSZ_OFFSET in
            let! fl := read_u32 entry_data P_FLAGS_OFFSET in
            Done (Some (Ok (mkSegment off pa va fsz msz fl)), it)
    end
  else Done (None, it).

Definition next (it : SegmentIter) : exec (option (Result Segment SegmentError) * SegmentIter) :=
  next_loop (Z.to_nat (remaining it)) it.

Definition segments (data : list Z) : exec (Result SegmentIter SegmentError) :=
  if len data <? ELF_HEADER_MIN_LEN then Done (Err BadProgramHeaders)
  else
    let! table := read_u64 data E_PHOFF_OFFSET in
    let! esz := read_u16 data E_PHENTSIZE_OFFSET in
    let! count := read_u16 data E_PHNUM_OFFSET in
    if (count =? 0) || (esz <? PHDR_LEN) then Done (Err BadProgramHeaders)
    else Done (Ok (mkIter data table esz count 0)).

(** [for segment in iter { let segment = segment?; body }] where the body
    continues with a new state or returns from the function; [fail] is the
    return of the [?]. *)
Fixpoint for_segments {A R : Type} (fuel : nat) (it : SegmentIter) (a : A)
    (body : A -> Segment -> exec (A + R)) (fail : A -> SegmentError -> R) : exec (A + R) :=
  let! (o, it) := next it in
  match o with
  | None => Done (inl a)
  | Some (Err e) => Done (inr (fail a e))
  | Some (Ok seg) =>
      let! r := body a seg in
      match r with
      | inr r => Done (inr r)
      | inl a =>
          match fuel with
          | O => Panic
          | S fuel => for_segments fuel it a body fail
          end
      end
  end.

(** The loop over the image's segments, then what follows it. *)
Definition over_segments {A R : Type} (data : list Z) (a : A)
    (body : A -> Segment -> exec (A + Result R SegmentError))
    (after : A -> Result R SegmentError) : exec (Result R SegmentError) :=
  let? it := segments data in
  let! r := for_segments (Z.to_nat (remaining it)) it a body (fun _ e => Err e) in
  match r with
  | inl a => Done (after a)
  | inr r => Done r
  end.

Definition check_segment (data : list Z) (count : Z) (s : Segment) : exec (Z + Result Z SegmentError) :=
  if memsz s =? 0 then Done (inr (Err EmptySegment))
  else if memsz s <? filesz s then Done (inr (Err FileszLargerThanMemsz))
  else
    let* file_end := checked_add (offset s) (filesz s) else Done (inr (Err AddressOverflow)) in
    if len data <? file_end then Done (inr (Err DataOutOfBounds))
    else
      let* _ := checked_add (paddr s) (memsz s) else Done (inr (Err AddressOverflow)) in
      let! count := add64 count 1 in
      Done (inl count).

Definition check_segments (data : list Z) : exec (Result Z SegmentError) :=
  over_segments data 0 (check_segment data)
    (fun count => if count =? 0 then Err BadProgramHeaders else Ok count).

Definition MAX_RANGES : Z := 16.

(** One round of [check_no_overlap]: the array of ranges and [enumerate]'s
    counter. *)
Definition check_range (st : list (Z * Z) * Z) (s : Segment) :
    exec (list (Z * Z) * Z + Result unit SegmentError) :=
  let (ranges, n) := st in
  let start := paddr s in
  let* stop := checked_add (paddr s) (memsz s) else Done (inr (Err AddressOverflow)) in
  let! seen := slice ranges 0 n in
  if existsb (fun '(other_start, other_end) => (start <? other_end) && (other_start <? stop)) seen
  then Done (inr (Err OverlappingSegments))
  else if n =? len ranges then Done (inr (Err BadProgramHeaders))
  else
    let! ranges := set_index ranges n (start, stop) in
    Done (inl (ranges, n + 1)).

Definition check_no_overlap (data : list Z) : exec (Result unit SegmentError) :=
  over_segments data (replicate (Z.to_nat MAX_RANGES) (0, 0), 0) check_range (fun _ => Ok tt).

Definition check_entry_segment (entry : Z) (_ : unit) (s : Segment) :
    exec (unit + Result unit SegmentError) :=
  let* stop := checked_add (vaddr s) (memsz s) else Done (inr (Err AddressOverflow)) in
  if is_executable s && ((vaddr s <=? entry) && (entry <? stop)) then Done (inr (Ok tt))
  else Done (inl tt).

Definition check_entry (data : list Z) (entry : Z) : exec (Result unit SegmentError) :=
  over_segments data tt (check_entry_segment entry) (fun _ => Err EntryNotExecutable).

Definition span_segment (span : option (Z * Z)) (s : Segment) :
    exec (option (Z * Z) + Result (Z * Z) SegmentError) :=
  let! (start, stop) := page_range s in
  Done (inl (Some (match span with
                   | None => (start, stop)
                   | Some (lo, hi) => (Z.min lo start, Z.max hi stop)
                   end))).

Definition loaded_span (data : list Z) : exec (Result (Z * Z) SegmentError) :=
  over_segments data None span_segment
    (fun span => match span with Some x => Ok x | None => Err BadProgramHeaders end).

(** ** Specification *)

(** The little-endian field of [n] bytes at [o]. *)
Definition field (data : list Z) (o n : Z) : Z := le_val (sub_list data o n).

Definition segment_at (data : list Z) (e : Z) : Segment :=
  mkSegment (field data (e + 8) 8) (field data (e + 24) 8) (field data (e + 16) 8)
    (field data (e + 32) 8) (field data (e + 40) 8) (field data (e + 4) 4).

(** The loadable segments of [n] program headers from header [i] on, and
    whether the table ended before the file did. *)
Fixpoint scan (data : list Z) (table esz : Z) (n : nat) (i : Z) : list Segment * bool :=
  match n with
  | O => ([], true)
  | S n =>
      let e := table + i * esz in
      if e + 56 <=? len data then
        let (l, whole) := scan data table esz n (i + 1) in
        (if field data e 4 =? PT_LOAD then segment_at data e :: l else l, whole)
      else ([], false)
  end.

(** What the iterator yields on an image.  A table offset so large that the
    end of its first entry does not fit in 64 bits yields nothing at all. *)
Definition load_list (data : list Z) : Result (list Segment * bool) SegmentError :=
  if len data <? 64 then Err BadProgramHeaders
  else
    let table := field data 32 8 in
    let esz := field data 54 2 in
    let count := field data 56 2 in
    if (count =? 0) || (esz <? 56) then Err BadProgramHeaders
    else if U64_MAX <? table + 56 then Ok ([], true)
    else Ok (scan data table esz (Z.to_nat count) 0).

(** A loop body run over a list of segments. *)
Fixpoint run_list {A R : Type} (body : A -> Segment -> exec (A + R))
    (a : A) (l : list Segment) : exec (A + R) :=
  match l with
  | [] => Done (inl a)
  | s :: l =>
      let! r := body a s in
      match r with
      | inr r => Done (inr r)
      | inl a => run_list body a l
      end
  end.

(** ** Reading *)
Section Read.

Context (data : list Z) (Hlen : len data <= ISIZE_MAX).

Lemma read_u16_done o : 0 <= o -> o + 2 <= len data -> read_u16 data o = Done (field data o 2).
Proof.
  intros Ho Hl. unfold read_u16, index.
  destruct (get_lt_some data o) as [b0 H0]; [lia|]. destruct (get_lt_some data (o + 1)) as [b1 H1]; [lia|].
  rewrite H0. cbn [exec_bind]. rewrite add64_done by ulia. cbn [exec_bind]. rewrite H1. cbn [exec_bind].
  unfold field. rewrite (sub_list_cons _ _ _ _ H0), (sub_list_cons _ _ _ _ H1) by lia. done.
Qed.

Lemma read_u32_done o : 0 <= o -> o + 4 <= len data -> read_u32 data o = Done (field data o 4).
Proof.
  intros Ho Hl. unfold read_u32, index.
  destruct (get_lt_some data o) as [b0 H0]; [lia|]. destruct (get_lt_some data (o + 1)) as [b1 H1]; [lia|].
  destruct (get_lt_some data (o + 2)) as [b2 H2]; [lia|]. destruct (get_lt_some data (o + 3)) as [b3 H3]; [lia|].
  rewrite H0. cbn [exec_bind]. rewrite !add64_done by ulia. cbn [exec_bind].
  rewrite H1, H2, H3. cbn [exec_bind].
  unfold field. rewrite (sub_list_cons _ _ _ _ H0), (sub_list_cons _ _ _ _ H1) by lia.
  replace (o + 1 + 1) with (o + 2) by lia. rewrite (sub_list_cons _ _ _ _ H2) by lia.
  replace (o + 2 + 1) with (o + 3) by lia. rewrite (sub_list_cons _ _ _ _ H3) by lia. done.
Qed.

Lemma read_u64_done o : 0 <= o -> o + 8 <= len data -> read_u64 data o = Done (field data o 8).
Proof.
  intros Ho Hl. unfold read_u64, slice. rewrite add64_done by ulia. cbn [exec_bind].
  rewrite (proj2 (get_range_some data o (o + 8) _)) by (split_and!; [lia|lia|lia|reflexivity]).
  cbn [exec_bind]. unfold field. do 3 f_equal. lia.
Qed.

Lemma field_bound o n : bytes_ok data -> 0 <= n -> 0 <= o -> o + n <= len data ->
  0 <= field data o n < 2 ^ (8 * n).
Proof.
  intros Hok Hn Ho Hl. unfold field.
  pose proof (le_val_bound (sub_list data o n) (bytes_ok_sub_list _ _ _ Hok)) as H.
  by rewrite len_sub_list in H.
Qed.

End Read.

Lemma field_sub data e n o k :
  0 <= e -> 0 <= o -> 0 <= k -> o + k <= n -> field (sub_list data e n) o k = field data (e + o) k.
Proof. intros. unfold field. by rewrite sub_list_sub_list. Qed.

(** ** The iterator *)
Section Iter.

Context (data : list Z) (table esz : Z).
Context (Hlen : len data <= ISIZE_MAX) (Hok : bytes_ok data).
Context (Htable : is_u64 table) (Hesz : 0 <= esz <= U16_MAX).

(** Header [i] and those after it, [n] in all, are ahead. *)
Definition ahead (n : nat) (i : Z) : SegmentIter := mkIter data table esz (Z.of_nat n) i.

(** One header: reads of the fields, past the bounds test. *)
Lemma next_loop_at n i :
  0 <= i -> i + Z.of_nat (S n) <= U16_MAX -> table + i * esz + 56 <= len data ->
  next_loop (S n) (ahead (S n) i) =
    if field data (table + i * esz) 4 =? PT_LOAD
    then Done (Some (Ok (segment_at data (table + i * esz))), ahead n (i + 1))
    else next_loop n (ahead n (i + 1)).
Proof.
  intros Hi Hin Hb. set (e := table + i * esz) in *.
  assert (He : 0 <= e) by (subst e; ulia).
  assert (Hmul : i * esz <= U64_MAX) by ulia.
  unfold ahead. cbn [next_loop remaining]. rewrite (proj2 (Z.ltb_lt 0 _)) by lia.
  cbn [it_index it_data table_offset entry_size].
  replace (Z.of_nat (S n) - 1) with (Z.of_nat n) by lia.
  assert (Hadd : e <= U64_MAX) by ulia.
  rewrite mul64_done by done. cbn [exec_bind]. rewrite add64_done by exact Hadd. cbn [exec_bind].
  fold e. rewrite (proj2 (checked_add_some e PHDR_LEN (e + 56))) by (split; [done|elia]).
  rewrite (proj2 (Z.ltb_ge (len data) (e + 56))) by lia.
  unfold slice. rewrite (proj2 (get_range_some data e (e + 56) _)) by (split_and!; [lia|lia|lia|reflexivity]).
  replace (e + 56 - e) with 56 by lia. cbn [exec_bind].
  assert (Hl56 : len (sub_list data e 56) = 56) by (apply len_sub_list; lia).
  rewrite read_u32_done by elia. cbn [exec_bind]. rewrite field_sub by elia.
  rewrite Z.add_0_r. destruct (Z.eqb_spec (field data e 4) PT_LOAD); [|done].
  cbn [negb]. rewrite !read_u64_done by elia. cbn [exec_bind]. rewrite read_u32_done by elia.
  cbn [exec_bind]. rewrite !field_sub by elia. done.
Qed.

Lemma next_loop_out n i :
  0 <= i -> i + Z.of_nat (S n) <= U16_MAX -> len data < table + i * esz + 56 ->
  table + i * esz + 56 <= U64_MAX ->
  exists it, next_loop (S n) (ahead (S n) i) = Done (Some (Err BadProgramHeaders), it).
Proof.
  intros Hi Hin Hb Hov. unfold ahead. cbn [next_loop remaining]. rewrite (proj2 (Z.ltb_lt 0 _)) by lia.
  cbn [it_index it_data table_offset entry_size].
  rewrite mul64_done by ulia. cbn [exec_bind]. rewrite add64_done by lia. cbn [exec_bind].
  rewrite (proj2 (checked_add_some (table + i * esz) PHDR_LEN (table + i * esz + 56))) by (split; [done|elia]).
  rewrite (proj2 (Z.ltb_lt (len data) _)) by lia. eauto.
Qed.

Lemma next_ahead n i : next (ahead n i) = next_loop n (ahead n i).
Proof. unfold next, ahead. cbn [remaining]. by rewrite Nat2Z.id. Qed.

Lemma next_spec n : forall i l whole,
  0 <= i -> i + Z.of_nat n <= U16_MAX -> (i = 0 \/ table + 56 <= len data) -> table + 56 <= U64_MAX ->
  scan data table esz n i = (l, whole) ->
  match l with
  | s :: l' => exists n' i', next_loop n (ahead n i) = Done (Some (Ok s), ahead n' i') /\
      scan data table esz n' i' = (l', whole) /\ 0 <= i' /\ i' + Z.of_nat n' <= U16_MAX /\
      table + 56 <= len data /\ (n' < n)%nat
  | [] => exists it, next_loop n (ahead n i) =
      Done (if whole then None else Some (Err BadProgramHeaders), it)
  end.
Proof.
  induction n as [|n IH]; intros i l whole Hi Hin Hfirst Hov Hscan.
  { injection Hscan as <- <-. eexists. done. }
  cbn [scan] in Hscan. destruct (Z.leb_spec (table + i * esz + 56) (len data)) as [Hb|Hb].
  - assert (Ht : table + 56 <= len data) by (destruct Hfirst as [->|]; [lia|done]).
    destruct (scan data table esz n (i + 1)) as [l1 w1] eqn:Es. injection Hscan as <- <-.
    pose proof (next_loop_at n i Hi Hin Hb) as Hn.
    destruct (field data (table + i * esz) 4 =? PT_LOAD).
    + exists n, (i + 1). rewrite Hn. split_and!; try done; lia.
    + specialize (IH (i + 1) l1 w1 ltac:(lia) ltac:(lia) ltac:(by right) Hov Es).
      destruct l1 as [|s l'].
      * destruct IH as [it IH]. exists it. by rewrite Hn.
      * destruct IH as (n' & i' & IH & H1 & H2 & H3 & H4 & H5). exists n', i'. rewrite Hn.
        split_and!; try done; lia.
  - injection Hscan as <- <-.
    destruct (next_loop_out n i Hi Hin Hb) as [it Hn]; [|exists it; exact Hn].
    assert (i * esz <= 65535 * 65535) by (apply Z.mul_le_mono_nonneg; ulia).
    destruct Hfirst as [->|]; [lia|ulia].
Qed.

Lemma for_segments_spec {A R : Type} (body : A -> Segment -> exec (A + R)) fail l :
  forall n i whole fuel a,
  0 <= i -> i + Z.of_nat n <= U16_MAX -> (i = 0 \/ table + 56 <= len data) -> table + 56 <= U64_MAX ->
  scan data table esz n i = (l, whole) -> (n <= fuel)%nat ->
  for_segments fuel (ahead n i) a body fail =
    let! r := run_list body a l in
    Done (match r with
          | inr r => inr r
          | inl a => if whole then inl a else inr (fail a BadProgramHeaders)
          end).
Proof.
  induction l as [|s l IH]; intros n i whole fuel a Hi Hin Hfirst Hov Hscan Hfuel;
    pose proof (next_spec n i _ whole Hi Hin Hfirst Hov Hscan) as Hn.
  - destruct Hn as [it Hn]. destruct fuel; cbn [for_segments]; rewrite next_ahead, Hn; by destruct whole.
  - destruct Hn as (n' & i' & Hn & Hs' & Hi' & Hin' & Ht & Hlt). destruct fuel as [|fuel]; [lia|].
    cbn [for_segments]. rewrite next_ahead, Hn. cbn [exec_bind run_list].
    destruct (body a s) as [[a'|r]|]; cbn [exec_bind]; [|done|done].
    apply (IH n' i' whole fuel a'); try done; [by right|lia].
Qed.

End Iter.

(** A byte string the loader can hold in memory. *)
Definition image (data : list Z) : Prop := bytes_ok data /\ len data <= ISIZE_MAX.

Lemma header_field data o n :
  image data -> 64 <= len data -> 0 <= o -> 0 <= n -> o + n <= 64 -> 0 <= field data o n < 2 ^ (8 * n).
Proof. intros [Hok _] ? ? ? ?. apply field_bound; try done; lia. Qed.

Lemma segments_done data :
  image data -> 64 <= len data ->
  segments data =
    Done (if (field data 56 2 =? 0) || (field data 54 2 <? 56) then Err BadProgramHeaders
          else Ok (mkIter data (field data 32 8) (field data 54 2) (field data 56 2) 0)).
Proof.
  intros [Hok Hl] Hmin. unfold segments. rewrite (proj2 (Z.ltb_ge _ _)) by elia.
  rewrite read_u64_done by elia. cbn [exec_bind]. rewrite !read_u16_done by elia. cbn [exec_bind].
  unfold E_PHNUM_OFFSET, E_PHENTSIZE_OFFSET, E_PHOFF_OFFSET, PHDR_LEN. by case_match.
Qed.

(** The iterator of an image, run to its end. *)
Lemma image_iter data :
  image data ->
  match load_list data with
  | Err e => segments data = Done (Err e)
  | Ok (l, whole) => exists it, segments data = Done (Ok it) /\
      (forall (A R : Type) (a : A) (body : A -> Segment -> exec (A + R)) fail,
        for_segments (Z.to_nat (remaining it)) it a body fail =
          let! r := run_list body a l in
          Done (match r with
                | inr r => inr r
                | inl a => if whole then inl a else inr (fail a BadProgramHeaders)
                end)) /\
      exists it', next it = Done (match l with
                                  | s :: _ => Some (Ok s)
                                  | [] => if whole then None else Some (Err BadProgramHeaders)
                                  end, it')
  end.
Proof.
  intros Him. pose proof Him as [Hok Hl]. unfold load_list.
  destruct (Z.ltb_spec (len data) 64) as [Hs|Hs].
  { unfold segments. by rewrite (proj2 (Z.ltb_lt _ _)) by elia. }
  rewrite segments_done by done.
  pose proof (header_field data 32 8 Him Hs ltac:(lia) ltac:(lia) ltac:(lia)) as Ht.
  pose proof (header_field data 54 2 Him Hs ltac:(lia) ltac:(lia) ltac:(lia)) as He.
  pose proof (header_field data 56 2 Him Hs ltac:(lia) ltac:(lia) ltac:(lia)) as Hc.
  set (table := field data 32 8) in *. set (esz := field data 54 2) in *. set (count := field data 56 2) in *.
  destruct ((count =? 0) || (esz <? 56)) eqn:Eb; [done|]. apply orb_false_iff in Eb as [Ec Ee].
  apply Z.eqb_neq in Ec.
  destruct (Z.ltb_spec U64_MAX (table + 56)) as [Hov|Hov].
  - eexists. split; [done|]. cbn [remaining]. destruct (Z.to_nat count) as [|n] eqn:En; [lia|].
    assert (Hnext : exists it', next (mkIter data table esz count 0) = Done (None, it')).
    { unfold next. cbn [remaining]. rewrite En. cbn [next_loop remaining].
      rewrite (proj2 (Z.ltb_lt 0 count)) by lia. cbn [it_index it_data table_offset entry_size].
      rewrite mul64_done by (unfold U64_MAX; lia). cbn [exec_bind]. rewrite add64_done by (unfold U64_MAX; lia).
      cbn [exec_bind]. rewrite Z.mul_0_l, Z.add_0_r.
      rewrite (proj2 (checked_add_none table PHDR_LEN)) by elia. by eexists. }
    split; [|exact Hnext]. intros A R a body fail. destruct Hnext as [it' Hnext].
    cbn [for_segments run_list]. by rewrite Hnext.
  - destruct (scan data table esz (Z.to_nat count) 0) as [l whole] eqn:Es.
    assert (Ha : mkIter data table esz count 0 = ahead data table esz (Z.to_nat count) 0)
      by (unfold ahead; by rewrite Z2Nat.id by lia).
    eexists. split; [done|]. rewrite Ha. cbn [remaining ahead]. rewrite Nat2Z.id. split.
    + intros A R a body fail. eapply for_segments_spec; try done; ulia.
    + rewrite next_ahead.
      pose proof (next_spec data table esz Hl ltac:(ulia) ltac:(ulia) (Z.to_nat count) 0 l whole
        ltac:(lia) ltac:(ulia) ltac:(by left) Hov Es) as Hn.
      destruct l as [|s l]; [exact Hn|]. destruct Hn as (n' & i' & Hn & _). by eexists.
Qed.

Lemma over_segments_eq {A R : Type} data (a : A) body (after : A -> Result R SegmentError) :
  image data ->
  over_segments data a body after =
    match load_list data with
    | Err e => Done (Err e)
    | Ok (l, whole) =>
        let! r := run_list body a l in
        Done (match r with
              | inr r => r
              | inl a => if whole then after a else Err BadProgramHeaders
              end)
    end.
Proof.
  intros Him. pose proof (image_iter data Him) as Hit. unfold over_segments.
  destruct (load_list data) as [[l whole]|e]; [|by rewrite Hit].
  destruct Hit as (it & -> & Hf & _). unfold try_bind. cbn [exec_bind]. rewrite Hf.
  destruct (run_list body a l) as [[a'|r]|]; [|done|done]. simpl. by destruct whole.
Qed.

(** ** The checks, segment by segment *)
Definition segment_error (data : list Z) (s : Segment) : option SegmentError :=
  if memsz s =? 0 then Some EmptySegment
  else if memsz s <? filesz s then Some FileszLargerThanMemsz
  else if U64_MAX <? offset s + filesz s then Some AddressOverflow
  else if len data <? offset s + filesz s then Some DataOutOfBounds
  else if U64_MAX <? paddr s + memsz s then Some AddressOverflow
  else None.

Fixpoint first_error (data : list Z) (l : list Segment) : option SegmentError :=
  match l with
  | [] => None
  | s :: l => match segment_error data s with Some e => Some e | None => first_error data l end
  end.

Lemma check_segment_run data l : forall n,
  0 <= n -> n + len l <= U64_MAX ->
  run_list (check_segment data) n l =
    Done (match first_error data l with Some e => inr (Err e) | None => inl (n + len l) end).
Proof.
  induction l as [|s l IH]; intros n Hn Hm; cbn [run_list first_error].
  { do 2 f_equal. unfold len. simpl. lia. }
  rewrite len_cons in Hm. pose proof (len_nonneg l). unfold check_segment at 1, segment_error, checked_add.
  destruct (memsz s =? 0); [done|]. destruct (memsz s <? filesz s); [done|].
  destruct (Z.leb_spec (offset s + filesz s) U64_MAX), (Z.ltb_spec U64_MAX (offset s + filesz s)); try lia; [|done].
  destruct (len data <? offset s + filesz s); [done|].
  destruct (Z.leb_spec (paddr s + memsz s) U64_MAX), (Z.ltb_spec U64_MAX (paddr s + memsz s)); try lia; [|done].
  rewrite add64_done by lia. cbn [exec_bind]. rewrite IH by lia. rewrite len_cons.
  destruct (first_error data l); [done|]. do 2 f_equal. lia.
Qed.

Lemma scan_length data table esz n i : len (fst (scan data table esz n i)) <= Z.of_nat n.
Proof.
  revert i. induction n as [|n IH]; intros i; cbn [scan]; [unfold len; simpl; lia|].
  destruct (_ <=? _); [|unfold len; simpl; lia]. specialize (IH (i + 1)).
  destruct (scan data table esz n (i + 1)). cbn [fst] in *.
  destruct (_ =? PT_LOAD); rewrite ?len_cons; lia.
Qed.

Lemma load_list_length data l whole :
  image data -> load_list data = Ok (l, whole) -> len l <= U16_MAX.
Proof.
  intros Him. unfold load_list. destruct (Z.ltb_spec (len data) 64); [done|].
  pose proof (header_field data 56 2 Him ltac:(lia) ltac:(lia) ltac:(lia) ltac:(lia)) as Hc.
  destruct (_ || _); [done|]. destruct (U64_MAX <? _); intros [= Hl]; [subst; vm_compute; discriminate|].
  pose proof (scan_length data (field data 32 8) (field data 54 2) (Z.to_nat (field data 56 2)) 0) as Hs.
  rewrite Hl in Hs. simpl in Hs. ulia.
Qed.

(** Two segments share a byte of physical memory. *)
Definition seg_overlap (a b : Segment) : bool :=
  (paddr a <? paddr b + memsz b) && (paddr b <? paddr a + memsz a).

Definition seg_range (s : Segment) : Z * Z := (paddr s, paddr s + memsz s).

(** The outcome of [check_no_overlap] after the segments [seen]. *)
Fixpoint overlap_error (seen l : list Segment) : option SegmentError :=
  match l with
  | [] => None
  | s :: l =>
      if U64_MAX <? paddr s + memsz s then Some AddressOverflow
      else if existsb (seg_overlap s) seen then Some OverlappingSegments
      else if len seen =? MAX_RANGES then Some BadProgramHeaders
      else overlap_error (seen ++ [s]) l
  end.

Lemma take_insert_snoc {A : Type} (l : list A) n x :
  (n < length l)%nat -> take (S n) (<[n := x]> l) = take n l ++ [x].
Proof.
  intros Hn. rewrite (take_S_r _ _ x) by (by rewrite list_lookup_insert_eq).
  by rewrite take_insert_ge by lia.
Qed.

Lemma check_range_run l : forall ranges seen,
  len ranges = MAX_RANGES -> len seen <= MAX_RANGES ->
  take (length seen) ranges = seg_range <$> seen ->
  exists st, run_list check_range (ranges, len seen) l =
    Done (match overlap_error seen l with Some e => inr (Err e) | None => inl st end).
Proof.
  induction l as [|s l IH]; intros ranges seen Hr Hn Ht; cbn [run_list overlap_error]; [by eexists|].
  unfold check_range at 1, checked_add.
  destruct (Z.leb_spec (paddr s + memsz s) U64_MAX), (Z.ltb_spec U64_MAX (paddr s + memsz s)); try lia;
    [|by exists (ranges, 0)].
  unfold slice. pose proof (len_nonneg seen).
  rewrite (proj2 (get_range_some ranges 0 (len seen) _)) by (split_and!; [lia|lia|lia|reflexivity]).
  cbn [exec_bind]. rewrite Z.sub_0_r. unfold sub_list. rewrite drop_0.
  replace (Z.to_nat (len seen)) with (length seen) by (unfold len; lia). rewrite Ht.
  assert (Hex : existsb (fun '(other_start, other_end) => (paddr s <? other_end) && (other_start <? paddr s + memsz s))
      (seg_range <$> seen) = existsb (seg_overlap s) seen).
  { clear. induction seen as [|x seen IH]; [done|]. rewrite fmap_cons. cbn [existsb]. by rewrite IH. }
  rewrite Hex. destruct (existsb (seg_overlap s) seen); [by exists (ranges, 0)|].
  rewrite Hr. destruct (Z.eqb_spec (len seen) MAX_RANGES) as [|Hne]; [by exists (ranges, 0)|].
  rewrite set_index_done by (rewrite Hr; lia). cbn [exec_bind].
  destruct (IH (<[Z.to_nat (len seen) := (paddr s, paddr s + memsz s)]> ranges) (seen ++ [s])) as [st Hst].
  - by rewrite len_insert.
  - rewrite len_app. unfold len at 2. simpl. lia.
  - rewrite length_app, Nat.add_1_r, fmap_app. unfold len. rewrite Nat2Z.id.
    rewrite take_insert_snoc by (unfold len in *; lia). by rewrite Ht.
  - rewrite len_app in Hst. exists st. exact Hst.
Qed.

Lemma overlap_error_none l : forall seen, len seen <= MAX_RANGES ->
  overlap_error seen l = None <->
  Forall (fun s => paddr s + memsz s <= U64_MAX) l /\ len seen + len l <= MAX_RANGES /\
  (forall s x, s ∈ l -> x ∈ seen -> seg_overlap s x = false) /\
  ForallOrdPairs (fun x s => seg_overlap s x = false) l.
Proof.
  induction l as [|s l IH]; intros seen Hn; cbn [overlap_error].
  { split; [|done]. intros _. split_and!; [constructor|unfold len in *; simpl; lia| |constructor].
    intros s x Hs. by apply elem_of_nil in Hs. }
  rewrite len_cons. pose proof (len_nonneg l).
  assert (Hpairs : ForallOrdPairs (fun x s => seg_overlap s x = false) (s :: l) <->
    Forall (fun x => seg_overlap x s = false) l /\ ForallOrdPairs (fun x s => seg_overlap s x = false) l).
  { split; [intros H'; by inversion H'|intros [? ?]; by constructor]. }
  destruct (Z.ltb_spec U64_MAX (paddr s + memsz s)) as [Ho|Ho].
  { split; [done|]. intros [H1 _]. apply Forall_cons_iff in H1 as [? _]. lia. }
  destruct (existsb (seg_overlap s) seen) eqn:Ex.
  { split; [done|]. intros (_ & _ & H1 & _). exfalso. apply existsb_exists in Ex as (x & Hx & E).
    rewrite (H1 s x) in E; [done|by left|by apply list_elem_of_In]. }
  destruct (Z.eqb_spec (len seen) MAX_RANGES) as [Heq|Hne].
  { split; [done|]. intros (_ & H1 & _). lia. }
  rewrite IH by (rewrite len_app; unfold len at 2; simpl; lia).
  rewrite len_app, Forall_cons_iff, Hpairs. replace (len [s]) with 1 by done.
  assert (Hs : forall x, x ∈ seen -> seg_overlap s x = false).
  { intros x Hx. apply not_true_iff_false. intros E. apply not_true_iff_false in Ex. apply Ex.
    apply existsb_exists. exists x. split; [by apply list_elem_of_In|done]. }
  setoid_rewrite elem_of_app. setoid_rewrite elem_of_cons. setoid_rewrite Forall_forall.
  split; intros (H1 & H2 & H3 & H4); split_and!; try lia; try tauto.
  - intros s' x [->|Hs'] Hx; [by apply Hs|]. apply H3; auto.
  - intros x Hx. apply H3; [by apply list_elem_of_In|]. right. by left.
  - intros s' x Hs' [Hx|[->|Hx]]; [by apply H3; [right|]| |by apply elem_of_nil in Hx].
    apply (proj1 H4). by apply list_elem_of_In.
Qed.

Definition segment_fields_ok (s : Segment) : Prop :=
  is_u64 (offset s) /\ is_u64 (paddr s) /\ is_u64 (vaddr s) /\ is_u64 (filesz s) /\
  is_u64 (memsz s) /\ is_u32 (flags s).

Lemma scan_fields data table esz n : image data -> 0 <= table -> 0 <= esz -> forall i, 0 <= i ->
  Forall segment_fields_ok (fst (scan data table esz n i)).
Proof.
  intros [Hok Hl] Ht He. induction n as [|n IH]; intros i Hi; cbn [scan]; [constructor|].
  destruct (Z.leb_spec (table + i * esz + 56) (len data)) as [Hb|]; [|constructor].
  specialize (IH (i + 1) ltac:(lia)). destruct (scan data table esz n (i + 1)) as [l w]. cbn [fst] in *.
  destruct (_ =? PT_LOAD); [|done]. constructor; [|done]. assert (0 <= i * esz) by nia.
  set (e := table + i * esz) in *.
  assert (Hf : forall o k, 0 <= o -> 0 <= k -> o + k <= 56 -> 0 <= field data (e + o) k < 2 ^ (8 * k)).
  { intros o k Ho Hk Hok'. apply field_bound; try done; lia. }
  pose proof (Hf 8 8) as F1. pose proof (Hf 24 8) as F2. pose proof (Hf 16 8) as F3.
  pose proof (Hf 32 8) as F4. pose proof (Hf 40 8) as F5. pose proof (Hf 4 4) as F6.
  unfold segment_fields_ok, segment_at. simpl in *. ulia.
Qed.

Lemma load_list_fields data l whole :
  image data -> load_list data = Ok (l, whole) -> Forall segment_fields_ok l.
Proof.
  intros Him. unfold load_list. destruct (Z.ltb_spec (len data) 64); [done|].
  pose proof (header_field data 32 8 Him ltac:(lia) ltac:(lia) ltac:(lia) ltac:(lia)).
  pose proof (header_field data 54 2 Him ltac:(lia) ltac:(lia) ltac:(lia) ltac:(lia)).
  destruct (_ || _); [done|]. destruct (U64_MAX <? _); intros [= Hl]; [by subst|].
  pose proof (scan_fields data (field data 32 8) (field data 54 2) (Z.to_nat (field data 56 2)) Him
    ltac:(lia) ltac:(lia) 0 ltac:(lia)) as Hs.
  by rewrite Hl in Hs.
Qed.

Fixpoint entry_result (entry : Z) (l : list Segment) : unit + Result unit SegmentError :=
  match l with
  | [] => inl tt
  | s :: l =>
      if U64_MAX <? vaddr s + memsz s then inr (Err AddressOverflow)
      else if is_executable s && ((vaddr s <=? entry) && (entry <? vaddr s + memsz s)) then inr (Ok tt)
      else entry_result entry l
  end.

Lemma check_entry_run entry l :
  run_list (check_entry_segment entry) tt l = Done (entry_result entry l).
Proof.
  induction l as [|s l IH]; cbn [run_list entry_result]; [done|].
  unfold check_entry_segment at 1, checked_add.
  destruct (Z.leb_spec (vaddr s + memsz s) U64_MAX), (Z.ltb_spec U64_MAX (vaddr s + memsz s)); try lia; [|done].
  destruct (is_executable s && _); [done|]. cbn [exec_bind]. exact IH.
Qed.

Definition contains_entry (entry : Z) (s : Segment) : Prop :=
  is_executable s = true /\ vaddr s <= entry < vaddr s + memsz s.

Lemma entry_result_ok entry l :
  entry_result entry l = inr (Ok tt) <->
  exists l1 s l2, l = l1 ++ s :: l2 /\ Forall (fun s => vaddr s + memsz s <= U64_MAX) (l1 ++ [s]) /\
    contains_entry entry s.
Proof.
  induction l as [|s l IH]; cbn [entry_result].
  { split; [done|]. intros (l1 & s & l2 & E & _). by destruct l1. }
  destruct (Z.ltb_spec U64_MAX (vaddr s + memsz s)) as [Ho|Ho].
  { split; [done|]. intros (l1 & s' & l2 & E & Hf & _). exfalso.
    destruct l1; injection E as <- _; apply Forall_cons_iff in Hf as [? _]; lia. }
  destruct (is_executable s && _) eqn:Ec.
  { split; [|done]. intros _. apply andb_true_iff in Ec as [Ex Er].
    exists [], s, l. split_and!; [done|by repeat constructor|]. split; [done|lia]. }
  rewrite IH. split.
  - intros (l1 & s' & l2 & -> & Hf & Hc). exists (s :: l1), s', l2. split_and!; [done| |done].
    by constructor.
  - intros (l1 & s' & l2 & E & Hf & Hx & Hr). destruct l1 as [|x l1]; injection E as <- E; subst l.
    + rewrite Hx in Ec. simpl in Ec. lia.
    + apply Forall_cons_iff in Hf as [_ Hf]. exists l1, s', l2. split_and!; [done|done|]. split; [done|lia].
Qed.

(** ** Page ranges *)
Definition page_down (x : Z) : Z := x - x mod PAGE_SIZE.
Definition page_up (x : Z) : Z := div_ceil x PAGE_SIZE * PAGE_SIZE.

Lemma page_range_done s :
  segment_fields_ok s ->
  page_range s =
    if paddr s + memsz s <=? U64_MAX - 4095
    then Done (page_down (paddr s), page_up (paddr s + memsz s)) else Panic.
Proof.
  intros (_ & Hp & _ & _ & Hm & _). unfold page_range.
  pose proof (div_ceil_spec (paddr s + memsz s) PAGE_SIZE ltac:(done)) as Hd.
  assert (Hland : Z.land (paddr s) (bnot 64 (PAGE_SIZE - 1)) = page_down (paddr s))
    by (apply (land_bnot_ones (paddr s) 12 64); ulia).
  rewrite Hland. unfold add64, mul64, PAGE_SIZE in *.
  destruct (Z.leb_spec (paddr s + memsz s) (U64_MAX - 4095)).
  - rewrite (proj2 (Z.leb_le (paddr s + memsz s) U64_MAX)) by lia. cbn [exec_bind].
    rewrite (proj2 (Z.leb_le (div_ceil (paddr s + memsz s) 4096 * 4096) U64_MAX)) by ulia. done.
  - destruct (Z.leb_spec (paddr s + memsz s) U64_MAX); [|done]. cbn [exec_bind].
    rewrite (proj2 (Z.leb_gt (div_ceil (paddr s + memsz s) 4096 * 4096) U64_MAX)) by ulia. done.
Qed.

Definition span_join (span : option (Z * Z)) (s : Segment) : option (Z * Z) :=
  let lo := page_down (paddr s) in
  let hi := page_up (paddr s + memsz s) in
  Some (match span with None => (lo, hi) | Some (l, h) => (Z.min l lo, Z.max h hi) end).

Lemma span_run l : forall sp,
  Forall segment_fields_ok l -> Forall (fun s => paddr s + memsz s <= U64_MAX - 4095) l ->
  run_list span_segment sp l = Done (inl (foldl span_join sp l)).
Proof.
  induction l as [|s l IH]; intros sp Hf Hb; cbn [run_list foldl]; [done|].
  apply Forall_cons_iff in Hf as [Hs Hf], Hb as [Hb1 Hb].
  unfold span_segment at 1. rewrite page_range_done by done.
  rewrite (proj2 (Z.leb_le _ _)) by lia. cbn [exec_bind]. rewrite IH by done. by destruct sp as [[]|].
Qed.

Lemma span_run_panics l : forall sp,
  Forall segment_fields_ok l -> ~ Forall (fun s => paddr s + memsz s <= U64_MAX - 4095) l ->
  run_list span_segment sp l = Panic.
Proof.
  induction l as [|s l IH]; intros sp Hf Hb; cbn [run_list]; [by destruct Hb|].
  apply Forall_cons_iff in Hf as [Hs Hf]. unfold span_segment at 1. rewrite page_range_done by done.
  destruct (Z.leb_spec (paddr s + memsz s) (U64_MAX - 4095)); [|done]. cbn [exec_bind]. apply IH; [done|].
  intros Hl. apply Hb. by constructor.
Qed.

(** The least page-aligned range that covers the segments of a list. *)
Definition covers (l : list Segment) (sp : option (Z * Z)) : Prop :=
  match sp with
  | None => l = []
  | Some (lo, hi) =>
      (exists s, s ∈ l /\ lo = page_down (paddr s)) /\
      (exists s, s ∈ l /\ hi = page_up (paddr s + memsz s)) /\
      forall s, s ∈ l -> lo <= page_down (paddr s) /\ page_up (paddr s + memsz s) <= hi
  end.

Lemma span_join_covers l : forall done_ sp,
  covers done_ sp -> covers (done_ ++ l) (foldl span_join sp l).
Proof.
  induction l as [|s l IH]; intros d sp Hd; simpl; [by rewrite app_nil_r|].
  replace (d ++ s :: l) with ((d ++ [s]) ++ l) by (by rewrite <- app_assoc). apply IH.
  assert (Hin : s ∈ d ++ [s]) by (apply elem_of_app; right; by left).
  assert (Hsub : forall x, x ∈ d -> x ∈ d ++ [s]) by (intros; apply elem_of_app; by left).
  assert (Hinv : forall x, x ∈ d ++ [s] -> x ∈ d \/ x = s).
  { intros x [?|Hx]%elem_of_app; [by left|right; by apply list_elem_of_singleton]. }
  unfold span_join. destruct sp as [[lo hi]|]; simpl in Hd |- *.
  - destruct Hd as ((s1 & H1 & E1) & (s2 & H2 & E2) & Hall). split_and!.
    + destruct (Z.min_spec lo (page_down (paddr s))) as [[_ ->]|[_ ->]]; [exists s1|exists s]; auto.
    + destruct (Z.max_spec hi (page_up (paddr s + memsz s))) as [[_ ->]|[_ ->]]; [exists s|exists s2]; auto.
    + intros x [Hx| ->]%Hinv; [specialize (Hall x Hx)|]; lia.
  - subst d. split_and!; [by exists s|by exists s|].
    intros x [Hx| ->]%Hinv; [by apply elem_of_nil in Hx|lia].
Qed.

Lemma page_down_up s :
  segment_fields_ok s -> 0 < memsz s ->
  (PAGE_SIZE | page_down (paddr s)) /\ (PAGE_SIZE | page_up (paddr s + memsz s)) /\
  page_down (paddr s) <= paddr s /\ paddr s + memsz s <= page_up (paddr s + memsz s).
Proof.
  intros _ _. unfold page_down, page_up.
  pose proof (Z.mod_pos_bound (paddr s) PAGE_SIZE ltac:(done)).
  pose proof (div_ceil_spec (paddr s + memsz s) PAGE_SIZE ltac:(done)).
  pose proof (Z.div_mod (paddr s) PAGE_SIZE ltac:(done)).
  split_and!; [exists (paddr s / PAGE_SIZE)|eexists; reflexivity|..]; lia.
Qed.

(** ** The header *)
Definition validate_spec (data : list Z) : Result Z ImageError :=
  if len data <? 64 then Err (TooSmall (len data))
  else if negb (bool_decide (sub_list data 0 4 = ELF_MAGIC)) then Err NotElf
  else if negb (field data 4 1 =? 2) then Err NotElf64
  else if negb (field data 5 1 =? 1) then Err NotLittleEndian
  else if negb (field data 16 2 =? 2) then Err (NotExecutable (field data 16 2))
  else if negb (field data 18 2 =? 62) then Err (UnsupportedMachine (field data 18 2))
  else Ok (field data 24 8).

Lemma index_field data o :
  image data -> 0 <= o < len data -> index data o = Done (field data o 1).
Proof.
  intros [Hok _] Ho. unfold index, field. destruct (get_lt_some data o Ho) as [b Hb]. rewrite Hb.
  rewrite (sub_list_cons _ _ _ _ Hb) by lia. rewrite sub_list_0. simpl. f_equal. lia.
Qed.

Lemma validate_eq data : image data -> validate data = Done (validate_spec data).
Proof.
  intros Him. pose proof Him as [Hok Hl]. unfold validate, validate_spec, ELF_HEADER_MIN_LEN.
  destruct (Z.ltb_spec (len data) 64); [done|].
  unfold slice. rewrite (proj2 (get_range_some data 0 4 _)) by (split_and!; [lia|lia|lia|reflexivity]).
  cbn [exec_bind]. destruct (negb (bool_decide _)); [done|].
  rewrite !index_field by (try done; elia). cbn [exec_bind].
  destruct (negb (field data EI_CLASS 1 =? ELFCLASS64)) eqn:E1; unfold EI_CLASS, ELFCLASS64 in E1; rewrite E1; [done|].
  destruct (negb (field data EI_DATA 1 =? ELFDATA2LSB)) eqn:E2; unfold EI_DATA, ELFDATA2LSB in E2; rewrite E2; [done|].
  rewrite !read_u16_done by elia. cbn [exec_bind]. unfold E_TYPE_OFFSET, ET_EXEC, E_MACHINE_OFFSET, EM_X86_64.
  destruct (negb (field data 16 2 =? 2)); [done|]. destruct (negb (field data 18 2 =? 62)); [done|].
  by rewrite read_u64_done by elia.
Qed.

(** ** Outcomes of the checks *)
Lemma check_segments_eq data :
  image data ->
  check_segments data = Done
    match load_list data with
    | Err e => Err e
    | Ok (l, whole) =>
        match first_error data l with
        | Some e => Err e
        | None => if whole then (if len l =? 0 then Err BadProgramHeaders else Ok (len l))
                  else Err BadProgramHeaders
        end
    end.
Proof.
  intros Him. unfold check_segments. rewrite over_segments_eq by done.
  destruct (load_list data) as [[l whole]|e] eqn:El; [|done].
  pose proof (load_list_length data l whole Him El).
  rewrite check_segment_run by ulia. cbn [exec_bind]. rewrite Z.add_0_l. by destruct (first_error data l).
Qed.

Lemma check_no_overlap_eq data :
  image data ->
  check_no_overlap data = Done
    match load_list data with
    | Err e => Err e
    | Ok (l, whole) =>
        match overlap_error [] l with
        | Some e => Err e
        | None => if whole then Ok tt else Err BadProgramHeaders
        end
    end.
Proof.
  intros Him. unfold check_no_overlap. rewrite over_segments_eq by done.
  destruct (load_list data) as [[l whole]|e] eqn:El; [|done].
  destruct (check_range_run l (replicate (Z.to_nat MAX_RANGES) (0, 0)) []) as [st Hst]; [done..|].
  change (len []) with 0 in Hst. rewrite Hst. cbn [exec_bind]. by destruct (overlap_error [] l).
Qed.

Lemma check_entry_eq data entry :
  image data ->
  check_entry data entry = Done
    match load_list data with
    | Err e => Err e
    | Ok (l, whole) =>
        match entry_result entry l with
        | inr r => r
        | inl _ => if whole then Err EntryNotExecutable else Err BadProgramHeaders
        end
    end.
Proof.
  intros Him. unfold check_entry. rewrite over_segments_eq by done.
  destruct (load_list data) as [[l whole]|e] eqn:El; [|done]. by rewrite check_entry_run.
Qed.

Definition segment_ok (data : list Z) (s : Segment) : Prop :=
  0 < memsz s /\ filesz s <= memsz s /\ offset s + filesz s <= len data /\
  paddr s + memsz s <= U64_MAX.

Lemma segment_error_none data s :
  image data -> segment_fields_ok s -> segment_error data s = None <-> segment_ok data s.
Proof.
  intros [_ Hl] (H1 & H2 & _ & H3 & H4 & _). unfold segment_error, segment_ok.
  destruct (Z.eqb_spec (memsz s) 0), (Z.ltb_spec (memsz s) (filesz s)),
    (Z.ltb_spec U64_MAX (offset s + filesz s)), (Z.ltb_spec (len data) (offset s + filesz s)),
    (Z.ltb_spec U64_MAX (paddr s + memsz s)); split; intros; try done; ulia.
Qed.

Lemma first_error_none data l :
  image data -> Forall segment_fields_ok l -> first_error data l = None <-> Forall (segment_ok data) l.
Proof.
  intros Him. induction 1 as [|s l Hs Hf IH]; cbn [first_error]; [by split; intros; [constructor|]|].
  rewrite Forall_cons_iff, <- IH, <- (segment_error_none data s) by done.
  destruct (segment_error data s); naive_solver.
Qed.

(** What an image that passes all four checks is. *)
Record well_formed (data : list Z) (entry : Z) (l : list Segment) : Prop := mkWellFormed {
  wf_header : validate_spec data = Ok entry;
  wf_list : load_list data = Ok (l, true);
  wf_count : 0 < len l <= MAX_RANGES;
  wf_segments : Forall (segment_ok data) l;
  wf_disjoint : ForallOrdPairs (fun x s => seg_overlap s x = false) l;
  wf_entry : exists l1 s l2, l = l1 ++ s :: l2 /\
    Forall (fun s => vaddr s + memsz s <= U64_MAX) (l1 ++ [s]) /\ contains_entry entry s
}.

Lemma accepted_iff data entry :
  image data ->
  (validate data = Done (Ok entry) /\ (exists n, check_segments data = Done (Ok n)) /\
   check_no_overlap data = Done (Ok tt) /\ check_entry data entry = Done (Ok tt)) <->
  exists l, well_formed data entry l.
Proof.
  intros Him. rewrite validate_eq, check_segments_eq, check_no_overlap_eq, check_entry_eq by done.
  split.
  - intros (Hv & (n & Hs) & Ho & He). injection Hv as Hv. injection Hs as Hs. injection Ho as Ho.
    injection He as He. destruct (load_list data) as [[l whole]|e] eqn:El; [|done].
    pose proof (load_list_fields data l whole Him El) as Hf. pose proof (len_nonneg l).
    destruct (first_error data l) eqn:Ef; [done|]. rewrite first_error_none in Ef by done.
    destruct whole; [|done]. destruct (Z.eqb_spec (len l) 0); [done|].
    destruct (overlap_error [] l) eqn:Eo; [done|].
    apply overlap_error_none in Eo as (_ & Hn & _ & Hp); [|done]. change (len []) with 0 in Hn.
    destruct (entry_result entry l) as [|r] eqn:Er; [done|]. rewrite He in Er.
    exists l. constructor; try done; [lia|by apply entry_result_ok].
  - intros (l & [Hv El Hn Hseg Hd He]). rewrite El, Hv.
    pose proof (load_list_fields data l true Him El) as Hf.
    rewrite (proj2 (first_error_none data l Him Hf) Hseg).
    apply entry_result_ok in He. rewrite He.
    rewrite (proj2 (overlap_error_none l [] ltac:(done))).
    + rewrite (proj2 (Z.eqb_neq (len l) 0)) by lia. eauto.
    + split_and!; [| |intros s x _ Hx; by apply elem_of_nil in Hx|done].
      * eapply Forall_impl; [|exact Hseg]. intros s (_ & _ & _ & H). exact H.
      * change (len []) with 0. lia.
Qed.

Lemma loaded_span_eq data l :
  image data -> load_list data = Ok (l, true) -> l <> [] -> Forall (segment_ok data) l ->
  Forall (fun s => paddr s + memsz s <= U64_MAX - 4095) l ->
  exists lo hi, loaded_span data = Done (Ok (lo, hi)) /\ covers l (Some (lo, hi)) /\
    (PAGE_SIZE | lo) /\ (PAGE_SIZE | hi) /\
    forall s, s ∈ l -> lo <= paddr s /\ paddr s + memsz s <= hi.
Proof.
  intros Him El Hne Hseg Htop. unfold loaded_span. rewrite over_segments_eq, El by done.
  pose proof (load_list_fields data l true Him El) as Hf.
  rewrite span_run by done. cbn [exec_bind].
  pose proof (span_join_covers l [] None eq_refl) as Hc. simpl in Hc.
  destruct (foldl span_join None l) as [[lo hi]|]; [|done].
  exists lo, hi. split; [done|]. split; [done|].
  destruct Hc as ((s1 & H1 & E1) & (s2 & H2 & E2) & Hall).
  assert (Hpage : forall s, s ∈ l -> (PAGE_SIZE | page_down (paddr s)) /\ (PAGE_SIZE | page_up (paddr s + memsz s)) /\
    page_down (paddr s) <= paddr s /\ paddr s + memsz s <= page_up (paddr s + memsz s)).
  { intros s Hs. rewrite Forall_forall in Hf, Hseg. apply page_down_up.
    - by apply Hf, list_elem_of_In.
    - apply (Hseg s). by apply list_elem_of_In. }
  split_and!; [rewrite E1; by apply Hpage|rewrite E2; by apply Hpage|].
  intros s Hs. specialize (Hall s Hs). specialize (Hpage s Hs). lia.
Qed.

(** It panics as soon as one segment ends in the last page. *)
Lemma loaded_span_panics data l :
  image data -> load_list data = Ok (l, true) -> ~ Forall (fun s => paddr s + memsz s <= U64_MAX - 4095) l ->
  loaded_span data = Panic.
Proof.
  intros Him El Htop. unfold loaded_span. rewrite over_segments_eq, El by done.
  by rewrite span_run_panics by (done || by eapply load_list_fields).
Qed.

(** ** An image for the witnesses: one executable segment of 16 bytes *)
Definition demo_image : list Z :=
  ELF_MAGIC ++ [2; 1; 1] ++ replicate 9 0 ++ [2; 0; 62; 0] ++ [1; 0; 0; 0] ++ le_bytes 8 0x100000
    ++ le_bytes 8 64 ++ replicate 14 0 ++ le_bytes 2 56 ++ le_bytes 2 1 ++ replicate 6 0
    ++ le_bytes 4 1 ++ le_bytes 4 5 ++ le_bytes 8 0 ++ le_bytes 8 0x100000 ++ le_bytes 8 0x100000
    ++ le_bytes 8 16 ++ le_bytes 8 32 ++ le_bytes 8 4096.

Lemma demo_image_ok : image demo_image.
Proof. split; [by apply bytes_ok_b|vm_compute; discriminate]. Qed.

(** The same image loaded at the top of the address space. *)
Definition top_image : list Z := splice demo_image 88 (le_bytes 8 (2 ^ 64 - 64)).

(** ** Claims *)

(** [validate] finishes on every byte string and classifies it: the six
    errors in the order of the code, or the entry point in the header. *)
Lemma validate_total data :
  image data -> validate data = Done (validate_spec data).
Proof. apply validate_eq. Qed.

Lemma validate_total_witness : validate demo_image = Done (Ok 0x100000).
Proof. rewrite (validate_total demo_image demo_image_ok). vm_compute. reflexivity. Defined.

(** no byte string, however malformed its program headers, makes one of
    the checks panic: no slice out of range, no overflow of the table
    arithmetic, no write past the array of ranges. *)
Lemma image_checks_total data entry :
  image data ->
  (exists r, check_segments data = Done r) /\ (exists r, check_no_overlap data = Done r) /\
  (exists r, check_entry data entry = Done r).
Proof.
  intros Him. rewrite check_segments_eq, check_no_overlap_eq, check_entry_eq by done.
  split_and!; by eexists.
Qed.

Lemma image_checks_total_witness :
  (exists r, check_segments demo_image = Done r) /\ (exists r, check_no_overlap demo_image = Done r) /\
  (exists r, check_entry demo_image 0x100000 = Done r).
Proof. apply (image_checks_total demo_image 0x100000 demo_image_ok). Defined.

(** C27: the four checks together accept exactly the well-formed images: a
    valid header, a program header table inside the file with one to sixteen
    loadable segments, each not empty, within the file and without address
    overflow, pairwise disjoint in physical memory, and the entry point
    inside an executable one. *)
Theorem image_accepted_iff data entry :
  image data ->
  (validate data = Done (Ok entry) /\ (exists n, check_segments data = Done (Ok n)) /\
   check_no_overlap data = Done (Ok tt) /\ check_entry data entry = Done (Ok tt)) <->
  exists l, well_formed data entry l.
Proof. apply accepted_iff. Qed.

Lemma image_accepted_iff_witness : exists l, well_formed demo_image 0x100000 l.
Proof.
  apply (image_accepted_iff demo_image 0x100000 demo_image_ok).
  split; [vm_compute; reflexivity|]. split; [exists 1; vm_compute; reflexivity|].
  split; vm_compute; reflexivity.
Defined.

(** [loaded_span] of an image whose segments are in order and end below
    the last page of the address space is the least page-aligned range that
    covers them all. *)
Lemma loaded_span_covers data l :
  image data -> load_list data = Ok (l, true) -> l <> [] -> Forall (segment_ok data) l ->
  Forall (fun s => paddr s + memsz s <= U64_MAX - 4095) l ->
  exists lo hi, loaded_span data = Done (Ok (lo, hi)) /\ covers l (Some (lo, hi)) /\
    (PAGE_SIZE | lo) /\ (PAGE_SIZE | hi) /\
    forall s, s ∈ l -> lo <= paddr s /\ paddr s + memsz s <= hi.
Proof. apply loaded_span_eq. Qed.

Lemma loaded_span_covers_witness :
  exists l lo hi, loaded_span demo_image = Done (Ok (lo, hi)) /\ covers l (Some (lo, hi)) /\
    lo = 0x100000 /\ hi = 0x101000.
Proof.
  destruct (loaded_span_covers demo_image [mkSegment 0 0x100000 0x100000 16 32 5])
    as (lo & hi & E & Hc & _).
  - apply demo_image_ok.
  - vm_compute. reflexivity.
  - discriminate.
  - repeat constructor; vm_compute; congruence.
  - repeat constructor; vm_compute; congruence.
  - exists [mkSegment 0 0x100000 0x100000 16 32 5], lo, hi. split; [exact E|]. split; [exact Hc|].
    vm_compute in E. injection E as <- <-. split; reflexivity.
Defined.

(** An image can pass [validate], [check_segments] and [check_no_overlap]
    and still make [loaded_span] panic: a segment that ends inside the last
    page of the address space passes the overflow check, but rounding its end
    up to a page overflows. *)
Lemma loaded_span_top_page :
  image top_image /\ validate top_image = Done (Ok 0x100000) /\
  check_segments top_image = Done (Ok 1) /\ check_no_overlap top_image = Done (Ok tt) /\
  loaded_span top_image = Panic.
Proof.
  split; [split; [by apply bytes_ok_b|vm_compute; discriminate]|].
  split_and!; vm_compute; reflexivity.
Qed.
