(* ===== verification/Paging.v ===== *)
(** * The identity page tables (crates/kernel-memory/src/paging.rs)

    [build] fills a byte arena with four levels of tables.  The specification
    is the processor's walk of those bytes ([mmu_walk]).  The theorems: the
    walk of the built tables maps an address to itself exactly when the policy
    says so (RAM below the limit, never page 0) and otherwise faults, never
    with user access; [build] reports its errors in order and never panics;
    and the statistics count what was mapped. *)
From Stdlib Require Import ZArith Lia Bool.
From stdpp Require Import base tactics option list numbers.
From S2P Require Import Prelude MemoryMap.

#[local] Open Scope Z_scope.

(** ** Data *)
Definition BLOCK_SIZE : Z := 2 * 1024 * 1024.
Definition MAX_IDENTITY_BYTES : Z := 4 * 1024 * 1024 * 1024.
Definition PD_ENTRIES : Z := 512.
Definition PT_ENTRIES : Z := 512.
Definition PDPT_COVERAGE : Z := 512 * 1024 * 1024 * 1024.
Definition PD_COVERAGE : Z := 1024 * 1024 * 1024.
Definition MAX_IDENTITY_SUPPORTED : Z := PD_COVERAGE * PD_ENTRIES.
Definition MAX_FINE_GRAINED_SUPPORTED : Z := BLOCK_SIZE * PD_ENTRIES.
Definition PRESENT : Z := 1.
Definition WRITABLE : Z := 2.
Definition USER : Z := 4.
Definition BLOCK : Z := 128.
Definition ADDRESS_MASK : Z := 0x000FFFFFFFFFF000.

Create HintDb paging.
#[export] Hint Unfold BLOCK_SIZE MAX_IDENTITY_BYTES PD_ENTRIES PT_ENTRIES PDPT_COVERAGE : paging.
#[export] Hint Unfold PD_COVERAGE MAX_IDENTITY_SUPPORTED MAX_FINE_GRAINED_SUPPORTED PAGE_SIZE : paging.
#[export] Hint Unfold PRESENT WRITABLE USER BLOCK : paging.

Ltac plia := autounfold with paging consts in *; lia.

Record PagingConfig : Type := mkPaging {
  max_identity_bytes : Z;
  fine_grained_bytes : Z
}.

Definition M2 : PagingConfig := mkPaging MAX_IDENTITY_BYTES BLOCK_SIZE.

Inductive BuildError : Type :=
| ArenaMisaligned (address : Z)
| ArenaTooSmall (needed got : Z)
| NoUsableRam
| ConfigTooLarge (max_bytes supported : Z)
| FineGrainedTooLarge (fine supported : Z).

Record PageTables : Type := mkTables {
  pml4_phys : Z;
  pt_limit : Z;
  mapped_bytes : Z;
  blocks : Z;
  pt_pages : Z;
  tables_used : Z
}.

(** ** Operations *)
Definition tables_needed (max_bytes fine : Z) : Z :=
  1 + div_ceil max_bytes PDPT_COVERAGE + div_ceil max_bytes PD_COVERAGE + div_ceil fine BLOCK_SIZE.

(** [arena_address] is [arena.as_ptr()]. *)
Definition write_entry (arena_address : Z) (arena : list Z) (table idx value : Z) : exec (list Z) :=
  let! rel := sub64 table arena_address in
  let! scaled := mul64 idx 8 in
  let! offset := add64 rel scaled in
  let! stop := add64 offset 8 in
  copy_from_slice arena offset stop (le_bytes 8 value).

Fixpoint any_ram (rs : list Region) (start stop : Z) : exec bool :=
  match rs with
  | [] => Done false
  | r :: rs =>
      if is_ram (kind r) then
        let! o := overlaps r start stop in
        if o then Done true else any_ram rs start stop
      else any_ram rs start stop
  end.

Definition overlaps_ram (map : MemoryMap) (start stop : Z) : exec bool :=
  let! rs := regions map in any_ram rs start stop.

(** The addresses of [n] pages from [next_page] on ([take_page]). *)
Definition take_pages (base_phys next_page : Z) (n : nat) : list Z :=
  (fun i : nat => base_phys + (next_page + Z.of_nat i) * PAGE_SIZE) <$> seq 0 n.

(** [for (index, pd) in pds { write_entry(arena, pdpt, index, pd | P | W) }]. *)
Fixpoint link_pds (address : Z) (arena : list Z) (pdpt : Z) (pds : list Z) (idx : Z) : exec (list Z) :=
  match pds with
  | [] => Done arena
  | pd :: pds =>
      let! arena := write_entry address arena pdpt idx (Z.lor pd (Z.lor PRESENT WRITABLE)) in
      link_pds address arena pdpt pds (idx + 1)
  end.

(** The slots of one page directory: [n] of them from [slot] on.  The state
    is the arena, the number of blocks and the bytes mapped. *)
Fixpoint pd_slots (address : Z) (map : MemoryMap) (pts : list Z) (lim idx pd : Z)
    (n : nat) (slot : Z) (st : list Z * Z * Z) : exec (list Z * Z * Z) :=
  match n with
  | O => Done st
  | S n =>
      let '(arena, nblocks, mapped) := st in
      let block_index := idx * PD_ENTRIES + slot in
      let addr := idx * PD_COVERAGE + slot * BLOCK_SIZE in
      let! st :=
        (if block_index <? len pts then
           let! pt := index pts block_index in
           let! arena := write_entry address arena pd slot (Z.lor pt (Z.lor PRESENT WRITABLE)) in
           Done (arena, nblocks, mapped)
         else
           let! ram := (if lim <=? addr then Done false
                        else let! stop := add64 addr BLOCK_SIZE in overlaps_ram map addr stop) in
           if negb ram then Done (arena, nblocks, mapped)
           else
             let! arena := write_entry address arena pd slot
               (Z.lor addr (Z.lor PRESENT (Z.lor WRITABLE BLOCK))) in
             let! nblocks := add64 nblocks 1 in
             let! mapped := add64 mapped BLOCK_SIZE in
             Done (arena, nblocks, mapped)) in
      pd_slots address map pts lim idx pd n (slot + 1) st
  end.

Fixpoint pd_tables (address : Z) (map : MemoryMap) (pts : list Z) (lim : Z) (pds : list Z) (idx : Z)
    (st : list Z * Z * Z) : exec (list Z * Z * Z) :=
  match pds with
  | [] => Done st
  | pd :: pds =>
      let! st := pd_slots address map pts lim idx pd (Z.to_nat PD_ENTRIES) 0 st in
      pd_tables address map pts lim pds (idx + 1) st
  end.

(** The slots of one page table of the fine-grained range. *)
Fixpoint pt_slots (address : Z) (map : MemoryMap) (fine_limit idx pt : Z)
    (n : nat) (slot : Z) (st : list Z * Z * Z) : exec (list Z * Z * Z) :=
  match n with
  | O => Done st
  | S n =>
      let '(arena, npages, mapped) := st in
      let addr := idx * BLOCK_SIZE + slot * PAGE_SIZE in
      let! st :=
        (if (addr =? 0) || (fine_limit <=? addr) then Done st
         else
           let! stop := add64 addr PAGE_SIZE in
           let! ram := overlaps_ram map addr stop in
           if negb ram then Done st
           else
             let! arena := write_entry address arena pt slot (Z.lor addr (Z.lor PRESENT WRITABLE)) in
             let! npages := add64 npages 1 in
             let! mapped := add64 mapped PAGE_SIZE in
             Done (arena, npages, mapped)) in
      pt_slots address map fine_limit idx pt n (slot + 1) st
  end.

Fixpoint pt_tables (address : Z) (map : MemoryMap) (fine_limit : Z) (pts : list Z) (idx : Z)
    (st : list Z * Z * Z) : exec (list Z * Z * Z) :=
  match pts with
  | [] => Done st
  | pt :: pts =>
      let! st := pt_slots address map fine_limit idx pt (Z.to_nat PT_ENTRIES) 0 st in
      pt_tables address map fine_limit pts (idx + 1) st
  end.

Definition build (address : Z) (arena : list Z) (map : MemoryMap) (config : PagingConfig) :
    exec (list Z * Result PageTables BuildError) :=
  if negb (is_multiple_of address PAGE_SIZE) then Done (arena, Err (ArenaMisaligned address))
  else if MAX_IDENTITY_SUPPORTED <? max_identity_bytes config then
    Done (arena, Err (ConfigTooLarge (max_identity_bytes config) MAX_IDENTITY_SUPPORTED))
  else if MAX_FINE_GRAINED_SUPPORTED <? fine_grained_bytes config then
    Done (arena, Err (FineGrainedTooLarge (fine_grained_bytes config) MAX_FINE_GRAINED_SUPPORTED))
  else
    let pd_count := div_ceil (max_identity_bytes config) PD_COVERAGE in
    let pt_count := div_ceil (fine_grained_bytes config) BLOCK_SIZE in
    let tables := tables_needed (max_identity_bytes config) (fine_grained_bytes config) in
    let! needed := mul64 tables PAGE_SIZE in
    if len arena <? needed then Done (arena, Err (ArenaTooSmall needed (len arena)))
    else
      let! top := ram_top map in
      let* top := top else Done (arena, Err NoUsableRam) in
      let lim := Z.min top (max_identity_bytes config) in
      if lim =? 0 then Done (arena, Err NoUsableRam)
      else
        let! arena := fill arena 0 needed 0 in
        let pml4 := address in
        let pdpt := address + PAGE_SIZE in
        let pds := take_pages address 2 (Z.to_nat pd_count) in
        let pts := take_pages address (2 + pd_count) (Z.to_nat pt_count) in
        let! arena := write_entry address arena pml4 0 (Z.lor pdpt (Z.lor PRESENT WRITABLE)) in
        let! arena := link_pds address arena pdpt pds 0 in
        let! (arena, nblocks, mapped) := pd_tables address map pts lim pds 0 (arena, 0, 0) in
        let fine_limit := Z.min (fine_grained_bytes config) lim in
        let! (arena, npages, mapped) := pt_tables address map fine_limit pts 0 (arena, 0, mapped) in
        Done (arena, Ok (mkTables pml4 lim mapped nblocks npages tables)).

(** ** Specification: the processor's walk

    The tables are the bytes of the arena; [entry arena e] is the [e]-th
    8-byte entry, so page [p] of the arena holds the entries [512 * p] to
    [512 * p + 511]. *)
Definition entry (arena : list Z) (e : Z) : Z := le_val (sub_list arena (8 * e) 8).

(** An aligned 8-byte load from physical memory; memory outside the arena is
    not described, and a walk that leaves the arena answers [None]. *)
Definition load_entry (address : Z) (arena : list Z) (table idx : Z) : option Z :=
  if (address <=? table) && (table + 8 * idx + 8 <=? address + len arena)
  then Some (entry arena ((table - address) / 8 + idx)) else None.

Record Access : Type := mkAccess {
  ac_phys : Z;
  ac_writable : bool;
  ac_user : bool
}.

Definition present (e : Z) : bool := Z.testbit e 0.
Definition writable_bit (e : Z) : bool := Z.testbit e 1.
Definition user_bit (e : Z) : bool := Z.testbit e 2.
Definition large_bit (e : Z) : bool := Z.testbit e 7.

(** Bits [51:k] of an entry: the frame of a [2 ^ k]-byte page. *)
Definition frame_of (k e : Z) : Z := Z.land e (Z.shiftl (Z.ones (52 - k)) k).

(** Four-level paging of a 48-bit virtual address from [cr3] (Intel SDM,
    volume 3, 4.5): every level must be present, a set bit 7 ends the walk at
    the second or third level, and writing and user access need the bit at
    every level ([w] and [u] collect them).  [None] is a page fault. *)
Definition leaf (k e va : Z) (w u : bool) : option Access :=
  Some (mkAccess (frame_of k e + va mod 2 ^ k) (w && writable_bit e) (u && user_bit e)).

Definition walk_pt (address : Z) (arena : list Z) (table va : Z) (w u : bool) : option Access :=
  let* e := load_entry address arena table (va / 2 ^ 12 mod 512) else None in
  if negb (present e) then None else leaf 12 e va w u.

Definition walk_pd (address : Z) (arena : list Z) (table va : Z) (w u : bool) : option Access :=
  let* e := load_entry address arena table (va / 2 ^ 21 mod 512) else None in
  if negb (present e) then None
  else if large_bit e then leaf 21 e va w u
  else walk_pt address arena (frame_of 12 e) va (w && writable_bit e) (u && user_bit e).

Definition walk_pdpt (address : Z) (arena : list Z) (table va : Z) (w u : bool) : option Access :=
  let* e := load_entry address arena table (va / 2 ^ 30 mod 512) else None in
  if negb (present e) then None
  else if large_bit e then leaf 30 e va w u
  else walk_pd address arena (frame_of 12 e) va (w && writable_bit e) (u && user_bit e).

Definition mmu_walk (address : Z) (arena : list Z) (cr3 va : Z) : option Access :=
  let* e := load_entry address arena cr3 (va / 2 ^ 39 mod 512) else None in
  if negb (present e) then None
  else walk_pdpt address arena (frame_of 12 e) va (writable_bit e) (user_bit e).

(** ** Specification: the mapping policy *)
Definition ram_in (rs : list Region) (start stop : Z) : bool :=
  existsb (fun r => is_ram (kind r) && ((base r <? stop) && (start <? end_of r))) rs.

(** Is block [k] (2 MiB each) mapped as a block? page [n] (4 KiB) as a page? *)
Definition block_mapped (rs : list Region) (lim pt_count k : Z) : bool :=
  (pt_count <=? k) && ((k * BLOCK_SIZE <? lim) && ram_in rs (k * BLOCK_SIZE) (k * BLOCK_SIZE + BLOCK_SIZE)).
Definition page_mapped (rs : list Region) (fine_limit n : Z) : bool :=
  negb (n =? 0) &&
    ((n * PAGE_SIZE <? fine_limit) && ram_in rs (n * PAGE_SIZE) (n * PAGE_SIZE + PAGE_SIZE)).

(** The entries [build] leaves in the page directories and page tables. *)
Definition pd_value (address pd_count : Z) (rs : list Region) (lim pt_count k : Z) : Z :=
  if k <? pt_count then address + (2 + pd_count + k) * PAGE_SIZE + 3
  else if block_mapped rs lim pt_count k then k * BLOCK_SIZE + 131 else 0.
Definition pt_value (rs : list Region) (fine_limit n : Z) : Z :=
  if page_mapped rs fine_limit n then n * PAGE_SIZE + 3 else 0.

(** How many of [f k, f (k + 1), ...] hold, over [n] arguments. *)
Fixpoint countZ (f : Z -> bool) (n : nat) (k : Z) : Z :=
  match n with
  | O => 0
  | S n => Z.b2z (f k) + countZ f n (k + 1)
  end.

(** Does the policy map the virtual address [va]? *)
Definition identity_policy (rs : list Region) (config : PagingConfig) (lim va : Z) : bool :=
  let pt_count := div_ceil (fine_grained_bytes config) BLOCK_SIZE in
  if va <? pt_count * BLOCK_SIZE
  then page_mapped rs (Z.min (fine_grained_bytes config) lim) (va / PAGE_SIZE)
  else block_mapped rs lim pt_count (va / BLOCK_SIZE).

(** ** Lemmas: entries *)
Lemma flags_mod k a f : 0 <= k -> a mod 2 ^ k = 0 -> 0 <= f < 2 ^ k -> (a + f) mod 2 ^ k = f.
Proof.
  intros Hk Ha Hf. rewrite Z.add_mod, Ha, Z.add_0_l by lia.
  rewrite Z.mod_mod by lia. by apply Z.mod_small.
Qed.

Lemma testbit_flags k a f i :
  0 <= i < k -> a mod 2 ^ k = 0 -> 0 <= f < 2 ^ k -> Z.testbit (a + f) i = Z.testbit f i.
Proof.
  intros Hi Ha Hf. rewrite <- (Z.mod_pow2_bits_low (a + f) k i) by lia.
  by rewrite flags_mod by lia.
Qed.

Lemma lor_flags k a f : 0 <= k -> a mod 2 ^ k = 0 -> 0 <= f < 2 ^ k -> Z.lor a f = a + f.
Proof.
  intros Hk Ha Hf. symmetry. rewrite Z.add_nocarry_lxor, Z.lxor_lor; [done|..];
    apply Z.bits_inj'; intros i Hi; rewrite Z.land_spec, Z.bits_0;
    (destruct (Z.lt_ge_cases i k);
     [rewrite <- (Z.mod_pow2_bits_low a k i), Ha, Z.bits_0 by lia; done|
      rewrite <- (Z.mod_small f (2 ^ k)), (Z.mod_pow2_bits_high f k i) by lia; apply andb_false_r]).
Qed.

Lemma frame_of_eq k x : 0 <= k <= 52 -> frame_of k x = x / 2 ^ k mod 2 ^ (52 - k) * 2 ^ k.
Proof.
  intros Hk. unfold frame_of.
  rewrite <- Z.shiftl_mul_pow2, <- Z.land_ones, <- Z.shiftr_div_pow2, Z.shiftl_land by lia.
  apply Z.bits_inj'. intros i Hi. rewrite !Z.land_spec.
  destruct (Z.lt_ge_cases i k).
  - by rewrite (Z.shiftl_spec_low (Z.ones _)), !andb_false_r by lia.
  - rewrite (Z.shiftl_spec (Z.shiftr x k)), Z.shiftr_spec by lia. do 2 f_equal. lia.
Qed.

Lemma frame_of_flags k a f :
  0 <= k <= 52 -> a mod 2 ^ k = 0 -> 0 <= f < 2 ^ k -> 0 <= a < 2 ^ 52 -> frame_of k (a + f) = a.
Proof.
  intros Hk Ha Hf Hb. rewrite frame_of_eq by done.
  assert (Hd : a = 2 ^ k * (a / 2 ^ k)) by (apply Z_div_exact_full_2; lia).
  replace (a + f) with (f + a / 2 ^ k * 2 ^ k) by lia.
  rewrite Z.div_add, Z.div_small, Z.add_0_l by lia. rewrite Z.mod_small; [lia|].
  split; [apply Z.div_pos; lia|]. apply Z.div_lt_upper_bound; [lia|].
  rewrite <- Z.pow_add_r by lia. replace (k + (52 - k)) with 52 by lia. lia.
Qed.

Lemma entry_u64 arena e : bytes_ok arena -> is_u64 (entry arena e).
Proof.
  intros H. unfold entry. pose proof (le_val_bound _ (bytes_ok_sub_list arena (8 * e) 8 H)) as Hb.
  assert (2 ^ (8 * len (sub_list arena (8 * e) 8)) <= 2 ^ 64).
  { apply Z.pow_le_mono_r; [lia|]. unfold sub_list, len. rewrite length_take. lia. }
  ulia.
Qed.

(** Writing one entry changes that entry only. *)
Lemma entry_splice arena e v e' :
  0 <= e -> 8 * e + 8 <= len arena -> 0 <= e' -> is_u64 v ->
  entry (splice arena (8 * e) (le_bytes 8 v)) e' = if decide (e' = e) then v else entry arena e'.
Proof.
  intros. unfold entry. case_decide.
  - subst. rewrite sub_list_splice_eq; [by apply le_val_u64|lia|rewrite len_le_bytes; lia|done].
  - rewrite sub_list_splice_ne; [done|lia|rewrite len_le_bytes; lia|lia|lia|rewrite len_le_bytes; lia].
Qed.

Lemma sub_list_replicate {A : Type} (x : A) n i k :
  0 <= i -> 0 <= k -> i + k <= Z.of_nat n -> sub_list (replicate n x) i k = replicate (Z.to_nat k) x.
Proof.
  intros. unfold sub_list. rewrite drop_replicate, take_replicate. f_equal. lia.
Qed.

Lemma entry_zeroed arena o k e :
  0 <= o -> 0 <= k -> o <= 8 * e -> 8 * e + 8 <= o + k -> o + k <= len arena ->
  entry (splice arena o (replicate (Z.to_nat k) 0)) e = 0.
Proof.
  intros. unfold entry.
  replace (sub_list (splice arena o (replicate (Z.to_nat k) 0)) (8 * e) 8) with
    (sub_list (replicate (Z.to_nat k) 0) (8 * e - o) 8).
  - rewrite sub_list_replicate by lia. done.
  - apply list_eq. intros i. destruct (decide (i < 8)%nat).
    + rewrite !sub_list_lookup by lia. rewrite splice_lookup by (rewrite ?len_replicate; lia).
      rewrite decide_True by (rewrite length_replicate; lia). f_equal. lia.
    + unfold sub_list. by rewrite !lookup_take_ge by lia.
Qed.

(** The arena as a function from entry numbers to entries. *)
Record entries_are (arena : list Z) (n : Z) (g : Z -> Z) : Prop := mkEntries {
  ea_len : len arena = n;
  ea_bytes : bytes_ok arena;
  ea_at : forall e, 0 <= e -> 8 * e + 8 <= n -> entry arena e = g e
}.

Lemma entries_are_ext arena n g g' :
  entries_are arena n g -> (forall e, 0 <= e -> 8 * e + 8 <= n -> g e = g' e) -> entries_are arena n g'.
Proof. intros [Hl Hb Ha] He. constructor; [done..|]. intros e ? ?. rewrite <- He by done. auto. Qed.

Lemma entries_are_splice arena n g e v :
  entries_are arena n g -> 0 <= e -> 8 * e + 8 <= n -> is_u64 v ->
  entries_are (splice arena (8 * e) (le_bytes 8 v)) n (fun e' => if decide (e' = e) then v else g e').
Proof.
  intros [<- Hb Ha] He Hn Hv. constructor.
  - apply len_splice; rewrite ?len_le_bytes; lia.
  - apply bytes_ok_splice; [done|apply le_bytes_ok].
  - intros e' He' Hn'. rewrite entry_splice by done. case_decide; auto.
Qed.

Lemma write_entry_spec address arena n g p idx v :
  entries_are arena n g -> 0 <= address -> address + n <= U64_MAX ->
  0 <= p -> 0 <= idx < 512 -> (p + 1) * PAGE_SIZE <= n -> is_u64 v ->
  exists arena', write_entry address arena (address + p * PAGE_SIZE) idx v = Done arena' /\
    entries_are arena' n (fun e => if decide (e = 512 * p + idx) then v else g e).
Proof.
  intros Hg Ha Hn Hp Hi Hfit Hv. pose proof (ea_len _ _ _ Hg) as Hl. unfold write_entry.
  rewrite sub64_done by plia. cbn [exec_bind].
  rewrite mul64_done by plia. cbn [exec_bind].
  rewrite add64_done by plia. cbn [exec_bind].
  rewrite add64_done by plia. cbn [exec_bind].
  replace (address + p * PAGE_SIZE - address + idx * 8) with (8 * (512 * p + idx)) by plia.
  rewrite copy_from_slice_done by (rewrite ?len_le_bytes; plia).
  eexists. split; [done|]. apply entries_are_splice; [done|lia|plia|done].
Qed.

(** ** Lemmas: the loops *)
Lemma countZ_bounds f n k : 0 <= countZ f n k <= Z.of_nat n.
Proof.
  revert k. induction n as [|n IH]; intros k; cbn [countZ]; [lia|].
  specialize (IH (k + 1)). destruct (f k); simpl Z.b2z; lia.
Qed.

Lemma countZ_app f n m k : countZ f (n + m) k = countZ f n k + countZ f m (k + Z.of_nat n).
Proof.
  revert k. induction n as [|n IH]; intros k; cbn [countZ Nat.add]; [by rewrite Z.add_0_r|].
  rewrite IH. replace (k + 1 + Z.of_nat n) with (k + Z.of_nat (S n)) by lia. lia.
Qed.

Lemma any_ram_spec rs start stop :
  Forall (fun r => end_of r <= U64_MAX /\ is_u64 (base r) /\ is_u64 (pages r)) rs ->
  any_ram rs start stop = Done (ram_in rs start stop).
Proof.
  induction 1 as [|r rs (He & Hb & Hp) _ IH]; [done|]. cbn [any_ram ram_in existsb].
  destruct (is_ram (kind r)); [|exact IH]. unfold overlaps. cbn [andb].
  destruct (base r <? stop); [|exact IH].
  rewrite region_end_done by done. cbn [exec_bind andb].
  destruct (start <? end_of r); [done|exact IH].
Qed.

Lemma overlaps_ram_spec m start stop :
  map_ok m -> overlaps_ram m start stop = Done (ram_in (region_list m) start stop).
Proof.
  intros Hm. unfold overlaps_ram. rewrite regions_ok by done. cbn [exec_bind].
  by apply any_ram_spec, map_ok_regions_bounded.
Qed.

Lemma take_pages_lookup b p n i :
  0 <= i < Z.of_nat n -> get (take_pages b p n) i = Some (b + (p + i) * PAGE_SIZE).
Proof.
  intros Hi. apply get_some. split; [lia|]. unfold take_pages.
  rewrite list_lookup_fmap, lookup_seq_lt by lia. simpl. by rewrite Z2Nat.id by lia.
Qed.

Lemma len_take_pages b p n : len (take_pages b p n) = Z.of_nat n.
Proof. unfold take_pages, len. by rewrite length_fmap, length_seq. Qed.

Lemma take_pages_S b p n : take_pages b p (S n) = (b + p * PAGE_SIZE) :: take_pages b (p + 1) n.
Proof.
  unfold take_pages. cbn [seq]. rewrite fmap_cons. f_equal; [f_equal; lia|].
  exact (fmap_seq_succ (fun z => b + z * PAGE_SIZE) p n).
Qed.

Section Loops.
  Context (address n : Z).
  Hypothesis Haddr : 0 <= address /\ address mod PAGE_SIZE = 0 /\ address + n <= 2 ^ 52.

Lemma page_aligned p : (address + p * PAGE_SIZE) mod 2 ^ 12 = 0.
Proof.
  destruct Haddr as (_ & Ha & _). change (2 ^ 12) with PAGE_SIZE.
  rewrite Z.add_mod, Ha, Z.mod_mul by plia. done.
Qed.

Lemma link_value p :
  0 <= p -> (p + 1) * PAGE_SIZE <= n ->
  Z.lor (address + p * PAGE_SIZE) (Z.lor PRESENT WRITABLE) = address + p * PAGE_SIZE + 3 /\
  is_u64 (address + p * PAGE_SIZE + 3).
Proof.
  intros Hp Hn. split; [|plia]. change (Z.lor PRESENT WRITABLE) with 3.
  apply (lor_flags 12); [lia|apply page_aligned|lia].
Qed.

Lemma link_pds_spec k p i arena g :
  entries_are arena n g -> 0 <= p -> 0 <= i -> i + Z.of_nat k <= 512 ->
  (p + Z.of_nat k) * PAGE_SIZE <= n -> 2 * PAGE_SIZE <= n ->
  exists arena', link_pds address arena (address + PAGE_SIZE) (take_pages address p k) i = Done arena' /\
    entries_are arena' n (fun e =>
      if decide (512 + i <= e < 512 + i + Z.of_nat k)
      then address + (p + (e - 512 - i)) * PAGE_SIZE + 3 else g e).
Proof.
  revert p i arena g. induction k as [|k IH]; intros p i arena g Hg Hp Hi Hk Hn H2.
  { exists arena. split; [done|]. eapply entries_are_ext; [exact Hg|]. intros e _ _.
    rewrite decide_False by lia. done. }
  rewrite take_pages_S. cbn [link_pds].
  destruct (link_value p) as [-> Hu]; [done|plia|].
  destruct (write_entry_spec address arena n g 1 i (address + p * PAGE_SIZE + 3)) as (a1 & Hw & Ha1);
    [done|tauto|ulia|lia|lia|plia|done|].
  rewrite Z.mul_1_l in Hw. rewrite Hw. cbn [exec_bind].
  destruct (IH (p + 1) (i + 1) a1 _ Ha1) as (a2 & -> & Ha2); [lia|lia|lia|plia|lia|].
  exists a2. split; [done|]. eapply entries_are_ext; [exact Ha2|]. intros e _ _. simpl.
  repeat case_decide; plia.
Qed.

Context (m : MemoryMap) (Hm : map_ok m).
Context (pd_count pt_count lim : Z).
Hypothesis Hcounts : 0 <= pd_count <= 512 /\ 0 <= pt_count <= 512.
Hypothesis Hfit : (2 + pd_count + pt_count) * PAGE_SIZE <= n.

Let pts := take_pages address (2 + pd_count) (Z.to_nat pt_count).
Let rs := region_list m.

Lemma pd_step idx slot arena nb mb g :
  entries_are arena n g -> 0 <= idx < pd_count -> 0 <= slot < 512 ->
  g (1024 + (idx * 512 + slot)) = 0 -> 0 <= nb < 2 ^ 60 -> 0 <= mb < 2 ^ 60 ->
  let k := idx * 512 + slot in
  let c := Z.b2z (block_mapped rs lim pt_count k) in
  exists arena',
    (forall j, pd_slots address m pts lim idx (address + (2 + idx) * PAGE_SIZE) (S j) slot (arena, nb, mb) =
      pd_slots address m pts lim idx (address + (2 + idx) * PAGE_SIZE) j (slot + 1)
        (arena', nb + c, mb + BLOCK_SIZE * c)) /\
    entries_are arena' n (fun e =>
      if decide (e = 1024 + k) then pd_value address pd_count rs lim pt_count k else g e).
Proof.
  intros Hg Hidx Hs H0 Hnb Hmb k c. subst c.
  assert (Hw : forall v, is_u64 v -> exists arena',
    write_entry address arena (address + (2 + idx) * PAGE_SIZE) slot v = Done arena' /\
    entries_are arena' n (fun e => if decide (e = 1024 + k) then v else g e)).
  { intros v Hv. destruct (write_entry_spec address arena n g (2 + idx) slot v) as (a & Ha & Hea);
      [done|tauto|ulia|lia|lia|plia|done|]. exists a. split; [done|].
    eapply entries_are_ext; [exact Hea|]. intros e _ _. simpl.
    by replace (512 * (2 + idx) + slot) with (1024 + k) by lia. }
  cbn [pd_slots]. unfold pd_value, block_mapped.
  change (idx * PD_ENTRIES + slot) with k.
  replace (idx * PD_COVERAGE + slot * BLOCK_SIZE) with (k * BLOCK_SIZE) by (unfold k; plia).
  unfold pts at 1. rewrite len_take_pages, Z2Nat.id by lia.
  destruct (Z.ltb_spec k pt_count) as [Hk|Hk].
  - rewrite (proj2 (Z.leb_gt pt_count k)) by lia. cbn [andb Z.b2z].
    destruct (link_value (2 + pd_count + k)) as [Hl Hu]; [lia|plia|].
    destruct (Hw _ Hu) as (a & Ha & Hea). exists a. split; [|done]. intros j.
    unfold index at 1. unfold pts at 1. rewrite take_pages_lookup by lia. cbn [exec_bind].
    rewrite Hl, Ha. cbn [exec_bind]. by rewrite Z.mul_0_r, !Z.add_0_r.
  - rewrite (proj2 (Z.leb_le pt_count k)) by lia. cbn [andb].
    rewrite (Z.leb_antisym (k * BLOCK_SIZE) lim).
    assert (Hnone : entries_are arena n (fun e => if decide (e = 1024 + k) then 0 else g e)).
    { eapply entries_are_ext; [exact Hg|]. intros e _ _. simpl. case_decide; [by subst|done]. }
    destruct (k * BLOCK_SIZE <? lim); cbn [negb exec_bind andb];
      [|exists arena; split; [|done]; intros j; cbn [Z.b2z]; by rewrite Z.mul_0_r, !Z.add_0_r].
    assert (Hb : (k * BLOCK_SIZE) mod 2 ^ 21 = 0) by (apply Z.mod_mul; lia).
    rewrite add64_done by plia. cbn [exec_bind].
    rewrite overlaps_ram_spec by done. cbn [exec_bind]. fold rs.
    destruct (ram_in rs (k * BLOCK_SIZE) (k * BLOCK_SIZE + BLOCK_SIZE)); cbn [negb Z.b2z];
      [|exists arena; split; [|done]; intros j; by rewrite Z.mul_0_r, !Z.add_0_r].
    change (Z.lor PRESENT (Z.lor WRITABLE BLOCK)) with 131.
    rewrite (lor_flags 21) by lia.
    destruct (Hw (k * BLOCK_SIZE + 131)) as (a & Ha & Hea); [unfold k; plia|].
    exists a. split; [|done]. intros j. rewrite Ha. cbn [exec_bind].
    rewrite !add64_done by plia. cbn [exec_bind]. by rewrite Z.mul_1_r.
Qed.

Lemma pd_slots_spec k idx slot arena nb mb g :
  entries_are arena n g -> 0 <= idx < pd_count -> 0 <= slot -> slot + Z.of_nat k <= 512 ->
  (forall e, 1024 + (idx * 512 + slot) <= e < 1024 + (idx * 512 + slot) + Z.of_nat k -> g e = 0) ->
  0 <= nb <= 2 ^ 20 - Z.of_nat k -> 0 <= mb <= BLOCK_SIZE * (2 ^ 20 - Z.of_nat k) ->
  let c := countZ (block_mapped rs lim pt_count) k (idx * 512 + slot) in
  exists arena',
    pd_slots address m pts lim idx (address + (2 + idx) * PAGE_SIZE) k slot (arena, nb, mb) =
      Done (arena', nb + c, mb + BLOCK_SIZE * c) /\
    entries_are arena' n (fun e =>
      if decide (1024 + (idx * 512 + slot) <= e < 1024 + (idx * 512 + slot) + Z.of_nat k)
      then pd_value address pd_count rs lim pt_count (e - 1024) else g e).
Proof.
  revert slot arena nb mb g. induction k as [|k IH]; intros slot arena nb mb g Hg Hidx Hs Hk H0 Hnb Hmb c.
  { exists arena. subst c. cbn [pd_slots countZ]. rewrite Z.mul_0_r, !Z.add_0_r. split; [done|].
    eapply entries_are_ext; [exact Hg|]. intros e _ _. rewrite decide_False by lia. done. }
  destruct (pd_step idx slot arena nb mb g) as (a1 & Hstep & Ha1);
    [done|done|lia|apply H0; lia|lia|plia|].
  rewrite Hstep. subst c. cbn [countZ].
  set (b := Z.b2z (block_mapped rs lim pt_count (idx * 512 + slot))) in *.
  assert (0 <= b <= 1) by (unfold b; destruct block_mapped; simpl; lia).
  destruct (IH (slot + 1) a1 (nb + b) (mb + BLOCK_SIZE * b) _ Ha1) as (a2 & -> & Ha2);
    [done|lia|lia|intros e He; rewrite decide_False by lia; apply H0; lia|lia|plia|].
  replace (idx * 512 + (slot + 1)) with (idx * 512 + slot + 1) by lia.
  exists a2. split; [by rewrite Z.mul_add_distr_l, !Z.add_assoc|].
  eapply entries_are_ext; [exact Ha2|]. intros e _ _. simpl.
  repeat case_decide; try lia; subst; f_equal; lia.
Qed.

Lemma pd_tables_spec k idx arena nb mb g :
  entries_are arena n g -> 0 <= idx -> idx + Z.of_nat k = pd_count ->
  (forall e, 1024 + idx * 512 <= e < 1024 + pd_count * 512 -> g e = 0) ->
  0 <= nb <= 2 ^ 20 - 512 * Z.of_nat k -> 0 <= mb <= BLOCK_SIZE * (2 ^ 20 - 512 * Z.of_nat k) ->
  let c := countZ (block_mapped rs lim pt_count) (512 * k) (idx * 512) in
  exists arena',
    pd_tables address m pts lim (take_pages address (2 + idx) k) idx (arena, nb, mb) =
      Done (arena', nb + c, mb + BLOCK_SIZE * c) /\
    entries_are arena' n (fun e =>
      if decide (1024 + idx * 512 <= e < 1024 + pd_count * 512)
      then pd_value address pd_count rs lim pt_count (e - 1024) else g e).
Proof.
  revert idx arena nb mb g. induction k as [|k IH]; intros idx arena nb mb g Hg Hi Hk H0 Hnb Hmb c.
  { exists arena. subst c. cbn [pd_tables countZ take_pages]. simpl pd_tables. rewrite Z.mul_0_r, !Z.add_0_r.
    split; [done|].
    eapply entries_are_ext; [exact Hg|]. intros e _ _. rewrite decide_False by lia. done. }
  rewrite take_pages_S. cbn [pd_tables].
  destruct (pd_slots_spec 512 idx 0 arena nb mb g) as (a1 & Hs & Ha1);
    [done|lia|lia|lia|intros e He; apply H0; lia|lia|plia|].
  change (Z.to_nat PD_ENTRIES) with 512%nat. rewrite Hs. cbn [exec_bind].
  rewrite Z.add_0_r in *. subst c.
  replace (512 * S k)%nat with (512 + 512 * k)%nat by lia. rewrite countZ_app.
  set (b := countZ (block_mapped rs lim pt_count) 512 (idx * 512)) in *.
  assert (0 <= b <= 512) by apply countZ_bounds.
  replace (idx * 512 + Z.of_nat 512) with ((idx + 1) * 512) in * by lia.
  destruct (IH (idx + 1) a1 (nb + b) (mb + BLOCK_SIZE * b) _ Ha1) as (a2 & Hp & Ha2);
    [lia|lia|intros e He; rewrite decide_False by lia; apply H0; lia|lia|plia|].
  rewrite (Z.add_assoc 2 idx 1) in Hp. rewrite Hp.
  exists a2. split; [by rewrite Z.mul_add_distr_l, !Z.add_assoc|].
  eapply entries_are_ext; [exact Ha2|]. intros e _ _. simpl.
  repeat case_decide; try lia; done.
Qed.

Context (fine_limit : Z).

Lemma pt_step idx slot arena np mb g :
  entries_are arena n g -> 0 <= idx < pt_count -> 0 <= slot < 512 ->
  g ((2 + pd_count) * 512 + (idx * 512 + slot)) = 0 -> 0 <= np < 2 ^ 60 -> 0 <= mb < 2 ^ 60 ->
  let k := idx * 512 + slot in
  let c := Z.b2z (page_mapped rs fine_limit k) in
  let pt := address + (2 + pd_count + idx) * PAGE_SIZE in
  exists arena',
    (forall j, pt_slots address m fine_limit idx pt (S j) slot (arena, np, mb) =
      pt_slots address m fine_limit idx pt j (slot + 1) (arena', np + c, mb + PAGE_SIZE * c)) /\
    entries_are arena' n (fun e =>
      if decide (e = (2 + pd_count) * 512 + k) then pt_value rs fine_limit k else g e).
Proof.
  intros Hg Hidx Hs H0 Hnb Hmb k c pt. subst c.
  assert (Hnone : entries_are arena n (fun e => if decide (e = (2 + pd_count) * 512 + k) then 0 else g e)).
  { eapply entries_are_ext; [exact Hg|]. intros e _ _. simpl. case_decide; [by subst|done]. }
  cbn [pt_slots]. unfold pt_value, page_mapped.
  replace (idx * BLOCK_SIZE + slot * PAGE_SIZE) with (k * PAGE_SIZE) by (unfold k; plia).
  replace (k * PAGE_SIZE =? 0) with (k =? 0) by (destruct (Z.eqb_spec k 0); plia).
  rewrite (Z.leb_antisym (k * PAGE_SIZE) fine_limit).
  destruct (k =? 0); [|destruct (k * PAGE_SIZE <? fine_limit)]; cbn [negb orb andb exec_bind Z.b2z];
    try (exists arena; split; [|done]; intros j; by rewrite Z.mul_0_r, !Z.add_0_r).
  rewrite add64_done by (unfold k; plia). cbn [exec_bind].
  rewrite overlaps_ram_spec by done. cbn [exec_bind]. fold rs.
  destruct (ram_in rs (k * PAGE_SIZE) (k * PAGE_SIZE + PAGE_SIZE)); cbn [negb Z.b2z];
    [|exists arena; split; [|done]; intros j; by rewrite Z.mul_0_r, !Z.add_0_r].
  change (Z.lor PRESENT WRITABLE) with 3. rewrite (lor_flags 12) by (try apply Z.mod_mul; lia).
  destruct (write_entry_spec address arena n g (2 + pd_count + idx) slot (k * PAGE_SIZE + 3))
    as (a & Ha & Hea); [done|tauto|ulia|lia|lia|plia|unfold k; plia|].
  exists a. split.
  - intros j. fold pt in Ha. rewrite Ha. cbn [exec_bind].
    rewrite !add64_done by plia. cbn [exec_bind]. by rewrite Z.mul_1_r.
  - eapply entries_are_ext; [exact Hea|]. intros e _ _. simpl.
    by replace (512 * (2 + pd_count + idx) + slot) with ((2 + pd_count) * 512 + k) by lia.
Qed.

Lemma pt_slots_spec k idx slot arena np mb g :
  let o := (2 + pd_count) * 512 + (idx * 512 + slot) in
  entries_are arena n g -> 0 <= idx < pt_count -> 0 <= slot -> slot + Z.of_nat k <= 512 ->
  (forall e, o <= e < o + Z.of_nat k -> g e = 0) ->
  0 <= np <= 2 ^ 20 - Z.of_nat k -> 0 <= mb <= 2 ^ 50 - PAGE_SIZE * Z.of_nat k ->
  let c := countZ (page_mapped rs fine_limit) k (idx * 512 + slot) in
  exists arena',
    pt_slots address m fine_limit idx (address + (2 + pd_count + idx) * PAGE_SIZE) k slot (arena, np, mb) =
      Done (arena', np + c, mb + PAGE_SIZE * c) /\
    entries_are arena' n (fun e =>
      if decide (o <= e < o + Z.of_nat k) then pt_value rs fine_limit (e - (2 + pd_count) * 512) else g e).
Proof.
  revert slot arena np mb g. induction k as [|k IH]; intros slot arena np mb g o Hg Hidx Hs Hk H0 Hnb Hmb c.
  { exists arena. subst c. cbn [pt_slots countZ]. rewrite Z.mul_0_r, !Z.add_0_r. split; [done|].
    eapply entries_are_ext; [exact Hg|]. intros e _ _. rewrite decide_False by lia. done. }
  destruct (pt_step idx slot arena np mb g) as (a1 & Hstep & Ha1);
    [done|done|lia|apply H0; lia|lia|plia|].
  rewrite Hstep. subst c. cbn [countZ].
  set (b := Z.b2z (page_mapped rs fine_limit (idx * 512 + slot))) in *.
  assert (0 <= b <= 1) by (unfold b; destruct page_mapped; simpl; lia).
  destruct (IH (slot + 1) a1 (np + b) (mb + PAGE_SIZE * b) _ Ha1) as (a2 & -> & Ha2);
    [done|lia|lia|intros e He; rewrite decide_False by lia; apply H0; lia|lia|plia|].
  replace (idx * 512 + (slot + 1)) with (idx * 512 + slot + 1) by lia.
  exists a2. split; [by rewrite Z.mul_add_distr_l, !Z.add_assoc|].
  eapply entries_are_ext; [exact Ha2|]. intros e _ _. simpl. subst o.
  repeat case_decide; try lia; subst; f_equal; lia.
Qed.

Lemma pt_tables_spec k idx arena np mb g :
  let o := (2 + pd_count) * 512 in
  entries_are arena n g -> 0 <= idx -> idx + Z.of_nat k = pt_count ->
  (forall e, o + idx * 512 <= e < o + pt_count * 512 -> g e = 0) ->
  0 <= np <= 2 ^ 20 - 512 * Z.of_nat k -> 0 <= mb <= 2 ^ 50 - 512 * PAGE_SIZE * Z.of_nat k ->
  let c := countZ (page_mapped rs fine_limit) (512 * k) (idx * 512) in
  exists arena',
    pt_tables address m fine_limit (take_pages address (2 + pd_count + idx) k) idx (arena, np, mb) =
      Done (arena', np + c, mb + PAGE_SIZE * c) /\
    entries_are arena' n (fun e =>
      if decide (o + idx * 512 <= e < o + pt_count * 512)
      then pt_value rs fine_limit (e - o) else g e).
Proof.
  revert idx arena np mb g. induction k as [|k IH]; intros idx arena np mb g o Hg Hi Hk H0 Hnb Hmb c.
  { exists arena. subst c. simpl pt_tables. cbn [countZ]. rewrite Z.mul_0_r, !Z.add_0_r.
    split; [done|].
    eapply entries_are_ext; [exact Hg|]. intros e _ _. rewrite decide_False by lia. done. }
  rewrite take_pages_S. cbn [pt_tables].
  destruct (pt_slots_spec 512 idx 0 arena np mb g) as (a1 & Hs & Ha1);
    [done|lia|lia|lia|intros e He; apply H0; lia|lia|plia|].
  change (Z.to_nat PT_ENTRIES) with 512%nat. rewrite Hs. cbn [exec_bind].
  rewrite Z.add_0_r in *. subst c.
  replace (512 * S k)%nat with (512 + 512 * k)%nat by lia. rewrite countZ_app.
  set (b := countZ (page_mapped rs fine_limit) 512 (idx * 512)) in *.
  assert (0 <= b <= 512) by apply countZ_bounds.
  replace (idx * 512 + Z.of_nat 512) with ((idx + 1) * 512) in * by lia.
  destruct (IH (idx + 1) a1 (np + b) (mb + PAGE_SIZE * b) _ Ha1) as (a2 & Hp & Ha2);
    [lia|lia|intros e He; rewrite decide_False by lia; apply H0; lia|lia|plia|].
  rewrite (Z.add_assoc (2 + pd_count) idx 1) in Hp. rewrite Hp.
  exists a2. split; [by rewrite Z.mul_add_distr_l, !Z.add_assoc|].
  eapply entries_are_ext; [exact Ha2|]. intros e _ _. simpl. subst o.
  repeat case_decide; try lia; done.
Qed.

End Loops.

(** ** Lemmas: [build] *)

(** The entries of the finished tables: PML4, PDPT, page directories, page
    tables, and beyond them the arena as it was. *)
Definition table_entries (address : Z) (rs : list Region) (config : PagingConfig) (lim : Z)
    (old : list Z) (e : Z) : Z :=
  let pd_count := div_ceil (max_identity_bytes config) PD_COVERAGE in
  let pt_count := div_ceil (fine_grained_bytes config) BLOCK_SIZE in
  if (2 + pd_count + pt_count) * 512 <=? e then entry old e
  else if (2 + pd_count) * 512 <=? e then
    pt_value rs (Z.min (fine_grained_bytes config) lim) (e - (2 + pd_count) * 512)
  else if 1024 <=? e then pd_value address pd_count rs lim pt_count (e - 1024)
  else if (512 <=? e) && (e <? 512 + pd_count) then address + (2 + (e - 512)) * PAGE_SIZE + 3
  else if e =? 0 then address + PAGE_SIZE + 3 else 0.

(** The error order of [build] and, with [top] the answer of [ram_top], the
    statistics of a successful build. *)
Definition build_outcome (address arena_len : Z) (rs : list Region) (top : option Z)
    (config : PagingConfig) : Result PageTables BuildError :=
  let max := max_identity_bytes config in
  let fine := fine_grained_bytes config in
  let pd_count := div_ceil max PD_COVERAGE in
  let pt_count := div_ceil fine BLOCK_SIZE in
  let needed := tables_needed max fine * PAGE_SIZE in
  if negb (address mod PAGE_SIZE =? 0) then Err (ArenaMisaligned address)
  else if MAX_IDENTITY_SUPPORTED <? max then Err (ConfigTooLarge max MAX_IDENTITY_SUPPORTED)
  else if MAX_FINE_GRAINED_SUPPORTED <? fine then Err (FineGrainedTooLarge fine MAX_FINE_GRAINED_SUPPORTED)
  else if arena_len <? needed then Err (ArenaTooSmall needed arena_len)
  else match top with
       | None => Err NoUsableRam
       | Some top =>
           let lim := Z.min top max in
           if lim =? 0 then Err NoUsableRam
           else
             let nb := countZ (block_mapped rs lim pt_count) (Z.to_nat (512 * pd_count)) 0 in
             let np := countZ (page_mapped rs (Z.min fine lim)) (Z.to_nat (512 * pt_count)) 0 in
             Ok (mkTables address lim (BLOCK_SIZE * nb + PAGE_SIZE * np) nb np (2 + pd_count + pt_count))
       end.

Lemma div_ceil_range a b c : 0 < b -> 0 <= a <= c * b -> 0 <= div_ceil a b <= c.
Proof. intros Hb Ha. pose proof (div_ceil_spec a b Hb). nia. Qed.

Lemma tables_needed_eq max fine :
  0 < max <= MAX_IDENTITY_SUPPORTED ->
  tables_needed max fine = 2 + div_ceil max PD_COVERAGE + div_ceil fine BLOCK_SIZE.
Proof.
  intros H. unfold tables_needed.
  pose proof (div_ceil_spec max PDPT_COVERAGE ltac:(plia)). plia.
Qed.

Section Build.
  Context (address : Z) (arena : list Z) (m : MemoryMap) (config : PagingConfig).
  Hypothesis Haddr : 0 <= address /\ address + len arena <= 2 ^ 52.
  Hypothesis Hbytes : bytes_ok arena.
  Hypothesis Hm : map_ok m.
  Hypothesis Hmax : 0 <= max_identity_bytes config.
  Hypothesis Hfine : 0 <= fine_grained_bytes config.

Let rs := region_list m.
Let pd_count := div_ceil (max_identity_bytes config) PD_COVERAGE.
Let pt_count := div_ceil (fine_grained_bytes config) BLOCK_SIZE.

(** The part of [build] after its checks. *)
Lemma build_tables lim :
  address mod PAGE_SIZE = 0 -> 0 < max_identity_bytes config <= MAX_IDENTITY_SUPPORTED ->
  fine_grained_bytes config <= MAX_FINE_GRAINED_SUPPORTED ->
  (2 + pd_count + pt_count) * PAGE_SIZE <= len arena ->
  let fine_limit := Z.min (fine_grained_bytes config) lim in
  let nb := countZ (block_mapped rs lim pt_count) (Z.to_nat (512 * pd_count)) 0 in
  let np := countZ (page_mapped rs fine_limit) (Z.to_nat (512 * pt_count)) 0 in
  let pds := take_pages address 2 (Z.to_nat pd_count) in
  let pts := take_pages address (2 + pd_count) (Z.to_nat pt_count) in
  let zeroed := splice arena 0 (replicate (Z.to_nat ((2 + pd_count + pt_count) * PAGE_SIZE)) 0) in
  exists a1 a2 a3 a4,
    write_entry address zeroed address 0 (Z.lor (address + PAGE_SIZE) (Z.lor PRESENT WRITABLE)) = Done a1 /\
    link_pds address a1 (address + PAGE_SIZE) pds 0 = Done a2 /\
    pd_tables address m pts lim pds 0 (a2, 0, 0) = Done (a3, nb, BLOCK_SIZE * nb) /\
    pt_tables address m fine_limit pts 0 (a3, 0, BLOCK_SIZE * nb) =
      Done (a4, np, BLOCK_SIZE * nb + PAGE_SIZE * np) /\
    entries_are a4 (len arena) (table_entries address rs config lim arena).
Proof.
  intros Hal Hmx Hfn Hfit fine_limit nb np pds pts zeroed.
  set (n := len arena) in *.
  assert (Hpd : 0 <= pd_count <= 512) by (apply div_ceil_range; plia).
  assert (Hpt : 0 <= pt_count <= 512) by (apply div_ceil_range; plia).
  assert (Hsec : 0 <= address /\ address mod PAGE_SIZE = 0 /\ address + n <= 2 ^ 52) by tauto.
  assert (Hz : entries_are zeroed n
    (fun e => if (2 + pd_count + pt_count) * 512 <=? e then entry arena e else 0)).
  { constructor.
    - apply len_splice; rewrite ?len_replicate; plia.
    - apply bytes_ok_splice; [done|]. apply Forall_replicate. ulia.
    - intros e He Hen. destruct (Z.leb_spec ((2 + pd_count + pt_count) * 512) e).
      + unfold entry, zeroed. rewrite sub_list_splice_ne; [done|..]; rewrite ?len_replicate; plia.
      + apply entry_zeroed; plia. }
  destruct (link_value address n Hsec 1) as [Hl1 Hu1]; [lia|plia|]. rewrite Z.mul_1_l in Hl1, Hu1.
  destruct (write_entry_spec address zeroed n _ 0 0 (address + PAGE_SIZE + 3) Hz)
    as (a1 & Hw1 & Ha1); [tauto|ulia|lia|lia|plia|done|].
  rewrite Z.mul_0_l, Z.add_0_r in Hw1.
  destruct (link_pds_spec address n Hsec (Z.to_nat pd_count) 2 0 a1 _ Ha1) as (a2 & Hw2 & Ha2);
    [lia|lia|lia|plia|plia|].
  destruct (pd_tables_spec address n Hsec m Hm pd_count pt_count lim (conj Hpd Hpt) ltac:(lia)
    (Z.to_nat pd_count) 0 a2 0 0 _ Ha2) as (a3 & Hw3 & Ha3);
    [lia|lia| |lia|plia|].
  { intros e He. rewrite !decide_False by lia. rewrite (proj2 (Z.leb_gt _ _)) by lia. done. }
  replace (512 * Z.to_nat pd_count)%nat with (Z.to_nat (512 * pd_count)) in Hw3 by lia.
  rewrite Z.mul_0_l in Hw3, Ha3. fold rs nb in Hw3. simpl Z.add in Hw3.
  assert (0 <= nb <= 512 * pd_count).
  { unfold nb. pose proof (countZ_bounds (block_mapped rs lim pt_count) (Z.to_nat (512 * pd_count)) 0). lia. }
  destruct (pt_tables_spec address n Hsec m Hm pd_count pt_count (conj Hpd Hpt) ltac:(lia)
    fine_limit (Z.to_nat pt_count) 0 a3 0 (BLOCK_SIZE * nb) _ Ha3) as (a4 & Hw4 & Ha4);
    [lia|lia| |lia|plia|].
  { intros e He. rewrite !decide_False by lia. rewrite (proj2 (Z.leb_gt _ _)) by lia. done. }
  replace (512 * Z.to_nat pt_count)%nat with (Z.to_nat (512 * pt_count)) in Hw4 by lia.
  exists a1, a2, a3, a4. rewrite Hl1. split_and!; [done|done|done| |].
  - rewrite Z.add_0_r in Hw4. exact Hw4.
  - eapply entries_are_ext; [exact Ha4|]. intros e He Hen. unfold table_entries.
    fold pd_count pt_count fine_limit rs. simpl.
    destruct (Z.leb_spec ((2 + pd_count + pt_count) * 512) e);
      [|destruct (Z.leb_spec ((2 + pd_count) * 512) e);
        [|destruct (Z.leb_spec 1024 e);
          [|destruct (Z.leb_spec 512 e); [destruct (Z.ltb_spec e (512 + pd_count))|];
            cbn [andb]; [|destruct (Z.eqb_spec e 0)..]]]];
      repeat case_decide; try lia; done.
Qed.

Lemma build_eq :
  exists top arena',
    ram_top m = Done top /\ is_ram_top rs top /\
    build address arena m config = Done (arena', build_outcome address (len arena) rs top config) /\
    match build_outcome address (len arena) rs top config with
    | Err _ => arena' = arena
    | Ok t => entries_are arena' (len arena) (table_entries address rs config (pt_limit t) arena)
    end.
Proof.
  destruct (ram_top_loop_spec rs None (map_ok_regions_bounded m Hm) []) as (top & Htop & Hspec).
  { intros r Hr. by apply elem_of_nil in Hr. }
  assert (Hrt : ram_top m = Done top).
  { unfold ram_top. rewrite regions_ok by done. exact Htop. }
  exists top. unfold build, build_outcome. fold pd_count pt_count. unfold is_multiple_of.
  destruct (Z.eqb_spec (address mod PAGE_SIZE) 0) as [Hal|]; cbn [negb]; [|by exists arena].
  destruct (Z.ltb_spec MAX_IDENTITY_SUPPORTED (max_identity_bytes config)); [by exists arena|].
  destruct (Z.ltb_spec MAX_FINE_GRAINED_SUPPORTED (fine_grained_bytes config)); [by exists arena|].
  assert (Hpd : 0 <= pd_count <= 512) by (apply div_ceil_range; plia).
  assert (Hpt : 0 <= pt_count <= 512) by (apply div_ceil_range; plia).
  assert (Htn : 0 <= tables_needed (max_identity_bytes config) (fine_grained_bytes config) <= 1026).
  { unfold tables_needed. fold pd_count pt_count.
    pose proof (div_ceil_range (max_identity_bytes config) PDPT_COVERAGE 1). plia. }
  rewrite mul64_done by plia. cbn [exec_bind].
  destruct (Z.ltb_spec (len arena)
    (tables_needed (max_identity_bytes config) (fine_grained_bytes config) * PAGE_SIZE)) as [|Hlen];
    [by exists arena|].
  rewrite Hrt. cbn [exec_bind]. destruct top as [top|]; [|by exists arena].
  destruct (Z.eqb_spec (Z.min top (max_identity_bytes config)) 0) as [|Hl0]; [by exists arena|].
  assert (Hpos : 0 < max_identity_bytes config).
  { destruct Hspec as [(r & Hr & _ & He) _]. apply list_elem_of_In in Hr.
    pose proof (map_ok_regions_bounded m Hm) as Hb. rewrite List.Forall_forall in Hb.
    specialize (Hb r Hr). unfold end_of in *. plia. }
  rewrite tables_needed_eq in Hlen |- * by lia. fold pd_count pt_count in Hlen |- *.
  destruct (build_tables (Z.min top (max_identity_bytes config)) Hal ltac:(lia) ltac:(lia) Hlen)
    as (a1 & a2 & a3 & a4 & H1 & H2 & H3 & H4 & Hea).
  exists a4. split; [done|]. split; [done|]. unfold fill.
  rewrite !(proj2 (andb_true_iff _ _)) by (pose proof (len_nonneg arena); plia). cbn [exec_bind].
  rewrite Z.sub_0_r, H1. cbn [exec_bind]. rewrite H2. cbn [exec_bind]. rewrite H3. cbn [exec_bind].
  rewrite H4. cbn [exec_bind]. split; [done|exact Hea].
Qed.
End Build.

(** ** Lemmas: the walk *)
Lemma div_split va a b :
  0 <= va -> 0 <= a -> 0 <= b -> va / 2 ^ (a + b) * 2 ^ b + va / 2 ^ a mod 2 ^ b = va / 2 ^ a.
Proof.
  intros Hv Ha Hb. rewrite Z.pow_add_r, <- Z.div_div by lia.
  pose proof (Z.div_mod (va / 2 ^ a) (2 ^ b) ltac:(lia)). lia.
Qed.

(** The four indices of an address below 512 GiB, without the reductions. *)
Lemma walk_indices va :
  0 <= va < 2 ^ 39 ->
  va / 2 ^ 39 mod 512 = 0 /\ va / 2 ^ 30 mod 512 = va / 2 ^ 30 /\ 0 <= va / 2 ^ 30 < 512 /\
  512 * (va / 2 ^ 30) + va / 2 ^ 21 mod 512 = va / 2 ^ 21 /\
  512 * (va / 2 ^ 21) + va / 2 ^ 12 mod 512 = va / 2 ^ 12.
Proof.
  intros Hv. assert (0 <= va / 2 ^ 30 < 512).
  { split; [apply Z.div_pos; lia|apply Z.div_lt_upper_bound; lia]. }
  pose proof (div_split va 21 9 ltac:(lia) ltac:(lia) ltac:(lia)) as H1.
  pose proof (div_split va 12 9 ltac:(lia) ltac:(lia) ltac:(lia)) as H2.
  change (21 + 9) with 30 in H1. change (12 + 9) with 21 in H2. change (2 ^ 9) with 512 in *.
  rewrite (Z.div_small va (2 ^ 39)), (Z.mod_small (va / 2 ^ 30)) by lia. split_and!; (done || lia).
Qed.

Lemma small_testbit_7 f : 0 <= f < 128 -> Z.testbit f 7 = false.
Proof. intros Hf. rewrite <- (Z.mod_small f (2 ^ 7)) by lia. apply Z.mod_pow2_bits_high. lia. Qed.

Section Walk.
  Context (address n : Z) (arena : list Z) (g : Z -> Z).
  Hypothesis Haddr : 0 <= address /\ address mod PAGE_SIZE = 0 /\ address + n <= 2 ^ 52.
  Hypothesis Hg : entries_are arena n g.

Lemma load_entry_page p i :
  0 <= p -> (p + 1) * PAGE_SIZE <= n -> 0 <= i < 512 ->
  load_entry address arena (address + p * PAGE_SIZE) i = Some (g (512 * p + i)).
Proof.
  intros Hp Hn Hi. unfold load_entry. rewrite (ea_len _ _ _ Hg).
  rewrite (proj2 (andb_true_iff _ _)) by plia.
  replace ((address + p * PAGE_SIZE - address) / 8) with (512 * p).
  - rewrite (ea_at _ _ _ Hg) by plia. done.
  - apply (Z.div_unique_exact _ 8); plia.
Qed.

(** An entry that points at page [p] of the arena with the flags [f]. *)
Lemma link_bits p f :
  0 <= p -> (p + 1) * PAGE_SIZE <= n -> 0 <= f < 4096 ->
  let e := address + p * PAGE_SIZE + f in
  frame_of 12 e = address + p * PAGE_SIZE /\ present e = Z.testbit f 0 /\
  writable_bit e = Z.testbit f 1 /\ user_bit e = Z.testbit f 2 /\ large_bit e = Z.testbit f 7.
Proof.
  intros Hp Hn Hf e. pose proof (page_aligned address n Haddr p) as Hal.
  unfold present, writable_bit, user_bit, large_bit, e.
  rewrite !(testbit_flags 12) by lia. rewrite frame_of_flags by plia. done.
Qed.

(** One level down through a link. *)
Lemma walk_pdpt_link p va w u q f :
  0 <= p -> (p + 1) * PAGE_SIZE <= n -> 0 <= q -> (q + 1) * PAGE_SIZE <= n -> 0 <= f < 128 ->
  Z.testbit f 0 = true ->
  g (512 * p + va / 2 ^ 30 mod 512) = address + q * PAGE_SIZE + f ->
  walk_pdpt address arena (address + p * PAGE_SIZE) va w u =
  walk_pd address arena (address + q * PAGE_SIZE) va (w && Z.testbit f 1) (u && Z.testbit f 2).
Proof.
  intros Hp Hpn Hq Hqn Hf Hpr He. unfold walk_pdpt.
  rewrite load_entry_page by (try apply Z.mod_pos_bound; lia). rewrite He.
  destruct (link_bits q f) as (-> & -> & -> & -> & ->); [done|done|lia|].
  rewrite Hpr, (small_testbit_7 f) by lia. done.
Qed.

Lemma walk_pd_link p va w u q f :
  0 <= p -> (p + 1) * PAGE_SIZE <= n -> 0 <= q -> (q + 1) * PAGE_SIZE <= n -> 0 <= f < 128 ->
  Z.testbit f 0 = true ->
  g (512 * p + va / 2 ^ 21 mod 512) = address + q * PAGE_SIZE + f ->
  walk_pd address arena (address + p * PAGE_SIZE) va w u =
  walk_pt address arena (address + q * PAGE_SIZE) va (w && Z.testbit f 1) (u && Z.testbit f 2).
Proof.
  intros Hp Hpn Hq Hqn Hf Hpr He. unfold walk_pd.
  rewrite load_entry_page by (try apply Z.mod_pos_bound; lia). rewrite He.
  destruct (link_bits q f) as (-> & -> & -> & -> & ->); [done|done|lia|].
  rewrite Hpr, (small_testbit_7 f) by lia. done.
Qed.

Lemma mmu_walk_link p va q f :
  0 <= p -> (p + 1) * PAGE_SIZE <= n -> 0 <= q -> (q + 1) * PAGE_SIZE <= n -> 0 <= f < 128 ->
  Z.testbit f 0 = true ->
  g (512 * p + va / 2 ^ 39 mod 512) = address + q * PAGE_SIZE + f ->
  mmu_walk address arena (address + p * PAGE_SIZE) va =
  walk_pdpt address arena (address + q * PAGE_SIZE) va (Z.testbit f 1) (Z.testbit f 2).
Proof.
  intros Hp Hpn Hq Hqn Hf Hpr He. unfold mmu_walk.
  rewrite load_entry_page by (try apply Z.mod_pos_bound; lia). rewrite He.
  destruct (link_bits q f) as (-> & -> & -> & -> & _); [done|done|lia|].
  by rewrite Hpr.
Qed.
End Walk.

(** A leaf entry for the frame [a] of [2 ^ k] bytes with the flags [f]. *)
Lemma leaf_bits k a f :
  12 <= k <= 52 -> a mod 2 ^ k = 0 -> 0 <= a < 2 ^ 52 -> 0 <= f < 4096 ->
  frame_of k (a + f) = a /\ present (a + f) = Z.testbit f 0 /\
  writable_bit (a + f) = Z.testbit f 1 /\ user_bit (a + f) = Z.testbit f 2 /\
  large_bit (a + f) = Z.testbit f 7.
Proof.
  intros Hk Ha Hb Hf. assert (2 ^ 12 <= 2 ^ k) by (apply Z.pow_le_mono_r; lia).
  unfold present, writable_bit, user_bit, large_bit.
  rewrite !(testbit_flags k) by lia. rewrite frame_of_flags by lia. done.
Qed.

(** The walk of tables that agree with [table_entries], except that the first
    entry may allow user access and one entry of the PDPT may differ. *)
Section Identity.
  Context (address n : Z) (arena : list Z) (g : Z -> Z).
  Hypothesis Haddr : 0 <= address /\ address mod PAGE_SIZE = 0 /\ address + n <= 2 ^ 52.
  Hypothesis Hg : entries_are arena n g.
  Context (rs : list Region) (config : PagingConfig) (lim hole : Z) (old : list Z).
Let pd_count := div_ceil (max_identity_bytes config) PD_COVERAGE.
Let pt_count := div_ceil (fine_grained_bytes config) BLOCK_SIZE.
  Hypothesis Hmax : 0 < max_identity_bytes config <= MAX_IDENTITY_SUPPORTED.
  Hypothesis Hfine : 0 <= fine_grained_bytes config <= MAX_FINE_GRAINED_SUPPORTED.
  Hypothesis Hlim : lim <= max_identity_bytes config.
  Hypothesis Hfit : (2 + pd_count + pt_count) * PAGE_SIZE <= n.
  Hypothesis Hhole : hole = -512 \/ 0 <= hole < 512.
  Hypothesis Hroot : g 0 = address + PAGE_SIZE + 3 \/ g 0 = address + PAGE_SIZE + 7.
  Hypothesis Htab : forall e, 0 < e < (2 + pd_count + pt_count) * 512 -> e <> 512 + hole ->
    g e = table_entries address rs config lim old e.

Lemma identity_counts : 1 <= pd_count <= 512 /\ 0 <= pt_count <= 512 /\ lim <= pd_count * 2 ^ 30.
Proof.
  pose proof (div_ceil_spec (max_identity_bytes config) PD_COVERAGE ltac:(plia)) as H1.
  fold pd_count in H1. assert (0 <= pt_count <= 512) by (apply div_ceil_range; plia). plia.
Qed.

Lemma policy_above va : pd_count * 2 ^ 30 <= va -> identity_policy rs config lim va = false.
Proof.
  intros Hv. destruct identity_counts as (? & ? & ?). unfold identity_policy. fold pt_count.
  rewrite (proj2 (Z.ltb_ge _ _)) by plia. unfold block_mapped.
  rewrite (proj2 (Z.ltb_ge (va / BLOCK_SIZE * BLOCK_SIZE) lim)); [apply andb_false_r|].
  assert (pd_count * 512 <= va / BLOCK_SIZE) by (apply Z.div_le_lower_bound; plia). plia.
Qed.

Lemma walk_page va w u :
  0 <= va < 2 ^ 39 -> va / 2 ^ 21 < pt_count -> 
  walk_pt address arena (address + (2 + pd_count + va / 2 ^ 21) * PAGE_SIZE) va w u =
  if page_mapped rs (Z.min (fine_grained_bytes config) lim) (va / PAGE_SIZE)
  then Some (mkAccess va w false) else None.
Proof.
  intros Hva Hk. destruct identity_counts as (? & ? & ?).
  destruct (walk_indices va Hva) as (_ & _ & _ & _ & Hi).
  assert (0 <= va / 2 ^ 21) by (apply Z.div_pos; lia).
  pose proof (Z.mod_pos_bound (va / 2 ^ 12) 512 ltac:(lia)).
  unfold walk_pt. rewrite (load_entry_page address n arena g Hg) by plia.
  rewrite Htab by lia. unfold table_entries. fold pd_count pt_count.
  rewrite (proj2 (Z.leb_gt _ _)), (proj2 (Z.leb_le _ _)) by lia.
  replace (512 * (2 + pd_count + va / 2 ^ 21) + va / 2 ^ 12 mod 512 - (2 + pd_count) * 512)
    with (va / PAGE_SIZE) by (change PAGE_SIZE with (2 ^ 12); lia).
  unfold pt_value. destruct page_mapped; [|done].
  pose proof (Z.div_mod va PAGE_SIZE ltac:(plia)). pose proof (Z.mod_pos_bound va PAGE_SIZE ltac:(plia)).
  destruct (leaf_bits 12 (va / PAGE_SIZE * PAGE_SIZE) 3) as (Hfr & -> & Hw & Hu & _);
    [lia|apply Z.mod_mul; lia|plia|lia|].
  unfold leaf. rewrite Hfr, Hw, Hu. change (2 ^ 12) with PAGE_SIZE. simpl.
  rewrite andb_true_r, andb_false_r. do 2 f_equal. lia.
Qed.

Lemma walk_block va w u :
  0 <= va < 2 ^ 39 -> va / 2 ^ 30 < pd_count ->
  walk_pd address arena (address + (2 + va / 2 ^ 30) * PAGE_SIZE) va w u =
  if identity_policy rs config lim va then Some (mkAccess va w false) else None.
Proof.
  intros Hva Hk. destruct identity_counts as (? & ? & ?).
  destruct (walk_indices va Hva) as (_ & _ & H3 & Hi & _).
  pose proof (Z.mod_pos_bound (va / 2 ^ 21) 512 ltac:(lia)).
  pose proof (Z.div_mod va BLOCK_SIZE ltac:(plia)). pose proof (Z.mod_pos_bound va BLOCK_SIZE ltac:(plia)).
  unfold identity_policy. fold pt_count.
  assert (He : g (512 * (2 + va / 2 ^ 30) + va / 2 ^ 21 mod 512) =
    pd_value address pd_count rs lim pt_count (va / BLOCK_SIZE)).
  { rewrite Htab by lia. unfold table_entries. fold pd_count pt_count.
    rewrite !(proj2 (Z.leb_gt _ _)), (proj2 (Z.leb_le _ _)) by lia. f_equal.
    change BLOCK_SIZE with (2 ^ 21). lia. }
  unfold pd_value in He. destruct (Z.ltb_spec (va / BLOCK_SIZE) pt_count).
  - rewrite (proj2 (Z.ltb_lt _ _)) by plia. change (BLOCK_SIZE) with (2 ^ 21) in He.
    assert (0 <= va / 2 ^ 21) by (apply Z.div_pos; lia).
    assert (va / 2 ^ 21 < pt_count) by done.
    rewrite (walk_pd_link address n arena g Haddr Hg (2 + va / 2 ^ 30) va w u
      (2 + pd_count + va / 2 ^ 21) 3); [|plia|plia|plia|plia|lia|done|exact He].
    rewrite walk_page by (done || lia). by rewrite andb_true_r.
  - rewrite (proj2 (Z.ltb_ge _ _)) by plia. unfold walk_pd.
    rewrite (load_entry_page address n arena g Hg) by plia. rewrite He.
    destruct block_mapped; [|done].
    destruct (leaf_bits 21 (va / BLOCK_SIZE * BLOCK_SIZE) 131) as (Hfr & -> & Hw & Hu & ->);
      [lia|apply Z.mod_mul; lia|plia|lia|].
    unfold leaf. rewrite Hfr, Hw, Hu. change (2 ^ 21) with BLOCK_SIZE. simpl.
    rewrite andb_true_r, andb_false_r. do 2 f_equal. lia.
Qed.

Lemma walk_identity va :
  0 <= va < 2 ^ 48 -> va / 2 ^ 30 <> hole ->
  mmu_walk address arena address va =
  if identity_policy rs config lim va then Some (mkAccess va true false) else None.
Proof.
  intros Hva Hh. destruct identity_counts as (? & ? & ?).
  rewrite <- (Z.add_0_r address) at 2. change 0 with (0 * PAGE_SIZE) at 1.
  destruct (Z.lt_ge_cases va (2 ^ 39)) as [Hlow|Hhigh].
  - destruct (walk_indices va ltac:(lia)) as (H4 & H3 & Hb & _).
    assert (Hl : exists f, g 0 = address + 1 * PAGE_SIZE + f /\ (f = 3 \/ f = 7))
      by (destruct Hroot; [exists 3|exists 7]; rewrite Z.mul_1_l; tauto).
    destruct Hl as (f & Hg0 & Hf).
    rewrite (mmu_walk_link address n arena g Haddr Hg 0 va 1 f); try plia;
      [|by destruct Hf; subst|rewrite H4; exact Hg0].
    replace (Z.testbit f 1) with true by (destruct Hf; subst; done).
    assert (Hg3 : g (512 + va / 2 ^ 30) = table_entries address rs config lim old (512 + va / 2 ^ 30))
      by (apply Htab; lia).
    unfold table_entries in Hg3. fold pd_count pt_count in Hg3.
    rewrite !(proj2 (Z.leb_gt _ _)), (proj2 (Z.leb_le 512 _)) in Hg3 by lia. cbn [andb] in Hg3.
    destruct (Z.ltb_spec (512 + va / 2 ^ 30) (512 + pd_count)).
    + rewrite (walk_pdpt_link address n arena g Haddr Hg 1 va _ _ (2 + va / 2 ^ 30) 3); try plia;
        [|done|rewrite H3; change (512 * 1) with 512; rewrite Hg3; plia].
      rewrite walk_block by lia. done.
    + rewrite (proj2 (Z.eqb_neq _ _)) in Hg3 by lia.
      unfold walk_pdpt. rewrite (load_entry_page address n arena g Hg) by (rewrite ?H3; plia).
      rewrite H3, Z.mul_1_r, Hg3. simpl.
      rewrite policy_above; [done|]. pose proof (Z.div_mod va (2 ^ 30)). pose proof (Z.mod_pos_bound va (2 ^ 30)). lia.
  - rewrite policy_above by lia. unfold mmu_walk.
    assert (0 < va / 2 ^ 39 < 512).
    { split; [apply Z.div_str_pos; lia|apply Z.div_lt_upper_bound; lia]. }
    rewrite (load_entry_page address n arena g Hg) by (try apply Z.mod_pos_bound; plia).
    rewrite Z.mod_small, Htab by lia. unfold table_entries. fold pd_count pt_count.
    rewrite !(proj2 (Z.leb_gt _ _)), (proj2 (Z.eqb_neq _ _)) by lia. done.
Qed.
End Identity.

(** ** Theorems *)

(** What a caller of [build] provides: the arena is memory below the 52-bit
    physical limit, the map was accepted by [from_bytes], and the two sizes
    are [u64]s. *)
Definition build_input (address : Z) (arena : list Z) (m : MemoryMap) (config : PagingConfig) : Prop :=
  0 <= address /\ address + len arena <= 2 ^ 52 /\ bytes_ok arena /\ map_ok m /\
  is_u64 (max_identity_bytes config) /\ is_u64 (fine_grained_bytes config).

Lemma build_ok_facts address arena m config arena' t :
  build_input address arena m config -> build address arena m config = Done (arena', Ok t) ->
  address mod PAGE_SIZE = 0 /\ pml4_phys t = address /\
  0 < max_identity_bytes config <= MAX_IDENTITY_SUPPORTED /\
  0 <= fine_grained_bytes config <= MAX_FINE_GRAINED_SUPPORTED /\
  pt_limit t <= max_identity_bytes config /\
  tables_used t = 2 + div_ceil (max_identity_bytes config) PD_COVERAGE
                    + div_ceil (fine_grained_bytes config) BLOCK_SIZE /\
  tables_used t * PAGE_SIZE <= len arena /\
  (exists top, is_ram_top (region_list m) (Some top) /\ pt_limit t = Z.min top (max_identity_bytes config)) /\
  entries_are arena' (len arena) (table_entries address (region_list m) config (pt_limit t) arena).
Proof.
  intros (Ha & Hn & Hb & Hm & Hmx & Hfn) Hbuild.
  destruct (build_eq address arena m config (conj Ha Hn) Hb Hm) as (top & a & _ & Htop & He & Hpost);
    [ulia|ulia|].
  rewrite Hbuild in He. injection He as <- Ht. rewrite <- Ht in Hpost. symmetry in Ht.
  unfold build_outcome in Ht.
  destruct (Z.eqb_spec (address mod PAGE_SIZE) 0) as [Hal|]; cbn [negb] in Ht; [|discriminate].
  destruct (Z.ltb_spec MAX_IDENTITY_SUPPORTED (max_identity_bytes config)); [discriminate|].
  destruct (Z.ltb_spec MAX_FINE_GRAINED_SUPPORTED (fine_grained_bytes config)); [discriminate|].
  destruct (Z.ltb_spec (len arena)
    (tables_needed (max_identity_bytes config) (fine_grained_bytes config) * PAGE_SIZE)) as [|Hlen];
    [discriminate|].
  destruct top as [top|]; [|discriminate].
  destruct (Z.eqb_spec (Z.min top (max_identity_bytes config)) 0) as [|Hl0]; [discriminate|].
  injection Ht as <-. cbn [pml4_phys pt_limit tables_used] in *.
  assert (0 < max_identity_bytes config).
  { destruct Htop as [(r & Hr & _ & He) _]. apply list_elem_of_In in Hr.
    pose proof (map_ok_regions_bounded m Hm) as Hbd. rewrite List.Forall_forall in Hbd.
    specialize (Hbd r Hr). unfold end_of in *. plia. }
  rewrite tables_needed_eq in Hlen by lia.
  split_and!; try done; try plia. exists top. done.
Qed.

Lemma build_walk address arena m config arena' t va :
  build_input address arena m config -> build address arena m config = Done (arena', Ok t) ->
  0 <= va < 2 ^ 48 ->
  mmu_walk address arena' (pml4_phys t) va =
  if identity_policy (region_list m) config (pt_limit t) va
  then Some (mkAccess va true false) else None.
Proof.
  intros Hin Hbuild Hva.
  destruct (build_ok_facts _ _ _ _ _ _ Hin Hbuild) as (Hal & -> & Hmx & Hfn & Hl & Htu & Hfit & _ & Hea).
  destruct Hin as (Ha & Hn & _).
  assert (Hroot : table_entries address (region_list m) config (pt_limit t) arena 0 = address + PAGE_SIZE + 3).
  { unfold table_entries. pose proof (div_ceil_spec (max_identity_bytes config) PD_COVERAGE ltac:(plia)).
    pose proof (div_ceil_spec (fine_grained_bytes config) BLOCK_SIZE ltac:(plia)).
    rewrite !(proj2 (Z.leb_gt _ _)) by plia. done. }
  apply (walk_identity address (len arena) arena' _ (conj Ha (conj Hal Hn)) Hea
    (region_list m) config (pt_limit t) (-512) arena); try done.
  - plia.
  - by left.
  - by left.
  - pose proof (Z.div_pos va (2 ^ 30)). lia.
Qed.

(** C26 (paging.rs, [build]): for every arena, parsed memory map and
    configuration, [build] finishes without a panic and answers
    [build_outcome]: its five errors in their order of precedence, leaving the
    arena untouched, or the statistics, in which [blocks] and [pages] are the
    numbers of 2 MiB blocks and 4 KiB pages the policy maps and
    [mapped_bytes] is their total size.  [NoUsableRam] is the answer when the
    map has no RAM region or the limit is 0; RAM that lies wholly above the
    limit gives [Ok] with nothing mapped ([ram_above_limit_accepted]), where the
    comment of the error says [NoUsableRam]. *)
Theorem build_total address arena m config :
  build_input address arena m config ->
  exists top arena',
    ram_top m = Done top /\ is_ram_top (region_list m) top /\
    build address arena m config =
      Done (arena', build_outcome address (len arena) (region_list m) top config) /\
    (is_ok (build_outcome address (len arena) (region_list m) top config) = false -> arena' = arena).
Proof.
  intros (Ha & Hn & Hb & Hm & Hmx & Hfn).
  destruct (build_eq address arena m config (conj Ha Hn) Hb Hm) as (top & a & Hrt & Htop & He & Hpost);
    [ulia|ulia|].
  exists top, a. split_and!; [done..|]. destruct build_outcome; [done|]. intros _. exact Hpost.
Qed.

Definition small_config : PagingConfig := mkPaging PD_COVERAGE BLOCK_SIZE.
Definition small_map : MemoryMap :=
  mkMap (encode_map [mkDesc 7 0 0x9F [0;0;0;0] (replicate 8 0) (replicate 8 0);
                     mkDesc 7 0x100000 0x300 [0;0;0;0] (replicate 8 0) (replicate 8 0);
                     mkDesc 11 0xFEE00000 0x10 [0;0;0;0] (replicate 8 0) (replicate 8 0)]) 3 40 1.
Definition small_arena : list Z := replicate (Z.to_nat (4 * PAGE_SIZE)) 0xAA.

Lemma small_input : build_input 0x100000 small_arena small_map small_config.
Proof.
  split_and!; try (vm_compute; discriminate).
  - apply Forall_replicate. ulia.
  - apply (from_bytes_map_ok (bytes small_map) 3 40 1).
    + apply bytes_ok_b. vm_compute. reflexivity.
    + ulia.
    + ulia.
    + vm_compute. reflexivity.
  - vm_compute. split; discriminate.
  - vm_compute. split; discriminate.
Qed.

(** The statistics of a small build: one block and 414 pages (158 below 636 KiB,
    page 0 excepted, and 256 from 1 MiB to 2 MiB). *)
Lemma build_total_witness :
  exists arena', build 0x100000 small_arena small_map small_config =
    Done (arena', Ok (mkTables 0x100000 0x400000 (BLOCK_SIZE * 1 + PAGE_SIZE * 414) 1 414 4)).
Proof.
  destruct (build_total 0x100000 small_arena small_map small_config small_input)
    as (top & arena' & Htop & _ & Hb & _).
  exists arena'. rewrite Hb. f_equal. f_equal.
  replace top with (Some 0x400000) by (vm_compute in Htop; injection Htop as <-; reflexivity).
  vm_compute. reflexivity.
Defined.

(** RAM above the limit only: nothing is mapped, and the answer is [Ok]. *)
Definition high_map : MemoryMap :=
  mkMap (encode_map [mkDesc 7 0x40000000 0x100 [0;0;0;0] (replicate 8 0) (replicate 8 0)]) 1 40 1.

Lemma ram_above_limit_accepted :
  exists arena', build 0x100000 small_arena high_map small_config =
    Done (arena', Ok (mkTables 0x100000 PD_COVERAGE 0 0 0 4)).
Proof.
  assert (Hm : map_ok high_map).
  { apply (from_bytes_map_ok (bytes high_map) 1 40 1);
      [apply bytes_ok_b; vm_compute; reflexivity|ulia|ulia|vm_compute; reflexivity]. }
  destruct small_input as (Ha & Hn & Hb & _ & Hmx & Hfn).
  destruct (build_eq 0x100000 small_arena high_map small_config (conj Ha Hn) Hb Hm)
    as (top & a & Hrt & _ & He & _); [ulia|ulia|].
  exists a. rewrite He. do 2 f_equal.
  replace top with (Some 0x40100000) by (vm_compute in Hrt; injection Hrt as <-; reflexivity).
  vm_compute. reflexivity.
Qed.

(** The page around address 0, with and without a fine-grained part. *)
Lemma policy_page_zero rs config lim va :
  0 < fine_grained_bytes config -> 0 <= va < PAGE_SIZE -> identity_policy rs config lim va = false.
Proof.
  intros Hf Hva. unfold identity_policy. pose proof (div_ceil_spec (fine_grained_bytes config) BLOCK_SIZE ltac:(plia)).
  rewrite (proj2 (Z.ltb_lt _ _)) by plia. unfold page_mapped. by rewrite Z.div_small by plia.
Qed.

Definition coarse_config : PagingConfig := mkPaging PD_COVERAGE 0.

Lemma page_zero_mapped :
  exists arena' t, build 0x100000 small_arena small_map coarse_config = Done (arena', Ok t) /\
    mmu_walk 0x100000 arena' (pml4_phys t) 0 = Some (mkAccess 0 true false).
Proof.
  destruct small_input as (Ha & Hn & Hb & Hm & _ & _).
  assert (Hin : build_input 0x100000 small_arena small_map coarse_config)
    by (split_and!; try done; vm_compute; split; discriminate).
  destruct (build_eq 0x100000 small_arena small_map coarse_config (conj Ha Hn) Hb Hm)
    as (top & a & Hrt & _ & He & _); [apply Hin|apply Hin|].
  replace top with (Some 0x400000) in He by (vm_compute in Hrt; injection Hrt as <-; reflexivity).
  exists a. eexists. split; [exact He|].
  rewrite (build_walk 0x100000 small_arena small_map coarse_config a _ 0 Hin He) by lia.
  vm_compute. reflexivity.
Qed.

(** C24 (paging.rs, [build]): the finished tables are the identity map of the
    policy and nothing else.  For every 48-bit virtual address the processor's
    walk either faults or yields that same physical address, writable and
    never accessible to user mode; it succeeds exactly when the 4 KiB page
    (below the fine-grained limit, page 0 excepted) or the 2 MiB block around
    the address is below the limit and meets a RAM region.  With a fine-grained
    part, as in [M2], page 0 is never mapped; without one block 0 is mapped like
    any other and page 0 with it ([page_zero_mapped]), although the module's
    comment excludes page 0 always. *)
Theorem build_identity_exact address arena m config arena' t va :
  build_input address arena m config -> build address arena m config = Done (arena', Ok t) ->
  0 <= va < 2 ^ 48 ->
  mmu_walk address arena' (pml4_phys t) va =
  (if identity_policy (region_list m) config (pt_limit t) va
   then Some (mkAccess va true false) else None) /\
  (0 < fine_grained_bytes config -> va < PAGE_SIZE -> mmu_walk address arena' (pml4_phys t) va = None).
Proof.
  intros Hin Hb Hva. pose proof (build_walk address arena m config arena' t va Hin Hb Hva) as Hw. split; [exact Hw|].
  intros Hf Hp. rewrite Hw, (policy_page_zero _ config _ va); [done|lia..].
Qed.

Lemma small_build :
  exists arena' t, build 0x100000 small_arena small_map small_config = Done (arena', Ok t) /\
    pml4_phys t = 0x100000 /\ pt_limit t = 0x400000.
Proof.
  destruct small_input as (Ha & Hn & Hb & Hm & Hmx & Hfn).
  destruct (build_eq 0x100000 small_arena small_map small_config (conj Ha Hn) Hb Hm)
    as (top & a & Hrt & _ & He & _); [ulia|ulia|].
  replace top with (Some 0x400000) in He by (vm_compute in Hrt; injection Hrt as <-; reflexivity).
  exists a. eexists. split; [exact He|]. split; reflexivity.
Qed.

(** The page around 1 MiB is mapped, page 0 and the hole at 640 KiB are not. *)
Lemma build_identity_exact_witness :
  exists arena' t, build 0x100000 small_arena small_map small_config = Done (arena', Ok t) /\
    mmu_walk 0x100000 arena' (pml4_phys t) 0x100ABC = Some (mkAccess 0x100ABC true false) /\
    mmu_walk 0x100000 arena' (pml4_phys t) 0x200123 = Some (mkAccess 0x200123 true false) /\
    mmu_walk 0x100000 arena' (pml4_phys t) 0x8 = None /\
    mmu_walk 0x100000 arena' (pml4_phys t) 0xA0000 = None.
Proof.
  destruct small_build as (a & t & Hb & Hp & Hl). exists a, t. split; [exact Hb|].
  assert (Hw := fun va Hva => build_identity_exact 0x100000 small_arena small_map small_config a t va small_input Hb Hva).
  rewrite Hl in Hw. split_and!.
  - rewrite (proj1 (Hw 0x100ABC ltac:(lia))). vm_compute. reflexivity.
  - rewrite (proj1 (Hw 0x200123 ltac:(lia))). vm_compute. reflexivity.
  - apply (proj2 (Hw 0x8 ltac:(lia))); vm_compute; reflexivity.
  - rewrite (proj1 (Hw 0xA0000 ltac:(lia))). vm_compute. reflexivity.
Defined.

Lemma ram_in_true rs r start stop :
  r ∈ rs -> is_ram (kind r) = true -> base r < stop -> start < end_of r -> ram_in rs start stop = true.
Proof.
  intros Hr Hk H1 H2. apply existsb_exists. exists r. split; [by apply list_elem_of_In|].
  rewrite Hk, (proj2 (Z.ltb_lt _ _) H1), (proj2 (Z.ltb_lt _ _) H2). done.
Qed.

Lemma div_ceil_exact a b : 0 < b -> a mod b = 0 -> div_ceil a b = a / b.
Proof. intros Hb Ha. unfold div_ceil. by rewrite Ha. Qed.

Lemma ram_reachable address arena m config arena' t va :
  build_input address arena m config -> build address arena m config = Done (arena', Ok t) ->
  0 < fine_grained_bytes config -> fine_grained_bytes config mod BLOCK_SIZE = 0 ->
  (forall r, r ∈ region_list m -> is_ram (kind r) = true -> base r <= va < end_of r ->
     PAGE_SIZE <= va < pt_limit t -> mmu_walk address arena' (pml4_phys t) va = Some (mkAccess va true false)) /\
  (0 <= va < PAGE_SIZE -> mmu_walk address arena' (pml4_phys t) va = None).
Proof.
  intros Hin Hbuild Hf0 Hfm.
  destruct (build_ok_facts _ _ _ _ _ _ Hin Hbuild) as (Hal & _ & Hmx & Hfn & Hl & _ & Hfit & _ & Hea).
  assert (Hw : forall va, 0 <= va < 2 ^ 48 -> mmu_walk address arena' (pml4_phys t) va =
    if identity_policy (region_list m) config (pt_limit t) va then Some (mkAccess va true false) else None).
  { intros v Hv. by eapply build_walk. }
  assert (Hpt : div_ceil (fine_grained_bytes config) BLOCK_SIZE * BLOCK_SIZE = fine_grained_bytes config).
  { rewrite div_ceil_exact by (done || plia).
    pose proof (Z.div_mod (fine_grained_bytes config) BLOCK_SIZE ltac:(plia)). lia. }
  split.
  - intros r Hr Hk Hva Hlt. rewrite Hw by plia.
    replace (identity_policy _ _ _ _) with true; [done|]. symmetry. unfold identity_policy. rewrite Hpt.
    pose proof (Z.div_mod va PAGE_SIZE ltac:(plia)). pose proof (Z.mod_pos_bound va PAGE_SIZE ltac:(plia)).
    pose proof (Z.div_mod va BLOCK_SIZE ltac:(plia)). pose proof (Z.mod_pos_bound va BLOCK_SIZE ltac:(plia)).
    destruct (Z.ltb_spec va (fine_grained_bytes config)).
    + unfold page_mapped. rewrite (ram_in_true _ r), (proj2 (Z.ltb_lt _ _)), (proj2 (Z.eqb_neq _ _));
        try done; plia.
    + unfold block_mapped. rewrite (ram_in_true _ r), (proj2 (Z.ltb_lt _ _)), (proj2 (Z.leb_le _ _));
        try done; plia.
  - intros Hva. rewrite Hw by plia. unfold identity_policy. rewrite Hpt.
    assert (BLOCK_SIZE <= fine_grained_bytes config).
    { pose proof (div_ceil_spec (fine_grained_bytes config) BLOCK_SIZE ltac:(plia)). plia. }
    rewrite (proj2 (Z.ltb_lt _ _)) by plia. rewrite (Z.div_small va) by lia. done.
Qed.

(** (paging.rs, [build]): when the fine-grained range is a positive
    multiple of 2 MiB, as its documentation demands, every byte of a RAM
    region below the limit is mapped to itself, page 0 alone excepted, and the
    accesses to page 0 fault whatever the firmware says of it. *)
Lemma ram_reachable_page_zero_not address arena m config arena' t va :
  build_input address arena m config -> build address arena m config = Done (arena', Ok t) ->
  0 < fine_grained_bytes config -> fine_grained_bytes config mod BLOCK_SIZE = 0 ->
  (forall r, r ∈ region_list m -> is_ram (kind r) = true -> base r <= va < end_of r ->
     PAGE_SIZE <= va < pt_limit t -> mmu_walk address arena' (pml4_phys t) va = Some (mkAccess va true false)) /\
  (0 <= va < PAGE_SIZE -> mmu_walk address arena' (pml4_phys t) va = None).
Proof. apply ram_reachable. Qed.

Lemma ram_reachable_page_zero_not_witness :
  exists arena' t, build 0x100000 small_arena small_map small_config = Done (arena', Ok t) /\
    mmu_walk 0x100000 arena' (pml4_phys t) 0x100000 = Some (mkAccess 0x100000 true false) /\
    mmu_walk 0x100000 arena' (pml4_phys t) 0xFFF = None.
Proof.
  destruct small_build as (a & t & Hb & Hp & Hl). exists a, t. split; [exact Hb|]. split.
  - apply (proj1 (ram_reachable_page_zero_not 0x100000 small_arena small_map small_config a t 0x100000
      small_input Hb ltac:(reflexivity) ltac:(reflexivity)) (mkRegion Conventional 0x100000 0x300)).
    + apply list_elem_of_In. right. left. vm_compute. reflexivity.
    + reflexivity.
    + vm_compute. split; [discriminate|reflexivity].
    + rewrite Hl. vm_compute. split; [discriminate|reflexivity].
  - apply (ram_reachable_page_zero_not 0x100000 small_arena small_map small_config a t 0xFFF
      small_input Hb ltac:(reflexivity) ltac:(reflexivity)).
    vm_compute. split; [discriminate|reflexivity].
Defined.
