(* ===== verification/UserMap.v ===== *)
(** * The user-space mappings (crates/kernel-memory/src/user_map.rs)

    [map_user_region] adds one page directory and the page tables of the user
    region, at 4 GiB, to tables that [Paging.build] made, in the same arena.
    The theorems describe the processor's walk of the result: the user region
    is exactly the requested mappings, and the kernel's identity map is
    unchanged and stays out of reach of user mode. *)
From Stdlib Require Import ZArith Lia Bool.
From stdpp Require Import base tactics option list numbers.
From S2P Require Import Prelude MemoryMap Paging.

#[local] Open Scope Z_scope.

(** ** Data *)
Definition USER_BASE : Z := 0x100000000.
Definition USER_MAX_BYTES : Z := PD_ENTRIES * 2 * 1024 * 1024.

#[export] Hint Unfold USER_BASE USER_MAX_BYTES : paging.

Record Mapping : Type := mkMapping {
  vaddr : Z;
  paddr : Z;
  size : Z;
  writable : bool
}.

Definition vaddr_end (mp : Mapping) : exec Z := add64 (vaddr mp) (size mp).

Record Mapped : Type := mkMapped {
  um_mapped_bytes : Z;
  um_tables_used : Z
}.

Inductive MapError : Type :=
| ArenaTooSmall (needed got : Z)
| BelowUserBase (va : Z)
| NotPageAligned (value : Z)
| OutOfRange (va_end : Z)
| AlreadyMapped.

(** ** Operations *)
Definition clear_page (arena : list Z) (offset : Z) : exec (list Z) :=
  let! stop := add64 offset PAGE_SIZE in fill arena offset stop 0.

Definition read_entry_at (arena : list Z) (table_offset idx : Z) : exec Z :=
  let! scaled := mul64 idx 8 in
  let! offset := add64 table_offset scaled in
  let! stop := add64 offset 8 in
  let! bs := slice arena offset stop in
  Done (le_val bs).

Definition write_entry_at (arena : list Z) (table_offset idx value : Z) : exec (list Z) :=
  let! scaled := mul64 idx 8 in
  let! offset := add64 table_offset scaled in
  let! stop := add64 offset 8 in
  copy_from_slice arena offset stop (le_bytes 8 value).

(** The checking loop over the requested mappings. *)
Fixpoint check_mappings (region_end : Z) (ms : list Mapping) : exec (Result unit MapError) :=
  match ms with
  | [] => Done (Ok tt)
  | mp :: ms =>
      if vaddr mp <? USER_BASE then Done (Err (BelowUserBase (vaddr mp)))
      else
        let! e := vaddr_end mp in
        if region_end <? e then Done (Err (OutOfRange e))
        else if negb (is_multiple_of (vaddr mp) PAGE_SIZE) || negb (is_multiple_of (paddr mp) PAGE_SIZE)
                || negb (is_multiple_of (size mp) PAGE_SIZE) || (size mp =? 0)
        then Done (Err (NotPageAligned (vaddr mp)))
        else check_mappings region_end ms
  end.

(** The loop that computes [highest_slot]. *)
Fixpoint highest_slot (ms : list Mapping) (highest : Z) : exec Z :=
  match ms with
  | [] => Done highest
  | mp :: ms =>
      let! e := vaddr_end mp in
      let! d := sub64 e USER_BASE in
      let! d := sub64 d 1 in
      highest_slot ms (Z.max highest (d / PAGE_SIZE / PT_ENTRIES))
  end.

(** The loop that clears and links [n] page tables; [next] is the next page of
    the arena and the result adds the list of their offsets. *)
Fixpoint link_pts (address : Z) (arena : list Z) (pd_offset first_page : Z) (n : nat) (next : Z) :
    exec (list Z * list Z * Z) :=
  match n with
  | O => Done (arena, [], next)
  | S n =>
      let! table_offset := mul64 next PAGE_SIZE in
      let! arena := clear_page arena table_offset in
      let! slot := sub64 next (first_page + 1) in
      let! phys := add64 address table_offset in
      let! arena := write_entry_at arena pd_offset slot (Z.lor phys (Z.lor PRESENT (Z.lor WRITABLE USER))) in
      let! (arena, offsets, last) := link_pts address arena pd_offset first_page n (next + 1) in
      Done (arena, table_offset :: offsets, last)
  end.

(** The pages [idx], [idx + 1], ... of one mapping, [n] of them. *)
Fixpoint map_pages (arena : list Z) (pt_offsets : list Z) (mp : Mapping) (n : nat) (idx mapped : Z) :
    exec (list Z * Z) :=
  match n with
  | O => Done (arena, mapped)
  | S n =>
      let! delta := mul64 idx PAGE_SIZE in
      let! va := add64 (vaddr mp) delta in
      let! rel := sub64 va USER_BASE in
      let page_index := rel / PAGE_SIZE in
      let slot := page_index / PT_ENTRIES in
      let entry_index := page_index mod PT_ENTRIES in
      let flags := Z.lor PRESENT USER in
      let flags := if writable mp then Z.lor flags WRITABLE else flags in
      let! table := index pt_offsets slot in
      let! pa := add64 (paddr mp) delta in
      let! arena := write_entry_at arena table entry_index (Z.lor pa flags) in
      let! mapped := add64 mapped PAGE_SIZE in
      map_pages arena pt_offsets mp n (idx + 1) mapped
  end.

Fixpoint map_all (arena : list Z) (pt_offsets : list Z) (ms : list Mapping) (mapped : Z) :
    exec (list Z * Z) :=
  match ms with
  | [] => Done (arena, mapped)
  | mp :: ms =>
      let! (arena, mapped) :=
        map_pages arena pt_offsets mp (Z.to_nat (size mp / PAGE_SIZE)) 0 mapped in
      map_all arena pt_offsets ms mapped
  end.

(** The result carries the arena beside the [Result]: an error found after the
    first write leaves that write in place. *)
Definition map_user_region (address : Z) (arena : list Z) (pml4_offset first_free_offset : Z)
    (ms : list Mapping) : exec (list Z * Result Mapped MapError) :=
  if negb (is_multiple_of address PAGE_SIZE) then Done (arena, Err (NotPageAligned address))
  else if negb (is_multiple_of first_free_offset PAGE_SIZE) || negb (is_multiple_of pml4_offset PAGE_SIZE)
  then Done (arena, Err (NotPageAligned first_free_offset))
  else
    let npages := len arena / PAGE_SIZE in
    let region_end := USER_BASE + USER_MAX_BYTES in
    match ms with
    | [] => Done (arena, Ok (mkMapped 0 0))
    | _ =>
        let! checked := check_mappings region_end ms in
        match checked with
        | Err e => Done (arena, Err e)
        | Ok _ =>
            let! pdpt_entry := read_entry_at arena pml4_offset 0 in
            if Z.land pdpt_entry PRESENT =? 0 then Done (arena, Err (BelowUserBase pml4_offset))
            else
              let! arena :=
                (if Z.land pdpt_entry USER =? 0
                 then write_entry_at arena pml4_offset 0 (Z.lor pdpt_entry USER) else Done arena) in
              let! pdpt := sub64 (Z.land pdpt_entry ADDRESS_MASK) address in
              let pdpt_index := Z.land (Z.shiftr USER_BASE 30) 0x1FF in
              let! old := read_entry_at arena pdpt pdpt_index in
              if negb (Z.land old PRESENT =? 0) then Done (arena, Err AlreadyMapped)
              else
                let! highest := highest_slot ms 0 in
                let pt_count := highest + 1 in
                let first_page := first_free_offset / PAGE_SIZE in
                let! needed := add64 (first_page + 1) pt_count in
                if npages <? needed then Done (arena, Err (ArenaTooSmall needed npages))
                else
                  let pd_offset := first_free_offset in
                  let! arena := clear_page arena pd_offset in
                  let! phys := add64 address pd_offset in
                  let! arena := write_entry_at arena pdpt pdpt_index
                    (Z.lor phys (Z.lor PRESENT (Z.lor WRITABLE USER))) in
                  let! (arena, offsets, next) :=
                    link_pts address arena pd_offset first_page (Z.to_nat pt_count) (first_page + 1) in
                  let pt_offsets := offsets ++ replicate (Z.to_nat (PD_ENTRIES - pt_count)) 0 in
                  let! (arena, mapped) := map_all arena pt_offsets ms 0 in
                  let! used := sub64 next first_page in
                  Done (arena, Ok (mkMapped mapped used))
        end
    end.

(** ** Lemmas: entries *)
Lemma write_entry_at_spec arena n g p idx v :
  entries_are arena n g -> n <= U64_MAX -> 0 <= p -> 0 <= idx < 512 -> (p + 1) * PAGE_SIZE <= n ->
  is_u64 v ->
  exists arena', write_entry_at arena (p * PAGE_SIZE) idx v = Done arena' /\
    entries_are arena' n (fun e => if decide (e = 512 * p + idx) then v else g e).
Proof.
  intros Hg Hn Hp Hi Hfit Hv. pose proof (ea_len _ _ _ Hg) as Hl. unfold write_entry_at.
  rewrite mul64_done by plia. cbn [exec_bind]. rewrite !add64_done by plia. cbn [exec_bind].
  rewrite add64_done by plia. cbn [exec_bind].
  replace (p * PAGE_SIZE + idx * 8) with (8 * (512 * p + idx)) by plia.
  rewrite copy_from_slice_done by (rewrite ?len_le_bytes; plia).
  eexists. split; [done|]. apply entries_are_splice; [done|lia|plia|done].
Qed.

Lemma read_entry_at_spec arena n g p idx :
  entries_are arena n g -> n <= U64_MAX -> 0 <= p -> 0 <= idx < 512 -> (p + 1) * PAGE_SIZE <= n ->
  read_entry_at arena (p * PAGE_SIZE) idx = Done (g (512 * p + idx)).
Proof.
  intros Hg Hn Hp Hi Hfit. pose proof (ea_len _ _ _ Hg) as Hl. unfold read_entry_at.
  rewrite mul64_done by plia. cbn [exec_bind]. rewrite !add64_done by plia. cbn [exec_bind].
  rewrite add64_done by plia. cbn [exec_bind].
  replace (p * PAGE_SIZE + idx * 8) with (8 * (512 * p + idx)) by plia.
  rewrite (proj2 (slice_done _ _ _ (sub_list arena (8 * (512 * p + idx)) 8))).
  - cbn [exec_bind]. f_equal. apply (ea_at _ _ _ Hg); plia.
  - apply get_range_some. split_and!; [plia..|]. f_equal. lia.
Qed.

Lemma clear_page_spec arena n g p :
  entries_are arena n g -> n <= U64_MAX -> 0 <= p -> (p + 1) * PAGE_SIZE <= n ->
  exists arena', clear_page arena (p * PAGE_SIZE) = Done arena' /\
    entries_are arena' n (fun e => if decide (512 * p <= e < 512 * p + 512) then 0 else g e).
Proof.
  intros Hg Hn Hp Hfit. pose proof (ea_len _ _ _ Hg) as Hl. unfold clear_page, fill.
  rewrite add64_done by plia. cbn [exec_bind].
  rewrite !(proj2 (andb_true_iff _ _)) by plia. eexists. split; [done|].
  replace (p * PAGE_SIZE + PAGE_SIZE - p * PAGE_SIZE) with PAGE_SIZE by lia. constructor.
  - rewrite len_splice; [done|plia|rewrite len_replicate; plia].
  - apply bytes_ok_splice; [apply Hg|]. apply Forall_replicate. ulia.
  - intros e He Hen. case_decide.
    + apply entry_zeroed; plia.
    + rewrite <- (ea_at _ _ _ Hg) by done. unfold entry.
      rewrite sub_list_splice_ne; [done|..]; rewrite ?len_replicate; plia.
Qed.

Lemma land_flags k a f x :
  0 <= k -> a mod 2 ^ k = 0 -> 0 <= f < 2 ^ k -> 0 <= x < 2 ^ k -> Z.land (a + f) x = Z.land f x.
Proof.
  intros Hk Ha Hf Hx. rewrite <- (lor_flags k), Z.land_lor_distr_l by done.
  replace (Z.land a x) with 0; [done|]. symmetry. apply Z.bits_inj'. intros i Hi.
  rewrite Z.land_spec, Z.bits_0. destruct (Z.lt_ge_cases i k).
  - rewrite <- (Z.mod_pow2_bits_low a k i), Ha, Z.bits_0 by lia. done.
  - rewrite <- (Z.mod_small x (2 ^ k)), (Z.mod_pow2_bits_high x k i) by lia. apply andb_false_r.
Qed.

Lemma address_mask_frame e : Z.land e ADDRESS_MASK = frame_of 12 e.
Proof. reflexivity. Qed.

(** ** Specification *)

(** A mapping the checks of [map_user_region] accept; [map_fits] is what they
    do not look at: no wrap of the end address, and a frame below the 52-bit
    physical limit. *)
Definition map_accepted (mp : Mapping) : Prop :=
  USER_BASE <= vaddr mp /\ vaddr mp + size mp <= USER_BASE + USER_MAX_BYTES /\ 0 < size mp /\
  vaddr mp mod PAGE_SIZE = 0 /\ paddr mp mod PAGE_SIZE = 0 /\ size mp mod PAGE_SIZE = 0.
Definition map_fits (mp : Mapping) : Prop :=
  is_u64 (vaddr mp) /\ 0 <= size mp /\ vaddr mp + size mp <= U64_MAX /\
  0 <= paddr mp /\ paddr mp + size mp <= 2 ^ 52.

Definition covers (mp : Mapping) (va : Z) : bool := (vaddr mp <=? va) && (va <? vaddr mp + size mp).

(** The mapping in force at an address: the last one that covers it. *)
Fixpoint find_mapping (ms : list Mapping) (va : Z) (found : option Mapping) : option Mapping :=
  match ms with
  | [] => found
  | mp :: ms => find_mapping ms va (if covers mp va then Some mp else found)
  end.

Definition user_access (mp : Mapping) (va : Z) : Access :=
  mkAccess (paddr mp + (va - vaddr mp)) (writable mp) true.

(** The first rejected mapping, as an error. *)
Definition mapping_error (mp : Mapping) : option MapError :=
  if vaddr mp <? USER_BASE then Some (BelowUserBase (vaddr mp))
  else if USER_BASE + USER_MAX_BYTES <? vaddr mp + size mp then Some (OutOfRange (vaddr mp + size mp))
  else if negb (vaddr mp mod PAGE_SIZE =? 0) || negb (paddr mp mod PAGE_SIZE =? 0)
          || negb (size mp mod PAGE_SIZE =? 0) || (size mp =? 0)
  then Some (NotPageAligned (vaddr mp)) else None.

Fixpoint first_error (ms : list Mapping) : option MapError :=
  match ms with
  | [] => None
  | mp :: ms => match mapping_error mp with Some e => Some e | None => first_error ms end
  end.

(** The number of page tables: up to the last 2 MiB slot a mapping touches. *)
Definition last_slot (mp : Mapping) : Z := (vaddr mp + size mp - USER_BASE - 1) / BLOCK_SIZE.
Definition user_pts (ms : list Mapping) : Z := 1 + foldr (fun mp h => Z.max (last_slot mp) h) 0 ms.
Definition total_size (ms : list Mapping) : Z := foldr (fun mp s => size mp + s) 0 ms.

(** ** Lemmas: the loops *)
Lemma mapping_error_none mp : map_fits mp -> mapping_error mp = None <-> map_accepted mp.
Proof.
  intros (? & ? & ? & ? & ?). unfold mapping_error, map_accepted.
  destruct (Z.ltb_spec (vaddr mp) USER_BASE); [split; [done|lia]|].
  destruct (Z.ltb_spec (USER_BASE + USER_MAX_BYTES) (vaddr mp + size mp)); [split; [done|lia]|].
  destruct (Z.eqb_spec (vaddr mp mod PAGE_SIZE) 0), (Z.eqb_spec (paddr mp mod PAGE_SIZE) 0),
    (Z.eqb_spec (size mp mod PAGE_SIZE) 0), (Z.eqb_spec (size mp) 0); simpl; split; (done || lia).
Qed.

Lemma check_mappings_spec ms :
  Forall map_fits ms ->
  check_mappings (USER_BASE + USER_MAX_BYTES) ms =
    Done (match first_error ms with Some e => Err e | None => Ok tt end).
Proof.
  induction 1 as [|mp ms (Hv & Hs & He & Hp & Hq) _ IH]; [done|].
  cbn [check_mappings first_error]. unfold mapping_error.
  destruct (vaddr mp <? USER_BASE); [done|].
  unfold vaddr_end. rewrite add64_done by done. cbn [exec_bind].
  destruct (USER_BASE + USER_MAX_BYTES <? vaddr mp + size mp); [done|]. unfold is_multiple_of.
  case_goal; [done|exact IH].
Qed.

Lemma requests_accepted ms : Forall map_fits ms -> first_error ms = None <-> Forall map_accepted ms.
Proof.
  induction 1 as [|mp ms Hf _ IH]; cbn [first_error]; [split; [constructor|done]|].
  destruct (mapping_error mp) eqn:E.
  - split; [done|]. intros [Ha _]%List.Forall_cons_iff. apply mapping_error_none in Ha; [congruence|done].
  - apply mapping_error_none in E; [|done]. rewrite IH, List.Forall_cons_iff. tauto.
Qed.

Lemma last_slot_range mp : map_accepted mp -> 0 <= last_slot mp < 512.
Proof.
  intros (? & ? & ? & _). unfold last_slot. split; [apply Z.div_pos; plia|].
  apply Z.div_lt_upper_bound; plia.
Qed.

Lemma highest_slot_spec ms h :
  Forall map_accepted ms -> 0 <= h ->
  highest_slot ms h = Done (Z.max h (foldr (fun mp h => Z.max (last_slot mp) h) 0 ms)).
Proof.
  intros Hms. revert h. induction Hms as [|mp ms Ha _ IH]; intros h Hh; cbn [highest_slot foldr].
  { f_equal. lia. }
  pose proof (last_slot_range mp Ha) as Hl. destruct Ha as (? & ? & ? & _).
  unfold vaddr_end. rewrite add64_done by plia. cbn [exec_bind].
  rewrite !sub64_done by plia. cbn [exec_bind]. rewrite sub64_done by plia. cbn [exec_bind].
  rewrite Z.div_div by plia.
  change (PAGE_SIZE * PT_ENTRIES) with BLOCK_SIZE. fold (last_slot mp).
  rewrite IH by lia. f_equal. lia.
Qed.

Lemma user_pts_range ms : Forall map_accepted ms -> 1 <= user_pts ms <= 512.
Proof.
  unfold user_pts. induction 1 as [|mp ms Ha _ IH]; cbn [foldr]; [lia|].
  pose proof (last_slot_range mp Ha). lia.
Qed.

Lemma user_pts_last ms mp : Forall map_accepted ms -> mp ∈ ms -> last_slot mp < user_pts ms.
Proof.
  intros _ Hin. unfold user_pts. induction Hin as [|mp' ms Hin IH]; cbn [foldr]; lia.
Qed.

(** Page [u] of the user region: is it in the mapping, and with which entry? *)
Definition first_page_of (mp : Mapping) : Z := (vaddr mp - USER_BASE) / PAGE_SIZE.
Definition in_mapping (mp : Mapping) (u : Z) : bool :=
  (first_page_of mp <=? u) && (u <? first_page_of mp + size mp / PAGE_SIZE).
Definition leaf_flags (mp : Mapping) : Z := if writable mp then 7 else 5.
Definition leaf_value (mp : Mapping) (u : Z) : Z :=
  paddr mp + (u - first_page_of mp) * PAGE_SIZE + leaf_flags mp.
Fixpoint user_value (ms : list Mapping) (u acc : Z) : Z :=
  match ms with
  | [] => acc
  | mp :: ms => user_value ms u (if in_mapping mp u then leaf_value mp u else acc)
  end.

(** The page numbers of an accepted mapping. *)
Lemma accepted_pages mp :
  map_accepted mp ->
  vaddr mp = USER_BASE + first_page_of mp * PAGE_SIZE /\ 0 <= first_page_of mp /\
  size mp = size mp / PAGE_SIZE * PAGE_SIZE /\ 0 < size mp / PAGE_SIZE /\
  first_page_of mp + size mp / PAGE_SIZE <= 2 ^ 18 /\
  forall u, u < first_page_of mp + size mp / PAGE_SIZE -> u / 512 <= last_slot mp.
Proof.
  intros (Hb & He & Hs & Hv & Hp & Hz).
  assert (Hd : vaddr mp = USER_BASE + first_page_of mp * PAGE_SIZE).
  { unfold first_page_of. pose proof (Z.div_mod (vaddr mp - USER_BASE) PAGE_SIZE ltac:(plia)) as H.
    replace ((vaddr mp - USER_BASE) mod PAGE_SIZE) with 0 in H; [lia|].
    rewrite Zminus_mod, Hv. reflexivity. }
  assert (size mp = size mp / PAGE_SIZE * PAGE_SIZE).
  { pose proof (Z.div_mod (size mp) PAGE_SIZE ltac:(plia)). lia. }
  split_and!; [done|plia|done|plia|plia|].
  intros u Hu. unfold last_slot. change BLOCK_SIZE with (PAGE_SIZE * 512).
  rewrite <- Z.div_div by plia. apply Z.div_le_mono; [lia|].
  apply Z.div_le_lower_bound; plia.
Qed.

Section UserLoops.
  Context (address n fp : Z).
  Hypothesis Haddr : 0 <= address /\ address mod PAGE_SIZE = 0 /\ address + n <= 2 ^ 52.
  Hypothesis Hfp : 0 <= fp.

Lemma user_link_value p :
  0 <= p -> (p + 1) * PAGE_SIZE <= n ->
  add64 address (p * PAGE_SIZE) = Done (address + p * PAGE_SIZE) /\
  Z.lor (address + p * PAGE_SIZE) (Z.lor PRESENT (Z.lor WRITABLE USER)) = address + p * PAGE_SIZE + 7 /\
  is_u64 (address + p * PAGE_SIZE + 7).
Proof.
  intros Hp Hn. split; [apply add64_done; plia|]. split; [|plia].
  change (Z.lor PRESENT (Z.lor WRITABLE USER)) with 7.
  apply (lor_flags 12); [lia|by apply (page_aligned address n)|lia].
Qed.

Lemma link_pts_spec k j arena g :
  entries_are arena n g -> 0 <= j -> j + Z.of_nat k <= 512 ->
  (fp + 1 + j + Z.of_nat k) * PAGE_SIZE <= n ->
  exists arena',
    link_pts address arena (fp * PAGE_SIZE) fp k (fp + 1 + j) =
      Done (arena', take_pages 0 (fp + 1 + j) k, fp + 1 + j + Z.of_nat k) /\
    entries_are arena' n (fun e =>
      if decide (512 * (fp + 1 + j) <= e < 512 * (fp + 1 + j + Z.of_nat k)) then 0
      else if decide (512 * fp + j <= e < 512 * fp + j + Z.of_nat k)
      then address + (fp + 1 + (e - 512 * fp)) * PAGE_SIZE + 7 else g e).
Proof.
  revert j arena g. induction k as [|k IH]; intros j arena g Hg Hj Hk Hn.
  { exists arena. cbn [link_pts]. rewrite Z.add_0_r. split; [done|].
    eapply entries_are_ext; [exact Hg|]. intros e _ _. rewrite !decide_False by lia. done. }
  cbn [link_pts]. rewrite mul64_done by plia. cbn [exec_bind].
  destruct (clear_page_spec arena n g (fp + 1 + j) Hg) as (a1 & -> & Ha1); [ulia|lia|plia|].
  cbn [exec_bind]. rewrite sub64_done by lia. cbn [exec_bind].
  destruct (user_link_value (fp + 1 + j)) as (-> & Hl & Hu); [lia|plia|]. cbn [exec_bind].
  replace (fp + 1 + j - (fp + 1)) with j by lia.
  destruct (write_entry_at_spec a1 n _ fp j (address + (fp + 1 + j) * PAGE_SIZE + 7) Ha1)
    as (a2 & Hw & Ha2); [ulia|lia|lia|plia|done|].
  rewrite Hl, Hw. cbn [exec_bind].
  destruct (IH (j + 1) a2 _ Ha2) as (a3 & Hr & Ha3); [lia|lia|plia|].
  rewrite Z.add_assoc in Hr. rewrite Hr. cbn [exec_bind].
  exists a3. rewrite take_pages_S. split.
  - do 2 f_equal. lia.
  - eapply entries_are_ext; [exact Ha3|]. intros e _ _. simpl.
    repeat case_decide; try lia; subst; f_equal; f_equal; f_equal; lia.
Qed.

Context (pts : Z) (offs : list Z).
Hypothesis Hpts : 1 <= pts <= 512 /\ (fp + 1 + pts) * PAGE_SIZE <= n.
Hypothesis Hoffs : forall s, 0 <= s < pts -> get offs s = Some ((fp + 1 + s) * PAGE_SIZE).

Lemma map_pages_spec mp k i arena mb g :
  entries_are arena n g -> map_accepted mp -> map_fits mp -> last_slot mp < pts ->
  0 <= i -> i + Z.of_nat k = size mp / PAGE_SIZE -> 0 <= mb <= 2 ^ 62 - PAGE_SIZE * Z.of_nat k ->
  exists arena',
    map_pages arena offs mp k i mb = Done (arena', mb + PAGE_SIZE * Z.of_nat k) /\
    entries_are arena' n (fun e =>
      let u := e - 512 * (fp + 1) in
      if decide (first_page_of mp + i <= u < first_page_of mp + size mp / PAGE_SIZE)
      then leaf_value mp u else g e).
Proof.
  intros Hg Hacc Hfits Hlast. destruct (accepted_pages mp Hacc) as (Hva & Hu0 & Hsz & Hsp & H18 & Hslot).
  destruct Hfits as (? & ? & ? & Hp0 & Hp52). destruct Hacc as (? & ? & ? & _ & Hpm & _).
  revert i arena mb g Hg. induction k as [|k IH]; intros i arena mb g Hg Hi Hk Hmb.
  { exists arena. cbn [map_pages]. rewrite Z.mul_0_r, Z.add_0_r. split; [done|].
    eapply entries_are_ext; [exact Hg|]. intros e _ _. simpl. rewrite decide_False by lia. done. }
  cbn [map_pages]. rewrite mul64_done by plia. cbn [exec_bind].
  rewrite !add64_done by plia. cbn [exec_bind]. rewrite sub64_done by plia. cbn [exec_bind].
  replace ((vaddr mp + i * PAGE_SIZE - USER_BASE) / PAGE_SIZE) with (first_page_of mp + i)
    by (apply (Z.div_unique_exact _ PAGE_SIZE); plia).
  set (u := first_page_of mp + i). change PT_ENTRIES with 512.
  assert (Hs : 0 <= u / 512 < pts) by (specialize (Hslot u ltac:(lia)); split; [apply Z.div_pos; lia|lia]).
  pose proof (Z.div_mod u 512 ltac:(lia)). pose proof (Z.mod_pos_bound u 512 ltac:(lia)).
  unfold index. rewrite Hoffs by done. cbn [exec_bind].
  assert (Hv : Z.lor (paddr mp + i * PAGE_SIZE)
      (if writable mp then Z.lor (Z.lor PRESENT USER) WRITABLE else Z.lor PRESENT USER) = leaf_value mp u).
  { unfold leaf_value, leaf_flags. replace (u - first_page_of mp) with i by lia.
    assert ((paddr mp + i * PAGE_SIZE) mod 2 ^ 12 = 0).
    { change (2 ^ 12) with PAGE_SIZE. rewrite Z.add_mod, Hpm, Z.mod_mul by plia. done. }
    destruct (writable mp); apply (lor_flags 12); (done || lia). }
  rewrite Hv.
  destruct (write_entry_at_spec arena n g (fp + 1 + u / 512) (u mod 512) (leaf_value mp u) Hg)
    as (a1 & Hw & Ha1); [ulia|lia|lia|plia| |].
  { unfold leaf_value, leaf_flags. destruct (writable mp); plia. }
  rewrite Hw. cbn [exec_bind].
  destruct (IH (i + 1) a1 (mb + PAGE_SIZE) _ Ha1) as (a2 & -> & Ha2); [lia|lia|plia|].
  exists a2. split; [f_equal; f_equal; lia|].
  eapply entries_are_ext; [exact Ha2|]. intros e _ _. simpl.
  repeat case_decide; try lia; try done. f_equal. lia.
Qed.

Lemma map_all_spec ms arena mb g :
  entries_are arena n g -> Forall map_accepted ms -> Forall map_fits ms ->
  Forall (fun mp => last_slot mp < pts) ms -> 0 <= mb -> mb + total_size ms <= 2 ^ 62 ->
  exists arena',
    map_all arena offs ms mb = Done (arena', mb + total_size ms) /\
    entries_are arena' n (fun e => user_value ms (e - 512 * (fp + 1)) (g e)).
Proof.
  intros Hg Hacc Hfit Hlast. revert arena mb g Hg.
  induction ms as [|mp ms IH]; intros arena mb g Hg Hmb Htot.
  { exists arena. cbn [map_all total_size foldr]. rewrite Z.add_0_r. done. }
  apply List.Forall_cons_iff in Hacc as [Ha Hacc]. apply List.Forall_cons_iff in Hfit as [Hf Hfit].
  apply List.Forall_cons_iff in Hlast as [Hl Hlast].
  destruct (accepted_pages mp Ha) as (_ & _ & Hsz & Hsp & _).
  assert (0 <= total_size ms).
  { clear -Hfit. unfold total_size. induction Hfit as [|x l (_ & Hx & _) _ IHl]; simpl; lia. }
  cbn [map_all]. change (total_size (mp :: ms)) with (size mp + total_size ms) in *.
  destruct (map_pages_spec mp (Z.to_nat (size mp / PAGE_SIZE)) 0 arena mb g) as (a1 & -> & Ha1);
    [done..|lia|lia|plia|].
  cbn [exec_bind]. replace (PAGE_SIZE * Z.of_nat (Z.to_nat (size mp / PAGE_SIZE))) with (size mp) by lia.
  destruct (IH Hacc Hfit Hlast a1 (mb + size mp) _ Ha1) as (a2 & -> & Ha2); [plia|lia|].
  exists a2. split; [f_equal; f_equal; lia|].
  eapply entries_are_ext; [exact Ha2|]. intros e _ _. cbn [user_value]. f_equal.
  unfold in_mapping. rewrite Z.add_0_r. case_decide.
  - rewrite (proj2 (andb_true_iff _ _)) by lia. done.
  - replace (_ && _) with false by lia. done.
Qed.
End UserLoops.

(** The final value of a page's entry is that of the mapping in force there. *)
Lemma user_value_find ms va o :
  USER_BASE <= va -> Forall map_accepted ms ->
  let u := (va - USER_BASE) / PAGE_SIZE in
  let val o := match o with Some mp => leaf_value mp u | None => 0 end in
  user_value ms u (val o) = val (find_mapping ms va o).
Proof.
  intros Hva Hms u val. revert o. induction Hms as [|mp ms Ha _ IH]; intros o; [done|].
  cbn [user_value find_mapping]. rewrite <- IH. f_equal.
  destruct (accepted_pages mp Ha) as (Hv & H0 & Hsz & _).
  pose proof (Z.div_mod (va - USER_BASE) PAGE_SIZE ltac:(plia)) as Hd. fold u in Hd.
  pose proof (Z.mod_pos_bound (va - USER_BASE) PAGE_SIZE ltac:(plia)).
  replace (covers mp va) with (in_mapping mp u); [by destruct (in_mapping mp u)|].
  unfold covers, in_mapping. f_equal.
  - destruct (Z.leb_spec (first_page_of mp) u), (Z.leb_spec (vaddr mp) va); plia.
  - destruct (Z.ltb_spec u (first_page_of mp + size mp / PAGE_SIZE)),
      (Z.ltb_spec va (vaddr mp + size mp)); plia.
Qed.

Lemma find_mapping_in ms va o mp :
  find_mapping ms va o = Some mp -> (mp ∈ ms /\ covers mp va = true) \/ o = Some mp.
Proof.
  revert o. induction ms as [|x ms IH]; intros o H; [by right|]. cbn [find_mapping] in H.
  destruct (IH _ H) as [[Hin Hc]|Hx].
  - left. split; [by apply list_elem_of_further|done].
  - destruct (covers x va) eqn:Hc; [|by right]. injection Hx as ->. left.
    split; [apply list_elem_of_here|done].
Qed.

Lemma user_value_out ms u acc :
  Forall (fun mp => in_mapping mp u = false) ms -> user_value ms u acc = acc.
Proof. induction 1 as [|mp ms H _ IH]; [done|]. cbn [user_value]. by rewrite H. Qed.

(** ** Lemmas: [map_user_region] on tables made by [build] *)

(** The outcome: the first rejected mapping, a kernel map that reaches into
    the user region, an arena without room, or the totals. *)
Definition user_map_outcome (arena_len first_page pd_count : Z) (ms : list Mapping) :
    Result Mapped MapError :=
  match ms with
  | [] => Ok (mkMapped 0 0)
  | _ =>
      match first_error ms with
      | Some e => Err e
      | None =>
          let needed := first_page + 1 + user_pts ms in
          if 4 <? pd_count then Err AlreadyMapped
          else if arena_len / PAGE_SIZE <? needed then Err (ArenaTooSmall needed (arena_len / PAGE_SIZE))
          else Ok (mkMapped (total_size ms) (1 + user_pts ms))
      end
  end.

(** The entries after a successful call, over the entries [g] before it. *)
Definition user_entries (address fp : Z) (ms : list Mapping) (g : Z -> Z) (e : Z) : Z :=
  if e =? 0 then address + PAGE_SIZE + 7
  else if e =? 516 then address + fp * PAGE_SIZE + 7
  else if (512 * (fp + 1) <=? e) && (e <? 512 * (fp + 1 + user_pts ms)) then
    user_value ms (e - 512 * (fp + 1)) 0
  else if (512 * fp <=? e) && (e <? 512 * (fp + 1)) then
    (if e <? 512 * fp + user_pts ms then address + (fp + 1 + (e - 512 * fp)) * PAGE_SIZE + 7 else 0)
  else g e.

Section UserMapping.
  Context (address n fp pd_count : Z) (arena : list Z) (g : Z -> Z).
  Hypothesis Haddr : 0 <= address /\ address mod PAGE_SIZE = 0 /\ address + n <= 2 ^ 52.
  Hypothesis Hg : entries_are arena n g.
  Hypothesis Hfp : 2 <= fp /\ fp * PAGE_SIZE <= n.
  Hypothesis Hroot : g 0 = address + PAGE_SIZE + 3.
  Hypothesis Hslot4 : g 516 = if pd_count <=? 4 then 0 else address + 6 * PAGE_SIZE + 3.

(** The two page-table reads and the write that precede the allocation. *)
Lemma open_root :
  exists arena1, read_entry_at arena 0 0 = Done (g 0) /\ Z.land (g 0) PRESENT =? 0 = false /\
    (if Z.land (g 0) USER =? 0 then write_entry_at arena 0 0 (Z.lor (g 0) USER) else Done arena) =
      Done arena1 /\
    entries_are arena1 n (fun e => if decide (e = 0) then address + PAGE_SIZE + 7 else g e) /\
    sub64 (Z.land (g 0) ADDRESS_MASK) address = Done (1 * PAGE_SIZE) /\
    read_entry_at arena1 (1 * PAGE_SIZE) (Z.land (Z.shiftr USER_BASE 30) 0x1FF) = Done (g 516).
Proof.
  assert (Hal : (address + PAGE_SIZE) mod 2 ^ 12 = 0).
  { pose proof (page_aligned address n Haddr 1) as H. by rewrite Z.mul_1_l in H. }
  assert (Hor : Z.lor (address + PAGE_SIZE + 3) USER = address + PAGE_SIZE + 7).
  { rewrite <- (lor_flags 12 (address + PAGE_SIZE) 3), <- Z.lor_assoc by lia.
    change (Z.lor 3 USER) with 7. apply (lor_flags 12); lia. }
  destruct (write_entry_at_spec arena n g 0 0 (address + PAGE_SIZE + 7) Hg) as (a1 & Hw & Ha1);
    [ulia|lia|lia|plia|plia|].
  exists a1. rewrite Hroot, address_mask_frame.
  rewrite (land_flags 12 _ 3 PRESENT), (land_flags 12 _ 3 USER), (frame_of_flags 12) by (done || plia).
  rewrite Hor.
  split_and!; [|done|exact Hw|exact Ha1|rewrite sub64_done by plia; f_equal; lia|].
  - rewrite <- Hroot. change 0 with (0 * PAGE_SIZE) at 1. apply (read_entry_at_spec arena n g 0 0 Hg); plia.
  - change (Z.land (Z.shiftr USER_BASE 30) 0x1FF) with 4.
    rewrite (read_entry_at_spec a1 n _ 1 4 Ha1) by plia. done.
Qed.

(** The rest, when there is room. *)
Lemma map_tables arena1 ms :
  entries_are arena1 n (fun e => if decide (e = 0) then address + PAGE_SIZE + 7 else g e) ->
  Forall map_accepted ms -> Forall map_fits ms -> total_size ms <= 2 ^ 62 ->
  (fp + 1 + user_pts ms) * PAGE_SIZE <= n ->
  exists a2 a3 a4 a5,
    clear_page arena1 (fp * PAGE_SIZE) = Done a2 /\
    write_entry_at a2 (1 * PAGE_SIZE) 4 (address + fp * PAGE_SIZE + 7) = Done a3 /\
    link_pts address a3 (fp * PAGE_SIZE) fp (Z.to_nat (user_pts ms)) (fp + 1) =
      Done (a4, take_pages 0 (fp + 1) (Z.to_nat (user_pts ms)), fp + 1 + user_pts ms) /\
    map_all a4 (take_pages 0 (fp + 1) (Z.to_nat (user_pts ms))
                ++ replicate (Z.to_nat (PD_ENTRIES - user_pts ms)) 0) ms 0 = Done (a5, total_size ms) /\
    entries_are a5 n (user_entries address fp ms g).
Proof.
  intros Ha1 Hacc Hfits Htot Hroom. pose proof (user_pts_range ms Hacc) as Hp.
  destruct (clear_page_spec arena1 n _ fp Ha1) as (a2 & H2 & Ha2); [ulia|lia|plia|].
  destruct (write_entry_at_spec a2 n _ 1 4 (address + fp * PAGE_SIZE + 7) Ha2) as (a3 & H3 & Ha3);
    [ulia|lia|lia|plia|plia|].
  destruct (link_pts_spec address n fp Haddr ltac:(lia) (Z.to_nat (user_pts ms)) 0 a3 _ Ha3)
    as (a4 & H4 & Ha4); [lia|lia|plia|].
  rewrite Z.add_0_r, Z2Nat.id in H4 by lia.
  assert (Hoffs : forall s, 0 <= s < user_pts ms ->
    get (take_pages 0 (fp + 1) (Z.to_nat (user_pts ms)) ++ replicate (Z.to_nat (PD_ENTRIES - user_pts ms)) 0) s
    = Some ((fp + 1 + s) * PAGE_SIZE)).
  { intros s Hs. apply get_some. split; [lia|].
    rewrite lookup_app_l by (pose proof (len_take_pages 0 (fp + 1) (Z.to_nat (user_pts ms))); unfold len in *; lia).
    apply (get_some (take_pages 0 (fp + 1) (Z.to_nat (user_pts ms)))), take_pages_lookup. lia. }
  destruct (map_all_spec address n fp Haddr ltac:(lia) (user_pts ms) _ (conj Hp Hroom) Hoffs ms a4 0 _ Ha4)
    as (a5 & H5 & Ha5); [done|done| |lia|lia|].
  { apply List.Forall_forall. intros mp Hin. apply user_pts_last; [done|by apply list_elem_of_In]. }
  exists a2, a3, a4, a5. split_and!; [done..|].
  eapply entries_are_ext; [exact Ha5|]. intros e He _. unfold user_entries. simpl.
  assert (Hout : e < 512 * (fp + 1) \/ 512 * (fp + 1 + user_pts ms) <= e ->
    forall acc, user_value ms (e - 512 * (fp + 1)) acc = acc).
  { intros Hr acc. apply user_value_out, List.Forall_forall. intros mp Hin.
    destruct (accepted_pages mp (proj1 (List.Forall_forall _ _) Hacc mp Hin)) as (_ & Hu & _ & _ & _ & Hs).
    apply list_elem_of_In in Hin.
    assert (Hlast : last_slot mp < user_pts ms) by (apply user_pts_last; done).
    unfold in_mapping. destruct (Z.leb_spec (first_page_of mp) (e - 512 * (fp + 1))); [|done].
    destruct (Z.ltb_spec (e - 512 * (fp + 1)) (first_page_of mp + size mp / PAGE_SIZE)) as [Hlt|]; [|done].
    specialize (Hs _ Hlt). assert (user_pts ms <= (e - 512 * (fp + 1)) / 512) by (apply Z.div_le_lower_bound; lia).
    lia. }
  destruct (decide (512 * (fp + 1) <= e < 512 * (fp + 1 + user_pts ms))) as [Hin|Hnin].
  - rewrite decide_True by lia. rewrite !(proj2 (Z.eqb_neq _ _)), (proj2 (andb_true_iff _ _)) by lia. done.
  - rewrite Hout by lia. replace ((512 * (fp + 1) <=? e) && (e <? 512 * (fp + 1 + user_pts ms))) with false by lia.
    destruct (Z.eqb_spec e 0), (Z.eqb_spec e 516), (Z.leb_spec (512 * fp) e), (Z.ltb_spec e (512 * (fp + 1)));
      cbn [andb]; try lia; try destruct (Z.ltb_spec e (512 * fp + user_pts ms));
      repeat case_decide; try lia; try done; plia.
Qed.

Lemma map_user_region_eq ms :
  Forall map_fits ms -> total_size ms <= 2 ^ 62 ->
  exists arena' g',
    map_user_region address arena 0 (fp * PAGE_SIZE) ms = Done (arena', user_map_outcome n fp pd_count ms) /\
    entries_are arena' n g' /\ (g' 0 = address + PAGE_SIZE + 3 \/ g' 0 = address + PAGE_SIZE + 7) /\
    (forall e, 0 < e < 512 * fp -> e <> 516 -> g' e = g e) /\
    match user_map_outcome n fp pd_count ms with
    | Err _ => g' 516 = g 516
    | Ok _ => match ms with
              | [] => g' 516 = g 516
              | _ => Forall map_accepted ms /\ pd_count <= 4 /\ (fp + 1 + user_pts ms) * PAGE_SIZE <= n /\
                     forall e, g' e = user_entries address fp ms g e
              end
    end.
Proof.
  intros Hfits Htot. unfold map_user_region, is_multiple_of.
  destruct Haddr as (Ha0 & Hal & Ha52). rewrite Hal, Z.mod_mul by plia. simpl (negb _ || _).
  cbn [Z.eqb negb]. rewrite (ea_len _ _ _ Hg).
  destruct ms as [|mp0 ms0]; [exists arena, g; split_and!; auto; reflexivity|]. set (ms := mp0 :: ms0) in *.
  rewrite check_mappings_spec by done. cbn [exec_bind].
  unfold user_map_outcome. fold ms.
  destruct (first_error ms) as [err|] eqn:Hfe; [exists arena, g; split_and!; auto; reflexivity|].
  apply requests_accepted in Hfe; [|done]. pose proof (user_pts_range ms Hfe) as Hp.
  destruct open_root as (a1 & -> & Hpres & Hw & Ha1 & Hs & Hr). cbn [exec_bind].
  rewrite Hpres, Hw. cbn [exec_bind]. rewrite Hs. cbn [exec_bind]. rewrite Hr. cbn [exec_bind].
  assert (Hbit : negb (Z.land (g 516) PRESENT =? 0) = (4 <? pd_count)).
  { rewrite Hslot4, (Z.leb_antisym 4 pd_count). destruct (4 <? pd_count); [|done]. cbn [negb].
    rewrite (land_flags 12 _ 3 PRESENT)
      by (plia || apply (page_aligned address n (conj Ha0 (conj Hal Ha52)))). done. }
  rewrite Hbit. destruct (Z.ltb_spec 4 pd_count).
  { exists a1. eexists. split; [done|]. split; [exact Ha1|]. simpl. split; [by right|]. split; [|done].
    intros e He Hne. rewrite decide_False by lia. done. }
  rewrite highest_slot_spec by (done || lia). cbn [exec_bind].
  replace (Z.max 0 (foldr (fun mp h => Z.max (last_slot mp) h) 0 ms) + 1) with (user_pts ms)
    by (unfold user_pts in *; lia).
  rewrite Z.div_mul, add64_done by plia. cbn [exec_bind].
  destruct (Z.ltb_spec (n / PAGE_SIZE) (fp + 1 + user_pts ms)) as [|Hroom].
  { exists a1. eexists. split; [done|]. split; [exact Ha1|]. simpl. split; [by right|]. split; [|done].
    intros e He Hne. rewrite decide_False by lia. done. }
  assert (Hfit : (fp + 1 + user_pts ms) * PAGE_SIZE <= n).
  { pose proof (Z.mul_div_le n PAGE_SIZE ltac:(plia)). plia. }
  destruct (map_tables a1 ms Ha1 Hfe Hfits Htot Hfit) as (a2 & a3 & a4 & a5 & H2 & H3 & H4 & H5 & Ha5).
  rewrite H2. cbn [exec_bind].
  destruct (user_link_value address n (conj Ha0 (conj Hal Ha52)) fp) as (-> & Hlor & _); [lia|plia|].
  cbn [exec_bind]. rewrite Hlor. change (Z.land (Z.shiftr USER_BASE 30) 0x1FF) with 4. rewrite H3. cbn [exec_bind].
  rewrite H4. cbn [exec_bind]. rewrite H5. cbn [exec_bind]. rewrite sub64_done by lia. cbn [exec_bind].
  exists a5, (user_entries address fp ms g). split; [do 3 f_equal; f_equal; lia|]. split; [done|].
  split; [by right|]. split; [|by auto].
  intros e He Hne. unfold user_entries.
  rewrite !(proj2 (Z.eqb_neq _ _)) by lia.
  rewrite (proj2 (Z.leb_gt (512 * (fp + 1)) e)), (proj2 (Z.leb_gt (512 * fp) e)) by lia. done.
Qed.
End UserMapping.

(** ** Lemmas: the walk of the user region *)
Lemma user_indices va :
  USER_BASE <= va < USER_BASE + USER_MAX_BYTES ->
  let u := (va - USER_BASE) / PAGE_SIZE in
  va / 2 ^ 39 mod 512 = 0 /\ va / 2 ^ 30 mod 512 = 4 /\ va / 2 ^ 21 mod 512 = u / 512 /\
  va / 2 ^ 12 mod 512 = u mod 512 /\ 0 <= u / 512 < 512 /\ 0 <= u.
Proof.
  intros Hva u. assert (Hu0 : 0 <= u) by (apply Z.div_pos; plia).
  assert (Hu : va / 2 ^ 12 = u + 2048 * 512).
  { unfold u. replace va with (va - USER_BASE + 2048 * 512 * 2 ^ 12) at 1 by plia.
    rewrite Z.div_add by lia. done. }
  assert (H21 : va / 2 ^ 21 = u / 512 + 2048).
  { change (2 ^ 21) with (2 ^ 12 * 512). rewrite <- Z.div_div, Hu by lia. apply Z.div_add. lia. }
  assert (0 <= u / 512 < 512).
  { split; [apply Z.div_pos; lia|]. apply Z.div_lt_upper_bound; [lia|].
    apply Z.div_lt_upper_bound; plia. }
  split_and!; try lia.
  - rewrite Z.div_small; [done|plia].
  - replace (va / 2 ^ 30) with 4; [done|]. apply (Z.div_unique_pos _ _ _ (va - 4 * 2 ^ 30)); plia.
  - rewrite H21. replace 2048 with (4 * 512) by done. rewrite Z.mod_add by lia. apply Z.mod_small. lia.
  - rewrite Hu. apply Z.mod_add. lia.
Qed.

Lemma covers_slot mp va :
  map_accepted mp -> covers mp va = true -> (va - USER_BASE) / PAGE_SIZE / 512 <= last_slot mp.
Proof.
  intros Ha Hc. unfold covers in Hc. apply andb_true_iff in Hc as [Hc1 Hc2].
  destruct (accepted_pages mp Ha) as (Hv & H0 & Hsz & _ & _ & Hs). apply Hs.
  apply Z.div_lt_upper_bound; plia.
Qed.

Lemma leaf_access mp va :
  map_accepted mp -> map_fits mp -> covers mp va = true ->
  let e := leaf_value mp ((va - USER_BASE) / PAGE_SIZE) in
  present e = true /\ leaf 12 e va true true = Some (user_access mp va).
Proof.
  intros Ha Hf Hc e. unfold covers in Hc. apply andb_true_iff in Hc as [Hc1 Hc2].
  destruct (accepted_pages mp Ha) as (Hv & H0 & Hsz & _). destruct Hf as (_ & _ & _ & Hp & Hp52).
  destruct Ha as (_ & _ & _ & _ & Hpm & _). unfold e, leaf_value.
  set (u := (va - USER_BASE) / PAGE_SIZE) in *.
  pose proof (Z.div_mod (va - USER_BASE) PAGE_SIZE ltac:(plia)) as Hd. fold u in Hd.
  pose proof (Z.mod_pos_bound (va - USER_BASE) PAGE_SIZE ltac:(plia)).
  assert (Hmod : va mod 2 ^ 12 = (va - USER_BASE) mod PAGE_SIZE).
  { change (2 ^ 12) with PAGE_SIZE. rewrite Zminus_mod. change (USER_BASE mod PAGE_SIZE) with 0.
    by rewrite Z.sub_0_r, Z.mod_mod by plia. }
  assert (Hal : (paddr mp + (u - first_page_of mp) * PAGE_SIZE) mod 2 ^ 12 = 0).
  { change (2 ^ 12) with PAGE_SIZE. rewrite Z.add_mod, Hpm, Z.mod_mul by plia. done. }
  assert (Hfl : 0 <= leaf_flags mp < 4096) by (unfold leaf_flags; destruct (writable mp); lia).
  destruct (leaf_bits 12 (paddr mp + (u - first_page_of mp) * PAGE_SIZE) (leaf_flags mp))
    as (Hfr & Hpr & Hw & Hus & _); [lia|done|plia|done|].
  unfold leaf, user_access. rewrite Hpr, Hfr, Hw, Hus, Hmod. unfold leaf_flags.
  split; [by destruct (writable mp)|]. f_equal. f_equal; [plia|by destruct (writable mp)..].
Qed.

Lemma walk_user address n fp arena g ms va :
  0 <= address /\ address mod PAGE_SIZE = 0 /\ address + n <= 2 ^ 52 -> 2 <= fp ->
  entries_are arena n (user_entries address fp ms g) ->
  Forall map_accepted ms -> Forall map_fits ms -> (fp + 1 + user_pts ms) * PAGE_SIZE <= n ->
  USER_BASE <= va < USER_BASE + USER_MAX_BYTES ->
  mmu_walk address arena address va =
  match find_mapping ms va None with Some mp => Some (user_access mp va) | None => None end.
Proof.
  intros Haddr Hfp Hea Hacc Hfits Hroom Hva. pose proof (user_pts_range ms Hacc) as Hpts.
  destruct (user_indices va Hva) as (H4 & H3 & H2 & H1 & Hs & Hu).
  set (u := (va - USER_BASE) / PAGE_SIZE) in *.
  pose proof (Z.div_mod u 512 ltac:(lia)). pose proof (Z.mod_pos_bound u 512 ltac:(lia)).
  assert (Hslot : forall mp, find_mapping ms va None = Some mp ->
    map_accepted mp /\ map_fits mp /\ covers mp va = true /\ u / 512 < user_pts ms).
  { intros mp Hfm. destruct (find_mapping_in _ _ _ _ Hfm) as [[Hin Hc]|]; [|done].
    pose proof (user_pts_last ms mp Hacc Hin). apply list_elem_of_In in Hin.
    rewrite List.Forall_forall in Hacc, Hfits. split_and!; auto.
    pose proof (covers_slot mp va (Hacc mp Hin) Hc) as Hcs. fold u in Hcs. lia. }
  rewrite <- (Z.add_0_r address) at 2. change 0 with (0 * PAGE_SIZE) at 1.
  rewrite (mmu_walk_link address n arena _ Haddr Hea 0 va 1 7); try plia;
    [|done|rewrite H4, Z.mul_1_l; done].
  rewrite (walk_pdpt_link address n arena _ Haddr Hea 1 va _ _ fp 7); try plia;
    [|done|rewrite H3; done].
  assert (He : user_entries address fp ms g (512 * fp + va / 2 ^ 21 mod 512) =
    if u / 512 <? user_pts ms then address + (fp + 1 + u / 512) * PAGE_SIZE + 7 else 0).
  { rewrite H2. unfold user_entries. rewrite !(proj2 (Z.eqb_neq _ _)) by lia.
    rewrite (proj2 (Z.leb_gt _ _)), (proj2 (Z.leb_le _ _)), (proj2 (Z.ltb_lt _ (512 * (fp + 1)))) by lia.
    cbn [andb]. replace (512 * fp + u / 512 <? 512 * fp + user_pts ms) with (u / 512 <? user_pts ms)
      by (destruct (Z.ltb_spec (u / 512) (user_pts ms)), (Z.ltb_spec (512 * fp + u / 512) (512 * fp + user_pts ms)); lia).
    by replace (512 * fp + u / 512 - 512 * fp) with (u / 512) by lia. }
  destruct (Z.ltb_spec (u / 512) (user_pts ms)) as [Hin|Hout].
  - rewrite (walk_pd_link address n arena _ Haddr Hea fp va _ _ (fp + 1 + u / 512) 7); try plia; try done.
    unfold walk_pt. rewrite (load_entry_page address n arena _ Hea) by plia. rewrite H1.
    unfold user_entries. rewrite !(proj2 (Z.eqb_neq _ _)), (proj2 (andb_true_iff _ _)) by lia.
    replace (512 * (fp + 1 + u / 512) + u mod 512 - 512 * (fp + 1)) with u by lia.
    pose proof (user_value_find ms va None ltac:(lia) Hacc) as Huv. cbn zeta in Huv. fold u in Huv. rewrite Huv.
    destruct (find_mapping ms va None) as [mp|] eqn:Hfm; [|done].
    destruct (Hslot mp eq_refl) as (Ha & Hf & Hc & _).
    destruct (leaf_access mp va Ha Hf Hc) as [Hpr Hl]. fold u in Hpr, Hl. rewrite Hpr. exact Hl.
  - unfold walk_pd. rewrite (load_entry_page address n arena _ Hea) by (try apply Z.mod_pos_bound; plia).
    rewrite He. simpl. destruct (find_mapping ms va None) as [mp|] eqn:Hfm; [|done].
    destruct (Hslot mp eq_refl) as (_ & _ & _ & ?). lia.
Qed.

(** ** Theorems *)

(** The tables [build] left, seen from [map_user_region]. *)
Lemma build_for_user address arena m config arena1 t :
  build_input address arena m config -> build address arena m config = Done (arena1, Ok t) ->
  exists pd_count g, pd_count = div_ceil (max_identity_bytes config) PD_COVERAGE /\
    g = table_entries address (region_list m) config (pt_limit t) arena /\
    (0 <= address /\ address mod PAGE_SIZE = 0 /\ address + len arena <= 2 ^ 52) /\
    entries_are arena1 (len arena) g /\ (2 <= tables_used t /\ tables_used t * PAGE_SIZE <= len arena) /\
    g 0 = address + PAGE_SIZE + 3 /\ g 516 = (if pd_count <=? 4 then 0 else address + 6 * PAGE_SIZE + 3).
Proof.
  intros Hin Hb. pose proof (build_ok_facts _ _ _ _ _ _ Hin Hb) as (Hal & _ & Hmx & Hfn & _ & Htu & Hfit & _ & Hea).
  destruct Hin as (Ha & Hn & _). do 2 eexists. split; [done|]. split; [done|].
  pose proof (div_ceil_spec (max_identity_bytes config) PD_COVERAGE ltac:(plia)).
  pose proof (div_ceil_spec (fine_grained_bytes config) BLOCK_SIZE ltac:(plia)).
  split_and!; try done; try plia; unfold table_entries.
  - rewrite !(proj2 (Z.leb_gt _ _)) by plia. done.
  - rewrite !(proj2 (Z.leb_gt _ 516)) by plia. cbn [andb].
    destruct (Z.ltb_spec 516 (512 + div_ceil (max_identity_bytes config) PD_COVERAGE));
      [rewrite (proj2 (Z.leb_gt _ 4)) by lia|rewrite (proj2 (Z.leb_le _ 4)) by lia]; done.
Qed.

Lemma user_region_total address arena m config arena1 t ms :
  build_input address arena m config -> build address arena m config = Done (arena1, Ok t) ->
  Forall map_fits ms -> total_size ms <= 2 ^ 62 ->
  exists arena2,
    map_user_region address arena1 0 (tables_used t * PAGE_SIZE) ms =
      Done (arena2, user_map_outcome (len arena) (tables_used t)
                      (div_ceil (max_identity_bytes config) PD_COVERAGE) ms) /\
    len arena2 = len arena.
Proof.
  intros Hin Hb Hf Ht.
  destruct (build_for_user _ _ _ _ _ _ Hin Hb) as (pdc & g & -> & _ & Haddr & Hea & Hfp & Hr & H4).
  destruct (map_user_region_eq address (len arena) (tables_used t) _ arena1 g Haddr Hea Hfp Hr H4 ms Hf Ht)
    as (a2 & g' & H & Hea2 & _). exists a2. split; [done|by destruct Hea2].
Qed.

(** (user_map.rs, [map_user_region]): on the tables [build] made, with the
    first free page after them, every request finishes without a panic and
    with the outcome of [user_map_outcome]: nothing for an empty request, else
    the error of the first rejected mapping, [AlreadyMapped] when the kernel's
    identity map reaches past 4 GiB, [ArenaTooSmall], or the number of bytes
    mapped and of pages taken for tables. *)
Lemma map_user_region_total address arena m config arena1 t ms :
  build_input address arena m config -> build address arena m config = Done (arena1, Ok t) ->
  Forall map_fits ms -> total_size ms <= 2 ^ 62 ->
  exists arena2,
    map_user_region address arena1 0 (tables_used t * PAGE_SIZE) ms =
      Done (arena2, user_map_outcome (len arena) (tables_used t)
                      (div_ceil (max_identity_bytes config) PD_COVERAGE) ms).
Proof.
  intros Hin Hb Hf Ht. destruct (user_region_total address arena m config arena1 t ms Hin Hb Hf Ht) as (a2 & H & _).
  by exists a2.
Qed.

Lemma user_walk_exact address arena m config arena1 t ms arena2 r va :
  build_input address arena m config -> build address arena m config = Done (arena1, Ok t) ->
  Forall map_fits ms -> total_size ms <= 2 ^ 62 ->
  map_user_region address arena1 0 (tables_used t * PAGE_SIZE) ms = Done (arena2, r) ->
  0 <= va < 2 ^ 48 ->
  mmu_walk address arena2 (pml4_phys t) va =
  if is_ok r && negb (bool_decide (ms = [])) && (USER_BASE <=? va) && (va <? USER_BASE + USER_MAX_BYTES)
  then match find_mapping ms va None with Some mp => Some (user_access mp va) | None => None end
  else if identity_policy (region_list m) config (pt_limit t) va then Some (mkAccess va true false) else None.
Proof.
  intros Hin Hb Hf Ht Hmap Hva.
  pose proof (build_ok_facts _ _ _ _ _ _ Hin Hb) as (_ & -> & Hmx & Hfn & Hl & Htu & _).
  destruct (build_for_user _ _ _ _ _ _ Hin Hb) as (pdc & g & Hpdc & Hg & Haddr & Hea & Hfp & Hr & H4).
  destruct (map_user_region_eq address (len arena) (tables_used t) pdc arena1 g Haddr Hea Hfp Hr H4 ms Hf Ht)
    as (a2 & g' & Heq & Hea2 & Hroot & Hsame & Hpost).
  rewrite Hmap in Heq. injection Heq as -> ->.
  assert (Hk : forall hole, hole = -512 \/ 0 <= hole < 512 -> (hole <> 4 -> g' 516 = g 516) ->
    va / 2 ^ 30 <> hole ->
    mmu_walk address a2 address va =
    if identity_policy (region_list m) config (pt_limit t) va then Some (mkAccess va true false) else None).
  { intros hole Hh H516 Hne.
    apply (walk_identity address (len arena) a2 g' Haddr Hea2 (region_list m) config (pt_limit t) hole arena);
      try done; [rewrite <- Htu; lia|].
    intros e He Hn. rewrite <- Htu in He. rewrite <- Hg. destruct (decide (e = 516)) as [->|]; [|apply Hsame; lia].
    apply H516. lia. }
  destruct (bool_decide_reflect (ms = [])) as [->|Hne].
  - rewrite andb_false_r. cbn [andb]. apply (Hk (-512)); [by left|done|].
    pose proof (Z.div_pos va (2 ^ 30)). lia.
  - destruct (user_map_outcome (len arena) (tables_used t) pdc ms) as [md|err]; cbn [is_ok andb negb].
    + destruct ms as [|mp0 ms0]; [done|]. destruct Hpost as (Hacc & Hp4 & Hroom & Hent).
      destruct (Z.leb_spec USER_BASE va) as [Hlo|Hlo]; [destruct (Z.ltb_spec va (USER_BASE + USER_MAX_BYTES)) as [Hhi|Hhi]|];
        cbn [andb].
      * apply (walk_user address (len arena) (tables_used t) a2 g); try done; [lia|].
        eapply entries_are_ext; [exact Hea2|]. intros e _ _. apply Hent.
      * apply (Hk 4); [lia|done|]. assert (5 <= va / 2 ^ 30) by (apply Z.div_le_lower_bound; plia). lia.
      * apply (Hk 4); [lia|done|]. assert (va / 2 ^ 30 < 4) by (apply Z.div_lt_upper_bound; plia). lia.
    + apply (Hk (-512)); [by left|done|]. pose proof (Z.div_pos va (2 ^ 30)). lia.
Qed.

(** C5 (user_map.rs, [map_user_region], with [build]): isolation.  Whatever
    the outcome of the call, outside the user region the processor's walk
    still gives the kernel's identity map, never accessible to user mode,
    although the root entry now allows user access.  After a successful,
    non-empty call the user region is exactly the request: an address is
    mapped, with user access, to the frame and the write permission of the
    last mapping that covers it, and every other address of it faults. *)
Theorem user_space_isolated address arena m config arena1 t ms arena2 r va :
  build_input address arena m config -> build address arena m config = Done (arena1, Ok t) ->
  Forall map_fits ms -> total_size ms <= 2 ^ 62 ->
  map_user_region address arena1 0 (tables_used t * PAGE_SIZE) ms = Done (arena2, r) ->
  0 <= va < 2 ^ 48 ->
  mmu_walk address arena2 (pml4_phys t) va =
  if is_ok r && negb (bool_decide (ms = [])) && (USER_BASE <=? va) && (va <? USER_BASE + USER_MAX_BYTES)
  then match find_mapping ms va None with Some mp => Some (user_access mp va) | None => None end
  else if identity_policy (region_list m) config (pt_limit t) va then Some (mkAccess va true false) else None.
Proof. exact (user_walk_exact address arena m config arena1 t ms arena2 r va). Qed.

Definition user_arena : list Z := replicate (Z.to_nat (6 * PAGE_SIZE)) 0xAA.

Lemma user_input : build_input 0x100000 user_arena small_map small_config.
Proof.
  destruct small_input as (_ & _ & _ & Hm & Hmx & Hfn).
  split_and!; try (vm_compute; discriminate); try done; apply Forall_replicate; ulia.
Qed.

Lemma user_build :
  exists arena1 t, build 0x100000 user_arena small_map small_config = Done (arena1, Ok t) /\
    pml4_phys t = 0x100000 /\ pt_limit t = 0x400000 /\ tables_used t = 4.
Proof.
  destruct user_input as (Ha & Hn & Hb & Hm & Hmx & Hfn).
  destruct (build_eq 0x100000 user_arena small_map small_config (conj Ha Hn) Hb Hm)
    as (top & a & Hrt & _ & He & _); [ulia|ulia|].
  replace top with (Some 0x400000) in He by (vm_compute in Hrt; injection Hrt as <-; reflexivity).
  exists a. eexists. split; [exact He|]. split_and!; reflexivity.
Qed.

(** A read-only code page and a writable stack page, with a guard between. *)
Definition user_request : list Mapping :=
  [mkMapping USER_BASE 0x200000 PAGE_SIZE false;
   mkMapping (USER_BASE + 2 * PAGE_SIZE) 0x201000 PAGE_SIZE true].

Lemma user_request_fits : Forall map_fits user_request.
Proof. repeat constructor; vm_compute; discriminate. Qed.

Lemma map_user_region_total_witness :
  exists arena1 t arena2, build 0x100000 user_arena small_map small_config = Done (arena1, Ok t) /\
    map_user_region 0x100000 arena1 0 (tables_used t * PAGE_SIZE) user_request =
      Done (arena2, Ok (mkMapped (2 * PAGE_SIZE) 2)).
Proof.
  destruct user_build as (a & t & Hb & _ & _ & Ht).
  destruct (map_user_region_total 0x100000 user_arena small_map small_config a t user_request
    user_input Hb user_request_fits ltac:(vm_compute; discriminate)) as (a2 & H2).
  exists a, t, a2. split; [exact Hb|]. rewrite H2, Ht. vm_compute. reflexivity.
Defined.

Lemma user_space_isolated_witness :
  exists arena1 t arena2 r, build 0x100000 user_arena small_map small_config = Done (arena1, Ok t) /\
    map_user_region 0x100000 arena1 0 (tables_used t * PAGE_SIZE) user_request = Done (arena2, r) /\
    mmu_walk 0x100000 arena2 (pml4_phys t) (USER_BASE + 0x10) = Some (mkAccess 0x200010 false true) /\
    mmu_walk 0x100000 arena2 (pml4_phys t) (USER_BASE + 0x1010) = None /\
    mmu_walk 0x100000 arena2 (pml4_phys t) (USER_BASE + 0x2010) = Some (mkAccess 0x201010 true true) /\
    mmu_walk 0x100000 arena2 (pml4_phys t) 0x201010 = Some (mkAccess 0x201010 true false).
Proof.
  destruct user_build as (a & t & Hb & _ & Hl & Ht).
  destruct (build_for_user _ _ _ _ _ _ user_input Hb) as (pdc & g & -> & _ & Haddr & Hea & Hfp & Hr & H4).
  destruct (map_user_region_eq 0x100000 (len user_arena) (tables_used t)
    (div_ceil (max_identity_bytes small_config) PD_COVERAGE) a g Haddr Hea Hfp Hr H4
    user_request user_request_fits ltac:(vm_compute; discriminate)) as (a2 & _ & H2 & _).
  exists a, t, a2. eexists. split; [exact Hb|]. split; [exact H2|].
  pose proof (fun va => user_space_isolated 0x100000 user_arena small_map small_config a t user_request a2 _ va
    user_input Hb user_request_fits ltac:(vm_compute; discriminate) H2) as Hw.
  rewrite Hl, Ht in Hw. clear -Hw.
  split_and!; (rewrite Hw; [|vm_compute; split; [discriminate|reflexivity]]); vm_compute; reflexivity.
Defined.
