(* ===== verification/BootInfo.v ===== *)
(** * The boot protocol (crates/boot-info/src/lib.rs)

    [BootInfo], its validation and the exit codes.  Loader and kernel exchange
    the structure as bytes: [encode] and [decode] are what the language defines
    for a [repr(C)] type, the fields in their order, each at the next multiple
    of its alignment, little-endian.  The lemmas: the offsets that computes are
    the ones the interface document pins, what is written is read back,
    validation accepts exactly versions 0 and 1 of sufficient size (so no user
    field is read beyond the size the loader gave), and exit codes are
    distinct. *)
From Stdlib Require Import ZArith Lia Bool.
From stdpp Require Import base tactics option list numbers.
From S2P Require Import Prelude.

#[local] Open Scope Z_scope.

(** ** Data *)
Definition BOOT_INFO_MAGIC : Z := 0x506172616E756B01.
Definition BOOT_INFO_VERSION : Z := 1.
Definition BOOT_INFO_SIZE_V0 : Z := 88.
Definition DEBUG_EXIT_PORT : Z := 0xF4.
Definition EXIT_VALUE_BOOTLOADER_OK : Z := 0x10.
Definition EXIT_VALUE_LOAD_FAILURE : Z := 0x11.
Definition EXIT_VALUE_KERNEL_OK : Z := 0x12.
Definition EXIT_VALUE_KERNEL_FAILURE : Z := 0x13.
Definition EXIT_VALUE_KERNEL_FAULT : Z := 0x14.
Definition EXIT_VALUE_KERNEL_MEMORY_FAILURE : Z := 0x15.
Definition EXIT_VALUE_KERNEL_SCHED_FAILURE : Z := 0x16.
Definition EXIT_VALUE_USER_FAILURE : Z := 0x17.

Record BootInfo : Type := mkBootInfo {
  magic : Z;
  bi_version : Z;
  bi_size : Z;
  mmap_ptr : Z;
  mmap_len : Z;
  mmap_desc_size : Z;
  mmap_desc_ver : Z;
  rsdp : Z;
  kernel_base : Z;
  kernel_size : Z;
  stack_top : Z;
  stack_size : Z;
  bi_exit_port : Z;
  bi_reserved : Z;
  user_phys : Z;
  user_size : Z;
  user_vaddr : Z;
  user_entry : Z
}.

Inductive BootInfoError : Type :=
| WrongMagic (found : Z)
| UnsupportedVersion (found supported : Z)
| TooSmall (size expected : Z).

(** The width of each field in bytes, in the order of declaration; the
    alignment of an integer is its width. *)
Definition field_widths : list nat :=
  [8; 4; 4; 8; 8; 4; 4; 8; 8; 8; 8; 8; 4; 4; 8; 8; 8; 8]%nat.

(** [#[repr(C)]]: each field at the next multiple of its alignment, the size
    rounded up to the greatest alignment. *)
Definition align_up (o a : Z) : Z := div_ceil o a * a.
Fixpoint repr_c (ws : list nat) (o : Z) : list Z * Z :=
  match ws with
  | [] => ([], o)
  | w :: ws =>
      let here := align_up o (Z.of_nat w) in
      let (os, stop) := repr_c ws (here + Z.of_nat w) in
      (here :: os, stop)
  end.
Definition field_offsets : list Z := fst (repr_c field_widths 0).
(** [size_of::<BootInfo>()]. *)
Definition size_of_boot_info : Z :=
  align_up (snd (repr_c field_widths 0)) (foldr Z.max 1 (Z.of_nat <$> field_widths)).

(** ** Operations *)
Definition default : BootInfo := mkBootInfo 0 0 0 0 0 0 0 0 0 0 0 0 0 0 0 0 0 0.

Definition new : BootInfo :=
  mkBootInfo BOOT_INFO_MAGIC BOOT_INFO_VERSION size_of_boot_info 0 0 0 0 0 0 0 0 0 0 0 0 0 0 0.

Definition validate (b : BootInfo) : Result unit BootInfoError :=
  if negb (magic b =? BOOT_INFO_MAGIC) then Err (WrongMagic (magic b))
  else
    let* expected := (if bi_version b =? 0 then Some BOOT_INFO_SIZE_V0
                      else if bi_version b =? BOOT_INFO_VERSION then Some size_of_boot_info else None)
      else Err (UnsupportedVersion (bi_version b) BOOT_INFO_VERSION) in
    if bi_size b <? expected then Err (TooSmall (bi_size b) expected) else Ok tt.

Definition has_user_image (b : BootInfo) : bool :=
  (1 <=? bi_version b) && (size_of_boot_info <=? bi_size b) && negb (user_phys b =? 0)
  && negb (user_size b =? 0) && negb (user_vaddr b =? 0) && negb (user_entry b =? 0).

Definition user_vaddr_end (b : BootInfo) : Z := saturating_add (user_vaddr b) (user_size b).

Definition has_memory_map (b : BootInfo) : bool :=
  negb (mmap_ptr b =? 0) && negb (mmap_len b =? 0) && negb (mmap_desc_size b =? 0).

Definition exit_enabled (b : BootInfo) : bool := negb (bi_exit_port b =? 0).

Definition qemu_exit_code (value : Z) : Z := Z.lor (Z.shiftl value 1) 1.

Definition EXIT_CODE_BOOTLOADER_OK : Z := qemu_exit_code EXIT_VALUE_BOOTLOADER_OK.
Definition EXIT_CODE_LOAD_FAILURE : Z := qemu_exit_code EXIT_VALUE_LOAD_FAILURE.
Definition EXIT_CODE_KERNEL_OK : Z := qemu_exit_code EXIT_VALUE_KERNEL_OK.
Definition EXIT_CODE_KERNEL_FAILURE : Z := qemu_exit_code EXIT_VALUE_KERNEL_FAILURE.
Definition EXIT_CODE_KERNEL_FAULT : Z := qemu_exit_code EXIT_VALUE_KERNEL_FAULT.
Definition EXIT_CODE_KERNEL_MEMORY_FAILURE : Z := qemu_exit_code EXIT_VALUE_KERNEL_MEMORY_FAILURE.
Definition EXIT_CODE_KERNEL_SCHED_FAILURE : Z := qemu_exit_code EXIT_VALUE_KERNEL_SCHED_FAILURE.
Definition EXIT_CODE_USER_FAILURE : Z := qemu_exit_code EXIT_VALUE_USER_FAILURE.

(** ** The structure in memory *)
Definition fields (b : BootInfo) : list Z :=
  [magic b; bi_version b; bi_size b; mmap_ptr b; mmap_len b; mmap_desc_size b; mmap_desc_ver b;
   rsdp b; kernel_base b; kernel_size b; stack_top b; stack_size b; bi_exit_port b; bi_reserved b;
   user_phys b; user_size b; user_vaddr b; user_entry b].

Definition width_ok (w : nat) (v : Z) : Prop := 0 <= v < 2 ^ (8 * Z.of_nat w).
Definition boot_info_ok (b : BootInfo) : Prop := Forall2 width_ok field_widths (fields b).

(** What [ptr.write(info)] leaves in the 120 bytes (the layout has no gap). *)
Definition encode (b : BootInfo) : list Z := concat (zip_with le_bytes field_widths (fields b)).

(** A field read through [&*ptr]: [k] is its position in the declaration. *)
Definition read_field (page : list Z) (k : nat) : Z :=
  le_val (sub_list page (nth k field_offsets 0) (Z.of_nat (nth k field_widths 0%nat))).
Definition decode (page : list Z) : BootInfo :=
  mkBootInfo (read_field page 0) (read_field page 1) (read_field page 2) (read_field page 3)
    (read_field page 4) (read_field page 5) (read_field page 6) (read_field page 7)
    (read_field page 8) (read_field page 9) (read_field page 10) (read_field page 11)
    (read_field page 12) (read_field page 13) (read_field page 14) (read_field page 15)
    (read_field page 16) (read_field page 17).

(** ** Lemmas *)
Lemma size_of_boot_info_eq : size_of_boot_info = 120.
Proof. vm_compute. reflexivity. Qed.

Lemma field_offsets_eq :
  field_offsets = [0; 8; 12; 16; 24; 32; 36; 40; 48; 56; 64; 72; 80; 84; 88; 96; 104; 112].
Proof. vm_compute. reflexivity. Qed.

Definition sum_widths (ws : list nat) : Z := foldr (fun w s => Z.of_nat w + s) 0 ws.

Lemma len_encode_fields ws vs :
  length ws = length vs -> len (concat (zip_with le_bytes ws vs)) = sum_widths ws.
Proof.
  revert vs. induction ws as [|w ws IH]; intros [|v vs] Hl; try done.
  cbn [zip_with concat]. rewrite len_app, len_le_bytes, IH by (simpl in Hl; lia). done.
Qed.

Lemma sub_list_app_l {A : Type} (l k : list A) i n :
  0 <= i -> 0 <= n -> i + n <= len l -> sub_list (l ++ k) i n = sub_list l i n.
Proof.
  intros. apply list_eq. intros j. destruct (decide (j < Z.to_nat n)%nat).
  - rewrite !sub_list_lookup by lia. apply lookup_app_l. unfold len in *. lia.
  - unfold sub_list. by rewrite !lookup_take_ge by lia.
Qed.

Lemma sub_list_app_r {A : Type} (l k : list A) i n :
  len l <= i -> 0 <= n -> sub_list (l ++ k) i n = sub_list k (i - len l) n.
Proof.
  intros. pose proof (len_nonneg l). apply list_eq. intros j. destruct (decide (j < Z.to_nat n)%nat).
  - rewrite !sub_list_lookup by lia. rewrite lookup_app_r by (unfold len in *; lia).
    f_equal. unfold len in *. lia.
  - unfold sub_list. by rewrite !lookup_take_ge by lia.
Qed.

Lemma sub_list_all {A : Type} (l : list A) : sub_list l 0 (len l) = l.
Proof. unfold sub_list, len. rewrite Nat2Z.id. simpl. apply firstn_all. Qed.

(** Field [k] of the encoding starts after the widths before it. *)
Lemma encoded_field ws vs k w v rest :
  ws !! k = Some w -> vs !! k = Some v -> length ws = length vs -> width_ok w v ->
  le_val (sub_list (concat (zip_with le_bytes ws vs) ++ rest) (sum_widths (take k ws)) (Z.of_nat w)) = v.
Proof.
  revert vs k. induction ws as [|w0 ws IH]; intros [|v0 vs] k Hw Hv Hl Hok; try done.
  cbn [zip_with concat]. rewrite <- app_assoc. destruct k as [|k]; simpl in Hw, Hv.
  - injection Hw as ->. injection Hv as ->. cbn [take sum_widths foldr].
    rewrite sub_list_app_l by (rewrite ?len_le_bytes; lia).
    rewrite <- (len_le_bytes w v) at 1. rewrite sub_list_all, le_val_le_bytes. by apply Z.mod_small.
  - cbn [take]. change (sum_widths (w0 :: take k ws)) with (Z.of_nat w0 + sum_widths (take k ws)).
    assert (0 <= sum_widths (take k ws)).
    { unfold sum_widths. clear. induction (take k ws); simpl; lia. }
    rewrite sub_list_app_r by (rewrite ?len_le_bytes; lia). rewrite len_le_bytes.
    replace (Z.of_nat w0 + sum_widths (take k ws) - Z.of_nat w0) with (sum_widths (take k ws)) by lia.
    apply IH; try done. simpl in Hl. lia.
Qed.

Lemma read_field_encode b rest k w v :
  boot_info_ok b -> field_widths !! k = Some w -> fields b !! k = Some v ->
  nth k field_offsets 0 = sum_widths (take k field_widths) ->
  read_field (encode b ++ rest) k = v.
Proof.
  intros Hok Hw Hv Ho. unfold read_field, encode. rewrite Ho.
  replace (nth k field_widths 0%nat) with w by (symmetry; by apply nth_lookup_Some).
  apply (encoded_field field_widths (fields b) k w v); try done.
  by eapply (Forall2_lookup_lr width_ok).
Qed.

Lemma decode_encode_eq b rest : boot_info_ok b -> decode (encode b ++ rest) = b.
Proof.
  intros Hok. unfold decode.
  repeat (erewrite read_field_encode; [|exact Hok|reflexivity|reflexivity|reflexivity]).
  by destruct b.
Qed.

Lemma len_encode_boot_info b : len (encode b) = size_of_boot_info.
Proof. unfold encode. rewrite len_encode_fields by done. reflexivity. Qed.

(** ** Claims *)

(** (boot-info, [BootInfo]): the [repr(C)] layout is the one the interface
    pins (version 0 is the first 88 bytes of version 1's 120), and a structure
    one side writes at the start of a page is read back unchanged by the
    other, field by field at those offsets, whatever follows it. *)
Lemma boot_info_roundtrip b rest :
  boot_info_ok b ->
  field_offsets = [0; 8; 12; 16; 24; 32; 36; 40; 48; 56; 64; 72; 80; 84; 88; 96; 104; 112] /\
  size_of_boot_info = 120 /\ len (encode b) = 120 /\ decode (encode b ++ rest) = b /\
  sum_widths (take 14 field_widths) = BOOT_INFO_SIZE_V0.
Proof.
  intros Hok. split_and!; [exact field_offsets_eq|exact size_of_boot_info_eq| |by apply decode_encode_eq|done].
  by rewrite len_encode_boot_info, size_of_boot_info_eq.
Qed.

Definition demo_boot_info : BootInfo :=
  mkBootInfo BOOT_INFO_MAGIC 1 120 0x7000 12 48 1 0xE0000 0x100000 0x200000 0x90000 0x10000 0xF4 0
    0x400000 0x2000 0x100000000 0x100000100.

Lemma demo_boot_info_ok : boot_info_ok demo_boot_info.
Proof. repeat constructor; vm_compute; congruence. Qed.

Lemma boot_info_roundtrip_witness : decode (encode demo_boot_info ++ [1; 2; 3]) = demo_boot_info.
Proof. apply (boot_info_roundtrip demo_boot_info [1; 2; 3] demo_boot_info_ok). Defined.

(** (boot-info, [validate], [has_user_image]): a structure is accepted
    exactly when its magic is right and it is version 0 with at least 88 bytes
    or version 1 with at least 120; the errors are tested in the order magic,
    version, size; and an accepted structure that offers a user image is
    version 1 and covers the user fields, so that these are never read past
    the size it declares. *)
Lemma validate_exact b :
  match validate b with
  | Ok _ => magic b = BOOT_INFO_MAGIC /\
      ((bi_version b = 0 /\ 88 <= bi_size b) \/ (bi_version b = 1 /\ 120 <= bi_size b)) /\
      (has_user_image b = true -> bi_version b = 1 /\ Forall (fun o => o + 8 <= bi_size b) (drop 14 field_offsets))
  | Err (WrongMagic f) => f = magic b /\ magic b <> BOOT_INFO_MAGIC
  | Err (UnsupportedVersion f s) => magic b = BOOT_INFO_MAGIC /\ f = bi_version b /\ s = 1 /\
      bi_version b <> 0 /\ bi_version b <> 1
  | Err (TooSmall s e) => magic b = BOOT_INFO_MAGIC /\ s = bi_size b /\ bi_size b < e /\
      ((bi_version b = 0 /\ e = 88) \/ (bi_version b = 1 /\ e = 120))
  end.
Proof.
  unfold validate, BOOT_INFO_SIZE_V0. rewrite size_of_boot_info_eq.
  destruct (Z.eqb_spec (magic b) BOOT_INFO_MAGIC); cbn [negb]; [|done].
  destruct (Z.eqb_spec (bi_version b) 0) as [Hv|]; [|destruct (Z.eqb_spec (bi_version b) BOOT_INFO_VERSION) as [Hv|]; [|done]].
  - destruct (Z.ltb_spec (bi_size b) 88); [split_and!; auto; lia|]. split_and!; [done|lia|].
    unfold has_user_image. rewrite Hv. done.
  - unfold BOOT_INFO_VERSION in Hv. destruct (Z.ltb_spec (bi_size b) 120); [split_and!; auto; lia|].
    split_and!; [done|lia|]. intros _. split; [done|]. rewrite field_offsets_eq. simpl.
    repeat constructor; lia.
Qed.

(** (boot-info, [qemu_exit_code]): the exit code of the emulator determines
    the value the guest wrote, is never the 0 of a normal exit, and the eight
    values of the protocol give 33, 35, ..., 47. *)
Lemma exit_codes_distinct v w :
  is_u8 v -> is_u8 w ->
  (qemu_exit_code v = qemu_exit_code w -> v = w) /\ qemu_exit_code v = 2 * v + 1 /\
  [EXIT_CODE_BOOTLOADER_OK; EXIT_CODE_LOAD_FAILURE; EXIT_CODE_KERNEL_OK; EXIT_CODE_KERNEL_FAILURE;
   EXIT_CODE_KERNEL_FAULT; EXIT_CODE_KERNEL_MEMORY_FAILURE; EXIT_CODE_KERNEL_SCHED_FAILURE;
   EXIT_CODE_USER_FAILURE] = [33; 35; 37; 39; 41; 43; 45; 47].
Proof.
  intros Hv Hw.
  assert (Hq : forall x, is_u8 x -> qemu_exit_code x = 2 * x + 1).
  { intros x Hx. unfold qemu_exit_code. rewrite Z.shiftl_mul_pow2 by lia. change (2 ^ 1) with 2.
    rewrite Z.mul_comm. destruct x; [reflexivity..|ulia]. }
  rewrite !Hq by done. split_and!; [lia|done|]. vm_compute. reflexivity.
Qed.

Lemma exit_codes_distinct_witness :
  qemu_exit_code EXIT_VALUE_KERNEL_OK = 2 * EXIT_VALUE_KERNEL_OK + 1.
Proof.
  apply (exit_codes_distinct EXIT_VALUE_KERNEL_OK EXIT_VALUE_KERNEL_FAULT); vm_compute; split; discriminate.
Defined.
