(* ===== verification/PhysMem.v ===== *)
(** * Physical memory and frames on it

    The kernel and the bootloader reach memory through raw pointers: a
    [read_volatile] or [write_volatile] of a [u64], [ptr::write_bytes],
    [copy_nonoverlapping].  Memory is a function from addresses to bytes; the
    identity mapping proved in [Paging] is what makes a physical address and a
    kernel pointer the same number.  The lemmas say what a read sees after a
    write, word by word and byte range by byte range. *)
From Stdlib Require Import ZArith Lia Bool.
From stdpp Require Import base tactics option list numbers.
From S2P Require Import Prelude.

#[local] Open Scope Z_scope.

Definition memory : Type := Z -> Z.

(** [ptr::copy_nonoverlapping] of the bytes [bs], and [ptr::write_bytes]. *)
Definition copy_to (m : memory) (dest : Z) (bs : list Z) : memory :=
  fun a => match get bs (a - dest) with Some b => b | None => m a end.
Definition write_bytes (m : memory) (dest v n : Z) : memory :=
  fun a => if (dest <=? a) && (a <? dest + n) then v else m a.

(** The bytes of [[a, a + n)]. *)
Definition read_bytes (m : memory) (a n : Z) : list Z :=
  (fun i : nat => m (a + Z.of_nat i)) <$> seq 0 (Z.to_nat n).

(** [read_volatile] and [write_volatile] of a [u64]. *)
Definition read64 (m : memory) (a : Z) : Z := le_val (read_bytes m a 8).
Definition write64 (m : memory) (a v : Z) : memory := copy_to m a (le_bytes 8 v).

(** A sequence of words laid out from [a] on, as a [repr(C)] struct of [u64]s. *)
Fixpoint read_words (m : memory) (a : Z) (n : nat) : list Z :=
  match n with
  | O => []
  | S n => read64 m a :: read_words m (a + 8) n
  end.

Definition mem_ok (m : memory) : Prop := forall a, is_u8 (m a).

(** Two memories that hold the same bytes on [[a, a + n)]. *)
Definition same_on (a n : Z) (m1 m2 : memory) : Prop :=
  forall b, a <= b < a + n -> m1 b = m2 b.

(** ** Lemmas *)
Lemma copy_to_in m dest bs a b : get bs (a - dest) = Some b -> copy_to m dest bs a = b.
Proof. intros H. unfold copy_to. by rewrite H. Qed.

Lemma copy_to_out m dest bs a : a < dest \/ dest + len bs <= a -> copy_to m dest bs a = m a.
Proof.
  intros H. unfold copy_to. destruct (get bs (a - dest)) eqn:E; [|done].
  apply get_in_range in E. lia.
Qed.

Lemma read_bytes_ext m1 m2 a n : same_on a n m1 m2 -> read_bytes m1 a n = read_bytes m2 a n.
Proof.
  intros H. apply list_fmap_ext. intros i x Hx. apply lookup_seq in Hx. apply H. lia.
Qed.

Lemma read_bytes_lookup m a n j :
  Z.of_nat j < n -> read_bytes m a n !! j = Some (m (a + Z.of_nat j)).
Proof. intros Hj. unfold read_bytes. rewrite list_lookup_fmap, lookup_seq_lt by lia. reflexivity. Qed.

Lemma len_read_bytes m a n : 0 <= n -> len (read_bytes m a n) = n.
Proof. intros H. unfold len, read_bytes. rewrite length_fmap, length_seq. lia. Qed.

Lemma read_bytes_copy_to m a bs : read_bytes (copy_to m a bs) a (len bs) = bs.
Proof.
  apply list_eq. intros i. unfold read_bytes. rewrite list_lookup_fmap.
  unfold len. rewrite Nat2Z.id. destruct (decide (i < length bs)%nat) as [Hi|Hi].
  - rewrite lookup_seq_lt by done. simpl.
    destruct (lookup_lt_is_Some_2 bs i Hi) as [b Hb]. rewrite Hb. f_equal.
    apply copy_to_in. apply get_some. split; [lia|]. rewrite <- Hb. f_equal. lia.
  - rewrite lookup_seq_ge by lia. simpl. symmetry. apply lookup_ge_None_2. lia.
Qed.

Lemma read64_ext m1 m2 a : same_on a 8 m1 m2 -> read64 m1 a = read64 m2 a.
Proof. intros H. unfold read64. by rewrite (read_bytes_ext m1 m2). Qed.

Lemma same_on_sub a n b k m1 m2 :
  same_on a n m1 m2 -> a <= b -> b + k <= a + n -> same_on b k m1 m2.
Proof. intros H Ha Hb c Hc. apply H. lia. Qed.

Lemma same_on_refl a n m : same_on a n m m.
Proof. done. Qed.

Lemma same_on_trans a n m1 m2 m3 : same_on a n m1 m2 -> same_on a n m2 m3 -> same_on a n m1 m3.
Proof. intros H1 H2 b Hb. by rewrite H1, H2. Qed.

Lemma same_on_sym a n m1 m2 : same_on a n m1 m2 -> same_on a n m2 m1.
Proof. intros H b Hb. by rewrite H. Qed.

#[export] Instance same_on_equivalence a n : Equivalence (same_on a n).
Proof.
  split; [exact (same_on_refl a n) | exact (same_on_sym a n) | exact (same_on_trans a n)].
Qed.

#[export] Instance read64_proper a : Proper (same_on a 8 ==> eq) (fun m => read64 m a).
Proof. intros m1 m2 H. by apply read64_ext. Qed.

Lemma copy_to_same_on m dest bs a n :
  a + n <= dest \/ dest + len bs <= a -> same_on a n (copy_to m dest bs) m.
Proof. intros H b Hb. apply copy_to_out. lia. Qed.

Lemma write64_same_on m a v b n : b + n <= a \/ a + 8 <= b -> same_on b n (write64 m a v) m.
Proof. intros H. apply copy_to_same_on. rewrite len_le_bytes. lia. Qed.

Lemma write_bytes_same_on m dest v k a n :
  a + n <= dest \/ dest + k <= a -> same_on a n (write_bytes m dest v k) m.
Proof.
  intros H b Hb. unfold write_bytes.
  destruct ((dest <=? b) && (b <? dest + k)) eqn:E; [lia|done].
Qed.

Lemma read64_write64 m a v : is_u64 v -> read64 (write64 m a v) a = v.
Proof.
  intros Hv. unfold read64, write64. pose proof (read_bytes_copy_to m a (le_bytes 8 v)) as H.
  rewrite len_le_bytes in H. change (Z.of_nat 8) with 8 in H. rewrite H. by apply le_val_u64.
Qed.

Lemma read64_write64_ne m a v b : b + 8 <= a \/ a + 8 <= b -> read64 (write64 m a v) b = read64 m b.
Proof. intros H. apply read64_ext, write64_same_on. lia. Qed.

Lemma read64_zeroed m dest n a :
  dest <= a -> a + 8 <= dest + n -> read64 (write_bytes m dest 0 n) a = 0.
Proof.
  intros H1 H2. unfold read64.
  assert (E : forall k : nat, (k < 8)%nat -> write_bytes m dest 0 n (a + Z.of_nat k) = 0).
  { intros k Hk. unfold write_bytes. by rewrite (proj2 (andb_true_iff _ _)) by lia. }
  unfold read_bytes. change (Z.to_nat 8) with 8%nat. cbn [seq fmap list_fmap le_val].
  rewrite !E by lia. done.
Qed.

Lemma write64_out m a v b : b < a \/ a + 8 <= b -> write64 m a v b = m b.
Proof. intros H. apply copy_to_out. rewrite len_le_bytes. lia. Qed.

Lemma write64_ok m a v : mem_ok m -> mem_ok (write64 m a v).
Proof.
  intros Hm b. unfold write64, copy_to. destruct (get (le_bytes 8 v) (b - a)) eqn:E; [|apply Hm].
  pose proof (le_bytes_ok 8 v) as H. unfold bytes_ok in H. rewrite List.Forall_forall in H. apply H.
  apply get_some in E as [_ E]. apply list_elem_of_lookup_2 in E. by apply list_elem_of_In.
Qed.

Lemma write_bytes_ok m dest v n : is_u8 v -> mem_ok m -> mem_ok (write_bytes m dest v n).
Proof. intros Hv Hm b. unfold write_bytes. by case_match. Qed.

Lemma read64_u64 m a : mem_ok m -> is_u64 (read64 m a).
Proof.
  intros Hm. unfold read64. pose proof (le_val_bound (read_bytes m a 8)) as H.
  rewrite len_read_bytes in H by lia. assert (bytes_ok (read_bytes m a 8)) as Hb.
  { apply List.Forall_forall. intros x Hx. apply list_elem_of_In in Hx.
    apply list_elem_of_fmap in Hx as (i & -> & _). apply Hm. }
  specialize (H Hb). ulia.
Qed.

Lemma read_words_ext m1 m2 a n :
  same_on a (8 * Z.of_nat n) m1 m2 -> read_words m1 a n = read_words m2 a n.
Proof.
  revert a. induction n as [|n IH]; intros a H; [done|]. cbn [read_words]. f_equal.
  - apply read64_ext. eapply same_on_sub; [exact H|lia|lia].
  - apply IH. eapply same_on_sub; [exact H|lia|lia].
Qed.

Lemma length_read_words m a n : length (read_words m a n) = n.
Proof. revert a. induction n; intros a; simpl; [done|by rewrite IHn]. Qed.

Lemma read_words_lookup m a n i :
  (i < n)%nat -> read_words m a n !! i = Some (read64 m (a + 8 * Z.of_nat i)).
Proof.
  revert a i. induction n as [|n IH]; intros a i Hi; [lia|]. destruct i as [|i]; simpl.
  - do 2 f_equal. lia.
  - rewrite IH by lia. do 2 f_equal. lia.
Qed.

Lemma copy_to_ok m dest bs : bytes_ok bs -> mem_ok m -> mem_ok (copy_to m dest bs).
Proof.
  intros Hb Hm a. unfold copy_to. destruct (get bs (a - dest)) eqn:E; [|apply Hm].
  unfold bytes_ok in Hb. rewrite List.Forall_forall in Hb. apply Hb.
  apply get_some in E as [_ E]. apply list_elem_of_lookup_2 in E. by apply list_elem_of_In.
Qed.
