(* ===== verification/Loader.v ===== *)
(** * The image loader (src/bootloader/fs_loader.rs)

    [FsLoader::load]: read an ELF image from the boot volume, run the checks of
    [KernelImage], allocate the pages of each segment once and copy the
    segments to their physical addresses.  The firmware is an interface
    ([Firmware]) with the documented behaviour of its page allocator as laws;
    physical memory is a function from addresses to bytes.  The theorems: a
    well-formed image ends up in memory byte for byte, with its zero-filled
    tails, and no other byte changes; an image that fails a check changes
    neither memory nor the firmware's allocations; and on any firmware the call
    returns, with an error that tells why, except for the images whose
    addresses make the loader's own arithmetic overflow, which are named. *)
From Stdlib Require Import ZArith Lia Bool String.
From stdpp Require Import base tactics option list numbers.
From S2P Require Import Prelude KernelImage PhysMem.

#[local] Open Scope Z_scope.

(** ** The firmware *)

(** The boot services the loader calls: [boot::get_image_file_system],
    [FileSystem::read] and [boot::allocate_pages] with [AllocateType::Address]
    for one page and with [AllocateType::AnyPages].  [E] is [uefi::Error],
    [FE] is [fs::Error]. *)
Class Firmware (F E FE : Type) : Type := {
  get_image_file_system : F -> Result unit E * F;
  read_file : F -> string -> Result (list Z) FE * F;
  allocate_address : F -> Z -> Result unit E * F;
  allocate_any : F -> Z -> Result Z E * F
}.

(** What the loader relies on: opening the volume and reading do not allocate,
    the same file is read again with the same contents, an available page is
    granted and other pages stay available, and any pages are page-aligned and
    lie in the address space. *)
Class FirmwareLaws (F E FE : Type) `{Firmware F E FE} : Type := {
  available : F -> Z -> Prop;
  holds_file : F -> string -> list Z -> Prop;
  open_volume : forall f path data, holds_file f path data ->
    exists f', get_image_file_system f = (Ok tt, f') /\ holds_file f' path data /\
      forall p, available f p -> available f' p;
  read_volume : forall f path data, holds_file f path data ->
    exists f', read_file f path = (Ok data, f') /\ forall p, available f p -> available f' p;
  grant_page : forall f p, available f p ->
    exists f', allocate_address f p = (Ok tt, f') /\ forall q, q <> p -> available f q -> available f' q;
  any_aligned : forall f n a f', allocate_any f n = (Ok a, f') ->
    a mod 4096 = 0 /\ 0 < a /\ a + n * 4096 <= U64_MAX
}.

(** ** Data *)
Definition KERNEL_PATH : string := "\EFI\PARANUKO\KERNEL.ELF".
Definition USER_PATH : string := "\EFI\PARANUKO\USER.ELF".
Definition MAX_KERNEL_PAGES : Z := 256.

Record LoadedKernel : Type := mkLoaded {
  lk_base : Z;
  lk_size : Z;
  lk_entry : Z;
  lk_segments : Z;
  vaddr_delta : Z
}.

Inductive LoadError (E FE : Type) : Type :=
| Efi (e : E)
| Fs (e : FE)
| Image (e : ImageError)
| Segment_ (e : SegmentError)
| TooManyPages (n : Z).

Arguments Efi {E FE} _.
Arguments Fs {E FE} _.
Arguments Image {E FE} _.
Arguments Segment_ {E FE} _.
Arguments TooManyPages {E FE} _.

(** What [uefi] says of its errors: the status a [uefi::Error] carries, the
    [uefi::Error] inside an [fs::Error::Io], and the statuses [LoadError::status]
    names.  [St] is [uefi::Status]. *)
Class UefiStatus (E FE St : Type) : Type := {
  efi_status : E -> St;
  io_error : FE -> option E;
  is_success : St -> bool;
  VOLUME_CORRUPTED : St;
  LOAD_ERROR : St;
  OUT_OF_RESOURCES : St
}.

(** An error's status, and the three named ones, are failures. *)
Class UefiStatusLaws (E FE St : Type) `{UefiStatus E FE St} : Prop := {
  efi_status_fails : forall e, is_success (efi_status e) = false;
  named_status_fails : is_success VOLUME_CORRUPTED = false /\ is_success LOAD_ERROR = false /\
    is_success OUT_OF_RESOURCES = false
}.

Definition status {E FE St : Type} `{UefiStatus E FE St} (err : LoadError E FE) : St :=
  match err with
  | Efi err => efi_status err
  | Fs err => match io_error err with Some err => efi_status err | None => VOLUME_CORRUPTED end
  | Image _ | Segment_ _ => LOAD_ERROR
  | TooManyPages _ => OUT_OF_RESOURCES
  end.

Lemma status_fails {E FE St : Type} `{UefiStatusLaws E FE St} (err : LoadError E FE) :
  is_success (status err) = false.
Proof.
  destruct (named_status_fails) as (H1 & H2 & H3).
  destruct err as [e|e| | |]; cbn [status]; try done; [apply efi_status_fails|].
  destruct (io_error e); [apply efi_status_fails|done].
Qed.

(** [x as i64] and the checked [-] on [i64]. *)
Definition as_i64 (x : Z) : Z := if x <? 2 ^ 63 then x else x - 2 ^ 64.
Definition sub_i64 (a b : Z) : exec Z :=
  if (- 2 ^ 63 <=? a - b) && (a - b <? 2 ^ 63) then Done (a - b) else Panic.

(** [let x = m?] where [fail] is the function's return on an error. *)
Definition attempt {A B E : Type} (m : exec (Result A E)) (fail : E -> B) (k : A -> exec B) : exec B :=
  let! r := m in match r with Ok a => k a | Err e => Done (fail e) end.

Notation "'try' x ':=' m 'catch' f 'in' k" := (attempt m f (fun x => k))
  (at level 10, x pattern, m at level 100, f at level 100, k at level 200) : rust_scope.

Section Loader.
  Context {F E FE : Type} `{!Firmware F E FE}.

  Local Notation LoadError := (LoadError E FE).

(** The loader's state: the firmware, the physical memory, and the first
    [allocated_len] elements of the array [allocated]. *)
Record LoadState : Type := mkLoad {
  firmware : F;
  phys : memory;
  allocated : list Z
}.

(** ** Operations *)

(** [while page < page_end]; the fuel is the number of pages. *)
Fixpoint alloc_pages (fuel : nat) (page page_end : Z) (st : LoadState) :
    exec (LoadState + LoadState * LoadError) :=
  if page <? page_end then
    match fuel with
    | O => Panic
    | S fuel =>
        if existsb (Z.eqb page) (allocated st) then
          let! next_page := add64 page PAGE_SIZE in alloc_pages fuel next_page page_end st
        else if len (allocated st) =? MAX_KERNEL_PAGES then
          Done (inr (st, TooManyPages (len (allocated st) + 1)))
        else
          match allocate_address (firmware st) page with
          | (Err e, fw) => Done (inr (mkLoad fw (phys st) (allocated st), Efi e))
          | (Ok _, fw) =>
              let! next_page := add64 page PAGE_SIZE in
              alloc_pages fuel next_page page_end (mkLoad fw (phys st) (allocated st ++ [page]))
          end
    end
  else Done (inl st).

(** One round of the loading loop. *)
Definition load_segment (data : list Z) (st : LoadState) (s : Segment) :
    exec (LoadState + LoadState * LoadError) :=
  let! (page_start, page_end) := page_range s in
  let! r := alloc_pages (Z.to_nat ((page_end - page_start) / PAGE_SIZE)) page_start page_end st in
  match r with
  | inr err => Done (inr err)
  | inl st =>
      let! file_end := add64 (offset s) (filesz s) in
      let! bytes := slice data (offset s) file_end in
      let m := copy_to (phys st) (paddr s) bytes in
      let! bss_len := sub64 (memsz s) (filesz s) in
      let m := if 0 <? bss_len then write_bytes m (paddr s + (file_end - offset s)) 0 bss_len else m in
      let! _ := add64 (paddr s) (memsz s) in
      Done (inl (mkLoad (firmware st) m (allocated st)))
  end.

Definition load (fw : F) (m : memory) (path : string) :
    exec (Result LoadedKernel LoadError * LoadState) :=
  let (opened, fw) := get_image_file_system fw in
  try _ := Done opened catch (fun e => (Err (Efi e), mkLoad fw m [])) in
  let (contents, fw) := read_file fw path in
  try data := Done contents catch (fun e => (Err (Fs e), mkLoad fw m [])) in
  let fail e := (Err (Segment_ e), mkLoad fw m []) in
  try entry := validate data catch (fun e => (Err (Image e), mkLoad fw m [])) in
  try count := check_segments data catch fail in
  try _ := check_no_overlap data catch fail in
  try _ := check_entry data entry catch fail in
  try (lo, hi) := loaded_span data catch fail in
  try it := segments data catch fail in
  let! (first, _) := next it in
  let* first := first else Done (fail EmptySegment) in
  try first := Done first catch fail in
  let! delta := sub_i64 (as_i64 (vaddr first)) (as_i64 (paddr first)) in
  try it := segments data catch fail in
  let! r := for_segments (Z.to_nat (remaining it)) it (mkLoad fw m []) (load_segment data)
              (fun st e => (st, Segment_ e)) in
  match r with
  | inr (st, e) => Done (Err e, st)
  | inl st =>
      let! size := sub64 hi lo in
      Done (Ok (mkLoaded lo size entry count delta), st)
  end.

Definition load_kernel (fw : F) (m : memory) : exec (Result LoadedKernel LoadError * LoadState) :=
  load fw m KERNEL_PATH.
Definition load_user (fw : F) (m : memory) : exec (Result LoadedKernel LoadError * LoadState) :=
  load fw m USER_PATH.
End Loader.

(** ** Specification *)

(** The byte segment [s] of [data] puts at its offset [i]. *)
Definition seg_byte (data : list Z) (s : Segment) (i : Z) : Z :=
  if i <? filesz s then match get data (offset s + i) with Some b => b | None => 0 end else 0.
Definition in_segment (s : Segment) (a : Z) : bool := (paddr s <=? a) && (a <? paddr s + memsz s).

(** A page the segment touches. *)
Definition page_of (s : Segment) (p : Z) : Prop :=
  p mod PAGE_SIZE = 0 /\ page_down (paddr s) <= p < page_up (paddr s + memsz s).

(** Memory after the segments have been placed one after the other. *)
Fixpoint placed (data : list Z) (l : list Segment) (a d : Z) : Z :=
  match l with
  | [] => d
  | s :: l => placed data l a (if in_segment s a then seg_byte data s (a - paddr s) else d)
  end.

Lemma placed_out data l a d : (forall s, s ∈ l -> in_segment s a = false) -> placed data l a d = d.
Proof.
  revert d. induction l as [|s l IH]; intros d Hout; [done|]. cbn [placed].
  rewrite (Hout s) by left. apply IH. intros x Hx. apply Hout. by right.
Qed.

Lemma placed_in data l s a d :
  ForallOrdPairs (fun x s => seg_overlap s x = false) l -> s ∈ l -> in_segment s a = true ->
  placed data l a d = seg_byte data s (a - paddr s).
Proof.
  revert d. induction l as [|x l IH]; intros d Hd Hs Ha; [by apply elem_of_nil in Hs|].
  inversion Hd as [|? ? Hx Hl]; subst. cbn [placed]. apply elem_of_cons in Hs as [->|Hs].
  - rewrite Ha. apply placed_out. intros y Hy. apply list_elem_of_In in Hy.
    rewrite List.Forall_forall in Hx. specialize (Hx y Hy). unfold seg_overlap, in_segment in *. lia.
  - by apply IH.
Qed.

(** ** Lemmas: memory *)
Lemma copy_then_clear data s m a :
  segment_ok data s -> 0 <= offset s -> 0 <= filesz s ->
  (if 0 <? memsz s - filesz s
   then write_bytes (copy_to m (paddr s) (sub_list data (offset s) (filesz s))) (paddr s + filesz s) 0
          (memsz s - filesz s)
   else copy_to m (paddr s) (sub_list data (offset s) (filesz s))) a =
  if in_segment s a then seg_byte data s (a - paddr s) else m a.
Proof.
  intros (Hm & Hf & Hd & _) Ho Hz.
  assert (Hcopy : copy_to m (paddr s) (sub_list data (offset s) (filesz s)) a =
    if (paddr s <=? a) && (a <? paddr s + filesz s) then seg_byte data s (a - paddr s) else m a).
  { unfold copy_to, seg_byte.
    destruct (Z.leb_spec (paddr s) a) as [H1|H1]; [destruct (Z.ltb_spec a (paddr s + filesz s)) as [H2|H2]|]; cbn [andb].
    - rewrite (proj2 (Z.ltb_lt (a - paddr s) (filesz s))) by lia.
      destruct (get_lt_some data (offset s + (a - paddr s))) as [b Hb]; [lia|]. rewrite Hb.
      replace (get (sub_list data (offset s) (filesz s)) (a - paddr s)) with (Some b); [done|].
      symmetry. apply get_some. split; [lia|]. rewrite sub_list_lookup by lia.
      apply get_some in Hb as [_ Hb]. rewrite <- Hb. f_equal. lia.
    - rewrite (proj2 (get_none _ _)); [done|]. right. rewrite len_sub_list by lia. lia.
    - rewrite (proj2 (get_none _ _)); [done|]. left. lia. }
  destruct (Z.ltb_spec 0 (memsz s - filesz s)); unfold in_segment, write_bytes; rewrite Hcopy; unfold seg_byte;
    clear Hcopy; destruct (Z.leb_spec (paddr s) a), (Z.ltb_spec a (paddr s + filesz s)),
    (Z.ltb_spec a (paddr s + memsz s)), (Z.leb_spec (paddr s + filesz s) a),
    (Z.ltb_spec a (paddr s + filesz s + (memsz s - filesz s))); cbn [andb]; try lia; try done;
    destruct (Z.ltb_spec (a - paddr s) (filesz s)); try lia; done.
Qed.

(** ** Lemmas: the loading loop *)
Section Loading.
  Context {F E FE : Type} `{FirmwareLaws F E FE}.
  Context (cap : list Z) (Hcap : len cap <= MAX_KERNEL_PAGES).

(** The pages of [cap] are either allocated, once, or still available. *)
Record load_inv (st : LoadState) : Prop := mkLoadInv {
  li_nodup : NoDup (allocated st);
  li_cap : forall p, p ∈ allocated st -> p ∈ cap;
  li_free : forall p, p ∈ cap -> p ∉ allocated st -> available (firmware st) p
}.

Lemma load_inv_room st p :
  load_inv st -> p ∈ cap -> p ∉ allocated st -> len (allocated st) < MAX_KERNEL_PAGES.
Proof.
  intros [Hn Hc _] Hp Hnp. assert (Hle : (length (p :: allocated st) <= length cap)%nat).
  { apply NoDup_incl_length.
    - apply NoDup_ListNoDup. by constructor.
    - intros x [<-|Hx]; apply list_elem_of_In; [done|]. by apply Hc, list_elem_of_In. }
  unfold len in *. simpl in Hle. lia.
Qed.

Lemma existsb_elem p l : existsb (Z.eqb p) l = bool_decide (p ∈ l).
Proof.
  destruct (bool_decide_reflect (p ∈ l)) as [Hp|Hp].
  - apply existsb_exists. exists p. split; [by apply list_elem_of_In|apply Z.eqb_refl].
  - apply not_true_iff_false. intros (x & Hx & ->%Z.eqb_eq)%existsb_exists. by apply Hp, list_elem_of_In.
Qed.

Lemma alloc_pages_spec n page st :
  load_inv st -> 0 <= page -> page + Z.of_nat n * PAGE_SIZE <= U64_MAX ->
  (forall i, 0 <= i < Z.of_nat n -> page + i * PAGE_SIZE ∈ cap) ->
  exists st', alloc_pages n page (page + Z.of_nat n * PAGE_SIZE) st = Done (inl st') /\ load_inv st' /\
    phys st' = phys st /\
    forall q, q ∈ allocated st' <->
      q ∈ allocated st \/ exists i, 0 <= i < Z.of_nat n /\ q = page + i * PAGE_SIZE.
Proof.
  revert page st. induction n as [|n IH]; intros page st Hst Hp Hn Hc.
  { exists st. cbn [alloc_pages]. rewrite (proj2 (Z.ltb_ge _ _)) by lia. split_and!; [done..|].
    intros q. split; [by left|]. intros [Hq|(i & Hi & _)]; [done|lia]. }
  assert (Hpos : 0 < PAGE_SIZE) by done.
  cbn [alloc_pages]. rewrite (proj2 (Z.ltb_lt _ _)) by nia.
  rewrite !add64_done by nia.
  assert (Hrange : forall q, q = page \/ (exists i, 0 <= i < Z.of_nat n /\ q = page + PAGE_SIZE + i * PAGE_SIZE) <->
    exists i, 0 <= i < Z.of_nat (S n) /\ q = page + i * PAGE_SIZE).
  { intros q. split.
    - intros [->|(i & Hi & ->)]; [exists 0|exists (i + 1)]; lia.
    - intros (i & Hi & ->). destruct (Z.eq_dec i 0) as [->|]; [left; lia|right]. exists (i - 1). lia. }
  assert (Hc' : forall i, 0 <= i < Z.of_nat n -> page + PAGE_SIZE + i * PAGE_SIZE ∈ cap).
  { intros i Hi. replace (page + PAGE_SIZE + i * PAGE_SIZE) with (page + (i + 1) * PAGE_SIZE) by lia.
    apply Hc. lia. }
  assert (Hpc : page ∈ cap) by (rewrite <- (Z.add_0_r page); apply (Hc 0); lia).
  replace (page + Z.of_nat (S n) * PAGE_SIZE) with (page + PAGE_SIZE + Z.of_nat n * PAGE_SIZE) by lia.
  rewrite existsb_elem. destruct (bool_decide_reflect (page ∈ allocated st)) as [Hin|Hnin].
  - cbn [exec_bind]. destruct (IH (page + PAGE_SIZE) st Hst) as (st' & -> & Hst' & Hph & Hall); [lia|lia|done|].
    exists st'. split_and!; [done..|]. intros q. rewrite Hall, <- Hrange. split; [tauto|].
    intros [?|[->|?]]; tauto.
  - pose proof (load_inv_room st page Hst Hpc Hnin) as Hroom.
    rewrite (proj2 (Z.eqb_neq _ _)) by lia.
    destruct (grant_page (firmware st) page) as (fw & -> & Hfw); [by apply (li_free st Hst)|].
    cbn [exec_bind].
    destruct (IH (page + PAGE_SIZE) (mkLoad fw (phys st) (allocated st ++ [page]))) as (st' & -> & Hst' & Hph & Hall);
      [|lia|lia|done|].
    + destruct Hst as [Hn1 Hc1 Hf1]. constructor; cbn [allocated firmware].
      * apply list.NoDup_app. split_and!; [done| |apply NoDup_singleton].
        intros x Hx ->%list_elem_of_singleton. done.
      * intros x [Hx| ->%list_elem_of_singleton]%elem_of_app; auto.
      * intros x Hx Hnx. rewrite elem_of_app, list_elem_of_singleton in Hnx.
        apply Hfw; [naive_solver|]. apply Hf1; naive_solver.
    + exists st'. split_and!; [done..|]. intros q. rewrite Hall, <- Hrange. cbn [allocated].
      rewrite elem_of_app, list_elem_of_singleton. tauto.
Qed.
End Loading.

(** A segment's pages, counted from its first one. *)
Lemma segment_pages s :
  segment_fields_ok s -> 0 < memsz s -> paddr s + memsz s <= U64_MAX - 4095 ->
  let n := (page_up (paddr s + memsz s) - page_down (paddr s)) / PAGE_SIZE in
  page_up (paddr s + memsz s) = page_down (paddr s) + n * PAGE_SIZE /\ 0 <= n /\
  0 <= page_down (paddr s) /\ page_up (paddr s + memsz s) <= U64_MAX /\
  forall q, page_of s q <-> exists i, 0 <= i < n /\ q = page_down (paddr s) + i * PAGE_SIZE.
Proof.
  intros Hf Hm Ht n. destruct (page_down_up s Hf Hm) as ([a Ha] & [b Hb] & Hlo & Hhi).
  destruct Hf as (_ & Hp & _). pose proof (Z.mod_pos_bound (paddr s) PAGE_SIZE ltac:(done)) as Hmod.
  assert (Hn : n = b - a).
  { unfold n. rewrite Ha, Hb. replace (b * PAGE_SIZE - a * PAGE_SIZE) with ((b - a) * PAGE_SIZE) by lia.
    by apply Z.div_mul. }
  clearbody n.
  pose proof (div_ceil_spec (paddr s + memsz s) PAGE_SIZE ltac:(done)) as Hup.
  fold (page_up (paddr s + memsz s)) in Hup. unfold page_of.
  assert (page_up (paddr s + memsz s) <= U64_MAX) by (unfold page_up in *; elia).
  unfold page_down in *. split_and!; try elia. intros q. split.
  - intros [Hq Hr]. apply Z.div_exact in Hq; [|done]. exists (q / PAGE_SIZE - a). split; [|elia]. elia.
  - intros (i & Hi & ->). split; [|elia]. rewrite Ha. replace (a * PAGE_SIZE + i * PAGE_SIZE) with ((a + i) * PAGE_SIZE) by lia.
    by apply Z.mod_mul.
Qed.

Section LoadList.
  Context {F E FE : Type} `{FirmwareLaws F E FE}.
  Context (cap : list Z) (Hcap : len cap <= MAX_KERNEL_PAGES).
  Context (data : list Z) (Hdata : len data <= ISIZE_MAX).

(** What the loader needs of a segment beyond the checks: its pages are in
    [cap] and it does not end in the last page of the address space. *)
Definition loadable (s : Segment) : Prop :=
  segment_fields_ok s /\ segment_ok data s /\ paddr s + memsz s <= U64_MAX - 4095 /\
  forall p, page_of s p -> p ∈ cap.

Lemma load_segment_spec st s :
  load_inv cap st -> loadable s ->
  exists st', load_segment data st s = Done (inl st') /\ load_inv cap st' /\
    (forall a, phys st' a = if in_segment s a then seg_byte data s (a - paddr s) else phys st a) /\
    forall q, q ∈ allocated st' <-> q ∈ allocated st \/ page_of s q.
Proof.
  intros Hst (Hf & Hok & Ht & Hpg). unfold load_segment. rewrite page_range_done by done.
  rewrite (proj2 (Z.leb_le _ _)) by done. cbn [exec_bind].
  destruct (segment_pages s Hf (proj1 Hok) Ht) as (Hend & Hn & Hlo & Hhi & Hq).
  set (n := (page_up (paddr s + memsz s) - page_down (paddr s)) / PAGE_SIZE) in *.
  destruct (alloc_pages_spec cap Hcap (Z.to_nat n) (page_down (paddr s)) st Hst) as (st1 & Ha & Hst1 & Hph & Hall);
    [done|rewrite Z2Nat.id by lia; lia|intros i Hi; apply Hpg, Hq; exists i; lia|].
  rewrite Z2Nat.id in Ha by lia. rewrite <- Hend in Ha. rewrite Ha. cbn [exec_bind].
  destruct Hf as (Ho & _ & _ & Hfs & _). pose proof Hok as (Hm & Hfm & Hd & Hov).
  rewrite add64_done by ulia. cbn [exec_bind]. unfold slice.
  rewrite (proj2 (get_range_some data _ _ (sub_list data (offset s) (filesz s))))
    by (split_and!; [ulia|ulia|ulia|f_equal; lia]).
  cbn [exec_bind]. rewrite sub64_done by lia. cbn [exec_bind]. rewrite add64_done by lia. cbn [exec_bind].
  replace (offset s + filesz s - offset s) with (filesz s) by lia. rewrite Hph.
  eexists. split; [done|]. split; [destruct Hst1; by constructor|]. split.
  - intros a. cbn [phys]. apply copy_then_clear; [done|ulia|ulia].
  - intros q. cbn [allocated]. rewrite Hall, Hq, Z2Nat.id by lia. done.
Qed.

Lemma load_list_run l st :
  load_inv cap st -> Forall loadable l ->
  exists st', run_list (load_segment data) st l = Done (inl st') /\ load_inv cap st' /\
    (forall a, phys st' a = placed data l a (phys st a)) /\
    forall q, q ∈ allocated st' <-> q ∈ allocated st \/ exists s, s ∈ l /\ page_of s q.
Proof.
  intros Hst Hl. revert st Hst. induction Hl as [|s l Hs _ IH]; intros st Hst; cbn [run_list placed].
  { exists st. split_and!; [done..|]. intros q. split; [by left|].
    intros [?|(s & Hs & _)]; [done|]. by apply elem_of_nil in Hs. }
  destruct (load_segment_spec st s Hst Hs) as (st1 & -> & Hst1 & Hm1 & Ha1). cbn [exec_bind].
  destruct (IH st1 Hst1) as (st2 & -> & Hst2 & Hm2 & Ha2).
  exists st2. split_and!; [done..| |].
  - intros a. by rewrite Hm2, Hm1.
  - intros q. rewrite Ha2, Ha1. split.
    + intros [[?|?]|(x & Hx & ?)]; [by left|right; exists s; split; [left|done]|].
      right. exists x. split; [by right|done].
    + intros [?|(x & [->|Hx]%elem_of_cons & ?)]; [by left; left|by left; right|].
      right. by exists x.
Qed.
End LoadList.

(** ** Lemmas: the loading loop on any firmware *)
Section AnyFirmware.
  Context {F E FE : Type} `{!Firmware F E FE}.

(** Why the loop stops while it asks for pages of [P]: the firmware refuses
    one, or [P] has more pages than the array [allocated] can hold. *)
Definition page_failure (P : Z -> Prop) (e : LoadError E FE) : Prop :=
  match e with
  | Efi e => exists (fw fw' : F) p, P p /\ allocate_address fw p = (Err e, fw')
  | TooManyPages n => exists pages, NoDup pages /\ len pages = n /\ n = MAX_KERNEL_PAGES + 1 /\
      forall p, p ∈ pages -> P p
  | _ => False
  end.

Record pages_ok (P : Z -> Prop) (st : LoadState (F := F)) : Prop := mkPagesOk {
  po_nodup : NoDup (allocated st);
  po_in : forall p, p ∈ allocated st -> P p;
  po_room : len (allocated st) <= MAX_KERNEL_PAGES
}.

Lemma pages_ok_snoc (P : Z -> Prop) st fw m p :
  pages_ok P st -> P p -> p ∉ allocated st -> len (allocated st) <> MAX_KERNEL_PAGES ->
  pages_ok P (mkLoad fw m (allocated st ++ [p])).
Proof.
  intros [Hn Hi Hr] Hp Hnp Hl. constructor; cbn [allocated].
  - apply list.NoDup_app. split_and!; [done| |apply NoDup_singleton]. by intros x Hx ->%list_elem_of_singleton.
  - intros x [Hx| ->%list_elem_of_singleton]%elem_of_app; auto.
  - rewrite len_app. unfold len in *. simpl. lia.
Qed.

Lemma alloc_pages_ends (P : Z -> Prop) n page st :
  pages_ok P st -> 0 <= page -> page + Z.of_nat n * PAGE_SIZE <= U64_MAX ->
  (forall i, 0 <= i < Z.of_nat n -> P (page + i * PAGE_SIZE)) ->
  exists r, alloc_pages n page (page + Z.of_nat n * PAGE_SIZE) st = Done r /\
    match r with
    | inl st' => pages_ok P st' /\ phys st' = phys st
    | inr (st', e) => phys st' = phys st /\ page_failure P e
    end.
Proof.
  revert page st. induction n as [|n IH]; intros page st Hst Hp Hn HP.
  { exists (inl st). cbn [alloc_pages]. by rewrite (proj2 (Z.ltb_ge _ _)) by lia. }
  assert (Hpos : 0 < PAGE_SIZE) by done.
  cbn [alloc_pages]. rewrite (proj2 (Z.ltb_lt _ _)) by nia. rewrite !add64_done by nia.
  assert (HP' : forall i, 0 <= i < Z.of_nat n -> P (page + PAGE_SIZE + i * PAGE_SIZE)).
  { intros i Hi. replace (page + PAGE_SIZE + i * PAGE_SIZE) with (page + (i + 1) * PAGE_SIZE) by lia.
    apply HP. lia. }
  assert (Hpc : P page) by (rewrite <- (Z.add_0_r page); apply (HP 0); lia).
  replace (page + Z.of_nat (S n) * PAGE_SIZE) with (page + PAGE_SIZE + Z.of_nat n * PAGE_SIZE) by lia.
  rewrite existsb_elem. destruct (bool_decide_reflect (page ∈ allocated st)) as [Hin|Hnin]; cbn [exec_bind].
  { apply IH; done || lia. }
  destruct (Z.eqb_spec (len (allocated st)) MAX_KERNEL_PAGES) as [Hfull|Hroom].
  - eexists. split; [done|]. split; [done|]. exists (page :: allocated st). destruct Hst as [Hnd Hi _].
    rewrite len_cons. split_and!; [by constructor|lia|lia|].
    intros x [->|Hx]%elem_of_cons; auto.
  - destruct (allocate_address (firmware st) page) as [[[]|e] fw] eqn:Hal; cbn [exec_bind].
    + apply (IH _ (mkLoad fw (phys st) (allocated st ++ [page]))); [by apply pages_ok_snoc|lia|lia|done].
    + eexists. split; [done|]. split; [done|]. by exists (firmware st), fw, page.
Qed.

Lemma load_segment_ends (P : Z -> Prop) data st s :
  len data <= ISIZE_MAX -> pages_ok P st ->
  segment_fields_ok s -> segment_ok data s -> paddr s + memsz s <= U64_MAX - 4095 ->
  (forall p, page_of s p -> P p) ->
  exists r, load_segment data st s = Done r /\
    match r with
    | inl st' => pages_ok P st' /\ forall a, in_segment s a = false -> phys st' a = phys st a
    | inr (st', e) => phys st' = phys st /\ page_failure P e
    end.
Proof.
  intros Hdata Hst Hf Hok Ht Hpg. unfold load_segment. rewrite page_range_done by done.
  rewrite (proj2 (Z.leb_le _ _)) by done. cbn [exec_bind].
  destruct (segment_pages s Hf (proj1 Hok) Ht) as (Hend & Hn & Hlo & Hhi & Hq).
  set (n := (page_up (paddr s + memsz s) - page_down (paddr s)) / PAGE_SIZE) in *.
  destruct (alloc_pages_ends P (Z.to_nat n) (page_down (paddr s)) st Hst) as (r & Ha & Hr);
    [done|rewrite Z2Nat.id by lia; lia|intros i Hi; apply Hpg, Hq; exists i; lia|].
  rewrite Z2Nat.id in Ha by lia. rewrite <- Hend in Ha. rewrite Ha. cbn [exec_bind].
  destruct r as [st1|[st1 e]]; [|by eexists]. destruct Hr as [Hst1 Hph].
  destruct Hf as (Ho & _ & _ & Hfs & _). pose proof Hok as (Hm & Hfm & Hd & Hov).
  rewrite add64_done by ulia. cbn [exec_bind]. unfold slice.
  rewrite (proj2 (get_range_some data _ _ (sub_list data (offset s) (filesz s))))
    by (split_and!; [ulia|ulia|ulia|f_equal; lia]).
  cbn [exec_bind]. rewrite sub64_done by lia. cbn [exec_bind]. rewrite add64_done by lia. cbn [exec_bind].
  replace (offset s + filesz s - offset s) with (filesz s) by lia.
  eexists. split; [done|]. split; [destruct Hst1; by constructor|].
  intros a Ha'. cbn [phys]. rewrite copy_then_clear by (done || ulia). by rewrite Ha', Hph.
Qed.

Lemma load_list_ends (P : Z -> Prop) data l st :
  len data <= ISIZE_MAX -> pages_ok P st -> Forall segment_fields_ok l -> Forall (segment_ok data) l ->
  Forall (fun s => paddr s + memsz s <= U64_MAX - 4095) l -> (forall s p, s ∈ l -> page_of s p -> P p) ->
  exists r, run_list (load_segment data) st l = Done r /\
    match r with inl _ => True | inr (_, e) => page_failure P e end /\
    forall a, (forall s, s ∈ l -> in_segment s a = false) ->
      phys (match r with inl st' => st' | inr (st', _) => st' end) a = phys st a.
Proof.
  intros Hdata Hst Hf Hok Ht. revert st Hst.
  induction l as [|s l IH]; intros st Hst HP; cbn [run_list]; [by exists (inl st)|].
  apply Forall_cons_iff in Hf as [Hfs Hf]. apply Forall_cons_iff in Hok as [Hoks Hok].
  apply Forall_cons_iff in Ht as [Hts Ht].
  destruct (load_segment_ends P data st s Hdata Hst Hfs Hoks Hts) as (r & -> & Hr); [intros p; apply HP; left|].
  cbn [exec_bind]. destruct r as [st1|[st1 e]].
  - destruct Hr as [Hst1 Hm1]. destruct (IH Hf Hok Ht st1 Hst1) as (r & -> & Hr & Hm2).
    { intros x p Hx. apply HP. by right. }
    exists r. split; [done|]. split; [done|]. intros a Ha. rewrite Hm2, Hm1; [done|apply Ha; left|].
    intros x Hx. apply Ha. by right.
  - destruct Hr as [Hm He]. eexists. split; [done|]. split; [done|]. intros a _. by rewrite Hm.
Qed.
End AnyFirmware.

(** ** Claims *)
Section Claims.
  Context {F E FE : Type} `{FirmwareLaws F E FE}.

(** The displacement the loader computes from the first segment, and when its
    arithmetic stays in range: no segment ends in the last page of the address
    space, and the displacement is an [i64]. *)
Definition displacement (s : Segment) : Z := as_i64 (vaddr s) - as_i64 (paddr s).

Definition bounded (l : list Segment) : Prop :=
  Forall (fun s => paddr s + memsz s <= U64_MAX - 4095) l /\
  match l with s :: _ => - 2 ^ 63 <= displacement s < 2 ^ 63 | [] => True end.

#[global] Instance bounded_dec l : Decision (bounded l).
Proof. unfold bounded. destruct l; apply _. Defined.

(** The checks of [load] on an image, in one step. *)
Lemma load_checked fw0 fw1 fw m path data entry l :
  get_image_file_system fw0 = (Ok tt, fw1) -> read_file fw1 path = (Ok data, fw) ->
  image data -> well_formed data entry l ->
  if decide (bounded l) then
    exists lo hi s0, covers l (Some (lo, hi)) /\ lo <= hi /\ head l = Some s0 /\
    load fw0 m path =
      let! r := run_list (load_segment data) (mkLoad fw m []) l in
      match r with
      | inr (st, e) => Done (Err e, st)
      | inl st => Done (Ok (mkLoaded lo (hi - lo) entry (len l) (displacement s0)), st)
      end
  else load fw0 m path = Panic.
Proof.
  intros Hopen Hread Him Hwf. pose proof Hwf as [Hv El Hn Hseg Hd He].
  destruct (proj2 (accepted_iff data entry Him)) as (Hval & (count & Hcs) & Hno & Hce); [by exists l|].
  assert (Hne : l <> []) by (destruct l; [unfold len in Hn; simpl in Hn; lia|done]).
  assert (Hload : load fw0 m path =
    let fail e := (Err (Segment_ e), mkLoad fw m []) in
    try (lo, hi) := loaded_span data catch fail in
    try it := segments data catch fail in
    let! (first, _) := next it in
    let* first := first else Done (fail EmptySegment) in
    try first := Done first catch fail in
    let! delta := sub_i64 (as_i64 (vaddr first)) (as_i64 (paddr first)) in
    try it := segments data catch fail in
    let! r := for_segments (Z.to_nat (remaining it)) it (mkLoad fw m []) (load_segment data)
                (fun st e => (st, Segment_ e)) in
    match r with
    | inr (st, e) => Done (Err e, st)
    | inl st => let! size := sub64 hi lo in Done (Ok (mkLoaded lo size entry count delta), st)
    end).
  { unfold load. rewrite Hopen. unfold attempt at 1. cbn [exec_bind]. rewrite Hread. unfold attempt at 1. cbn [exec_bind].
    rewrite Hval. unfold attempt at 1. cbn [exec_bind]. rewrite Hcs. unfold attempt at 1. cbn [exec_bind].
    rewrite Hno. unfold attempt at 1. cbn [exec_bind]. rewrite Hce. unfold attempt at 1. cbn [exec_bind]. reflexivity. }
  destruct (decide (Forall (fun s => paddr s + memsz s <= U64_MAX - 4095) l)) as [Htop|Htop].
  2: { rewrite decide_False by (by intros [? _]). rewrite Hload. unfold attempt.
       by rewrite (loaded_span_panics data l Him El Htop). }
  destruct (loaded_span_eq data l Him El Hne Hseg Htop) as (lo & hi & Hls & Hcov & _ & _ & Hin).
  assert (Hcount : count = len l).
  { rewrite check_segments_eq, El in Hcs by done.
    rewrite (proj2 (first_error_none data l Him (load_list_fields data l true Him El)) Hseg) in Hcs.
    destruct (len l =? 0); congruence. }
  pose proof (image_iter data Him) as Hit. rewrite El in Hit. destruct Hit as (it & Hsg & Hfor & (it' & Hnext)).
  destruct l as [|s0 l0]; [done|].
  assert (Hs0 : s0 ∈ s0 :: l0) by left. specialize (Hin s0 Hs0).
  apply Forall_cons_iff in Hseg as [Hok0 Hseg]. destruct Hok0 as (Hm0 & _).
  rewrite Hload. unfold attempt. rewrite Hls. cbn [exec_bind]. rewrite Hsg. cbn [exec_bind]. rewrite Hnext. cbn [exec_bind].
  unfold sub_i64. change (as_i64 (vaddr s0) - as_i64 (paddr s0)) with (displacement s0).
  case_decide as Hb.
  - destruct Hb as [_ [Hb1 Hb2]]. exists lo, hi, s0. split; [done|]. split; [lia|]. split; [done|].
    rewrite (proj2 (Z.leb_le _ _) Hb1), (proj2 (Z.ltb_lt _ _) Hb2). cbn [andb exec_bind]. rewrite Hfor. cbn [exec_bind].
    destruct (run_list (load_segment data) (mkLoad fw m []) (s0 :: l0)) as [[st|[st e]]|]; cbn [exec_bind]; [|done|done].
    rewrite sub64_done by lia. cbn [exec_bind]. by rewrite Hcount.
  - assert (Hd0 : ~ (- 2 ^ 63 <= displacement s0 < 2 ^ 63)) by (intros Hd0; by apply Hb).
    destruct (Z.leb_spec (- 2 ^ 63) (displacement s0)), (Z.ltb_spec (displacement s0) (2 ^ 63)); [lia|done..].
Qed.

(** C25 (fs_loader.rs, [FsLoader::load]): a well-formed image, none of whose
    segments ends in the last page of the address space, whose displacement is
    an [i64], which needs at most 256 pages, and whose file and pages the
    firmware has available, is loaded: the call returns the span, the entry
    point, the number of segments and the displacement of the first one; every
    byte of every segment is the file's byte, or zero in the tail beyond the
    file's part; every other byte of memory is unchanged; and each page the
    segments touch was allocated exactly once, and no other. *)
Theorem load_places_segments fw m path data entry l cap :
  holds_file fw path data -> image data -> well_formed data entry l -> bounded l ->
  len cap <= MAX_KERNEL_PAGES -> (forall s p, s ∈ l -> page_of s p -> p ∈ cap) ->
  (forall p, p ∈ cap -> available fw p) ->
  exists lo hi s0 st,
    load fw m path = Done (Ok (mkLoaded lo (hi - lo) entry (len l) (displacement s0)), st) /\
    covers l (Some (lo, hi)) /\ head l = Some s0 /\
    (forall s i, s ∈ l -> 0 <= i < memsz s -> phys st (paddr s + i) = seg_byte data s i) /\
    (forall a, (forall s, s ∈ l -> ~ paddr s <= a < paddr s + memsz s) -> phys st a = m a) /\
    NoDup (allocated st) /\ (forall q, q ∈ allocated st <-> exists s, s ∈ l /\ page_of s q).
Proof.
  intros Hfile Him Hwf Hb Hcap Hpg Hav. pose proof Hb as [Htop _].
  destruct (open_volume fw path data Hfile) as (fw1 & Hopen & Hfile1 & Hav1).
  destruct (read_volume fw1 path data Hfile1) as (fw2 & Hread & Hav2).
  pose proof (load_checked fw fw1 fw2 m path data entry l Hopen Hread Him Hwf) as Hl.
  rewrite decide_True in Hl by done. destruct Hl as (lo & hi & s0 & Hcov & _ & Hhd & Hload).
  pose proof Hwf as [_ El _ Hseg Hd _].
  pose proof (load_list_fields data l true Him El) as Hf.
  destruct (load_list_run cap Hcap data (proj2 Him) l (mkLoad fw2 m [])) as (st & Hrun & [Hnd _ _] & Hmem & Hall).
  { constructor; cbn [allocated firmware]; [constructor|intros p Hp; by apply elem_of_nil in Hp|].
    intros p Hp _. by apply Hav2, Hav1, Hav. }
  { rewrite List.Forall_forall in Hf, Hseg, Htop. apply List.Forall_forall. intros s Hs. split_and!; auto.
    intros p. apply Hpg. by apply list_elem_of_In. }
  exists lo, hi, s0, st. rewrite Hload, Hrun. cbn [exec_bind]. split_and!; [done..| | |done|].
  - intros s i Hs Hi. rewrite Hmem. rewrite (placed_in data l s _ _ Hd Hs) by (unfold in_segment; lia).
    f_equal. lia.
  - intros a Hout. rewrite Hmem. apply placed_out. intros s Hs. specialize (Hout s Hs).
    unfold in_segment. lia.
  - intros q. rewrite Hall. cbn [allocated]. split; [|by right]. intros [Hq|?]; [by apply elem_of_nil in Hq|done].
Qed.

(** (fs_loader.rs, [FsLoader::load]): an image that is not well formed is
    refused before anything is touched: the call ends, without a panic, with an
    image or segment error, no page has been requested and memory is as it
    was. *)
Lemma load_refuses_malformed fw fw1 fw2 m path data :
  get_image_file_system fw = (Ok tt, fw1) -> read_file fw1 path = (Ok data, fw2) -> image data ->
  (forall entry l, ~ well_formed data entry l) ->
  exists err, load fw m path = Done (Err err, mkLoad fw2 m []) /\
    match err with Image _ | Segment_ _ => True | _ => False end.
Proof.
  intros Hopen Hread Him Hbad. unfold load, attempt. rewrite Hopen. cbn [exec_bind]. rewrite Hread. cbn [exec_bind].
  destruct (validate data) as [[entry|e]|] eqn:Hv; cbn [exec_bind];
    [|by eexists|by rewrite validate_eq in Hv].
  destruct (check_segments data) as [[count|e]|] eqn:Hcs; cbn [exec_bind];
    [|by eexists|by rewrite check_segments_eq in Hcs].
  destruct (check_no_overlap data) as [[[]|e]|] eqn:Hno; cbn [exec_bind];
    [|by eexists|by rewrite check_no_overlap_eq in Hno].
  destruct (check_entry data entry) as [[[]|e]|] eqn:Hce; cbn [exec_bind];
    [|by eexists|by rewrite check_entry_eq in Hce].
  exfalso. destruct (proj1 (accepted_iff data entry Him)) as (l & Hwf); [eauto|]. by apply (Hbad entry l).
Qed.
(** Whether an image is well formed is what the four checks compute. *)
Lemma well_formed_dec data :
  image data -> (exists entry l, well_formed data entry l) \/ forall entry l, ~ well_formed data entry l.
Proof.
  intros Him. pose proof (validate_eq data Him) as Hv.
  destruct (validate_spec data) as [entry|e] eqn:Ev; [|by right; intros entry l [Hh _ _ _ _ _]; rewrite Ev in Hh].
  assert (Hone : forall entry' l, well_formed data entry' l -> entry' = entry)
    by (intros entry' l [Hh _ _ _ _ _]; rewrite Ev in Hh; by injection Hh).
  pose proof (accepted_iff data entry Him) as Hacc.
  destruct (check_segments data) as [[n|]|], (check_no_overlap data) as [[[]|]|], (check_entry data entry) as [[[]|]|];
    try (right; intros entry' l Hwf; rewrite (Hone entry' l Hwf) in Hwf;
         destruct (proj2 Hacc (ex_intro _ l Hwf)) as (_ & (? & ?) & ? & ?); congruence).
  left. exists entry. apply Hacc. eauto.
Qed.

(** [a] lies in no segment of the image. *)
Definition outside (data : list Z) (a : Z) : Prop :=
  forall entry l s, well_formed data entry l -> s ∈ l -> in_segment s a = false.

Definition load_outcome (data : list Z) (fw : F) (m : memory) (r : Result LoadedKernel (LoadError E FE))
    (st : LoadState) : Prop :=
  match r with
  | Ok k => exists l, well_formed data (lk_entry k) l
  | Err (Image _) | Err (Segment_ _) => (forall entry l, ~ well_formed data entry l) /\ st = mkLoad fw m []
  | Err e => exists entry l, well_formed data entry l /\
      page_failure (F := F) (fun p => exists s, s ∈ l /\ page_of s p) e
  end.

(** Whether the image, if it is one, keeps the loader's arithmetic in range. *)
Definition in_range (data : list Z) : Prop := forall entry l, well_formed data entry l -> bounded l.

Lemma load_total fw fw1 fw2 m path data :
  get_image_file_system fw = (Ok tt, fw1) -> read_file fw1 path = (Ok data, fw2) -> image data ->
  match load fw m path with
  | Done (r, st) => in_range data /\ load_outcome data fw2 m r st /\ forall a, outside data a -> phys st a = m a
  | Panic => ~ in_range data
  end.
Proof.
  intros Hopen Hread Him. destruct (well_formed_dec data Him) as [(entry & l & Hwf)|Hbad].
  - pose proof (load_checked fw fw1 fw2 m path data entry l Hopen Hread Him Hwf) as Hl. case_decide as Hb.
    2: { rewrite Hl. intros Hr. by apply Hb, (Hr entry). }
    pose proof Hb as [Htop _]. destruct Hl as (lo & hi & s0 & _ & _ & _ & Hload).
    pose proof Hwf as [_ El _ Hseg _ _].
    assert (Hrange : in_range data).
    { intros entry' l' [_ El' _ _ _ _]. rewrite El in El'. by injection El' as <-. }
    destruct (load_list_ends (fun p => exists s, s ∈ l /\ page_of s p) data l (mkLoad fw2 m []))
      as (r & Hrun & Hr & Hm); [apply Him| |by eapply load_list_fields|done|done|eauto|].
    { constructor; cbn [allocated]; [constructor|intros p Hp; by apply elem_of_nil in Hp|done]. }
    rewrite Hload, Hrun. cbn [exec_bind]. destruct r as [st|[st e]]; (split; [exact Hrange|]).
    + split; [by exists l|]. intros a Ha. apply Hm. intros s. by apply (Ha entry).
    + split; [by destruct e; try done; exists entry, l|]. intros a Ha. apply Hm. intros s. by apply (Ha entry).
  - destruct (load_refuses_malformed fw fw1 fw2 m path data Hopen Hread Him Hbad) as (err & Hload & Herr).
    rewrite Hload. split; [by intros entry l Hwf; destruct (Hbad entry l)|]. split; [by destruct err|done].
Qed.

(** C37 (fs_loader.rs, [FsLoader::load]): what the call does, on any firmware and
    for any file.  When the volume does not open or the file cannot be read,
    that error comes back with memory untouched.  Otherwise the call returns
    exactly when the file is not a well-formed image with a segment that ends
    in the last page of the address space or a displacement that is no [i64];
    those images make it panic.  When it returns, it reports an image or
    segment error exactly for an image that is not well formed, and then no
    page has been requested and memory is untouched; else it succeeds or fails
    because the firmware refuses a page of the image, with the firmware's
    error, or because the image has 257 different pages.  In every case the
    bytes outside the segments are as before. *)
Theorem load_ends_safely fw m path :
  match get_image_file_system fw with
  | (Err e, fw1) => load fw m path = Done (Err (Efi e), mkLoad fw1 m [])
  | (Ok _, fw1) =>
      match read_file fw1 path with
      | (Err e, fw2) => load fw m path = Done (Err (Fs e), mkLoad fw2 m [])
      | (Ok data, fw2) => image data ->
          match load fw m path with
          | Done (r, st) => in_range data /\ load_outcome data fw2 m r st /\ forall a, outside data a -> phys st a = m a
          | Panic => ~ in_range data
          end
      end
  end.
Proof.
  destruct (get_image_file_system fw) as [[[]|e] fw1] eqn:Ho.
  - destruct (read_file fw1 path) as [[data|e] fw2] eqn:Hf; [by apply (load_total fw fw1)|].
    unfold load, attempt. rewrite Ho. cbn [exec_bind]. by rewrite Hf.
  - unfold load, attempt. by rewrite Ho.
Qed.
End Claims.

(** ** A firmware for the witnesses: one file, and a list of free pages *)
Record demo_firmware : Type := mkDemo {
  df_file : list Z;
  df_free : list Z
}.

#[export] Instance demo_fw : Firmware demo_firmware unit unit := {|
  get_image_file_system f := (Ok tt, f);
  read_file f _ := (Ok (df_file f), f);
  allocate_address f p :=
    if existsb (Z.eqb p) (df_free f)
    then (Ok tt, mkDemo (df_file f) (filter (fun q => q <> p) (df_free f))) else (Err tt, f);
  allocate_any f _ := (Err tt, f)
|}.

#[export] Instance demo_fw_laws : FirmwareLaws demo_firmware unit unit.
Proof.
  refine {| available f p := p ∈ df_free f; holds_file f _ d := df_file f = d |}.
  - intros f path data Hd. by exists f.
  - intros f path data Hd. exists f. split; [|done]. simpl. by rewrite Hd.
  - intros f p Hp. simpl. rewrite existsb_elem, bool_decide_true by done. eexists. split; [done|].
    intros q Hq Hqf. simpl. by apply list_elem_of_filter.
  - intros f n a f' Hx. discriminate Hx.
Defined.

Definition demo_segment : Segment := mkSegment 0 0x100000 0x100000 16 32 5.

Lemma demo_well_formed : well_formed demo_image 0x100000 [demo_segment].
Proof.
  constructor.
  - vm_compute. reflexivity.
  - vm_compute. reflexivity.
  - vm_compute. split; congruence.
  - repeat constructor; vm_compute; congruence.
  - repeat constructor.
  - exists [], demo_segment, []. split; [reflexivity|]. split; [repeat constructor; vm_compute; congruence|].
    split; [reflexivity|]. vm_compute. split; congruence.
Qed.

(** The image with its machine field changed. *)
Definition arm_image : list Z := splice demo_image 18 (le_bytes 2 183).

Lemma load_refuses_malformed_witness :
  exists err : LoadError unit unit,
    load (mkDemo arm_image []) (fun _ => 0xAA) KERNEL_PATH =
      Done (Err err, mkLoad (mkDemo arm_image []) (fun _ => 0xAA) []) /\
    match err with Image _ | Segment_ _ => True | _ => False end.
Proof.
  apply (load_refuses_malformed (mkDemo arm_image []) (mkDemo arm_image []) _ _ _ arm_image).
  - reflexivity.
  - reflexivity.
  - split; [by apply bytes_ok_b|vm_compute; discriminate].
  - intros entry l [Hv _ _ _ _ _]. vm_compute in Hv. discriminate Hv.
Defined.

Lemma load_places_segments_witness :
  exists st, load (mkDemo demo_image [0x100000]) (fun _ => 0xAA) KERNEL_PATH =
      Done (Ok (mkLoaded 0x100000 0x1000 0x100000 1 0), st) /\
    phys st 0x100001 = 0x45 /\ phys st 0x100010 = 0 /\ phys st 0x100020 = 0xAA.
Proof.
  destruct (load_places_segments (mkDemo demo_image [0x100000]) (fun _ => 0xAA) KERNEL_PATH demo_image
    0x100000 [demo_segment] [0x100000]) as (lo & hi & s0 & st & Hload & Hcov & Hhd & Hin & Hout & _).
  - reflexivity.
  - apply demo_image_ok.
  - apply demo_well_formed.
  - split; [repeat constructor; vm_compute; congruence|vm_compute; split; congruence].
  - vm_compute. congruence.
  - intros s p ->%list_elem_of_singleton [Hp Hr].
    assert (Hr' : 0x100000 <= p < 0x101000) by exact Hr. apply list_elem_of_singleton.
    apply Z.mod_divide in Hp; [|done]. destruct Hp as [k ->]. change PAGE_SIZE with 4096 in *.
    lia.
  - intros p Hp. exact Hp.
  - injection Hhd as <-. exists st. split.
    + rewrite Hload. destruct Hcov as ((s1 & H1 & ->) & (s2 & H2 & ->) & _).
      apply list_elem_of_singleton in H1, H2. subst. vm_compute. reflexivity.
    + assert (Hs : demo_segment ∈ [demo_segment]) by (by apply list_elem_of_singleton).
      split_and!.
      * apply (Hin demo_segment 1 Hs). vm_compute. split; congruence.
      * apply (Hin demo_segment 16 Hs). vm_compute. split; congruence.
      * apply Hout. intros s ->%list_elem_of_singleton [_ Hx]. vm_compute in Hx. discriminate Hx.
Defined.

(** A firmware without free pages refuses the page of the image. *)
Lemma load_ends_safely_witness :
  exists r st, load (mkDemo demo_image []) (fun _ => 0xAA) KERNEL_PATH = Done (r, st) /\
    r = Err (Efi tt) /\ in_range demo_image /\ phys st 0x200000 = 0xAA.
Proof.
  pose proof (load_ends_safely (mkDemo demo_image []) (fun _ => 0xAA) KERNEL_PATH) as Hl.
  cbn [get_image_file_system read_file demo_fw df_file] in Hl. specialize (Hl demo_image_ok).
  destruct (load (mkDemo demo_image []) (fun _ => 0xAA) KERNEL_PATH) as [[r st]|] eqn:Hload;
    [|vm_compute in Hload; discriminate Hload].
  destruct Hl as (Hr & _ & Hm). exists r, st. split; [reflexivity|]. split.
  - vm_compute in Hload. by injection Hload as <- _.
  - split; [exact Hr|]. apply Hm. intros entry l s [_ Hl _ _ _ _] Hs. vm_compute in Hl. injection Hl as <-.
    by apply list_elem_of_singleton in Hs as ->.
Defined.

(** An accepted image whose displacement is no [i64]. *)
Definition far_image : list Z :=
  splice (splice demo_image 24 (le_bytes 8 (2 ^ 63))) 80 (le_bytes 8 (2 ^ 63)).

Example load_panics_far : load (mkDemo far_image [0x100000]) (fun _ => 0) KERNEL_PATH = Panic.
Proof. vm_compute. reflexivity. Qed.
