(* ===== verification/Ports.v ===== *)
(** * Port I/O: the serial line, the interrupt controllers and the timer

    [serial.rs] and [pic.rs] of the kernel.  Every function of the source is a
    function over the class [PortIO], the two instructions [in] and [out].
    The theorems are about [board], an instance of the class that follows the
    data sheets of the devices behind the ports the kernel touches: two 8259A
    interrupt controllers in cascade, channel 0 of an 8254 timer, a 16550 UART,
    and a log of the writes to any other port.  They show that initialisation
    brings the controllers from any state to the one the descriptor tables
    expect, that masks are changed bit by bit, that a spurious interrupt is
    recognised and never acknowledged, and that text leaves the serial line
    byte for byte with line ends completed. *)
From Stdlib Require Import ZArith Lia Bool String Ascii.
From stdpp Require Import base tactics option list numbers.
From S2P Require Import Prelude.

#[local] Open Scope Z_scope.

(** ** The two instructions *)
Class PortIO (D : Type) : Type := {
  outb : D -> Z -> Z -> D;
  inb : D -> Z -> Z * D
}.

(** [1 << bit] on [u8]: the shift amount must be below the width. *)
Definition shl1_u8 (bit : Z) : exec Z := if bit <? 8 then Done (2 ^ bit) else Panic.

Module Serial.
Definition COM1 : Z := 0x3F8.
Definition REG_DATA : Z := 0.
Definition REG_IER : Z := 1.
Definition REG_FCR : Z := 2.
Definition REG_LCR : Z := 3.
Definition REG_MCR : Z := 4.
Definition REG_LSR : Z := 5.

Section Serial.
  Context {D : Type} `{!PortIO D}.

Definition init (d : D) : D :=
  let d := outb d (COM1 + REG_IER) 0x00 in
  let d := outb d (COM1 + REG_LCR) 0x80 in
  let d := outb d (COM1 + REG_DATA) 0x01 in
  let d := outb d (COM1 + REG_IER) 0x00 in
  let d := outb d (COM1 + REG_LCR) 0x03 in
  let d := outb d (COM1 + REG_FCR) 0xC7 in
  outb d (COM1 + REG_MCR) 0x03.

(** The polling loop; [None] when the line is still busy after [fuel] polls
    (the code has no bound and keeps polling). *)
Fixpoint wait_tx_ready (fuel : nat) (d : D) : option D :=
  match fuel with
  | O => None
  | S fuel =>
      let (status, d) := inb d (COM1 + REG_LSR) in
      if Z.land status 0x20 =? 0 then wait_tx_ready fuel d else Some d
  end.

Definition write_byte (fuel : nat) (d : D) (byte : Z) : option D :=
  let* d := (if byte =? 10
             then let* d := wait_tx_ready fuel d else None in
                  Some (outb d (COM1 + REG_DATA) 13)
             else Some d) else None in
  let* d := wait_tx_ready fuel d else None in
  Some (outb d (COM1 + REG_DATA) byte).

Fixpoint write_str (fuel : nat) (d : D) (text : list Z) : option D :=
  match text with
  | [] => Some d
  | byte :: text => let* d := write_byte fuel d byte else None in write_str fuel d text
  end.

End Serial.
End Serial.

Module Pic.
Definition PIC1 : Z := 0x20.
Definition PIC1_DATA : Z := 0x21.
Definition PIC2 : Z := 0xA0.
Definition PIC2_DATA : Z := 0xA1.
Definition PIC1_OFFSET : Z := 0x20.
Definition PIC2_OFFSET : Z := 0x28.
Definition TIMER_IRQ : Z := 0.
Definition TIMER_VECTOR : Z := PIC1_OFFSET + TIMER_IRQ.
Definition SPURIOUS_IRQ7_VECTOR : Z := PIC1_OFFSET + 7.
Definition PIT_FREQUENCY : Z := 1193182.
Definition TIMER_HZ : Z := 100.

Section Pic.
  Context {D : Type} `{!PortIO D}.

Definition io_wait (d : D) : D := outb d 0x80 0.

Definition remap (d : D) : D :=
  let d := io_wait (outb d PIC1 0x11) in
  let d := io_wait (outb d PIC2 0x11) in
  let d := io_wait (outb d PIC1_DATA PIC1_OFFSET) in
  let d := io_wait (outb d PIC2_DATA PIC2_OFFSET) in
  let d := io_wait (outb d PIC1_DATA 0x04) in
  let d := io_wait (outb d PIC2_DATA 0x02) in
  let d := io_wait (outb d PIC1_DATA 0x01) in
  let d := io_wait (outb d PIC2_DATA 0x01) in
  let d := outb d PIC1_DATA 0xFF in
  outb d PIC2_DATA 0xFF.

Definition unmask (d : D) (irq : Z) : exec D :=
  let (port, bit) := if irq <? 8 then (PIC1_DATA, irq) else (PIC2_DATA, irq - 8) in
  let (mask, d) := inb d port in
  let! one := shl1_u8 bit in
  let d := outb d port (Z.land mask (bnot 8 one)) in
  if 8 <=? irq then
    let (mask, d) := inb d PIC1_DATA in
    let! two := shl1_u8 2 in
    Done (outb d PIC1_DATA (Z.land mask (bnot 8 two)))
  else Done d.

Definition mask (d : D) (irq : Z) : exec D :=
  let (port, bit) := if irq <? 8 then (PIC1_DATA, irq) else (PIC2_DATA, irq - 8) in
  let (value, d) := inb d port in
  let! one := shl1_u8 bit in
  Done (outb d port (Z.lor value one)).

Definition eoi (d : D) (irq : Z) : D :=
  let d := if 8 <=? irq then outb d PIC2 0x20 else d in
  outb d PIC1 0x20.

Definition master_in_service (d : D) : Z * D := inb (outb d PIC1 0x0B) PIC1.

Definition handle_spurious_irq7 (d : D) : bool * D :=
  let (isr, d) := master_in_service d in
  let spurious := Z.land isr 0x80 =? 0 in
  if spurious then (spurious, d) else (spurious, eoi d 7).

Definition init_pit (d : D) (hz : Z) : exec (Z * D) :=
  if hz =? 0 then Panic else
  let! sum := (if PIT_FREQUENCY + hz / 2 <=? U32_MAX then Done (PIT_FREQUENCY + hz / 2) else Panic) in
  let divisor := Z.min (Z.max (sum / hz) 1) U16_MAX in
  let d := io_wait (outb d 0x43 0x36) in
  let d := io_wait (outb d 0x40 (Z.land divisor 0xFF)) in
  let d := io_wait (outb d 0x40 (Z.shiftr divisor 8)) in
  Done (divisor, d).

Definition init (d : D) : exec (Z * D) :=
  let d := remap d in
  let! (divisor, d) := init_pit d TIMER_HZ in
  let! d := unmask d TIMER_IRQ in
  Done (divisor, d).

End Pic.
End Pic.

(** ** The devices

    The documented behaviour of the chips, restricted to the commands of the
    8259A the kernel can send (initialisation words, the operation words for
    masks, non-specific end of interrupt and register selection). *)
Module Board.

(** An 8259A.  [phase] is 0 in operation and [n] while initialisation word [n]
    is awaited. *)
Record pic8259 : Type := mkPic {
  phase : Z;
  single : bool;
  need4 : bool;
  base : Z;
  cascade : Z;
  mode : Z;
  imr : Z;
  isr : Z;
  irr : Z;
  read_isr : bool
}.

Definition lowest_bit (v : Z) : option Z := List.find (Z.testbit v) [0; 1; 2; 3; 4; 5; 6; 7].

Definition end_of_interrupt (c : pic8259) : pic8259 :=
  match lowest_bit (isr c) with
  | Some n => mkPic (phase c) (single c) (need4 c) (base c) (cascade c) (mode c) (imr c)
                    (Z.clearbit (isr c) n) (irr c) (read_isr c)
  | None => c
  end.

Definition command (c : pic8259) (v : Z) : pic8259 :=
  if Z.testbit v 4 then
    mkPic 2 (Z.testbit v 1) (Z.testbit v 0) (base c) (cascade c) 0 0 0 0 false
  else if Z.testbit v 3 then
    mkPic (phase c) (single c) (need4 c) (base c) (cascade c) (mode c) (imr c) (isr c) (irr c)
          (if Z.testbit v 1 then Z.testbit v 0 else read_isr c)
  else if Z.shiftr v 5 =? 1 then end_of_interrupt c
  else c.

Definition data (c : pic8259) (v : Z) : pic8259 :=
  let after3 := if need4 c then 4 else 0 in
  let after2 := if single c then after3 else 3 in
  if phase c =? 2 then
    mkPic after2 (single c) (need4 c) (Z.land v 0xF8) (cascade c) (mode c) (imr c) (isr c) (irr c)
          (read_isr c)
  else if phase c =? 3 then
    mkPic after3 (single c) (need4 c) (base c) v (mode c) (imr c) (isr c) (irr c) (read_isr c)
  else if phase c =? 4 then
    mkPic 0 (single c) (need4 c) (base c) (cascade c) v (imr c) (isr c) (irr c) (read_isr c)
  else
    mkPic 0 (single c) (need4 c) (base c) (cascade c) (mode c) v (isr c) (irr c) (read_isr c).

(** A device raises line [n] of the controller. *)
Definition request (c : pic8259) (n : Z) : pic8259 :=
  mkPic (phase c) (single c) (need4 c) (base c) (cascade c) (mode c) (imr c) (isr c)
        (Z.setbit (irr c) n) (read_isr c).

(** The processor acknowledges: the request of highest priority that is not
    masked and not blocked by one in service enters the service register; when
    none is left the controller answers with line 7 and nothing in service. *)
Definition acknowledge (c : pic8259) : Z * pic8259 :=
  match lowest_bit (Z.land (irr c) (bnot 8 (imr c))) with
  | Some n =>
      if match lowest_bit (isr c) with Some s => n <? s | None => true end then
        (base c + n,
         mkPic (phase c) (single c) (need4 c) (base c) (cascade c) (mode c) (imr c)
               (Z.setbit (isr c) n) (Z.clearbit (irr c) n) (read_isr c))
      else (base c + 7, c)
  | None => (base c + 7, c)
  end.

(** Channel 0 of the timer: the control word, the count that was loaded, and
    the low byte while the high byte is awaited. *)
Record pit8254 : Type := mkPit {
  control : Z;
  reload : Z;
  low_byte : option Z
}.

Definition pit_control (p : pit8254) (v : Z) : pit8254 :=
  if Z.shiftr v 6 =? 0 then mkPit v (reload p) None else p.
Definition pit_data (p : pit8254) (v : Z) : pit8254 :=
  match low_byte p with
  | None => mkPit (control p) (reload p) (Some v)
  | Some low => mkPit (control p) (low + 256 * v) None
  end.

(** The UART: its registers, the bytes sent, and the number of polls until the
    transmitter is empty ([latency] of them after each byte). *)
Record uart16550 : Type := mkUart {
  ier : Z;
  lcr : Z;
  divisor_latch : Z * Z;
  fcr : Z;
  mcr : Z;
  sent : list Z;
  busy : nat;
  latency : nat
}.

Definition uart_write (u : uart16550) (reg v : Z) : uart16550 :=
  let dlab := Z.testbit (lcr u) 7 in
  let (dll, dlm) := divisor_latch u in
  if reg =? 0 then
    if dlab then mkUart (ier u) (lcr u) (v, dlm) (fcr u) (mcr u) (sent u) (busy u) (latency u)
    else mkUart (ier u) (lcr u) (dll, dlm) (fcr u) (mcr u) (sent u ++ [v]) (latency u) (latency u)
  else if reg =? 1 then
    if dlab then mkUart (ier u) (lcr u) (dll, v) (fcr u) (mcr u) (sent u) (busy u) (latency u)
    else mkUart v (lcr u) (dll, dlm) (fcr u) (mcr u) (sent u) (busy u) (latency u)
  else if reg =? 2 then mkUart (ier u) (lcr u) (dll, dlm) v (mcr u) (sent u) (busy u) (latency u)
  else if reg =? 3 then mkUart (ier u) v (dll, dlm) (fcr u) (mcr u) (sent u) (busy u) (latency u)
  else if reg =? 4 then mkUart (ier u) (lcr u) (dll, dlm) (fcr u) v (sent u) (busy u) (latency u)
  else u.

(** Reading the line status register. *)
Definition uart_status (u : uart16550) : Z * uart16550 :=
  match busy u with
  | O => (0x60, u)
  | S n => (0x00, mkUart (ier u) (lcr u) (divisor_latch u) (fcr u) (mcr u) (sent u) n (latency u))
  end.

Record board : Type := mkBoard {
  master : pic8259;
  slave : pic8259;
  pit : pit8254;
  uart : uart16550;
  others : list (Z * Z)
}.

Definition with_master (d : board) (c : pic8259) : board := mkBoard c (slave d) (pit d) (uart d) (others d).
Definition with_slave (d : board) (c : pic8259) : board := mkBoard (master d) c (pit d) (uart d) (others d).
Definition with_pit (d : board) (p : pit8254) : board := mkBoard (master d) (slave d) p (uart d) (others d).
Definition with_uart (d : board) (u : uart16550) : board := mkBoard (master d) (slave d) (pit d) u (others d).

Definition board_outb (d : board) (port v : Z) : board :=
  if port =? 0x20 then with_master d (command (master d) v)
  else if port =? 0x21 then with_master d (data (master d) v)
  else if port =? 0xA0 then with_slave d (command (slave d) v)
  else if port =? 0xA1 then with_slave d (data (slave d) v)
  else if port =? 0x43 then with_pit d (pit_control (pit d) v)
  else if port =? 0x40 then with_pit d (pit_data (pit d) v)
  else if (0x3F8 <=? port) && (port <? 0x400) then with_uart d (uart_write (uart d) (port - 0x3F8) v)
  else mkBoard (master d) (slave d) (pit d) (uart d) (others d ++ [(port, v)]).

Definition board_inb (d : board) (port : Z) : Z * board :=
  if port =? 0x20 then (if read_isr (master d) then isr (master d) else irr (master d), d)
  else if port =? 0x21 then (imr (master d), d)
  else if port =? 0xA0 then (if read_isr (slave d) then isr (slave d) else irr (slave d), d)
  else if port =? 0xA1 then (imr (slave d), d)
  else if port =? 0x3F8 + 5 then let (v, u) := uart_status (uart d) in (v, with_uart d u)
  else (0xFF, d).

#[global] Instance board_ports : PortIO board := { outb := board_outb; inb := board_inb }.

(** A machine as the firmware may leave it: controllers half-way through an
    initialisation, everything unmasked, a count half loaded. *)
Definition wild : board :=
  mkBoard (mkPic 3 false true 8 0 0 0x55 0x08 0x40 true) (mkPic 4 false true 0x70 0 0 0 0 0 false)
          (mkPit 0x34 0 (Some 7)) (mkUart 0 0x80 (0, 0) 0 0 [] 3 2) [].

End Board.
Import Board.

(** ** Interrupt controllers and timer *)

(** A controller in operation, in cascade, 8086 mode with normal end of
    interrupt, delivering line [n] as vector [offset + n]. *)
Definition operational (c : pic8259) (offset link : Z) : Prop :=
  phase c = 0 /\ single c = false /\ base c = offset /\ cascade c = link /\ mode c = 1.

Definition other_ports_only (d d' : board) : Prop :=
  uart d' = uart d /\ exists k, others d' = others d ++ replicate k (0x80, 0).

(** The board after [Pic::init]: nothing else of the old state is left in the
    controllers and the timer. *)
Definition initialised (d : board) : board :=
  mkBoard (mkPic 0 false true 0x20 4 1 0xFE 0 0 false)
          (mkPic 0 false true 0x28 2 1 0xFF 0 0 false)
          (mkPit 0x36 11932 None) (uart d) (others d ++ replicate 11 (0x80, 0)).

Lemma pic_init_eq (d : board) : Pic.init d = Done (11932, initialised d).
Proof.
  destruct d as [m s p u o]. unfold Pic.init, initialised. cbn -[app].
  rewrite <- !app_assoc. reflexivity.
Qed.

(** C32 From any state of the machine [Pic::init] returns 11932 and leaves both
    controllers in operation at vectors 0x20 and 0x28 with every line masked
    except the timer's, the timer counting 11932 in mode 3 (within half a hertz
    step of 100 Hz), and no other device touched but for the delay writes; the
    next timer request is then delivered as the timer vector. *)
Theorem pic_init_any_state (d : board) :
  exists d', Pic.init d = Done (11932, d') /\
    operational (master d') Pic.PIC1_OFFSET 4 /\ operational (slave d') Pic.PIC2_OFFSET 2 /\
    (forall irq, 0 <= irq < 8 ->
       Z.testbit (imr (master d')) irq = negb (irq =? Pic.TIMER_IRQ) /\
       Z.testbit (imr (slave d')) irq = true) /\
    pit d' = mkPit 0x36 11932 None /\
    2 * Z.abs (11932 * Pic.TIMER_HZ - Pic.PIT_FREQUENCY) <= Pic.TIMER_HZ /\
    other_ports_only d d' /\
    fst (acknowledge (request (master d') Pic.TIMER_IRQ)) = Pic.TIMER_VECTOR /\
    isr (snd (acknowledge (request (master d') Pic.TIMER_IRQ))) = 1.
Proof.
  exists (initialised d). split; [apply pic_init_eq|].
  split; [done|]. split; [done|]. split.
  { intros irq Hi. assert (Hc : In irq [0; 1; 2; 3; 4; 5; 6; 7]) by (simpl; lia).
    simpl in Hc. repeat destruct Hc as [<-|Hc]; [..|done]; done. }
  split; [done|]. split; [by vm_compute|]. split; [split; [done|by exists 11%nat]|]. done.
Qed.

(** Bits of a byte under the mask operations. *)
Lemma land_bnot_testbit v k j :
  0 <= k < 8 -> 0 <= j < 8 -> Z.testbit (Z.land v (bnot 8 (2 ^ k))) j = negb (j =? k) && Z.testbit v j.
Proof.
  intros Hk Hj. unfold bnot. rewrite Z.land_spec, Z.lxor_spec, Z.testbit_ones_nonneg by lia.
  rewrite Z.pow2_bits_eqb by lia.
  destruct (Z.ltb_spec j 8); [|lia]. destruct (Z.eqb_spec j k), (Z.eqb_spec k j); try lia;
    by destruct (Z.testbit v j).
Qed.

Lemma lor_testbit v k j :
  0 <= k < 8 -> 0 <= j < 8 -> Z.testbit (Z.lor v (2 ^ k)) j = (j =? k) || Z.testbit v j.
Proof.
  intros Hk Hj. rewrite Z.lor_spec, Z.pow2_bits_eqb by lia.
  destruct (Z.eqb_spec j k), (Z.eqb_spec k j); try lia; by destruct (Z.testbit v j).
Qed.

(** Both controllers are in operation: writes to the data ports are masks. *)
Definition in_operation (d : board) : Prop := phase (master d) = 0 /\ phase (slave d) = 0.

Definition masked (d : board) (irq : Z) : bool :=
  if irq <? 8 then Z.testbit (imr (master d)) irq else Z.testbit (imr (slave d)) (irq - 8).

Definition with_imr (c : pic8259) (v : Z) : pic8259 :=
  mkPic (phase c) (single c) (need4 c) (base c) (cascade c) (mode c) v (isr c) (irr c) (read_isr c).

Lemma data_imr c v : phase c = 0 -> data c v = with_imr c v.
Proof. destruct c. intros H. simpl in H. subst. done. Qed.

Lemma mask_eq d irq :
  in_operation d -> 0 <= irq < 16 ->
  Pic.mask d irq = Done
    (if irq <? 8 then with_master d (with_imr (master d) (Z.lor (imr (master d)) (2 ^ irq)))
     else with_slave d (with_imr (slave d) (Z.lor (imr (slave d)) (2 ^ (irq - 8))))).
Proof.
  intros [Hm Hs] Hi. unfold Pic.mask, shl1_u8. destruct (Z.ltb_spec irq 8); cbn -[Z.pow Z.lor].
  - destruct (Z.ltb_spec irq 8); [|lia]. cbn -[Z.pow Z.lor]. unfold board_outb. simpl.
    by rewrite data_imr.
  - destruct (Z.ltb_spec (irq - 8) 8); [|lia]. cbn -[Z.pow Z.lor]. unfold board_outb. simpl.
    by rewrite data_imr.
Qed.

Lemma unmask_eq d irq :
  in_operation d -> 0 <= irq < 16 ->
  Pic.unmask d irq = Done
    (if irq <? 8
     then with_master d (with_imr (master d) (Z.land (imr (master d)) (bnot 8 (2 ^ irq))))
     else with_master
            (with_slave d (with_imr (slave d) (Z.land (imr (slave d)) (bnot 8 (2 ^ (irq - 8))))))
            (with_imr (master d) (Z.land (imr (master d)) (bnot 8 (2 ^ 2))))).
Proof.
  intros [Hm Hs] Hi. unfold Pic.unmask, shl1_u8.
  destruct (Z.ltb_spec irq 8); cbn -[Z.pow Z.land bnot Z.leb].
  - destruct (Z.ltb_spec irq 8); [|lia]. destruct (Z.leb_spec 8 irq); [lia|].
    cbn -[Z.pow Z.land bnot]. unfold board_outb. simpl. by rewrite data_imr.
  - destruct (Z.ltb_spec (irq - 8) 8); [|lia]. cbn -[Z.pow Z.land bnot Z.leb].
    destruct (Z.leb_spec 8 irq); [|lia]. unfold board_outb. cbn -[Z.pow Z.land bnot].
    by rewrite !data_imr.
Qed.

(** [mask] and [unmask] panic exactly on a line the pair does not have. *)
Lemma mask_no_such_line d irq : 16 <= irq -> Pic.mask d irq = Panic.
Proof.
  intros Hi. unfold Pic.mask, shl1_u8. destruct (Z.ltb_spec irq 8); [lia|]. simpl.
  destruct (Z.ltb_spec (irq - 8) 8); [lia|done].
Qed.

(** On controllers in operation [mask] sets the bit of its line and no
    other, [unmask] clears the bit of its line and, for a line of the slave,
    the cascade line 2, and no other; neither panics for the sixteen lines. *)
Lemma mask_unmask_exact (d : board) (irq : Z) :
  in_operation d -> 0 <= irq < 16 ->
  (exists d', Pic.mask d irq = Done d' /\ in_operation d' /\
     forall j, 0 <= j < 16 -> masked d' j = (j =? irq) || masked d j) /\
  (exists d', Pic.unmask d irq = Done d' /\ in_operation d' /\
     forall j, 0 <= j < 16 ->
       masked d' j = negb (j =? irq) && negb ((8 <=? irq) && (j =? 2)) && masked d j).
Proof.
  intros Hd Hi. pose proof Hd as [Hm Hs]. split.
  - eexists. split; [by apply mask_eq|]. split; [by destruct (irq <? 8)|].
    intros j Hj. unfold masked. destruct (Z.ltb_spec irq 8), (Z.ltb_spec j 8); simpl.
    all: try (rewrite lor_testbit by lia).
    all: repeat match goal with |- context [?a =? ?b] => destruct (Z.eqb_spec a b) end; try lia; done.
  - eexists. split; [by apply unmask_eq|]. split; [by destruct (irq <? 8)|].
    intros j Hj. unfold masked. destruct (Z.ltb_spec irq 8), (Z.ltb_spec j 8); cbn -[Z.pow Z.land bnot Z.leb].
    all: rewrite ?land_bnot_testbit by lia.
    all: destruct (Z.leb_spec 8 irq); try lia.
    all: repeat match goal with |- context [?a =? ?b] => destruct (Z.eqb_spec a b) end; try lia; simpl; done.
Qed.

Lemma mask_unmask_exact_witness :
  exists d', Pic.mask (initialised wild) 5 = Done d' /\ masked d' 5 = true.
Proof.
  destruct (mask_unmask_exact (initialised wild) 5) as [(d' & H & _ & Hm) _];
    [split; reflexivity|lia|].
  exists d'. split; [exact H|]. rewrite Hm by lia. reflexivity.
Defined.

(** ** Spurious interrupts *)
Definition with_read_isr (c : pic8259) : pic8259 :=
  mkPic (phase c) (single c) (need4 c) (base c) (cascade c) (mode c) (imr c) (isr c) (irr c) true.

Lemma land_0x80 v : (Z.land v 0x80 =? 0) = negb (Z.testbit v 7).
Proof.
  change 0x80 with (2 ^ 7). destruct (Z.testbit v 7) eqn:E; simpl.
  - apply Z.eqb_neq. intros H. assert (Ht : Z.testbit (Z.land v (2 ^ 7)) 7 = false) by (rewrite H; done).
    rewrite Z.land_spec, E in Ht. done.
  - apply Z.eqb_eq. apply Z.bits_inj'. intros n Hn. rewrite Z.land_spec, Z.bits_0, Z.pow2_bits_eqb by lia.
    destruct (Z.eqb_spec 7 n) as [<-|]; [by rewrite E|apply andb_false_r].
Qed.

Lemma spurious_eq d :
  Pic.handle_spurious_irq7 d =
    if Z.testbit (isr (master d)) 7
    then (false, with_master d (end_of_interrupt (with_read_isr (master d))))
    else (true, with_master d (with_read_isr (master d))).
Proof.
  assert (E : Pic.master_in_service d = (isr (master d), with_master d (with_read_isr (master d))))
    by reflexivity.
  unfold Pic.handle_spurious_irq7. rewrite E, land_0x80.
  by destruct (Z.testbit (isr (master d)) 7).
Qed.

(** When the controller answered an acknowledge without a request to serve,
    the vector is the spurious one and the handler recognises it and leaves the
    service register as it was, so an interrupt in service is not lost; when
    line 7 was really delivered, the handler ends it. *)
Lemma spurious_irq7_handled (d : board) :
  base (master d) = Pic.PIC1_OFFSET ->
  (Z.testbit (isr (master d)) 7 = false ->
   lowest_bit (Z.land (irr (master d)) (bnot 8 (imr (master d)))) = None ->
   exists c d', acknowledge (master d) = (Pic.SPURIOUS_IRQ7_VECTOR, c) /\
     Pic.handle_spurious_irq7 (with_master d c) = (true, d') /\
     isr (master d') = isr (master d) /\ slave d' = slave d) /\
  (isr (master d) = 0 ->
   lowest_bit (Z.land (irr (master d)) (bnot 8 (imr (master d)))) = Some 7 ->
   exists c d', acknowledge (master d) = (Pic.SPURIOUS_IRQ7_VECTOR, c) /\
     Pic.handle_spurious_irq7 (with_master d c) = (false, d') /\
     isr (master d') = 0 /\ slave d' = slave d).
Proof.
  intros Hb. split.
  - intros H7 Hn. unfold acknowledge. rewrite Hn, Hb. eexists _, _. split; [reflexivity|].
    rewrite spurious_eq. cbn [master with_master]. rewrite H7. split; [reflexivity|]. done.
  - intros H0 Hn. unfold acknowledge. rewrite Hn, Hb, H0. cbn [lowest_bit List.find Z.testbit].
    eexists _, _. split; [reflexivity|]. rewrite spurious_eq. cbn -[end_of_interrupt].
    split; [reflexivity|]. done.
Qed.

Lemma spurious_irq7_handled_witness :
  exists d', Pic.handle_spurious_irq7 (with_master (initialised wild)
               (mkPic 0 false true 0x20 4 1 0xFE 1 0 false)) = (true, d') /\ isr (master d') = 1.
Proof.
  destruct (spurious_irq7_handled (with_master (initialised wild)
              (mkPic 0 false true 0x20 4 1 0xFE 1 0 false))) as [H _]; [reflexivity|].
  destruct H as (c & d' & Ha & Hs & Hi & _); [reflexivity|reflexivity|].
  injection Ha as <-. exists d'. split; [exact Hs|exact Hi].
Defined.

(** ** The timer for any frequency *)

(** [init_pit] panics only on 0 Hz; otherwise it loads a count between 1 and
    65535, the nearest one to the requested frequency where the counter can
    reach it. *)
Lemma init_pit_spec (d : board) (hz : Z) :
  0 < hz <= U32_MAX ->
  exists divisor d', Pic.init_pit d hz = Done (divisor, d') /\ 1 <= divisor <= U16_MAX /\
    pit d' = mkPit 0x36 divisor None /\ master d' = master d /\ slave d' = slave d /\
    (19 <= hz <= Pic.PIT_FREQUENCY -> 2 * Z.abs (divisor * hz - Pic.PIT_FREQUENCY) <= hz).
Proof.
  intros Hz. unfold Pic.init_pit. destruct (Z.eqb_spec hz 0); [lia|].
  assert (Hh : 0 <= hz / 2 <= hz) by (split; [apply Z.div_pos; lia|apply Z.div_le_upper_bound; lia]).
  assert (Hh2 : hz / 2 <= U32_MAX / 2) by (apply Z.div_le_mono; lia).
  change (U32_MAX / 2) with 2147483647 in Hh2.
  destruct (Z.leb_spec (Pic.PIT_FREQUENCY + hz / 2) U32_MAX);
    [|unfold Pic.PIT_FREQUENCY, U32_MAX in *; lia].
  cbn [exec_bind]. set (q := (Pic.PIT_FREQUENCY + hz / 2) / hz).
  remember (Z.min (Z.max q 1) U16_MAX) as v eqn:Ev.
  assert (Hv : 1 <= v <= U16_MAX) by (unfold U16_MAX in *; lia).
  assert (Hval : Z.land v 0xFF + 256 * Z.shiftr v 8 = v).
  { change 0xFF with (Z.ones 8). rewrite Z.land_ones, Z.shiftr_div_pow2 by lia.
    change (2 ^ 8) with 256. pose proof (Z.div_mod v 256). lia. }
  eexists v, _. split; [reflexivity|]. split; [done|].
  split; [exact (f_equal (fun r => mkPit 0x36 r None) Hval)|].
  split; [done|]. split; [done|]. intros Hr. unfold Pic.PIT_FREQUENCY, U32_MAX, U16_MAX in *.
  pose proof (Z.div_mod (1193182 + hz / 2) hz ltac:(lia)) as Hq. fold q in Hq.
  pose proof (Z.mod_pos_bound (1193182 + hz / 2) hz ltac:(lia)).
  pose proof (Z.div_mod hz 2 ltac:(lia)). pose proof (Z.mod_pos_bound hz 2 ltac:(lia)).
  assert (1 <= q) by (apply Z.div_le_lower_bound; lia).
  assert (q <= 65535) by (apply Z.div_le_upper_bound; lia).
  replace v with q by lia. lia.
Qed.

(** ** The serial line *)

(** What a text becomes on the line. *)
Definition wire (text : list Z) : list Z :=
  flat_map (fun b => if b =? 10 then [13; 10] else [b]) text.

(** The UART is set up for sending: the data port is the transmitter, and the
    line is never busy for more than [n] polls. *)
Definition line_ready (n : nat) (d : board) : Prop :=
  Z.testbit (lcr (uart d)) 7 = false /\ (busy (uart d) <= n)%nat /\ (latency (uart d) <= n)%nat.

Lemma wait_tx_ready_returns n fuel d :
  line_ready n d -> (busy (uart d) < fuel)%nat ->
  exists d', Serial.wait_tx_ready fuel d = Some d' /\ line_ready n d' /\
    sent (uart d') = sent (uart d) /\ master d' = master d /\ slave d' = slave d /\ pit d' = pit d /\
    others d' = others d.
Proof.
  remember (busy (uart d)) as k eqn:Hk. revert fuel d Hk.
  induction k as [|k IH]; intros fuel d Hk (Hl & Hb & Hlat) Hf; rewrite <- Hk in Hb.
  - destruct fuel as [|fuel]; [lia|]. destruct d as [m s p u o]. cbn [uart] in *.
    destruct u as [ie lc dl fc mc se bu la]. cbn in *. subst bu.
    eexists. split; [reflexivity|]. unfold line_ready. simpl. split; [split; [done|lia]|done].
  - destruct fuel as [|fuel]; [lia|]. destruct d as [m s p u o]. cbn [uart] in *.
    destruct u as [ie lc dl fc mc se bu la]. cbn in *. subst bu.
    destruct (IH fuel (mkBoard m s p (mkUart ie lc dl fc mc se k la) o)) as (d' & Hw & Hr & Hrest);
      [done|unfold line_ready; simpl; lia || (split; [done|lia])|lia|].
    exists d'. split; [exact Hw|done].
Qed.

Lemma send_byte n fuel d byte :
  line_ready n d -> (n < fuel)%nat ->
  exists d1, Serial.wait_tx_ready fuel d = Some d1 /\
    let d' := outb d1 (Serial.COM1 + Serial.REG_DATA) byte in
    line_ready n d' /\ sent (uart d') = sent (uart d) ++ [byte] /\
    master d' = master d /\ slave d' = slave d /\ pit d' = pit d /\ others d' = others d.
Proof.
  intros Hr Hf. assert (Hb : (busy (uart d) < fuel)%nat) by (destruct Hr as (_ & ? & _); lia).
  destruct (wait_tx_ready_returns n fuel d Hr Hb) as (d1 & Hw & (Hl & Hb1 & Hlat) & Hs & Hm).
  exists d1. split; [done|]. destruct d1 as [m s p [ie lc [dll dlm] fc mc se bu la] o].
  cbn [uart lcr busy latency sent master slave pit others] in *.
  assert (E : outb (mkBoard m s p (mkUart ie lc (dll, dlm) fc mc se bu la) o)
                (Serial.COM1 + Serial.REG_DATA) byte =
              mkBoard m s p (mkUart ie lc (dll, dlm) fc mc (se ++ [byte]) la la) o).
  { unfold outb, board_ports, board_outb, uart_write. cbn [uart lcr divisor_latch].
    rewrite Hl. reflexivity. }
  rewrite E, <- Hs. split; [done|]. split; [done|]. exact Hm.
Qed.

Lemma write_byte_sends n fuel d byte :
  line_ready n d -> (n < fuel)%nat ->
  exists d', Serial.write_byte fuel d byte = Some d' /\ line_ready n d' /\
    sent (uart d') = sent (uart d) ++ wire [byte] /\
    master d' = master d /\ slave d' = slave d /\ pit d' = pit d /\ others d' = others d.
Proof.
  intros Hr Hf. unfold Serial.write_byte, wire. cbn [flat_map]. rewrite app_nil_r.
  destruct (Z.eqb_spec byte 10) as [->|_].
  - destruct (send_byte n fuel d 13 Hr Hf) as (d1 & Hw & Hr1 & Hs1 & Hm1). rewrite Hw.
    destruct (send_byte n fuel _ 10 Hr1 Hf) as (d2 & Hw2 & Hr2 & Hs2 & Hm2). rewrite Hw2.
    eexists. split; [reflexivity|]. split; [exact Hr2|].
    split; [rewrite Hs2, Hs1, <- app_assoc; done|]. naive_solver congruence.
  - destruct (send_byte n fuel d byte Hr Hf) as (d1 & Hw & Hr1 & Hs1 & Hm1). rewrite Hw.
    eexists. split; [reflexivity|]. naive_solver.
Qed.

Lemma write_str_sends n fuel d text :
  line_ready n d -> (n < fuel)%nat ->
  exists d', Serial.write_str fuel d text = Some d' /\ line_ready n d' /\
    sent (uart d') = sent (uart d) ++ wire text /\
    master d' = master d /\ slave d' = slave d /\ pit d' = pit d /\ others d' = others d.
Proof.
  revert d. induction text as [|b text IH]; intros d Hr Hf.
  - exists d. simpl. rewrite app_nil_r. done.
  - destruct (write_byte_sends n fuel d b Hr Hf) as (d1 & Hw & Hr1 & Hs1 & Hm1).
    destruct (IH d1 Hr1 Hf) as (d2 & Hw2 & Hr2 & Hs2 & Hm2).
    exists d2. cbn [Serial.write_str]. rewrite Hw. split; [done|]. split; [done|]. split.
    + rewrite Hs2, Hs1, <- app_assoc. f_equal. unfold wire. cbn [flat_map]. by rewrite app_nil_r.
    + naive_solver congruence.
Qed.

(** ** Log lines (logging.rs) *)
Module Logging.
Inductive Level : Type := Info | Warn | Error.

Definition bytes_of (s : string) : list Z := (fun c => Z.of_N (N_of_ascii c)) <$> list_ascii_of_string s.

Definition tag (level : Level) : list Z :=
  match level with
  | Info => bytes_of ""
  | Warn => bytes_of "[WARN] "
  | Error => bytes_of "[ERROR] "
  end.

Section Logging.
  Context {D : Type} `{!PortIO D}.

(** [writeln!] of the prefix, the tag and the rendered arguments. *)
Definition log (fuel : nat) (d : D) (level : Level) (args : list Z) : option D :=
  Serial.write_str fuel d (bytes_of "[kernel] " ++ tag level ++ args ++ [10]).

End Logging.
End Logging.

(** The state [Serial::init] leaves: 115200 baud, 8N1.  Its first write reaches
    the interrupt enable register only when the firmware left the divisor latch
    closed; otherwise it goes to the divisor and the old register survives. *)
Definition line_up (u : uart16550) : uart16550 :=
  mkUart (if Z.testbit (lcr u) 7 then ier u else 0) 3 (1, 0) 0xC7 3 (sent u) (busy u) (latency u).

Lemma serial_init_eq d : Serial.init d = with_uart d (line_up (uart d)).
Proof.
  destruct d as [m s p [ie lc [dll dlm] fc mc se bu la] o].
  assert (E : exists dlm', outb (mkBoard m s p (mkUart ie lc (dll, dlm) fc mc se bu la) o)
                (Serial.COM1 + Serial.REG_IER) 0 =
              mkBoard m s p (mkUart (if Z.testbit lc 7 then ie else 0) lc (dll, dlm') fc mc se bu la) o).
  { unfold outb, board_ports, board_outb, uart_write. cbn [uart lcr divisor_latch].
    destruct (Z.testbit lc 7); eexists; reflexivity. }
  destruct E as (dlm' & E). unfold Serial.init. rewrite E. reflexivity.
Qed.

(** Interrupts of the UART are off after [Serial::init] only if the divisor
    latch was closed before. *)
Lemma serial_init_interrupts_stay_on :
  exists d : board, ier (uart (Serial.init d)) <> 0.
Proof.
  exists (with_uart wild (mkUart 1 0x80 (0, 0) 0 0 [] 0 0)). rewrite serial_init_eq. done.
Qed.

(** After [Serial::init], on a transmitter that is busy for at most [n] polls
    after each byte, [log] returns whatever the text: the line has carried the
    prefix, the level's tag and the text with each line end completed to
    carriage return and line feed, and the interrupt controllers and the timer
    are untouched. *)
Lemma log_reaches_the_line (d : board) (n fuel : nat) (level : Logging.Level) (text : list Z) :
  (busy (uart d) <= n)%nat -> (latency (uart d) <= n)%nat -> (n < fuel)%nat ->
  exists d', Logging.log fuel (Serial.init d) level text = Some d' /\
    sent (uart d') = sent (uart d) ++
      Logging.bytes_of "[kernel] " ++ Logging.tag level ++ wire text ++ [13; 10] /\
    master d' = master d /\ slave d' = slave d /\ pit d' = pit d /\ others d' = others d.
Proof.
  intros Hb Hl Hf. rewrite serial_init_eq.
  destruct (write_str_sends n fuel
              (with_uart d (line_up (uart d)))
              (Logging.bytes_of "[kernel] " ++ Logging.tag level ++ text ++ [10]))
    as (d' & Hw & _ & Hs & Hm); [split; cbn; [done|lia]|lia|].
  exists d'. split; [exact Hw|]. split; [|exact Hm]. rewrite Hs. cbn [uart sent with_uart line_up].
  f_equal. unfold wire. rewrite !flat_map_app. by destruct level.
Qed.

Lemma log_reaches_the_line_witness :
  exists d', Logging.log 4 (Serial.init wild) Logging.Warn [65; 10] = Some d' /\
    length (sent (uart d')) = 21%nat.
Proof.
  destruct (log_reaches_the_line wild 3 4 Logging.Warn [65; 10]) as (d' & H & Hs & _);
    [simpl; lia|simpl; lia|lia|].
  exists d'. split; [exact H|]. rewrite Hs. reflexivity.
Defined.
