(* ===== verification/Descriptors.v ===== *)
(** * Descriptor tables: GDT, TSS and IDT

    [gdt.rs] and the gate and [install] part of [idt.rs].  The tables are built
    by the source's expressions; beside them stand the processor's reading of
    them: how a segment descriptor, a TSS descriptor and an interrupt gate are
    decoded, and when a software interrupt is allowed.  The theorems say that
    what the processor decodes is what the kernel meant: bases and handlers
    come back whole, the selectors name the segments they should, the double
    fault and the NMI run on their own stacks, and the system call vector is
    the only one a user program can raise. *)
From Stdlib Require Import ZArith Lia Bool String.
From stdpp Require Import base tactics option list numbers.
From S2P Require Import Prelude.

#[local] Open Scope Z_scope.

Module Gdt.
Definition KERNEL_CODE : Z := 0x08.
Definition KERNEL_DATA : Z := 0x10.
Definition TSS_SELECTOR : Z := 0x18.
Definition USER_CODE : Z := 0x28.
Definition USER_DATA : Z := 0x30.
Definition IST_DOUBLE_FAULT : Z := 1.
Definition IST_NMI : Z := 2.
Definition IST_VECTOR_DOUBLE_FAULT : Z := 8.
Definition IST_VECTOR_NMI : Z := 2.

(** [Tss]; the reserved fields are zero throughout. *)
Record Tss : Type := mkTss {
  tss_rsp0 : Z;
  rsp1 : Z;
  rsp2 : Z;
  ist : list Z;
  iomap_base : Z
}.

(** The packed layout: widths in bytes, in declaration order. *)
Definition tss_widths : list Z := [4; 8; 8; 8; 8; 7 * 8; 8; 2; 2].
Definition size_of_Tss : Z := foldr Z.add 0 tss_widths.

Definition new_tss : Tss := mkTss 0 0 0 (replicate 7 0) size_of_Tss.

(** [Gdt]: eight [u64]s. *)
Definition Gdt : Type := list Z.
Definition size_of_Gdt : Z := 8 * 8.

(** [DescriptorTablePointer]. *)
Record DescriptorTablePointer : Type := mkPointer { limit : Z; table_base : Z }.

Definition code_descriptor : Z := 0x00AF9A000000FFFF.
Definition user_code_descriptor : Z := 0x00AFFA000000FFFF.
Definition user_data_descriptor : Z := 0x00CFF2000000FFFF.
Definition data_descriptor : Z := 0x00CF92000000FFFF.

Definition tss_descriptor (base : Z) : Z * Z :=
  let limit := size_of_Tss - 1 in
  let low :=
    Z.lor (Z.lor (Z.lor (Z.lor (Z.land limit 0xFFFF)
      (Z.shiftl (Z.land base 0x00FFFFFF) 16))
      (Z.shiftl 0x89 40))
      (Z.shiftl (Z.land (Z.shiftr limit 16) 0xF) 48))
      (Z.shiftl (Z.land (Z.shiftr base 24) 0xFF) 56) in
  (low, Z.shiftr base 32).

(** The static tables at their addresses, and the processor registers the
    assembly of [install] loads. *)
Record machine : Type := mkMachine {
  gdt : Gdt;
  gdt_address : Z;
  tss : Tss;
  tss_address : Z;
  gdtr : DescriptorTablePointer;
  tr : Z;
  cs : Z; ds : Z; es : Z; fs : Z; gs : Z; ss : Z
}.

(** [lgdt]; the far return that loads [cs]; the data segment loads; [ltr]. *)
Definition lgdt (m : machine) (p : DescriptorTablePointer) : machine :=
  mkMachine (gdt m) (gdt_address m) (tss m) (tss_address m) p (tr m)
            (cs m) (ds m) (es m) (fs m) (gs m) (ss m).
Definition load_segments (m : machine) : machine :=
  mkMachine (gdt m) (gdt_address m) (tss m) (tss_address m) (gdtr m) (tr m)
            0x08 0x10 0x10 0 0 0x10.
Definition ltr (m : machine) (selector : Z) : machine :=
  mkMachine (gdt m) (gdt_address m) (tss m) (tss_address m) (gdtr m) selector
            (cs m) (ds m) (es m) (fs m) (gs m) (ss m).

Definition install (m : machine) (ist_double_fault ist_nmi : Z) : exec (Result unit string * machine) :=
  let! ist1 := set_index (ist (tss m)) (IST_DOUBLE_FAULT - 1) ist_double_fault in
  let! ist2 := set_index ist1 (IST_NMI - 1) ist_nmi in
  let t := mkTss (tss_rsp0 (tss m)) (rsp1 (tss m)) (rsp2 (tss m)) ist2 (iomap_base (tss m)) in
  let (tss_low, tss_high) := tss_descriptor (tss_address m) in
  let g := [0; code_descriptor; data_descriptor; tss_low; tss_high;
            user_code_descriptor; user_data_descriptor; 0] in
  let m := mkMachine g (gdt_address m) t (tss_address m) (gdtr m) (tr m)
                     (cs m) (ds m) (es m) (fs m) (gs m) (ss m) in
  let p := mkPointer (size_of_Gdt - 1) (gdt_address m) in
  let m := ltr (load_segments (lgdt m p)) TSS_SELECTOR in
  let check := gdtr m in
  if negb (table_base check =? table_base p) || negb (limit check =? limit p)
  then Done (Err "sgdt"%string, m)
  else Done (Ok tt, m).

Definition set_rsp0 (m : machine) (top : Z) : machine :=
  let t := tss m in
  mkMachine (gdt m) (gdt_address m)
            (mkTss top (rsp1 t) (rsp2 t) (ist t) (iomap_base t))
            (tss_address m) (gdtr m) (tr m) (cs m) (ds m) (es m) (fs m) (gs m) (ss m).

Definition rsp0 (m : machine) : Z := tss_rsp0 (tss m).

Definition ist_top (m : machine) (i : Z) : exec Z :=
  if negb ((1 <=? i) && (i <=? 7)) then Done 0 else index (ist (tss m)) (i - 1).

End Gdt.

Module Idt.
Record Gate : Type := mkGate {
  offset_low : Z;
  selector : Z;
  gate_ist : Z;
  type_attr : Z;
  offset_mid : Z;
  offset_high : Z;
  reserved : Z
}.

(** The packed layout of a gate. *)
Definition gate_widths : list Z := [2; 2; 1; 1; 2; 4; 4].
Definition size_of_Gate : Z := foldr Z.add 0 gate_widths.

Definition missing : Gate := mkGate 0 0 0 0 0 0 0.

Definition with_dpl (handler selector ist dpl : Z) : Gate :=
  mkGate (handler mod 2 ^ 16) selector ist
         (Z.lor 0x8E (Z.shiftl (Z.land dpl 3) 5))
         (Z.shiftr handler 16 mod 2 ^ 16) (Z.shiftr handler 32 mod 2 ^ 32) 0.

Definition with_ist (handler selector ist : Z) : Gate := with_dpl handler selector ist 0.

Definition YIELD_VECTOR : Z := 0x30.
Definition EXIT_VECTOR : Z := 0x31.
Definition SYSCALL_VECTOR : Z := 0x40.
Definition IRQ_VECTOR_BASE : Z := 0x20.

(** The static table of 256 gates. *)
Definition Idt : Type := list Gate.
Definition IDT : Idt := replicate 256 missing.

(** The register [lidt] loads. *)
Record Idtr : Type := mkIdtr { idt_limit : Z; idt_base : Z }.

(** The two installation loops: [gate_of] builds the gate of a vector. *)
Fixpoint install_loop (gate_of : Z -> Z -> Gate) (handlers : list Z) (vector : Z) (idt : Idt) : exec Idt :=
  match handlers with
  | [] => Done idt
  | handler :: handlers =>
      let! idt := set_index idt vector (gate_of vector handler) in
      install_loop gate_of handlers (vector + 1) idt
  end.

Definition ist_for (vector : Z) : Z :=
  if vector =? Gdt.IST_VECTOR_DOUBLE_FAULT then Gdt.IST_DOUBLE_FAULT
  else if vector =? Gdt.IST_VECTOR_NMI then Gdt.IST_NMI
  else 0.

Section Install.
(** The addresses of the assembly stubs: [isr_n] and [irq_n] by vector, and
    the three software vectors; the address of the table; [current_cs()]. *)
  Variable stub : Z -> Z.
  Variable idt_address : Z.
  Variable current_cs : Z.

Definition install (idt : Idt) : exec (Idt * Idtr) :=
  let selector := current_cs in
  let handlers := (fun i : nat => stub (Z.of_nat i)) <$> seq 0 32 in
  let irq_handlers := (fun i : nat => stub (Z.of_nat i)) <$> seq 32 16 in
  let! idt := install_loop (fun vector handler => with_ist handler selector (ist_for vector))
                handlers 0 idt in
  let! idt := install_loop (fun _ handler => with_ist handler selector 0)
                irq_handlers IRQ_VECTOR_BASE idt in
  let! idt := set_index idt YIELD_VECTOR (with_ist (stub YIELD_VECTOR) selector 0) in
  let! idt := set_index idt EXIT_VECTOR (with_ist (stub EXIT_VECTOR) selector 0) in
  let! idt := set_index idt SYSCALL_VECTOR (with_dpl (stub SYSCALL_VECTOR) selector 0 3) in
  Done (idt, mkIdtr (256 * size_of_Gate - 1) idt_address).

End Install.
End Idt.

(** ** What the processor decodes *)
Module Cpu.

(** A code or data segment descriptor: base, limit, access and flags. *)
Definition seg_present (d : Z) : bool := Z.testbit d 47.
Definition seg_dpl (d : Z) : Z := Z.land (Z.shiftr d 45) 3.
Definition seg_not_system (d : Z) : bool := Z.testbit d 44.
Definition seg_executable (d : Z) : bool := Z.testbit d 43.
Definition seg_writable (d : Z) : bool := Z.testbit d 41.
Definition seg_long (d : Z) : bool := Z.testbit d 53.
Definition seg_base (d : Z) : Z :=
  Z.lor (Z.land (Z.shiftr d 16) 0xFFFFFF) (Z.shiftl (Z.land (Z.shiftr d 56) 0xFF) 24).
Definition seg_limit (d : Z) : Z :=
  Z.lor (Z.land d 0xFFFF) (Z.shiftl (Z.land (Z.shiftr d 48) 0xF) 16).
Definition seg_type (d : Z) : Z := Z.land (Z.shiftr d 40) 0xF.

(** The descriptor a selector names. *)
Definition descriptor (g : Gdt.Gdt) (selector : Z) : option Z := get g (Z.shiftr selector 3).

(** A system descriptor takes two slots. *)
Definition system_base (low high : Z) : Z := Z.lor (seg_base low) (Z.shiftl high 32).

(** An interrupt gate. *)
Definition gate_target (g : Idt.Gate) : Z :=
  Idt.offset_low g + 2 ^ 16 * Idt.offset_mid g + 2 ^ 32 * Idt.offset_high g.
Definition gate_present (g : Idt.Gate) : bool := Z.testbit (Idt.type_attr g) 7.
Definition gate_dpl (g : Idt.Gate) : Z := Z.land (Z.shiftr (Idt.type_attr g) 5) 3.
Definition gate_interrupt (g : Idt.Gate) : bool := Z.land (Idt.type_attr g) 0xF =? 0xE.

(** [int n] at privilege level [cpl] enters the gate, otherwise it faults. *)
Definition int_allowed (idt : Idt.Idt) (cpl vector : Z) : bool :=
  match get idt vector with
  | Some g => gate_present g && (cpl <=? gate_dpl g)
  | None => false
  end.

End Cpu.

(** ** Segment descriptors and the TSS *)

(** Fields that do not overlap are or-ed together as they are added. *)
Lemma lor_shiftl_add a b k : 0 <= k -> 0 <= a < 2 ^ k -> Z.lor a (Z.shiftl b k) = a + b * 2 ^ k.
Proof.
  intros Hk Ha. rewrite <- Z.shiftl_mul_pow2 by lia.
  rewrite <- Z.lxor_lor, <- Z.add_nocarry_lxor; [done|..].
  all: apply Z.bits_inj'; intros n Hn; rewrite Z.land_spec, Z.bits_0, Z.shiftl_spec by lia.
  all: destruct (Z.ltb_spec n k); [rewrite (Z.testbit_neg_r b) by lia; apply andb_false_r|].
  all: destruct (Z.eq_dec a 0) as [->|]; [by rewrite Z.bits_0|].
  all: rewrite (Z.bits_above_log2 a n); [done|lia|].
  all: apply Z.log2_lt_pow2; [lia|]; eapply Z.lt_le_trans; [apply Ha|].
  all: apply Z.pow_le_mono_r; lia.
Qed.

Lemma land_mask x k v : v = Z.ones k -> 0 <= k -> Z.land x v = x mod 2 ^ k.
Proof. intros -> Hk. by apply Z.land_ones. Qed.

Lemma tss_descriptor_eq base :
  0 <= base ->
  fst (Gdt.tss_descriptor base) =
    103 + (base mod 2 ^ 24) * 2 ^ 16 + 0x89 * 2 ^ 40 + (base / 2 ^ 24) mod 2 ^ 8 * 2 ^ 56.
Proof.
  intros Hb. unfold Gdt.tss_descriptor. cbn [fst].
  change (Z.land (Gdt.size_of_Tss - 1) 0xFFFF) with 103.
  change (Z.shiftl (Z.land (Z.shiftr (Gdt.size_of_Tss - 1) 16) 0xF) 48) with 0.
  rewrite Z.lor_0_r.
  rewrite (land_mask base 24), (land_mask (Z.shiftr base 24) 8), Z.shiftr_div_pow2 by done.
  pose proof (Z.mod_pos_bound base (2 ^ 24) ltac:(done)).
  pose proof (Z.mod_pos_bound (base / 2 ^ 24) (2 ^ 8) ltac:(done)).
  rewrite (lor_shiftl_add 103) by (change (2 ^ 16) with 65536; lia).
  rewrite (lor_shiftl_add (_ + _)).
  2: lia.
  2: { change (2 ^ 24) with 16777216 in *. change (2 ^ 16) with 65536.
       change (2 ^ 40) with 1099511627776. lia. }
  rewrite (lor_shiftl_add (_ + _ + _)); [done|lia|].
  change (2 ^ 24) with 16777216 in *. change (2 ^ 16) with 65536.
  change (2 ^ 40) with 1099511627776. change (2 ^ 56) with 72057594037927936. lia.
Qed.

Ltac pow_lia :=
  change (2 ^ 8) with 256 in *; change (2 ^ 16) with 65536 in *; change (2 ^ 24) with 16777216 in *;
  change (2 ^ 32) with 4294967296 in *; change (2 ^ 40) with 1099511627776 in *;
  change (2 ^ 48) with 281474976710656 in *; change (2 ^ 56) with 72057594037927936 in *;
  Z.div_mod_to_equations; lia.

Lemma seg_base_tss base :
  0 <= base -> Cpu.seg_base (fst (Gdt.tss_descriptor base)) = base mod 2 ^ 32.
Proof.
  intros Hb. rewrite tss_descriptor_eq by done. set (q := (base / 2 ^ 24) mod 2 ^ 8).
  unfold Cpu.seg_base. rewrite (land_mask _ 24), (land_mask _ 8), !Z.shiftr_div_pow2 by done.
  assert (E1 : (103 + base mod 2 ^ 24 * 2 ^ 16 + 0x89 * 2 ^ 40 + q * 2 ^ 56) / 2 ^ 16 mod 2 ^ 24 =
               base mod 2 ^ 24) by (unfold q; pow_lia).
  assert (E2 : (103 + base mod 2 ^ 24 * 2 ^ 16 + 0x89 * 2 ^ 40 + q * 2 ^ 56) / 2 ^ 56 mod 2 ^ 8 = q)
    by (unfold q; pow_lia).
  rewrite E1, E2, lor_shiftl_add; [|lia|apply Z.mod_pos_bound; done]. unfold q. pow_lia.
Qed.

(** The processor reads back from the TSS descriptor the base it was built
    for, a limit of 103, and a present 64-bit TSS of privilege level 0. *)
Lemma tss_descriptor_roundtrip (base : Z) :
  is_u64 base ->
  let (low, high) := Gdt.tss_descriptor base in
  is_u64 low /\ is_u32 high /\
  Cpu.system_base low high = base /\ Cpu.seg_limit low = 103 /\ Cpu.seg_type low = 9 /\
  Cpu.seg_present low = true /\ Cpu.seg_dpl low = 0 /\ Cpu.seg_not_system low = false.
Proof.
  intros Hb. pose proof (tss_descriptor_eq base ltac:(ulia)) as Hl.
  pose proof (seg_base_tss base ltac:(ulia)) as Hs.
  assert (Hh : snd (Gdt.tss_descriptor base) = base / 2 ^ 32)
    by (unfold Gdt.tss_descriptor; cbn [snd]; by rewrite Z.shiftr_div_pow2).
  destruct (Gdt.tss_descriptor base) as [low high]. cbn [fst snd] in *.
  unfold Cpu.system_base. rewrite Hs.
  rewrite lor_shiftl_add by (lia || (apply Z.mod_pos_bound; lia)).
  subst high. split; [subst low; unfold_consts; pow_lia|]. split; [unfold_consts; pow_lia|].
  split; [pow_lia|].
  assert (Hlim : Z.land low 0xFFFF = 103) by (rewrite (land_mask _ 16) by done; subst low; pow_lia).
  assert (Hmid : Z.land (Z.shiftr low 40) 0xFFFF = 0x89).
  { rewrite (land_mask _ 16), Z.shiftr_div_pow2 by done. subst low. pow_lia. }
  assert (Hbit : forall k, 0 <= k < 16 -> Z.testbit low (k + 40) = Z.testbit 0x89 k).
  { intros k Hk. rewrite <- Hmid, Z.land_spec, Z.shiftr_spec by lia. change 0xFFFF with (Z.ones 16).
    rewrite Z.testbit_ones_nonneg by lia. destruct (Z.ltb_spec k 16); [|lia]. by rewrite andb_true_r. }
  assert (Hsub : forall i k v, v = Z.ones k -> 0 <= i -> 0 <= k -> i + k <= 16 ->
            Z.land (Z.shiftr low (i + 40)) v = Z.land (Z.shiftr 0x89 i) v).
  { intros i k v -> Hi Hk Hik. apply Z.bits_inj'. intros n Hn.
    rewrite !Z.land_spec, !Z.shiftr_spec, Z.testbit_ones_nonneg by lia.
    destruct (Z.ltb_spec n k); [|by rewrite !andb_false_r]. rewrite !andb_true_r.
    replace (n + (i + 40)) with ((n + i) + 40) by lia. apply Hbit. lia. }
  unfold Cpu.seg_limit, Cpu.seg_type, Cpu.seg_present, Cpu.seg_dpl, Cpu.seg_not_system.
  rewrite Hlim. change 48 with (8 + 40). rewrite (Hsub 8 4) by done.
  change (Z.shiftr low 40) with (Z.shiftr low (0 + 40)). rewrite (Hsub 0 4) by done.
  change 45 with (5 + 40). rewrite (Hsub 5 2) by done.
  change 47 with (7 + 40). change 44 with (4 + 40). rewrite !Hbit by lia. done.
Qed.

Lemma tss_descriptor_roundtrip_witness :
  Cpu.system_base (fst (Gdt.tss_descriptor 0xFFFF8000DEADBEEF))
    (snd (Gdt.tss_descriptor 0xFFFF8000DEADBEEF)) = 0xFFFF8000DEADBEEF.
Proof.
  apply (tss_descriptor_roundtrip 0xFFFF8000DEADBEEF). split; [discriminate|discriminate].
Defined.

(** ** The installed GDT *)

Lemma gdt_install_eq m df nmi :
  length (Gdt.ist (Gdt.tss m)) = 7%nat ->
  exists m', Gdt.install m df nmi = Done (Ok tt, m') /\
    Gdt.gdt m' = [0; Gdt.code_descriptor; Gdt.data_descriptor;
                  fst (Gdt.tss_descriptor (Gdt.tss_address m)); snd (Gdt.tss_descriptor (Gdt.tss_address m));
                  Gdt.user_code_descriptor; Gdt.user_data_descriptor; 0] /\
    Gdt.ist (Gdt.tss m') = <[0%nat := df]> (<[1%nat := nmi]> (Gdt.ist (Gdt.tss m))) /\
    Gdt.rsp0 m' = Gdt.rsp0 m /\
    Gdt.gdtr m' = Gdt.mkPointer 63 (Gdt.gdt_address m) /\
    Gdt.tss_address m' = Gdt.tss_address m /\ Gdt.gdt_address m' = Gdt.gdt_address m /\
    Gdt.tr m' = Gdt.TSS_SELECTOR /\ Gdt.cs m' = Gdt.KERNEL_CODE /\ Gdt.ss m' = Gdt.KERNEL_DATA.
Proof.
  intros Hl. destruct (Gdt.ist (Gdt.tss m)) as [|a [|b [|c [|d [|e [|f [|g [|]]]]]]]] eqn:E; try done.
  unfold Gdt.install. rewrite E. cbn [set_index exec_bind]. change (len _) with 7.
  cbn -[Gdt.tss_descriptor]. destruct (Gdt.tss_descriptor (Gdt.tss_address m)) as [lo hi].
  cbn. rewrite Z.eqb_refl. cbn. eexists. split; [reflexivity|]. done.
Qed.

(** C31 [gdt::install] succeeds from any machine state with the seven interrupt
    stacks in the TSS: the table pointer covers exactly the eight slots, each
    selector names the segment the kernel uses it for (kernel code and data of
    level 0, user code and data of level 3, only the code segments executable
    and long), the task register's descriptor leads to the TSS, and [ist_top]
    answers the two stacks for indices 1 and 2 and 0 outside 1..7. *)
Theorem gdt_install_exact (m : Gdt.machine) (df nmi : Z) :
  length (Gdt.ist (Gdt.tss m)) = 7%nat -> is_u64 (Gdt.tss_address m) ->
  exists m', Gdt.install m df nmi = Done (Ok tt, m') /\
    Gdt.limit (Gdt.gdtr m') + 1 = 8 * len (Gdt.gdt m') /\
    Gdt.table_base (Gdt.gdtr m') = Gdt.gdt_address m /\
    (forall sel dpl code, In (sel, dpl, code) [(Gdt.KERNEL_CODE, 0, true); (Gdt.KERNEL_DATA, 0, false);
                                               (Gdt.USER_CODE, 3, true); (Gdt.USER_DATA, 3, false)] ->
       exists d, Cpu.descriptor (Gdt.gdt m') sel = Some d /\ Cpu.seg_present d = true /\
         Cpu.seg_not_system d = true /\ Cpu.seg_dpl d = dpl /\ Cpu.seg_base d = 0 /\
         Cpu.seg_executable d = code /\ Cpu.seg_long d = code /\ Cpu.seg_writable d = true) /\
    (exists low high, Cpu.descriptor (Gdt.gdt m') (Gdt.tr m') = Some low /\
       Cpu.descriptor (Gdt.gdt m') (Gdt.tr m' + 8) = Some high /\
       Cpu.system_base low high = Gdt.tss_address m) /\
    Gdt.ist_top m' Gdt.IST_DOUBLE_FAULT = Done df /\ Gdt.ist_top m' Gdt.IST_NMI = Done nmi /\
    (forall i, ~ 1 <= i <= 7 -> Gdt.ist_top m' i = Done 0) /\
    (forall top, Gdt.rsp0 (Gdt.set_rsp0 m' top) = top).
Proof.
  intros Hl Ha. destruct (gdt_install_eq m df nmi Hl) as (m' & Hi & Hg & Hist & _ & Hp & _ & _ & Htr & _).
  exists m'. rewrite Hg, Hp, Htr. split; [done|]. split; [done|]. split; [done|]. split.
  { intros sel dpl code Hin. simpl in Hin.
    repeat destruct Hin as [[= <- <- <-]|Hin]; [..|done]; eexists; split; try reflexivity; done. }
  split.
  { eexists _, _. split; [reflexivity|]. split; [reflexivity|].
    unfold Cpu.system_base. rewrite seg_base_tss by ulia.
    unfold Gdt.tss_descriptor. cbn [snd]. rewrite Z.shiftr_div_pow2 by lia.
    rewrite lor_shiftl_add by (lia || (apply Z.mod_pos_bound; lia)). pow_lia. }
  unfold Gdt.ist_top. rewrite Hist.
  destruct (Gdt.ist (Gdt.tss m)) as [|a [|b [|c [|d [|e [|f [|g [|]]]]]]]]; try done.
  split; [done|]. split; [done|]. split; [|done].
  intros i Hi'. by replace ((1 <=? i) && (i <=? 7)) with false by lia.
Qed.

Lemma gdt_install_exact_witness :
  exists m', Gdt.install (Gdt.mkMachine (replicate 8 0) 0x200000 Gdt.new_tss 0x201000
    (Gdt.mkPointer 0 0) 0 0 0 0 0 0 0) 0x300000 0x301000 = Done (Ok tt, m') /\
    Gdt.ist_top m' 1 = Done 0x300000.
Proof.
  destruct (gdt_install_exact (Gdt.mkMachine (replicate 8 0) 0x200000 Gdt.new_tss 0x201000
    (Gdt.mkPointer 0 0) 0 0 0 0 0 0 0) 0x300000 0x301000) as (m' & Hi & _ & _ & _ & _ & Hd & _);
    [reflexivity|split; discriminate|].
  exists m'. split; [exact Hi|exact Hd].
Defined.

(** ** The installed IDT *)

Lemma install_loop_done gate_of handlers vector idt :
  0 <= vector -> vector + len handlers <= len idt ->
  exists idt', Idt.install_loop gate_of handlers vector idt = Done idt' /\ len idt' = len idt /\
    forall i, get idt' i =
      if (vector <=? i) && (i <? vector + len handlers)
      then (fun h => gate_of i h) <$> get handlers (i - vector) else get idt i.
Proof.
  revert vector idt. induction handlers as [|h handlers IH]; intros vector idt Hv Hl.
  - exists idt. split; [done|]. split; [done|]. intros i. change (len []) with 0.
    by replace ((vector <=? i) && (i <? vector + 0)) with false by lia.
  - rewrite len_cons in Hl. pose proof (len_nonneg handlers). cbn [Idt.install_loop].
    unfold set_index at 1. replace ((0 <=? vector) && (vector <? len idt)) with true by lia.
    cbn [exec_bind].
    destruct (IH (vector + 1) (<[Z.to_nat vector := gate_of vector h]> idt)) as (idt' & Hi & Hlen & Hg);
      [lia|rewrite len_insert; lia|].
    exists idt'. split; [done|]. rewrite len_insert in Hlen. split; [done|]. intros i. rewrite Hg, len_cons.
    destruct (Z.eq_dec i vector) as [->|Hne].
    + replace ((vector + 1 <=? vector) && (vector <? vector + 1 + len handlers)) with false by lia.
      replace ((vector <=? vector) && (vector <? vector + (1 + len handlers))) with true by lia.
      rewrite Z.sub_diag, get_cons_0. cbn.
      apply get_some. split; [done|]. rewrite list_lookup_insert_eq; [done|]. unfold len in *. lia.
    + destruct (decide (vector < i < vector + 1 + len handlers)).
      * replace ((vector + 1 <=? i) && (i <? vector + 1 + len handlers)) with true by lia.
        replace ((vector <=? i) && (i <? vector + (1 + len handlers))) with true by lia.
        rewrite get_cons_pos by lia. by replace (i - vector - 1) with (i - (vector + 1)) by lia.
      * replace ((vector + 1 <=? i) && (i <? vector + 1 + len handlers)) with false by lia.
        replace ((vector <=? i) && (i <? vector + (1 + len handlers))) with false by lia.
        unfold get. rewrite len_insert. destruct ((0 <=? i) && (i <? len idt)) eqn:E; [|done].
        apply list_lookup_insert_ne. lia.
Qed.

(** The vectors [install] fills, and the gate it gives each. *)
Definition installed (v : Z) : bool := ((0 <=? v) && (v <=? 0x31)) || (v =? Idt.SYSCALL_VECTOR).
Definition gate_for (stub : Z -> Z) (cs v : Z) : Idt.Gate :=
  Idt.with_dpl (stub v) cs (Idt.ist_for v) (if v =? Idt.SYSCALL_VECTOR then 3 else 0).

Lemma get_stubs (stub : Z -> Z) a n i :
  0 <= i < Z.of_nat n ->
  get ((fun k : nat => stub (Z.of_nat k)) <$> seq a n) i = Some (stub (Z.of_nat a + i)).
Proof.
  intros Hi. apply get_some. split; [lia|]. rewrite list_lookup_fmap, lookup_seq_lt by lia. simpl.
  do 2 f_equal. lia.
Qed.

Lemma set_index_get {A : Type} (l : list A) i a :
  0 <= i < len l ->
  exists l', set_index l i a = Done l' /\ len l' = len l /\
    forall j, get l' j = if j =? i then Some a else get l j.
Proof.
  intros Hi. unfold set_index. replace ((0 <=? i) && (i <? len l)) with true by lia.
  eexists. split; [done|]. rewrite len_insert. split; [done|]. intros j.
  unfold get. rewrite len_insert. destruct (Z.eqb_spec j i) as [->|].
  - replace ((0 <=? i) && (i <? len l)) with true by lia.
    apply list_lookup_insert_eq. unfold len in *. lia.
  - destruct ((0 <=? j) && (j <? len l)) eqn:E; [|done]. apply list_lookup_insert_ne. lia.
Qed.

Lemma idt_install_eq stub address cs idt :
  len idt = 256 ->
  exists idt', Idt.install stub address cs idt = Done (idt', Idt.mkIdtr 4095 address) /\
    len idt' = 256 /\
    forall v, get idt' v = if installed v then Some (gate_for stub cs v) else get idt v.
Proof.
  intros Hl. unfold Idt.install.
  destruct (install_loop_done (fun vector handler => Idt.with_ist handler cs (Idt.ist_for vector))
              ((fun k : nat => stub (Z.of_nat k)) <$> seq 0 32) 0 idt) as (i1 & -> & L1 & G1);
    [lia|rewrite Hl; done|]. cbn [exec_bind].
  destruct (install_loop_done (fun _ handler => Idt.with_ist handler cs 0)
              ((fun k : nat => stub (Z.of_nat k)) <$> seq 32 16) Idt.IRQ_VECTOR_BASE i1) as (i2 & -> & L2 & G2);
    [done|rewrite L1, Hl; done|]. cbn [exec_bind].
  change (len (_ <$> seq 0 32)) with 32 in G1. change (len (_ <$> seq 32 16)) with 16 in G2.
  destruct (set_index_get i2 Idt.YIELD_VECTOR (Idt.with_ist (stub Idt.YIELD_VECTOR) cs 0))
    as (i3 & -> & L3 & G3); [rewrite L2, L1, Hl; done|]. cbn [exec_bind].
  destruct (set_index_get i3 Idt.EXIT_VECTOR (Idt.with_ist (stub Idt.EXIT_VECTOR) cs 0))
    as (i4 & -> & L4 & G4); [rewrite L3, L2, L1, Hl; done|]. cbn [exec_bind].
  destruct (set_index_get i4 Idt.SYSCALL_VECTOR (Idt.with_dpl (stub Idt.SYSCALL_VECTOR) cs 0 3))
    as (i5 & -> & L5 & G5); [rewrite L4, L3, L2, L1, Hl; done|]. cbn [exec_bind].
  exists i5. split; [done|]. split; [lia|]. intros v. rewrite G5, G4, G3, G2, G1.
  unfold installed, gate_for, Idt.ist_for, Idt.with_ist, Idt.SYSCALL_VECTOR, Idt.EXIT_VECTOR,
    Idt.YIELD_VECTOR, Idt.IRQ_VECTOR_BASE, Gdt.IST_VECTOR_DOUBLE_FAULT, Gdt.IST_VECTOR_NMI in *.
  destruct (Z.eqb_spec v 64) as [->|]; [done|]. destruct (Z.eqb_spec v 49) as [->|]; [done|].
  destruct (Z.eqb_spec v 48) as [->|]; [done|]. rewrite orb_false_r.
  destruct ((32 <=? v) && (v <? 32 + 16)) eqn:E1.
  - replace ((0 <=? v) && (v <=? 49)) with true by lia. rewrite get_stubs by lia.
    replace (Z.of_nat 32 + (v - 32)) with v by lia.
    destruct (Z.eqb_spec v 8); [lia|]. by destruct (Z.eqb_spec v 2); [lia|].
  - destruct ((0 <=? v) && (v <? 0 + 32)) eqn:E2.
    + replace ((0 <=? v) && (v <=? 49)) with true by lia. rewrite get_stubs by lia.
      by replace (Z.of_nat 0 + (v - 0)) with v by lia.
    + by replace ((0 <=? v) && (v <=? 49)) with false by lia.
Qed.

Lemma gate_target_with_dpl handler sel st dpl :
  is_u64 handler -> Cpu.gate_target (Idt.with_dpl handler sel st dpl) = handler.
Proof.
  intros Hh. unfold Cpu.gate_target, Idt.with_dpl. cbn [Idt.offset_low Idt.offset_mid Idt.offset_high].
  rewrite !Z.shiftr_div_pow2 by lia. unfold_consts. pow_lia.
Qed.

(** C40 [idt::install], from the empty table, makes exactly the vectors
    0..0x31 and 0x40 present as interrupt gates to their own stubs in the
    kernel's code segment; the double fault runs on stack 1, the NMI on stack
    2, the others on the current stack; a user program can raise only vector
    0x40; and installing again over the result changes nothing. *)
Theorem idt_install_exact (stub : Z -> Z) (address cs : Z) :
  (forall v, is_u64 (stub v)) ->
  exists idt, Idt.install stub address cs Idt.IDT = Done (idt, Idt.mkIdtr (16 * 256 - 1) address) /\
    (forall v, 0 <= v < 256 -> installed v = true ->
       exists g, get idt v = Some g /\ Cpu.gate_target g = stub v /\ Idt.selector g = cs /\
         Cpu.gate_present g = true /\ Cpu.gate_interrupt g = true /\
         Idt.gate_ist g = (if v =? 8 then 1 else if v =? 2 then 2 else 0)) /\
    (forall v, 0 <= v < 256 -> installed v = false -> Cpu.int_allowed idt 0 v = false) /\
    (forall v, 0 <= v < 256 -> Cpu.int_allowed idt 3 v = (v =? Idt.SYSCALL_VECTOR)) /\
    exists idt2, Idt.install stub address cs idt = Done (idt2, Idt.mkIdtr (16 * 256 - 1) address) /\
      forall v, get idt2 v = get idt v.
Proof.
  intros Hs. destruct (idt_install_eq stub address cs Idt.IDT eq_refl) as (idt & Hi & Hl & Hg).
  exists idt. split; [exact Hi|].
  assert (Hmiss : forall v, 0 <= v < 256 -> get Idt.IDT v = Some Idt.missing).
  { intros v Hv. apply get_some. split; [lia|]. apply lookup_replicate. split; [done|lia]. }
  split; [|split; [|split]].
  - intros v Hv Hin. exists (gate_for stub cs v). rewrite Hg, Hin. split; [done|].
    split; [by apply gate_target_with_dpl|]. unfold gate_for. split; [done|].
    by destruct (v =? Idt.SYSCALL_VECTOR).
  - intros v Hv Hin. unfold Cpu.int_allowed. by rewrite Hg, Hin, Hmiss.
  - intros v Hv. unfold Cpu.int_allowed. rewrite Hg. destruct (installed v) eqn:Hin.
    + unfold gate_for. by destruct (v =? Idt.SYSCALL_VECTOR).
    + rewrite Hmiss by done. unfold installed in Hin. apply orb_false_iff in Hin as [_ ->]. done.
  - destruct (idt_install_eq stub address cs idt Hl) as (idt2 & Hi2 & _ & Hg2).
    exists idt2. split; [exact Hi2|]. intros v. rewrite Hg2, Hg. by destruct (installed v).
Qed.

Lemma idt_install_exact_witness :
  exists idt, Idt.install (fun v => 0x200000 + 16 * (v mod 256)) 0x210000 8 Idt.IDT =
    Done (idt, Idt.mkIdtr 4095 0x210000) /\ Cpu.int_allowed idt 3 0x40 = true.
Proof.
  destruct (idt_install_exact (fun v => 0x200000 + 16 * (v mod 256)) 0x210000 8)
    as (idt & Hi & _ & _ & Hu & _).
  { intros v. pose proof (Z.mod_pos_bound v 256 ltac:(lia)). ulia. }
  exists idt. split; [exact Hi|]. rewrite Hu by lia. reflexivity.
Defined.
