(* ===== verification/Interrupts.v ===== *)
(** * Interrupt entry and return

    The assembly and frame part of [idt.rs]: the stubs of the 32 exceptions,
    the 16 interrupt lines and the three software vectors, their two common
    tails [isr_common] and [irq_common], the frames they build on the stack and
    the exception handler.  The instructions the source writes are the program
    of a small machine: general registers, a stack in memory, and the
    processor's interrupt delivery and [iretq].

    The theorems: entering and leaving an interrupt is the identity on the
    whole register state when the handler answers 0, and switches to exactly
    the state saved in the frame the handler names otherwise; the handler sees
    the [repr(C)] frame the source declares, on an aligned stack; every
    exception stub yields the same [ExceptionFrame] whether or not the
    processor pushes an error code; a fault of a user program is told apart
    from one of the kernel. *)
From Stdlib Require Import ZArith Lia Bool String.
From stdpp Require Import base tactics option list numbers.
From S2P Require Import Prelude PhysMem BootInfo Descriptors.

#[local] Open Scope Z_scope.

(** ** The machine *)
Inductive reg : Type :=
| RAX | RCX | RDX | RBX | RBP | RSI | RDI
| R8 | R9 | R10 | R11 | R12 | R13 | R14 | R15.

#[global] Instance reg_eq_dec : EqDecision reg.
Proof. solve_decision. Defined.

Definition regs : Type := reg -> Z.
Definition set_reg (g : regs) (r : reg) (v : Z) : regs := fun s => if decide (s = r) then v else g s.

(** What an interrupt must preserve. *)
Record cpu : Type := mkCpu {
  gpr : regs;
  rip : Z;
  code_seg : Z;
  rflags : Z;
  stack_ptr : Z;
  stack_seg : Z
}.

Definition wrap64 (x : Z) : Z := x mod 2 ^ 64.

Definition push (sp : Z) (m : memory) (v : Z) : Z * memory :=
  let sp := wrap64 (sp - 8) in (sp, write64 m sp v).

Fixpoint push_all (sp : Z) (m : memory) (vs : list Z) : Z * memory :=
  match vs with
  | [] => (sp, m)
  | v :: vs => let (sp, m) := push sp m v in push_all sp m vs
  end.

(** Interrupt delivery in 64-bit mode, without the error code: the stack is
    the one of the gate's IST entry, else [rsp0] of the TSS when the privilege
    level changes, else the current one, aligned down to 16 bytes. *)
Definition deliver (c : cpu) (m : memory) (ist rsp0 : Z) : Z * memory :=
  let sp := if ist =? 0 then if Z.land (code_seg c) 3 =? 0 then stack_ptr c else rsp0 else ist in
  push_all (sp - sp mod 16) m [stack_seg c; stack_ptr c; rflags c; code_seg c; rip c].

(** [iretq]: five words from the stack. *)
Definition iretq (g : regs) (m : memory) (sp : Z) : cpu :=
  mkCpu g (read64 m sp) (read64 m (wrap64 (sp + 8))) (read64 m (wrap64 (sp + 16)))
        (read64 m (wrap64 (sp + 24))) (read64 m (wrap64 (sp + 32))).

(** The instructions of the stubs.  [JZ_OVER] is a [jz] to the label right after
    the next instruction. *)
Inductive instr : Type :=
| PUSH_IMM (v : Z)
| PUSH (r : reg)
| POP (r : reg)
| MOV_RDI_RSP
| AND_RSP_16
| CALL
| TEST_RAX
| JZ_OVER
| MOV_RSP_RAX
| ADD_RSP (k : Z)
| IRETQ
| UD2.

(** Where the code stops: back in some context, in a called function that does
    not return (with the registers and the stack it was entered with), or at
    the trap behind such a call. *)
Inductive outcome : Type :=
| Resumed (c : cpu) (m : memory)
| Entered (g : regs) (sp : Z) (m : memory)
| Trapped
| OffTheEnd.

Record core : Type := mkCore { cr : regs; sp : Z; zf : bool; cm : memory }.

Section Run.
(** The Rust function the code calls: from the registers and memory at the call
    (with the return address pushed) to those on return, or [None] for one that
    never returns.  The stack pointer is as before the call, by the calling
    convention. *)
  Variable handler : regs -> Z -> memory -> option (regs * memory).
  Variable return_address : Z.

Fixpoint run (code : list instr) (s : core) : outcome :=
  match code with
  | [] => OffTheEnd
  | PUSH_IMM v :: code =>
      let (p, m) := push (sp s) (cm s) v in run code (mkCore (cr s) p (zf s) m)
  | PUSH r :: code =>
      let (p, m) := push (sp s) (cm s) (cr s r) in run code (mkCore (cr s) p (zf s) m)
  | POP r :: code =>
      run code (mkCore (set_reg (cr s) r (read64 (cm s) (sp s))) (wrap64 (sp s + 8)) (zf s) (cm s))
  | MOV_RDI_RSP :: code => run code (mkCore (set_reg (cr s) RDI (sp s)) (sp s) (zf s) (cm s))
  | AND_RSP_16 :: code => run code (mkCore (cr s) (sp s - sp s mod 16) (zf s) (cm s))
  | CALL :: code =>
      let (p, m) := push (sp s) (cm s) return_address in
      match handler (cr s) p m with
      | Some (g, m) => run code (mkCore g (sp s) (zf s) m)
      | None => Entered (cr s) p m
      end
  | TEST_RAX :: code => run code (mkCore (cr s) (sp s) (cr s RAX =? 0) (cm s))
  | JZ_OVER :: code =>
      match code with
      | [] => OffTheEnd
      | _ :: rest => if zf s then run rest s else run code s
      end
  | MOV_RSP_RAX :: code => run code (mkCore (cr s) (cr s RAX) (zf s) (cm s))
  | ADD_RSP k :: code => run code (mkCore (cr s) (wrap64 (sp s + k)) (zf s) (cm s))
  | IRETQ :: _ => Resumed (iretq (cr s) (cm s) (sp s)) (cm s)
  | UD2 :: _ => Trapped
  end.

End Run.

(** ** The code of idt.rs *)

(** [irq_common], [isr_common] and the stubs in front of them. *)
Definition saved_order : list reg :=
  [RAX; RCX; RDX; RBX; RBP; RSI; RDI; R8; R9; R10; R11; R12; R13; R14; R15].
Definition restored_order : list reg :=
  [R15; R14; R13; R12; R11; R10; R9; R8; RDI; RSI; RBP; RBX; RDX; RCX; RAX].

Definition irq_common : list instr :=
  (PUSH <$> saved_order) ++
  [MOV_RDI_RSP; CALL; TEST_RAX; JZ_OVER; MOV_RSP_RAX] ++
  (POP <$> restored_order) ++
  [ADD_RSP 16; IRETQ].

Definition irq_stub (vector : Z) : list instr := [PUSH_IMM 0; PUSH_IMM vector] ++ irq_common.

Definition isr_common : list instr := [MOV_RDI_RSP; AND_RSP_16; CALL; UD2].

Definition isr_stub_no_error (vector : Z) : list instr := [PUSH_IMM 0; PUSH_IMM vector] ++ isr_common.
Definition isr_stub_with_error (vector : Z) : list instr := [PUSH_IMM vector] ++ isr_common.

(** The 32 invocations of [isr_stub!]: [true] for [with_error]. *)
Definition isr_kinds : list bool :=
  [false; false; false; false; false; false; false; false; true; false; true; true; true; true; true;
   false; false; true; false; false; false; true; false; false; false; false; false; false; false;
   true; true; false].

Definition isr_stub (vector : Z) : option (list instr) :=
  (fun with_error : bool =>
     if with_error then isr_stub_with_error vector else isr_stub_no_error vector) <$> get isr_kinds vector.

(** ** Frames *)

(** [ExceptionFrame] and [IrqFrame], in declaration order. *)
Record ExceptionFrame : Type := mkExceptionFrame {
  ex_vector : Z;
  ex_error_code : Z;
  ex_rip : Z;
  ex_cs : Z;
  ex_rflags : Z;
  ex_rsp : Z;
  ex_ss : Z
}.

Record IrqFrame : Type := mkIrqFrame {
  f_r15 : Z; f_r14 : Z; f_r13 : Z; f_r12 : Z; f_r11 : Z; f_r10 : Z; f_r9 : Z; f_r8 : Z;
  f_rdi : Z; f_rsi : Z; f_rbp : Z; f_rbx : Z; f_rdx : Z; f_rcx : Z; f_rax : Z;
  f_vector : Z;
  f_error_code : Z;
  f_rip : Z; f_cs : Z; f_rflags : Z; f_rsp : Z; f_ss : Z
}.

Definition size_of_IrqFrame : Z := 22 * 8.

(** Dereferencing a pointer to the [repr(C)] structure. *)
Definition exception_frame_at (m : memory) (a : Z) : ExceptionFrame :=
  mkExceptionFrame (read64 m a) (read64 m (a + 8)) (read64 m (a + 16)) (read64 m (a + 24))
                   (read64 m (a + 32)) (read64 m (a + 40)) (read64 m (a + 48)).

Definition irq_frame_at (m : memory) (a : Z) : IrqFrame :=
  mkIrqFrame (read64 m a) (read64 m (a + 8)) (read64 m (a + 16)) (read64 m (a + 24))
    (read64 m (a + 32)) (read64 m (a + 40)) (read64 m (a + 48)) (read64 m (a + 56))
    (read64 m (a + 64)) (read64 m (a + 72)) (read64 m (a + 80)) (read64 m (a + 88))
    (read64 m (a + 96)) (read64 m (a + 104)) (read64 m (a + 112)) (read64 m (a + 120))
    (read64 m (a + 128)) (read64 m (a + 136)) (read64 m (a + 144)) (read64 m (a + 152))
    (read64 m (a + 160)) (read64 m (a + 168)).

(** [FxSaveArea]. *)
Definition FxSaveArea : Type := list Z.
Definition fx_zeroed : FxSaveArea := replicate 512 0.
Definition fx_default_state : exec FxSaveArea :=
  let! area := set_index (replicate 512 0) 0 0x7F in
  let! area := set_index area 1 0x03 in
  let! area := set_index area 24 0x80 in
  set_index area 25 0x1F.

(** ** The exception handler *)
Definition is_user_fault (frame : ExceptionFrame) : bool := Z.land (ex_cs frame) 3 =? 3.

Inductive StackKind : Type := Ist1Stack | Ist2Stack | CurrentStack.

(** [current_stack_kind] for the current [rsp]. *)
Definition current_stack_kind (g : Gdt.machine) (rsp : Z) : exec StackKind :=
  let! top1 := Gdt.ist_top g Gdt.IST_DOUBLE_FAULT in
  if negb (top1 =? 0) && (rsp <=? top1) && (saturating_sub top1 4096 <? rsp) then Done Ist1Stack else
  let! top2 := Gdt.ist_top g Gdt.IST_NMI in
  if negb (top2 =? 0) && (rsp <=? top2) && (saturating_sub top2 4096 <? rsp) then Done Ist2Stack else
  Done CurrentStack.

(** The exit value the handler finishes with. *)
Definition exception_handler (frame : ExceptionFrame) : Z :=
  if is_user_fault frame then EXIT_VALUE_USER_FAILURE else EXIT_VALUE_KERNEL_FAULT.

(** ** What the stubs should do *)

(** The frame of a context interrupted by [vector]. *)
Definition frame_of (c : cpu) (vector : Z) : IrqFrame :=
  let g := gpr c in
  mkIrqFrame (g R15) (g R14) (g R13) (g R12) (g R11) (g R10) (g R9) (g R8)
    (g RDI) (g RSI) (g RBP) (g RBX) (g RDX) (g RCX) (g RAX)
    vector 0 (rip c) (code_seg c) (rflags c) (stack_ptr c) (stack_seg c).

(** The context a frame describes. *)
Definition context_of (f : IrqFrame) : cpu :=
  mkCpu (fun r => match r with
                  | RAX => f_rax f | RCX => f_rcx f | RDX => f_rdx f | RBX => f_rbx f
                  | RBP => f_rbp f | RSI => f_rsi f | RDI => f_rdi f
                  | R8 => f_r8 f | R9 => f_r9 f | R10 => f_r10 f | R11 => f_r11 f
                  | R12 => f_r12 f | R13 => f_r13 f | R14 => f_r14 f | R15 => f_r15 f
                  end)
        (f_rip f) (f_cs f) (f_rflags f) (f_rsp f) (f_ss f).

(** Contexts with the same register contents. *)
Definition cpu_eq (c1 c2 : cpu) : Prop :=
  (forall r, gpr c1 r = gpr c2 r) /\ rip c1 = rip c2 /\ code_seg c1 = code_seg c2 /\
  rflags c1 = rflags c2 /\ stack_ptr c1 = stack_ptr c2 /\ stack_seg c1 = stack_seg c2.

#[global] Instance cpu_eq_equivalence : Equivalence cpu_eq.
Proof.
  split.
  - intros c. done.
  - intros c1 c2 (H & ? & ? & ? & ? & ?). split; [|done]. intros r. by rewrite H.
  - intros c1 c2 c3 (H & ? & ? & ? & ? & ?) (H' & ? & ? & ? & ? & ?).
    split; [intros r; by rewrite H, H'|]. repeat split; congruence.
Qed.

#[global] Instance frame_of_proper : Proper (cpu_eq ==> eq ==> eq) frame_of.
Proof.
  intros c1 c2 (H & ? & ? & ? & ? & ?) v ? <-. unfold frame_of. rewrite !H. by f_equal.
Qed.

Lemma context_of_frame_of c v : cpu_eq (context_of (frame_of c v)) c.
Proof. split; [by intros []|done]. Qed.

Definition cpu_ok (c : cpu) : Prop :=
  (forall r, is_u64 (gpr c r)) /\ is_u64 (rip c) /\ is_u64 (code_seg c) /\ is_u64 (rflags c) /\
  is_u64 (stack_ptr c) /\ is_u64 (stack_seg c).

(** ** Pushing and popping *)

Lemma set_reg_same g r v : set_reg g r v r = v.
Proof. unfold set_reg. by rewrite decide_True. Qed.

Lemma wrap64_small x : is_u64 x -> wrap64 x = x.
Proof. intros H. apply Z.mod_small. ulia. Qed.

Lemma push_all_app p m us vs :
  push_all p m (us ++ vs) = let (p, m) := push_all p m us in push_all p m vs.
Proof.
  revert p m. induction us as [|u us IH]; intros p m; [done|]. cbn [app push_all].
  destruct (push p m u). apply IH.
Qed.

(** Pushed words lie below the old stack pointer, last pushed first, and
    nothing else of memory changes. *)
Lemma push_all_spec p m vs :
  8 * len vs <= p <= U64_MAX -> Forall is_u64 vs ->
  exists m', push_all p m vs = (p - 8 * len vs, m') /\
    read_words m' (p - 8 * len vs) (length vs) = rev vs /\
    forall a n, a + n <= p - 8 * len vs \/ p <= a -> same_on a n m' m.
Proof.
  revert p m. induction vs as [|v vs IH]; intros p m Hp Hv.
  - exists m. simpl. change (len []) with 0. replace (p - 8 * 0) with p by lia. done.
  - rewrite len_cons in *. pose proof (len_nonneg vs). apply List.Forall_cons_iff in Hv as [Hv Hvs].
    cbn [push_all push]. rewrite wrap64_small by ulia.
    destruct (IH (p - 8) (write64 m (p - 8) v)) as (m' & He & Hw & Hs); [ulia|done|].
    rewrite He. exists m'. replace (p - 8 - 8 * len vs) with (p - 8 * (1 + len vs)) in * by lia.
    split; [done|]. split.
    + apply list_eq. intros i. simpl rev. simpl length.
      destruct (decide (i < length vs)%nat) as [Hi|Hi].
      * rewrite lookup_app_l by (rewrite length_rev; lia). rewrite <- Hw.
        rewrite !read_words_lookup by lia. done.
      * destruct (decide (i = length vs)) as [->|].
        -- rewrite read_words_lookup by lia. rewrite lookup_app_r by (rewrite length_rev; lia).
           rewrite length_rev, Nat.sub_diag. simpl. f_equal.
           replace (p - 8 * (1 + len vs) + 8 * Z.of_nat (length vs)) with (p - 8) by (unfold len; lia).
           rewrite (read64_ext m' (write64 m (p - 8) v)); [by apply read64_write64|]. apply Hs. lia.
        -- rewrite !lookup_ge_None_2; [done|..].
           ++ rewrite length_app, length_rev. simpl. lia.
           ++ rewrite length_read_words. lia.
    + intros a n Ha. transitivity (write64 m (p - 8) v); [apply Hs; lia|apply write64_same_on; lia].
Qed.

Lemma run_pushes h ra rs code s :
  run h ra ((PUSH <$> rs) ++ code) s =
    let (p, m) := push_all (sp s) (cm s) (cr s <$> rs) in run h ra code (mkCore (cr s) p (zf s) m).
Proof.
  revert s. induction rs as [|r rs IH]; intros s; [by destruct s|]. cbn [fmap list_fmap app run push_all].
  destruct (push (sp s) (cm s) (cr s r)) as [p m]. exact (IH (mkCore (cr s) p (zf s) m)).
Qed.

Fixpoint pop_regs (g : regs) (m : memory) (p : Z) (rs : list reg) : regs :=
  match rs with
  | [] => g
  | r :: rs => pop_regs (set_reg g r (read64 m p)) m (p + 8) rs
  end.

Lemma run_pops h ra rs code s :
  0 <= sp s -> sp s + 8 * len rs <= U64_MAX ->
  run h ra ((POP <$> rs) ++ code) s =
    run h ra code (mkCore (pop_regs (cr s) (cm s) (sp s) rs) (sp s + 8 * len rs) (zf s) (cm s)).
Proof.
  revert s. induction rs as [|r rs IH]; intros s Hs He.
  - simpl. change (len []) with 0. replace (sp s + 8 * 0) with (sp s) by lia. by destruct s.
  - rewrite len_cons in *. pose proof (len_nonneg rs). cbn [fmap list_fmap app run pop_regs].
    rewrite wrap64_small by ulia. rewrite IH by (simpl; lia). simpl.
    by replace (sp s + 8 + 8 * len rs) with (sp s + 8 * (1 + len rs)) by lia.
Qed.

Lemma pop_regs_out g m p rs r : r ∉ rs -> pop_regs g m p rs r = g r.
Proof.
  revert g p. induction rs as [|x rs IH]; intros g p Hr; [done|]. cbn [pop_regs].
  apply not_elem_of_cons in Hr as [Hne Hr]. rewrite IH by done. unfold set_reg. by rewrite decide_False.
Qed.

Lemma pop_regs_in g m p rs r (i : nat) :
  NoDup rs -> rs !! i = Some r -> pop_regs g m p rs r = read64 m (p + 8 * Z.of_nat i).
Proof.
  revert g p i. induction rs as [|x rs IH]; intros g p i Hn Hi; [done|].
  apply list.NoDup_cons in Hn as [Hx Hn]. cbn [pop_regs]. destruct i as [|i].
  - injection Hi as ->. rewrite pop_regs_out by done. unfold set_reg. rewrite decide_True by done.
    f_equal. lia.
  - cbn in Hi. rewrite (IH _ _ i) by done. f_equal. lia.
Qed.

(** ** Through [irq_common] *)

(** The words of a frame, lowest address first. *)
Definition frame_words (c : cpu) (vector : Z) : list Z :=
  (gpr c <$> restored_order) ++ [vector; 0; rip c; code_seg c; rflags c; stack_ptr c; stack_seg c].

Lemma irq_frame_at_words m a c v :
  read_words m a 22 = frame_words c v -> irq_frame_at m a = frame_of c v.
Proof.
  intros H. unfold irq_frame_at, frame_of.
  assert (Hi : forall i, (i < 22)%nat -> Some (read64 m (a + 8 * Z.of_nat i)) = frame_words c v !! i).
  { intros i Hi. rewrite <- H. by rewrite read_words_lookup. }
  rewrite <- (Z.add_0_r a) at 1.
  f_equal; match goal with
  | |- read64 m (a + ?off) = _ =>
      let k := eval vm_compute in (Z.to_nat (off / 8)) in
      specialize (Hi k ltac:(lia)); injection Hi as <-; f_equal; lia
  end.
Qed.

(** Popping the frame at [t] and returning from the interrupt. *)
Lemma run_return h ra g z m t :
  0 <= t -> t + 176 <= U64_MAX ->
  exists c, run h ra ((POP <$> restored_order) ++ [ADD_RSP 16; IRETQ]) (mkCore g t z m) = Resumed c m /\
    cpu_eq c (context_of (irq_frame_at m t)).
Proof.
  intros Ht He. rewrite run_pops by (simpl; change (len restored_order) with 15; lia).
  change (len restored_order) with 15. cbn [run sp cr cm]. unfold iretq.
  rewrite !wrap64_small by ulia. eexists. split; [reflexivity|].
  split; [|cbn; repeat split; f_equal; lia].
  assert (Hn : NoDup restored_order) by (apply (bool_decide_unpack _); vm_compute; exact I).
  intros r. cbn [gpr]. destruct r.
  all: match goal with |- pop_regs _ _ _ _ ?r = _ =>
         let i := eval vm_compute in (list_find (fun x => x = r) restored_order) in
         match i with Some (?k, _) => rewrite (pop_regs_in _ _ _ _ _ k Hn eq_refl) end
       end.
  all: cbn; f_equal; lia.
Qed.

(** The stack an interrupt of [c] runs on, and the frame's address there. *)
Definition entry_stack (c : cpu) (ist rsp0 : Z) : Z :=
  let sp := if ist =? 0 then if Z.land (code_seg c) 3 =? 0 then stack_ptr c else rsp0 else ist in
  sp - sp mod 16.
Definition frame_address (c : cpu) (ist rsp0 : Z) : Z := entry_stack c ist rsp0 - size_of_IrqFrame.

Lemma run_push_imms h ra vs code s :
  run h ra ((PUSH_IMM <$> vs) ++ code) s =
    let (p, m) := push_all (sp s) (cm s) vs in run h ra code (mkCore (cr s) p (zf s) m).
Proof.
  revert s. induction vs as [|v vs IH]; intros s; [by destruct s|]. cbn [fmap list_fmap app run push_all].
  destruct (push (sp s) (cm s) v) as [p m]. exact (IH (mkCore (cr s) p (zf s) m)).
Qed.

(** The pushes of the stub and of [irq_common] are one sequence of words. *)
Lemma run_irq_stub h ra v s :
  run h ra (irq_stub v) s =
    let (p, m) := push_all (sp s) (cm s) ([0; v] ++ (cr s <$> saved_order)) in
    run h ra ([MOV_RDI_RSP; CALL; TEST_RAX; JZ_OVER; MOV_RSP_RAX] ++ (POP <$> restored_order) ++
              [ADD_RSP 16; IRETQ]) (mkCore (cr s) p (zf s) m).
Proof.
  unfold irq_stub, irq_common. rewrite push_all_app.
  change [PUSH_IMM 0; PUSH_IMM v] with (PUSH_IMM <$> [0; v]). rewrite run_push_imms.
  destruct (push_all (sp s) (cm s) [0; v]) as [p m]. rewrite run_pushes. reflexivity.
Qed.

Lemma run_call h ra code s :
  run h ra ([MOV_RDI_RSP; CALL; TEST_RAX; JZ_OVER; MOV_RSP_RAX] ++ code) s =
    let (p, m1) := push (sp s) (cm s) ra in
    match h (set_reg (cr s) RDI (sp s)) p m1 with
    | Some (g, m2) => run h ra code (mkCore g (if g RAX =? 0 then sp s else g RAX) (g RAX =? 0) m2)
    | None => Entered (set_reg (cr s) RDI (sp s)) p m1
    end.
Proof.
  cbn [app run sp cm cr zf]. destruct (push (sp s) (cm s) ra) as [p m1].
  destruct (h (set_reg (cr s) RDI (sp s)) p m1) as [[g m2]|]; [|done]. cbn [run sp cm cr zf].
  by destruct (g RAX =? 0).
Qed.

(** From the interrupt to the call: the frame is on the stack, memory outside
    it and the word of the return address is as before. *)
Lemma irq_entry ra v c m z ist rsp0 :
  cpu_ok c -> is_u64 ra -> is_u64 v -> 256 <= entry_stack c ist rsp0 <= U64_MAX ->
  exists m1,
    let f := frame_address c ist rsp0 in
    irq_frame_at m1 f = frame_of c v /\
    (forall a n, a + n <= f - 8 \/ f + size_of_IrqFrame <= a -> same_on a n m1 m) /\
    forall h, (let (p, m0) := deliver c m ist rsp0 in run h ra (irq_stub v) (mkCore (gpr c) p z m0)) =
      match h (set_reg (gpr c) RDI f) (f - 8) m1 with
      | Some (g, m2) =>
          run h ra ((POP <$> restored_order) ++ [ADD_RSP 16; IRETQ])
            (mkCore g (if g RAX =? 0 then f else g RAX) (g RAX =? 0) m2)
      | None => Entered (set_reg (gpr c) RDI f) (f - 8) m1
      end.
Proof.
  intros (Hg & Hrip & Hcs & Hfl & Hsp & Hss) Hra Hv He. unfold frame_address.
  change size_of_IrqFrame with 176.
  assert (Hd : deliver c m ist rsp0 = push_all (entry_stack c ist rsp0) m
            [stack_seg c; stack_ptr c; rflags c; code_seg c; rip c]) by reflexivity.
  rewrite Hd. clear Hd. generalize dependent (entry_stack c ist rsp0). intros e He.
  assert (Hok : Forall is_u64 ([stack_seg c; stack_ptr c; rflags c; code_seg c; rip c] ++ [0; v] ++
                               (gpr c <$> saved_order))).
  { cbn [app fmap list_fmap saved_order].
    repeat (apply List.Forall_cons; [first [apply Hg | assumption | split; discriminate]|]).
    apply List.Forall_nil. }
  match type of Hok with Forall _ ?vs =>
    assert (Hn : len vs = 22) by reflexivity; assert (Hn' : length vs = 22%nat) by reflexivity;
    destruct (push_all_spec e m vs) as (m' & Hpush & Hwords & Hsame); [rewrite Hn; lia|exact Hok|]
  end.
  rewrite Hn in Hpush, Hwords, Hsame. rewrite Hn' in Hwords. change (8 * 22) with 176 in *.
  rewrite push_all_app in Hpush.
  destruct (push_all e m [stack_seg c; stack_ptr c; rflags c; code_seg c; rip c]) as [p m0].
  exists (write64 m' (e - 176 - 8) ra). split; [|split].
  - apply irq_frame_at_words. rewrite (read_words_ext _ m') by (apply write64_same_on; lia).
    exact Hwords.
  - intros a n Ha. transitivity m'; [apply write64_same_on; lia|apply Hsame; lia].
  - intros h. rewrite run_irq_stub. cbn [sp cm cr zf]. rewrite Hpush, run_call. cbn [sp cm cr zf].
    unfold push. rewrite wrap64_small by ulia. reflexivity.
Qed.

(** An interrupt with [vector] in context [c], until it returns. *)
Definition interrupt (handler : regs -> Z -> memory -> option (regs * memory)) (ra vector : Z)
    (c : cpu) (m : memory) (ist rsp0 : Z) : outcome :=
  let (p, m) := deliver c m ist rsp0 in run handler ra (irq_stub vector) (mkCore (gpr c) p false m).

Lemma frame_context m a c v :
  irq_frame_at m a = frame_of c v -> cpu_eq (context_of (irq_frame_at m a)) c.
Proof. intros ->. apply context_of_frame_of. Qed.

Lemma irq_frame_at_ext m1 m2 a :
  same_on a size_of_IrqFrame m1 m2 -> irq_frame_at m1 a = irq_frame_at m2 a.
Proof.
  intros H. unfold irq_frame_at, size_of_IrqFrame in *.
  f_equal; apply read64_ext; eapply same_on_sub; [exact H|lia|lia|..]; exact H || lia.
Qed.

(** The way out resumes the context whose frame is at [t], also when other
    memory has changed since the frame was there. *)
Lemma return_resumes h ra g z m m1 t c :
  0 < t -> t + size_of_IrqFrame <= U64_MAX -> same_on t size_of_IrqFrame m m1 ->
  cpu_eq (context_of (irq_frame_at m1 t)) c ->
  exists c', run h ra ((POP <$> restored_order) ++ [ADD_RSP 16; IRETQ]) (mkCore g t z m) = Resumed c' m /\ cpu_eq c' c.
Proof.
  intros Ht Hu Hs Hc. destruct (run_return h ra g z m t) as (c' & Hr & Hc'); [lia|unfold size_of_IrqFrame in *; lia|].
  exists c'. split; [exact Hr|]. etransitivity; [exact Hc'|]. by rewrite (irq_frame_at_ext _ m1).
Qed.

(** The frame ends up on an aligned stack, as the called function needs. *)
Lemma frame_address_aligned c ist rsp0 : frame_address c ist rsp0 mod 16 = 0.
Proof.
  unfold frame_address, entry_stack, size_of_IrqFrame. cbv zeta.
  set (s := if ist =? 0 then _ else _).
  pose proof (Z.div_mod s 16 ltac:(lia)) as H.
  replace (s - s mod 16 - 22 * 8) with ((s / 16 - 11) * 16) by lia. apply Z.mod_mul. lia.
Qed.

(** An interrupt and its return, for a handler that keeps the thread or answers
    another frame. *)
Lemma irq_round_trip handler ra vector (c : cpu) (m : memory) ist rsp0 :
  cpu_ok c -> is_u64 ra -> is_u64 vector -> 256 <= entry_stack c ist rsp0 <= U64_MAX ->
  let f := frame_address c ist rsp0 in
  exists m1,
    f mod 16 = 0 /\ irq_frame_at m1 f = frame_of c vector /\
    (forall a n, a + n <= f - 8 \/ f + size_of_IrqFrame <= a -> same_on a n m1 m) /\
    (forall m', same_on f size_of_IrqFrame m' m1 -> cpu_eq (context_of (irq_frame_at m' f)) c) /\
    forall g m2, handler (set_reg (gpr c) RDI f) (f - 8) m1 = Some (g, m2) ->
      (g RAX = 0 -> same_on f size_of_IrqFrame m2 m1 ->
       exists c', interrupt handler ra vector c m ist rsp0 = Resumed c' m2 /\ cpu_eq c' c) /\
      (0 < g RAX -> g RAX + size_of_IrqFrame <= U64_MAX ->
       exists c', interrupt handler ra vector c m ist rsp0 = Resumed c' m2 /\
         cpu_eq c' (context_of (irq_frame_at m2 (g RAX)))).
Proof.
  intros Hc Hra Hv He f.
  destruct (irq_entry ra vector c m false ist rsp0 Hc Hra Hv He) as (m1 & Hf & Hs & Hrun).
  specialize (Hrun handler).
  fold f in Hf, Hs, Hrun. exists m1. split; [apply frame_address_aligned|]. split; [done|]. split; [done|].
  assert (Hkeep : forall m', same_on f size_of_IrqFrame m' m1 -> cpu_eq (context_of (irq_frame_at m' f)) c).
  { intros m' Hm'. apply (frame_context _ _ _ vector). by rewrite (irq_frame_at_ext m' m1). }
  split; [exact Hkeep|]. intros g m2 Hh. unfold interrupt. rewrite Hrun, Hh.
  split; intros Hg Hm2.
  - rewrite Hg. cbn [Z.eqb].
    destruct (run_return handler ra g true m2 f) as (c' & Hr & Hc'); unfold f, frame_address, size_of_IrqFrame;
      [lia|lia|].
    exists c'. split; [exact Hr|]. etransitivity; [exact Hc'|by apply Hkeep].
  - destruct (Z.eqb_spec (g RAX) 0); [lia|].
    destruct (run_return handler ra g false m2 (g RAX)) as (c' & Hr & Hc'); [lia|exact Hm2|].
    exists c'. split; [exact Hr|exact Hc'].
Qed.

(** C4 An interrupt in any context calls the handler on a 16-byte aligned stack
    with [rdi] pointing to an [IrqFrame] that holds every register of the
    context.  When the handler answers 0 and left that frame alone, exactly the
    interrupted context resumes; when it answers the address of a frame, exactly
    the context of that frame resumes; and as long as the memory of a frame is
    kept, it stands for the context that was interrupted. *)
Theorem irq_saves_and_restores handler ra vector (c : cpu) (m : memory) ist rsp0 :
  cpu_ok c -> is_u64 ra -> is_u64 vector -> 256 <= entry_stack c ist rsp0 <= U64_MAX ->
  let f := frame_address c ist rsp0 in
  exists m1,
    f mod 16 = 0 /\ irq_frame_at m1 f = frame_of c vector /\
    (forall a n, a + n <= f - 8 \/ f + size_of_IrqFrame <= a -> same_on a n m1 m) /\
    (forall m', same_on f size_of_IrqFrame m' m1 -> cpu_eq (context_of (irq_frame_at m' f)) c) /\
    forall g m2, handler (set_reg (gpr c) RDI f) (f - 8) m1 = Some (g, m2) ->
      (g RAX = 0 -> same_on f size_of_IrqFrame m2 m1 ->
       exists c', interrupt handler ra vector c m ist rsp0 = Resumed c' m2 /\ cpu_eq c' c) /\
      (0 < g RAX -> g RAX + size_of_IrqFrame <= U64_MAX ->
       exists c', interrupt handler ra vector c m ist rsp0 = Resumed c' m2 /\
         cpu_eq c' (context_of (irq_frame_at m2 (g RAX)))).
Proof. exact (irq_round_trip handler ra vector c m ist rsp0). Qed.

Definition demo_cpu : cpu := mkCpu (fun r => if decide (r = RBX) then 7 else 1) 0x401000 0x2B 0x202 0x40200000 0x33.

Lemma irq_saves_and_restores_witness :
  exists c' m', interrupt (fun g _ m => Some (set_reg g RAX 0, m)) 0x100 0x20 demo_cpu (fun _ => 0) 0 0x90000 =
    Resumed c' m' /\ gpr c' RBX = 7.
Proof.
  destruct (irq_saves_and_restores (fun g _ m => Some (set_reg g RAX 0, m)) 0x100 0x20 demo_cpu (fun _ => 0) 0 0x90000)
    as (m1 & _ & _ & _ & _ & H).
  { split; [intros r; cbn; case_decide; split; discriminate|]. repeat split; discriminate. }
  1-3: split; discriminate.
  destruct (H _ _ eq_refl) as [H0 _]. destruct H0 as (c' & Hi & Hcc); [reflexivity|apply same_on_refl|].
  exists c', m1. split; [exact Hi|]. rewrite (proj1 Hcc). reflexivity.
Defined.

(** ** Exceptions *)

(** The vectors for which the processor pushes an error code itself. *)
Definition pushes_error_code (v : Z) : bool := existsb (Z.eqb v) [8; 10; 11; 12; 13; 14; 17; 21; 29; 30].

(** Exception [v] with error code [e] in context [c], through its stub. *)
Definition exception (handler : regs -> Z -> memory -> option (regs * memory)) (ra v e : Z)
    (c : cpu) (m : memory) (ist rsp0 : Z) : option outcome :=
  let (p, m) := deliver c m ist rsp0 in
  let (p, m) := if pushes_error_code v then push p m e else (p, m) in
  (fun code => run handler ra code (mkCore (gpr c) p false m)) <$> isr_stub v.

Lemma run_isr_tail ra s :
  run (fun _ _ _ => None) ra isr_common s =
    Entered (set_reg (cr s) RDI (sp s)) (wrap64 (sp s - sp s mod 16 - 8))
            (write64 (cm s) (wrap64 (sp s - sp s mod 16 - 8)) ra).
Proof. reflexivity. Qed.

(** Whatever the vector, the stub leaves vector and error code on the stack. *)
Lemma isr_stub_pushes ra v e p m g :
  0 <= v < 32 ->
  (let (p, m) := if pushes_error_code v then push p m e else (p, m) in
   (fun code => run (fun _ _ _ => None) ra code (mkCore g p false m)) <$> isr_stub v) =
  Some (let (p, m) := push_all p m [if pushes_error_code v then e else 0; v] in
        run (fun _ _ _ => None) ra isr_common (mkCore g p false m)).
Proof.
  intros Hv. assert (Hk : get isr_kinds v = Some (pushes_error_code v)).
  { assert (Hin : In v [0; 1; 2; 3; 4; 5; 6; 7; 8; 9; 10; 11; 12; 13; 14; 15; 16; 17; 18; 19; 20; 21; 22; 23;
                        24; 25; 26; 27; 28; 29; 30; 31]) by (simpl; lia).
    simpl in Hin. repeat destruct Hin as [<-|Hin]; [..|done]; reflexivity. }
  unfold isr_stub. rewrite Hk. cbn [fmap option_fmap option_map]. destruct (pushes_error_code v).
  - destruct (push p m e) as [p1 m1] eqn:E1. unfold isr_stub_with_error.
    change [PUSH_IMM v] with (PUSH_IMM <$> [v]). rewrite run_push_imms. cbn [sp cm cr zf push_all].
    by rewrite E1.
  - unfold isr_stub_no_error. change [PUSH_IMM 0; PUSH_IMM v] with (PUSH_IMM <$> [0; v]).
    by rewrite run_push_imms.
Qed.

(** C39 For each of the 32 exceptions, with the processor pushing an error code
    exactly for the vectors that have one, the stub enters the exception handler
    with [rdi] pointing to the same [ExceptionFrame]: the vector, the error code
    or 0, and the interrupted context's registers; the stack is aligned as a
    called function expects; and the handler ends with the exit value for a user
    failure exactly when the interrupted code ran at privilege level 3. *)
Theorem exception_frame_uniform ra v e (c : cpu) (m : memory) ist rsp0 :
  cpu_ok c -> is_u64 ra -> is_u64 e -> 0 <= v < 32 -> 256 <= entry_stack c ist rsp0 <= U64_MAX ->
  exists g sp m1, exception (fun _ _ _ => None) ra v e c m ist rsp0 = Some (Entered g sp m1) /\
    (sp + 8) mod 16 = 0 /\
    exception_frame_at m1 (g RDI) =
      mkExceptionFrame v (if pushes_error_code v then e else 0) (rip c) (code_seg c) (rflags c)
                       (stack_ptr c) (stack_seg c) /\
    exception_handler (exception_frame_at m1 (g RDI)) =
      (if Z.land (code_seg c) 3 =? 3 then EXIT_VALUE_USER_FAILURE else EXIT_VALUE_KERNEL_FAULT).
Proof.
  intros (Hg & Hrip & Hcs & Hfl & Hsp & Hss) Hra Hev Hv He. unfold exception.
  assert (Hd : deliver c m ist rsp0 = push_all (entry_stack c ist rsp0) m
            [stack_seg c; stack_ptr c; rflags c; code_seg c; rip c]) by reflexivity.
  rewrite Hd. clear Hd. set (e0 := entry_stack c ist rsp0) in *.
  assert (Hal : e0 mod 16 = 0).
  { pose proof (frame_address_aligned c ist rsp0) as H. unfold frame_address in H. fold e0 in H.
    unfold size_of_IrqFrame in H. Z.div_mod_to_equations. lia. }
  clearbody e0. set (code := if pushes_error_code v then e else 0).
  assert (Hcode : is_u64 code) by (unfold code; destruct (pushes_error_code v); [done|split; discriminate]).
  destruct (push_all_spec e0 m ([stack_seg c; stack_ptr c; rflags c; code_seg c; rip c] ++ [code; v]))
    as (m' & Hpush & Hwords & _).
  { change (len _) with 7. lia. }
  { cbn [app]. repeat (apply List.Forall_cons; [first [assumption | ulia]|]). apply List.Forall_nil. }
  rewrite push_all_app in Hpush.
  destruct (push_all e0 m [stack_seg c; stack_ptr c; rflags c; code_seg c; rip c]) as [p0 m0].
  rewrite isr_stub_pushes by done. fold code. rewrite Hpush, run_isr_tail. cbn [sp cm cr].
  change (8 * len _) with 56 in *.
  assert (Hm16 : (e0 - 56) mod 16 = 8) by (Z.div_mod_to_equations; lia). rewrite Hm16.
  rewrite wrap64_small by ulia. eexists _, _, _. split; [reflexivity|].
  split; [Z.div_mod_to_equations; lia|].
  assert (Hfr : exception_frame_at (write64 m' (e0 - 56 - 8 - 8) ra) (e0 - 56) =
            mkExceptionFrame v code (rip c) (code_seg c) (rflags c) (stack_ptr c) (stack_seg c)).
  { unfold exception_frame_at. rewrite !read64_write64_ne by lia. cbn [read_words rev app length] in Hwords.
    injection Hwords as H1 H2 H3 H4 H5 H6 H7.
    f_equal; [exact H1|rewrite <- H2|rewrite <- H3|rewrite <- H4|rewrite <- H5|rewrite <- H6|rewrite <- H7];
      f_equal; lia. }
  unfold set_reg. rewrite decide_True by done. rewrite Hfr. done.
Qed.

Lemma exception_frame_uniform_witness :
  exists g sp m1, exception (fun _ _ _ => None) 0x100 14 6 demo_cpu (fun _ => 0) 0 0x90000 =
    Some (Entered g sp m1) /\ exception_handler (exception_frame_at m1 (g RDI)) = EXIT_VALUE_USER_FAILURE.
Proof.
  destruct (exception_frame_uniform 0x100 14 6 demo_cpu (fun _ => 0) 0 0x90000) as (g & sp & m1 & H & _ & _ & Hx).
  { split; [intros r; cbn; case_decide; split; discriminate|]. repeat split; discriminate. }
  1-2: split; discriminate. { lia. } { split; discriminate. }
  exists g, sp, m1. split; [exact H|exact Hx].
Defined.
