(* ===== verification/Lock.v ===== *)
(** * Critical sections and spin locks

    [lock.rs], with the two guards against switching while a lock is held
    ([yield_now] and [exit] of [thread.rs]).  The operations act on the
    processor's interrupt flag, the lock flags and the counter [HELD]; guards
    are the values whose destructors the code runs.

    Around them stands a step relation for one processor and several threads:
    a thread takes and drops guards in the order of its scopes, the clock can
    interrupt it only while the flag is set, a software interrupt is raised by
    [yield_now] and [exit] behind their guards, and the handler may return or
    switch to another thread's saved context.  In every reachable state the
    counter is exact, a lock is held only by the running thread and only with
    interrupts off, so taking a lock never waits for another thread. *)
From Stdlib Require Import ZArith Lia Bool Relations.
From stdpp Require Import base tactics option list numbers gmap sets.
From S2P Require Import Prelude.

#[local] Open Scope Z_scope.

(** ** Operations *)

(** The interrupt flag, the counter and the lock flags that are set. *)
Record LockState : Type := mkLocks {
  IF : bool;
  HELD : Z;
  locked : gset Z
}.

Definition interrupts_enabled (s : LockState) : bool := IF s.
Definition disable_interrupts (s : LockState) : LockState := mkLocks false (HELD s) (locked s).
Definition enable_interrupts (s : LockState) : LockState := mkLocks true (HELD s) (locked s).

(** [CriticalSection]: [enter] and the destructor. *)
Record CriticalSection : Type := mkCritical { restore : bool }.

Definition enter (s : LockState) : CriticalSection * LockState :=
  let restore := interrupts_enabled s in
  let s := if restore then disable_interrupts s else s in
  (mkCritical restore, s).

Definition drop_critical (g : CriticalSection) (s : LockState) : LockState :=
  if restore g then enable_interrupts s else s.

Definition critical (s : LockState) : CriticalSection * LockState := enter s.

Definition held_count (s : LockState) : Z := HELD s.

(** [SpinLock]s are known by their address ([u64], not null); [swap] and the wrapping atomic
    arithmetic on [HELD]. *)
Definition swap_true (s : LockState) (l : Z) : bool * LockState :=
  (bool_decide (l ∈ locked s), mkLocks (IF s) (HELD s) ({[l]} ∪ locked s)).
Definition store_false (s : LockState) (l : Z) : LockState :=
  mkLocks (IF s) (HELD s) (locked s ∖ {[l]}).
Definition fetch_add (s : LockState) (k : Z) : LockState :=
  mkLocks (IF s) ((HELD s + k) mod 2 ^ 64) (locked s).

Record SpinLockGuard : Type := mkGuard { lock_of : Z; irq : CriticalSection }.

(** The loop [while self.locked.swap(true)]; with interrupts off nothing else
    runs between two rounds.  [None] when [fuel] rounds were not enough. *)
Fixpoint spin (fuel : nat) (s : LockState) (l : Z) : option LockState :=
  match fuel with
  | O => None
  | S fuel => let (busy, s) := swap_true s l in if busy then spin fuel s l else Some s
  end.

(** [lock] first closes interrupts ([enter]), then takes the flag and counts
    ([grab]); the destructor of the guard uncounts and clears the flag
    ([release]), then the destructor of its field [irq] opens interrupts. *)
Definition grab (fuel : nat) (s : LockState) (l : Z) : option LockState :=
  let* s := spin fuel s l else None in
  Some (fetch_add s 1).

Definition lock (fuel : nat) (s : LockState) (l : Z) : option (SpinLockGuard * LockState) :=
  let (irq, s) := enter s in
  let* s := grab fuel s l else None in
  Some (mkGuard l irq, s).

Definition release (g : SpinLockGuard) (s : LockState) : LockState :=
  let s := fetch_add s (-1) in
  store_false s (lock_of g).

Definition drop_guard (g : SpinLockGuard) (s : LockState) : LockState :=
  let s := release g s in
  drop_critical (irq g) s.

(** [yield_now] and [exit] up to their software interrupt. *)
Definition yield_now (s : LockState) : exec unit :=
  if negb (held_count s =? 0) then Panic else Done tt.
Definition exit_guard (s : LockState) : exec unit :=
  if negb (held_count s =? 0) then Panic else Done tt.

(** ** Threads, scopes and interrupts *)

(** What a thread has open, innermost first: guards of critical sections and
    locks, and interrupts being handled with the flag they will restore. *)
Inductive scope : Type :=
| InCritical (g : CriticalSection)
| InLock (g : SpinLockGuard)
| InIrq (saved : bool).

Record World : Type := mkWorld {
  flags : LockState;
  current : nat;
  scopes : nat -> list scope
}.

Definition set_scopes (f : nat -> list scope) (t : nat) (l : list scope) : nat -> list scope :=
  fun u => if decide (u = t) then l else f u.

(** Another thread can be switched to when its context is saved in an
    interrupt frame (a new thread has one with the flag set). *)
Definition switchable (l : list scope) : Prop := match l with InIrq _ :: _ => True | _ => False end.

(** Taking a lock is two steps, [critical] and [grab], and dropping it two,
    [release] and [drop_critical], so an interrupt that the flag admits can
    come between them. *)
Inductive step (w : World) : World -> Prop :=
| step_critical g s : critical (flags w) = (g, s) ->
    step w (mkWorld s (current w) (set_scopes (scopes w) (current w) (InCritical g :: scopes w (current w))))
| step_drop_critical g rest : scopes w (current w) = InCritical g :: rest ->
    step w (mkWorld (drop_critical g (flags w)) (current w) (set_scopes (scopes w) (current w) rest))
| step_grab fuel l irq rest s : 0 < l <= U64_MAX ->
    scopes w (current w) = InCritical irq :: rest -> grab fuel (flags w) l = Some s ->
    step w (mkWorld s (current w) (set_scopes (scopes w) (current w) (InLock (mkGuard l irq) :: rest)))
| step_release g rest : scopes w (current w) = InLock g :: rest ->
    step w (mkWorld (release g (flags w)) (current w)
              (set_scopes (scopes w) (current w) (InCritical (irq g) :: rest)))
| step_enable : scopes w (current w) = [] ->
    step w (mkWorld (enable_interrupts (flags w)) (current w) (scopes w))
| step_interrupt : interrupts_enabled (flags w) = true ->
    step w (mkWorld (disable_interrupts (flags w)) (current w)
              (set_scopes (scopes w) (current w) (InIrq true :: scopes w (current w))))
| step_software_interrupt :
    yield_now (flags w) = Done tt \/ exit_guard (flags w) = Done tt ->
    step w (mkWorld (disable_interrupts (flags w)) (current w)
              (set_scopes (scopes w) (current w) (InIrq (IF (flags w)) :: scopes w (current w))))
| step_return saved rest : scopes w (current w) = InIrq saved :: rest ->
    step w (mkWorld (mkLocks saved (HELD (flags w)) (locked (flags w))) (current w)
              (set_scopes (scopes w) (current w) rest))
| step_switch t : switchable (scopes w (current w)) -> switchable (scopes w t) ->
    step w (mkWorld (flags w) t (scopes w)).

(** The kernel starts on thread 0 with interrupts off and no lock taken; the
    other threads have only their initial frame. *)
Definition initial : World :=
  mkWorld (mkLocks false 0 ∅) 0 (fun t => if decide (t = 0%nat) then [] else [InIrq true]).

Definition reachable (w : World) : Prop := clos_refl_trans World step initial w.

(** ** The invariant *)

Definition locks_in (l : list scope) : list Z :=
  omap (fun s => match s with InLock g => Some (lock_of g) | _ => None end) l.

(** [nested l f]: the scopes [l] are open with the interrupt flag at [f]. *)
Fixpoint nested (l : list scope) (f : bool) : Prop :=
  match l with
  | [] => True
  | InCritical g :: l => f = false /\ nested l (restore g)
  | InLock g :: l =>
      f = false /\ 0 < lock_of g <= U64_MAX /\ lock_of g ∉ locks_in l /\ nested l (restore (irq g))
  | InIrq saved :: l => f = false /\ locks_in l = [] /\ nested l saved
  end.

Record inv (w : World) : Prop := mkInv {
  inv_nested : nested (scopes w (current w)) (IF (flags w));
  inv_others : forall t, t <> current w -> switchable (scopes w t) /\ nested (scopes w t) false;
  inv_locked : locked (flags w) = list_to_set (locks_in (scopes w (current w)));
  inv_held : HELD (flags w) = len (locks_in (scopes w (current w)))
}.

(** ** Lemmas *)

Lemma enter_eq s : enter s = (mkCritical (IF s), mkLocks false (HELD s) (locked s)).
Proof. destruct s as [[] h l]; reflexivity. Qed.

Lemma drop_critical_eq g s :
  IF s = false -> drop_critical g s = mkLocks (restore g) (HELD s) (locked s).
Proof. destruct s as [f h l], g as [[]]; simpl; intros ->; reflexivity. Qed.

(** The loop returns at once when the flag is clear and never when it is set. *)
Lemma spin_spec fuel s l :
  spin fuel s l =
    match fuel with
    | O => None
    | S _ => if bool_decide (l ∈ locked s) then None else Some (mkLocks (IF s) (HELD s) ({[l]} ∪ locked s))
    end.
Proof.
  revert s. induction fuel as [|fuel IH]; intros s; [done|]. cbn [spin swap_true].
  destruct (bool_decide_reflect (l ∈ locked s)) as [Hl|]; [|done]. rewrite IH.
  destruct fuel; [done|]. rewrite bool_decide_true by set_solver. done.
Qed.

Lemma lock_eq fuel s l :
  lock fuel s l =
    if negb (Nat.eqb fuel 0) && negb (bool_decide (l ∈ locked s))
    then Some (mkGuard l (mkCritical (IF s)), mkLocks false ((HELD s + 1) mod 2 ^ 64) ({[l]} ∪ locked s))
    else None.
Proof.
  unfold lock, grab. rewrite enter_eq, spin_spec. cbn [IF HELD locked]. destruct fuel; [done|].
  cbn [andb negb Nat.eqb].
  by destruct (bool_decide (l ∈ locked s)).
Qed.

Lemma grab_eq fuel s l s' :
  grab fuel s l = Some s' ->
  l ∉ locked s /\ s' = mkLocks (IF s) ((HELD s + 1) mod 2 ^ 64) ({[l]} ∪ locked s).
Proof.
  unfold grab. rewrite spin_spec. destruct fuel; [done|].
  case_bool_decide; [done|]. by intros [= <-].
Qed.

Lemma locks_in_lock g l : locks_in (InLock g :: l) = lock_of g :: locks_in l.
Proof. done. Qed.

Lemma nested_open l : nested l true -> l = [].
Proof. destruct l as [|[] l]; [done|..]; intros H; destruct H; done. Qed.

(** The locks a thread holds are different addresses, so their number fits. *)
Lemma nested_locks l f :
  nested l f -> NoDup (locks_in l) /\ Forall (fun a => 0 < a <= U64_MAX) (locks_in l).
Proof.
  revert f. induction l as [|[g|g|b] l IH]; intros f; cbn.
  - intros _. split; constructor.
  - intros [_ H]. by eapply IH.
  - intros (_ & Hb & Hn & H). destruct (IH _ H) as [Hd Hr]. split; [by apply list.NoDup_cons|].
    by apply List.Forall_cons.
  - intros (_ & _ & H). by eapply IH.
Qed.

Lemma bounded_nodup (l : list Z) n :
  0 <= n -> NoDup l -> Forall (fun a => 0 < a <= n) l -> len l <= n.
Proof.
  intros Hn Hd Hr.
  assert (Hle : (length l <= length (Z.of_nat <$> seq 1 (Z.to_nat n)))%nat).
  { apply submseteq_length, NoDup_submseteq; [done|]. intros a Ha.
    rewrite List.Forall_forall in Hr. apply list_elem_of_In in Ha. specialize (Hr a Ha).
    apply list_elem_of_fmap. exists (Z.to_nat a). split; [lia|]. apply elem_of_seq. lia. }
  rewrite length_fmap, length_seq in Hle. unfold len. lia.
Qed.

Lemma nested_count l f : nested l f -> 0 <= len (locks_in l) <= U64_MAX.
Proof.
  intros H. destruct (nested_locks l f H) as [Hd Hr]. split; [apply len_nonneg|].
  apply bounded_nodup; [ulia|done|done].
Qed.

Lemma set_scopes_eq f t l : set_scopes f t l t = l.
Proof. unfold set_scopes. by rewrite decide_True. Qed.
Lemma set_scopes_ne f t u l : u <> t -> set_scopes f t l u = f u.
Proof. intros H. unfold set_scopes. by rewrite decide_False. Qed.

(** A step of the running thread that leaves the others' scopes alone. *)
Lemma inv_local w s l :
  inv w -> nested l (IF s) -> locked s = list_to_set (locks_in l) -> HELD s = len (locks_in l) ->
  inv (mkWorld s (current w) (set_scopes (scopes w) (current w) l)).
Proof.
  intros [_ Ho _ _] Hn Hl Hh. split; cbn; rewrite ?set_scopes_eq; [done| |done|done].
  intros t Ht. rewrite set_scopes_ne by done. by apply Ho.
Qed.

Lemma inv_initial : inv initial.
Proof.
  split; cbn; [done| |done|done]. intros t Ht. rewrite decide_False by done. done.
Qed.

Lemma no_locks l : len (locks_in l) = 0 -> locks_in l = [].
Proof. destruct (locks_in l); [done|]. rewrite len_cons. pose proof (len_nonneg l0). lia. Qed.

(** A context saved in an interrupt frame holds no lock. *)
Lemma switched_out l f : switchable l -> nested l f -> f = false /\ locks_in l = [].
Proof. destruct l as [|[]]; try done. intros _ (Hf & Hno & _). by split. Qed.

Lemma inv_step w w' : inv w -> step w w' -> inv w'.
Proof.
  intros Hi Hs. pose proof Hi as [Hn Ho Hl Hh]. pose proof (nested_count _ _ Hn) as Hc.
  destruct Hs as [g s E|g rest E|fuel l irq rest s Hr E E'|g rest E|E|E|E|saved rest E|t Hc1 Hc2].
  - unfold critical in E. rewrite enter_eq in E. injection E as <- <-. by apply inv_local.
  - rewrite E in *. cbn in Hn. destruct Hn as [Hf Hn]. rewrite drop_critical_eq by done. by apply inv_local.
  - destruct (grab_eq _ _ _ _ E') as [Hnl ->]. rewrite E in Hn, Hl, Hh. destruct Hn as [Hf Hn].
    assert (Hnin : l ∉ locks_in rest) by (rewrite Hl in Hnl; set_solver).
    assert (Hn' : nested (InLock (mkGuard l irq) :: rest) (IF (flags w))) by done.
    pose proof (nested_count _ _ Hn') as Hc'. rewrite locks_in_lock, len_cons in Hc'.
    apply inv_local; [done|done|cbn [locked]; by rewrite Hl|].
    cbn [HELD]. cbn [lock_of] in Hc'. change (locks_in (InCritical irq :: rest)) with (locks_in rest) in Hh.
    rewrite locks_in_lock, len_cons, Hh, Z.mod_small; ulia.
  - rewrite E in *. destruct Hn as (Hf & Hr & Hnin & Hn). rewrite locks_in_lock in Hl, Hh.
    rewrite len_cons in Hh. pose proof (nested_count _ _ Hn) as Hc'.
    apply inv_local; [done|done|cbn [locked store_false fetch_add release]|].
    + change (locks_in (InCritical (irq g) :: rest)) with (locks_in rest). set_solver.
    + change (locks_in (InCritical (irq g) :: rest)) with (locks_in rest).
      cbn [HELD store_false fetch_add release]. rewrite Hh, Z.mod_small; ulia.
  - split; cbn; [by rewrite E|done|done|done].
  - unfold interrupts_enabled in E. rewrite E in Hn. apply nested_open in Hn.
    apply inv_local; [done|rewrite Hn; done|cbn; rewrite Hl, Hn; done|cbn; rewrite Hh, Hn; done].
  - assert (H0 : HELD (flags w) = 0).
    { unfold yield_now, exit_guard, held_count in E. destruct (Z.eqb_spec (HELD (flags w)) 0); [done|].
      by destruct E. }
    assert (Hno : locks_in (scopes w (current w)) = []) by (apply no_locks; lia).
    by apply inv_local.
  - rewrite E in *. cbn in Hn, Hl, Hh. destruct Hn as (Hf & Hno & Hn). by apply inv_local.
  - destruct (decide (t = current w)) as [->|Hne]; [by destruct w|].
    destruct (switched_out _ _ Hc1 Hn) as [Hf Hno]. destruct (Ho t Hne) as [_ Hnt].
    destruct (switched_out _ _ Hc2 Hnt) as [_ Hno'].
    split; cbn [flags current scopes]; [by rewrite Hf| |by rewrite Hl, Hno, Hno'|by rewrite Hh, Hno, Hno'].
    intros u Hu. destruct (decide (u = current w)) as [->|]; [|by apply Ho]. by rewrite <- Hf at 1.
Qed.

Lemma inv_reachable w : reachable w -> inv w.
Proof.
  intros H. apply clos_rt_rtn1 in H. induction H as [|w1 w2 Hs _ IH]; [apply inv_initial|by eapply inv_step].
Qed.

(** ** Theorems *)

(** C29 In every reachable state the counter [HELD] is the number of locks the
    running thread holds, the flags that are set are exactly theirs, no other
    thread holds a lock, a held lock implies that interrupts are off, and
    [yield_now] and [exit] panic exactly when a lock is held. *)
Theorem lock_discipline (w : World) :
  reachable w ->
  held_count (flags w) = len (locks_in (scopes w (current w))) /\
  locked (flags w) = list_to_set (locks_in (scopes w (current w))) /\
  (forall t, t <> current w -> locks_in (scopes w t) = []) /\
  (locks_in (scopes w (current w)) <> [] -> interrupts_enabled (flags w) = false) /\
  (yield_now (flags w) = Panic <-> locks_in (scopes w (current w)) <> []) /\
  (exit_guard (flags w) = Panic <-> locks_in (scopes w (current w)) <> []).
Proof.
  intros Hw. destruct (inv_reachable w Hw) as [Hn Ho Hl Hh].
  split; [done|]. split; [done|]. split; [|split].
  - intros t Ht. destruct (Ho t Ht) as [Hs Hnt]. by eapply switched_out.
  - intros Hne. unfold interrupts_enabled. destruct (IF (flags w)) eqn:E; [|done].
    apply nested_open in Hn. by rewrite Hn in Hne.
  - unfold yield_now, exit_guard, held_count. rewrite Hh.
    destruct (locks_in (scopes w (current w))) as [|a ls]; [by split|].
    rewrite len_cons. pose proof (len_nonneg ls). destruct (Z.eqb_spec (1 + len ls) 0); [lia|]. by split.
Qed.

Lemma lock_discipline_witness :
  exists w, reachable w /\ held_count (flags w) = 1 /\ yield_now (flags w) = Panic.
Proof.
  assert (Hr : reachable (mkWorld (mkLocks false 1 ({[5]} ∪ ∅)) 0
            (set_scopes (set_scopes (scopes initial) 0 [InCritical (mkCritical false)]) 0
               [InLock (mkGuard 5 (mkCritical false))]))).
  { eapply rt_trans; [apply rt_step, (step_critical initial); reflexivity|].
    eapply rt_trans; [apply rt_step, (step_grab _ 1 5); [split; [lia|discriminate]|reflexivity|reflexivity]|].
    apply rt_refl. }
  destruct (lock_discipline _ Hr) as (Hh & _ & _ & _ & Hy & _). eexists. split; [exact Hr|].
  split; [reflexivity|]. apply Hy. discriminate.
Defined.

(** C30 In every reachable state [lock] of a lock the running thread does not
    hold returns in the first round of its loop, whatever any other thread has
    done, and dropping the guard restores the state exactly; a thread that
    takes a lock it already holds never gets it. *)
Theorem lock_never_waits (w : World) (l : Z) :
  reachable w -> 0 < l <= U64_MAX ->
  (l ∉ locks_in (scopes w (current w)) ->
   exists g s, lock 1 (flags w) l = Some (g, s) /\ IF s = false /\ drop_guard g s = flags w) /\
  (l ∈ locks_in (scopes w (current w)) -> forall fuel, lock fuel (flags w) l = None).
Proof.
  intros Hw Hl. destruct (inv_reachable w Hw) as [Hn _ Hs Hh].
  pose proof (nested_count _ _ Hn) as Hc. split.
  - intros Hin. assert (Hno : l ∉ locked (flags w)) by (rewrite Hs; set_solver).
    rewrite lock_eq, bool_decide_false by done. eexists _, _. split; [reflexivity|]. split; [done|].
    assert (Hd : forall s, 0 <= HELD s <= U64_MAX -> l ∉ locked s ->
              drop_guard (mkGuard l (mkCritical (IF s)))
                (mkLocks false ((HELD s + 1) mod 2 ^ 64) ({[l]} ∪ locked s)) = s).
    { intros [f h ls] Hb Hnl. unfold drop_guard, release. rewrite drop_critical_eq by done. cbn [HELD locked IF] in *.
      cbn [HELD locked restore irq lock_of fetch_add store_false release]. f_equal; [|set_solver].
      rewrite Zplus_mod_idemp_l. replace (h + 1 + -1) with h by lia. apply Z.mod_small. ulia. }
    apply Hd; [lia|done].
  - intros Hin fuel. assert (Hyes : l ∈ locked (flags w)) by (rewrite Hs; set_solver).
    rewrite lock_eq, bool_decide_true by done. by destruct fuel.
Qed.

Lemma lock_never_waits_witness :
  exists g s, lock 1 (flags initial) 5 = Some (g, s) /\ IF s = false /\ drop_guard g s = flags initial.
Proof.
  apply (lock_never_waits initial 5); [apply rt_refl|split; [lia|discriminate]|].
  apply not_elem_of_nil.
Defined.
