(* ===== verification/KMemory.v ===== *)
(** * The kernel's memory: page tables, frames and heap (memory.rs, heap.rs)

    [memory.rs] ties the memory map parser, the page tables and the frame
    allocator together, and [heap.rs] puts the free list behind the global
    allocator.  The static arena of page tables and the heap are ranges of
    physical memory; the kernel's own structures live at addresses the linker
    and the bootloader chose, which are parameters here.

    The theorems: [install] ends in exactly the outcome its checks call for,
    and when it succeeds the BootInfo page is still read, through the new
    tables, as it was; the allocators never hand out a page of the kernel's
    own memory, and the heap gets its frames from usable memory; the frame
    self-check passes on every sound allocator and leaves it as it was; the
    global allocator gives disjoint blocks inside the heap and ignores foreign
    pointers.

    The spin locks around the two allocators do not appear: [Lock] shows that
    taking one returns at once and that dropping it restores the state. *)
From Stdlib Require Import ZArith Lia Bool String.
From stdpp Require Import base tactics option list numbers gmap sets fin_sets.
From S2P Require Import Prelude MemoryMap Frame Heap Paging BootInfo PhysMem.

#[local] Open Scope Z_scope.

(** ** Constants *)
Definition KERNEL_TABLE_PAGES : Z := tables_needed MAX_IDENTITY_BYTES BLOCK_SIZE.
Definition USER_TABLE_PAGES : Z := 4.
Definition ARENA_PAGES : Z := KERNEL_TABLE_PAGES + USER_TABLE_PAGES.
Definition ARENA_BYTES : Z := ARENA_PAGES * PAGE_SIZE.
Definition FRAME_BITMAP_BYTES : Z :=
  2 * div_ceil ((MAX_IDENTITY_BYTES - MIN_FREE_ADDR) / PAGE_SIZE) 8.
Definition OWNED_RANGES : Z := MAX_RESERVED_RANGES.
Definition HEAP_SIZE : Z := 1024 * 1024.
Definition CR0_PG : Z := Z.shiftl 1 31.
Definition CR4_PAE : Z := Z.shiftl 1 5.
Definition CR4_LA57 : Z := Z.shiftl 1 12.
Definition CR4_PCIDE : Z := Z.shiftl 1 17.
Definition CR4_OSFXSR : Z := Z.shiftl 1 9.
Definition EFER_LMA : Z := Z.shiftl 1 10.

(** ** Data *)
Inductive CpuModeProblem : Type :=
| PagingOff
| PaeOff
| FiveLevelPaging
| NotInLongMode
| PcideEnabled.

Inductive MemoryError : Type :=
| UnexpectedCpuMode (detail : CpuModeProblem)
| ArenaOutsideKernel (arena : Z)
| MapFailed (e : MapError)
| BuildFailed (e : BuildError)
| BootInfoLostAfterSwitch
| Frames (e : InitError)
| HeapRegionUnavailable (needed : Z)
| SelfCheck (step : Z) (what : string) (addr : Z).

Record HeapState : Type := mkHeapState { heap_list : FreeList; heap_base : Z; heap_len : Z }.

Record MemoryLayout : Type := mkLayout {
  layout_limit : Z;
  layout_frames : FrameStats;
  layout_heap : Z * Z
}.

(** The statics of [memory.rs] and [heap.rs], physical memory (which holds the
    page table arena and the heap), and the control registers. *)
Record Kernel : Type := mkKernel {
  phys : memory;
  cr0 : Z;
  cr3 : Z;
  cr4 : Z;
  efer : Z;
  FRAME_BITMAP : list Z;
  FRAME_ALLOCATOR : option FrameAllocator;
  FREE_FRAMES_AFTER_INIT : Z;
  KERNEL_HEAP : HeapState
}.

Definition with_phys (k : Kernel) (m : memory) : Kernel :=
  mkKernel m (cr0 k) (cr3 k) (cr4 k) (efer k) (FRAME_BITMAP k) (FRAME_ALLOCATOR k)
           (FREE_FRAMES_AFTER_INIT k) (KERNEL_HEAP k).
Definition write_cr3 (k : Kernel) (v : Z) : Kernel :=
  mkKernel (phys k) (cr0 k) v (cr4 k) (efer k) (FRAME_BITMAP k) (FRAME_ALLOCATOR k)
           (FREE_FRAMES_AFTER_INIT k) (KERNEL_HEAP k).
Definition with_allocator (k : Kernel) (a : FrameAllocator) : Kernel :=
  mkKernel (phys k) (cr0 k) (cr3 k) (cr4 k) (efer k) (FRAME_BITMAP k) (Some a)
           (FREE_FRAMES_AFTER_INIT k) (KERNEL_HEAP k).
Definition with_free_after_init (k : Kernel) (n : Z) : Kernel :=
  mkKernel (phys k) (cr0 k) (cr3 k) (cr4 k) (efer k) (FRAME_BITMAP k) (FRAME_ALLOCATOR k) n (KERNEL_HEAP k).
Definition with_heap (k : Kernel) (h : HeapState) : Kernel :=
  mkKernel (phys k) (cr0 k) (cr3 k) (cr4 k) (efer k) (FRAME_BITMAP k) (FRAME_ALLOCATOR k)
           (FREE_FRAMES_AFTER_INIT k) h.

(** ** The frame allocator behind its lock *)
Definition alloc_frames (k : Kernel) (count : Z) : exec (Kernel * option PhysRange) :=
  match FRAME_ALLOCATOR k with
  | None => Panic
  | Some a => let! (a, r) := alloc_contiguous a count in Done (with_allocator k a, r)
  end.

(** The loop [while address < range.end()]. *)
Fixpoint free_loop (fuel : nat) (a : FrameAllocator) (addr stop : Z) :
    exec (FrameAllocator * Result unit FreeError) :=
  if addr <? stop then
    match fuel with
    | O => Panic
    | S fuel =>
        let! (a, r) := free a (mkFrame addr) in
        match r with
        | Err e => Done (a, Err e)
        | Ok _ => let! next := add64 addr PAGE_SIZE in free_loop fuel a next stop
        end
    end
  else Done (a, Ok tt).

Definition free_frames (k : Kernel) (range : PhysRange) : exec (Kernel * Result unit FreeError) :=
  match FRAME_ALLOCATOR k with
  | None => Panic
  | Some a =>
      let! stop := range_end range in
      let! (a, r) := free_loop (Z.to_nat (div_ceil (range_len range) PAGE_SIZE)) a (range_start range) stop in
      Done (with_allocator k a, r)
  end.

Definition frames_free (k : Kernel) : exec Z :=
  match FRAME_ALLOCATOR k with
  | None => Panic
  | Some a => Done (fs_free (Frame.stats a))
  end.

(** ** The global allocator (heap.rs) *)

(** [from_raw_parts_mut(base, len)]: the heap's bytes. *)
Definition heap_arena (k : Kernel) : list Z :=
  read_bytes (phys k) (heap_base (KERNEL_HEAP k)) (heap_len (KERNEL_HEAP k)).

Definition heap_init (k : Kernel) (base len : Z) : exec Kernel :=
  let arena := read_bytes (phys k) base len in
  let! (l, arena) := Heap.init arena in
  Done (with_heap (with_phys k (copy_to (phys k) base arena)) (mkHeapState l base len)).

Definition heap_region (k : Kernel) : Z * Z := (heap_base (KERNEL_HEAP k), heap_len (KERNEL_HEAP k)).
Definition heap_stats (k : Kernel) : HeapStats := Heap.stats (heap_list (KERNEL_HEAP k)).

(** [GlobalAlloc::alloc]; the null pointer is 0. *)
Definition heap_alloc (k : Kernel) (size align : Z) : exec (Kernel * Z) :=
  let state := KERNEL_HEAP k in
  if (heap_len state =? 0) || (heap_base state =? 0) then Done (k, 0)
  else
    let! (l, arena, o) := Heap.alloc (heap_list state) (heap_arena k) size align in
    let k := with_heap (with_phys k (copy_to (phys k) (heap_base state) arena))
                       (mkHeapState l (heap_base state) (heap_len state)) in
    match o with
    | Some offset => let! p := add64 (heap_base state) offset in Done (k, p)
    | None => Done (k, 0)
    end.

(** [GlobalAlloc::dealloc]. *)
Definition heap_dealloc (k : Kernel) (pointer : Z) : exec Kernel :=
  let state := KERNEL_HEAP k in
  if (heap_len state =? 0) || (heap_base state =? 0) || (pointer =? 0) then Done k
  else
    if pointer <? heap_base state then Done k else
    let! stop := add64 (heap_base state) (heap_len state) in
    if stop <=? pointer then Done k
    else
      let! offset := sub64 pointer (heap_base state) in
      let! (l, arena, _) := Heap.dealloc (heap_list state) (heap_arena k) offset in
      Done (with_heap (with_phys k (copy_to (phys k) (heap_base state) arena))
                      (mkHeapState l (heap_base state) (heap_len state))).

(** ** Setting memory up *)
Definition page_range (start len : Z) : ReservedRange :=
  if len =? 0 then res_default
  else
    let first := Z.land start (bnot 64 (PAGE_SIZE - 1)) in
    let last := Z.land (saturating_add (saturating_add start len) (PAGE_SIZE - 1))
                       (bnot 64 (PAGE_SIZE - 1)) in
    mkReserved first last.

Definition check_cpu_mode (k : Kernel) : Result unit MemoryError :=
  let problem :=
    if Z.land (cr0 k) CR0_PG =? 0 then Some PagingOff
    else if Z.land (cr4 k) CR4_PAE =? 0 then Some PaeOff
    else if negb (Z.land (cr4 k) CR4_LA57 =? 0) then Some FiveLevelPaging
    else if Z.land (efer k) EFER_LMA =? 0 then Some NotInLongMode
    else if negb (Z.land (cr4 k) CR4_PCIDE =? 0) then Some PcideEnabled
    else None in
  match problem with
  | Some detail => Err (UnexpectedCpuMode detail)
  | None => Ok tt
  end.

Definition cr4_osfxsr (k : Kernel) : bool := negb (Z.land (cr4 k) CR4_OSFXSR =? 0).

(** The view of the firmware's map; the bytes are those at [mmap_ptr]. *)
Definition boot_info_memory_map (m : memory) (b : BootInfo) : exec (Result MemoryMap MemoryError) :=
  if mmap_desc_size b <? DESCRIPTOR_MIN_SIZE
  then Done (Err (MapFailed (StrideTooSmall (mmap_desc_size b))))
  else
    match buffer_len (mmap_len b) (mmap_desc_size b) with
    | None => Done (Err (MapFailed (TooLarge (mmap_len b) (mmap_desc_size b))))
    | Some n =>
        let! r := from_bytes (read_bytes m (mmap_ptr b) n) (mmap_len b) (mmap_desc_size b) (mmap_desc_ver b) in
        match r with
        | Ok map => Done (Ok map)
        | Err e => Done (Err (MapFailed e))
        end
    end.

(** A read of [n] bytes at a virtual address through the tables [CR3] points
    to; [None] is a page fault. *)
Definition read_virtual (arena_address : Z) (k : Kernel) (va n : Z) : option (list Z) :=
  let arena := read_bytes (phys k) arena_address ARENA_BYTES in
  mapM (fun i : nat =>
          match mmu_walk arena_address arena (cr3 k) (va + Z.of_nat i) with
          | Some acc => Some (phys k (ac_phys acc))
          | None => None
          end) (seq 0 (Z.to_nat n)).

Section Setup.
(** The addresses of the two static arrays and of the BootInfo page. *)
  Variables arena_address bitmap_address boot_info_address : Z.

Definition page_arena (k : Kernel) : list Z * Z * Z :=
  (read_bytes (phys k) arena_address ARENA_BYTES, 0, KERNEL_TABLE_PAGES * PAGE_SIZE).

Definition owned_ranges (b : BootInfo) : list ReservedRange :=
  let mmap_bytes := saturating_mul (mmap_len b) (mmap_desc_size b) in
  let boot_info_page := Z.land boot_info_address (bnot 64 (PAGE_SIZE - 1)) in
  let stack_start := saturating_sub (stack_top b) (stack_size b) in
  [page_range (kernel_base b) (kernel_size b);
   page_range stack_start (stack_size b);
   page_range boot_info_page PAGE_SIZE;
   page_range (mmap_ptr b) mmap_bytes;
   page_range arena_address ARENA_BYTES;
   page_range bitmap_address FRAME_BITMAP_BYTES;
   res_default;
   res_default].

(** [boot_info.validate()] reads the first 16 bytes of the structure, now
    through the new tables. *)
Definition install (k : Kernel) (b : BootInfo) : exec (Result PageTables MemoryError * Kernel) :=
  match check_cpu_mode k with
  | Err e => Done (Err e, k)
  | Ok _ =>
      let arena := read_bytes (phys k) arena_address ARENA_BYTES in
      let kernel_end := saturating_add (kernel_base b) (kernel_size b) in
      if (arena_address <? kernel_base b) || (kernel_end <=? arena_address)
      then Done (Err (ArenaOutsideKernel arena_address), k)
      else
        let! rm := boot_info_memory_map (phys k) b in
        match rm with
        | Err e => Done (Err e, k)
        | Ok map =>
            let! (arena, rt) := build arena_address arena map M2 in
            let k := with_phys k (copy_to (phys k) arena_address arena) in
            match rt with
            | Err e => Done (Err (BuildFailed e), k)
            | Ok tables =>
                let k := write_cr3 k (pml4_phys tables) in
                match read_virtual arena_address k boot_info_address 16 with
                | None => Panic
                | Some bytes =>
                    if is_ok (BootInfo.validate (decode bytes)) then Done (Ok tables, k)
                    else Done (Err BootInfoLostAfterSwitch, k)
                end
            end
        end
  end.

Definition init_allocators (k : Kernel) (b : BootInfo) (lim : Z) :
    exec (Result MemoryLayout MemoryError * Kernel) :=
  let! rm := boot_info_memory_map (phys k) b in
  match rm with
  | Err e => Done (Err e, k)
  | Ok map =>
      let! ra := Frame.init (FRAME_BITMAP k) map (owned_ranges b)
                   (config_new (Z.min lim MAX_IDENTITY_BYTES)) in
      match ra with
      | Err e => Done (Err (Frames e), k)
      | Ok a =>
          let before := Frame.stats a in
          let k := with_allocator (with_free_after_init k (fs_free before)) a in
          let heap_frames := HEAP_SIZE / PAGE_SIZE in
          let! (k, o) := alloc_frames k heap_frames in
          match o with
          | None => Done (Err (HeapRegionUnavailable heap_frames), k)
          | Some region =>
              let! k := heap_init k (range_start region) HEAP_SIZE in
              let! n := frames_free k in
              Done (Ok (mkLayout lim (mkFrameStats (fs_managed before) n) (range_start region, HEAP_SIZE)), k)
          end
      end
  end.

(** ** The frame self-check (step 6 of the memory self-check) *)
Definition failure (step : Z) (what : string) (addr : Z) : MemoryError := SelfCheck step what addr.

(** The two texts that occur more than once. *)
Definition NO_FREE_FRAME : string := "页帧分配器已无空闲页帧".
Definition FREE_FAILED : string := "释放刚分配的页帧失败".

(** No range holds a free frame. *)
Fixpoint no_free_in (a : FrameAllocator) (what : string) (ranges : list ReservedRange) : exec (Result unit MemoryError) :=
  match ranges with
  | [] => Done (Ok tt)
  | r :: ranges =>
      let! o := first_free_in a (res_start r) (res_end r) in
      match o with
      | Some f => Done (Err (failure 6 what (address f)))
      | None => no_free_in a what ranges
      end
  end.

Definition frame_self_check (k : Kernel) (b : BootInfo) : exec (Result unit MemoryError * Kernel) :=
  match FRAME_ALLOCATOR k with
  | None => Panic
  | Some a =>
      let stop a (e : MemoryError) : exec (Result unit MemoryError * Kernel) := Done (Err e, with_allocator k a) in
      let! (a, o) := Frame.alloc a in
      let* first := o else stop a (failure 6 NO_FREE_FRAME 0) in
      let! (a, o) := Frame.alloc a in
      let* second := o else stop a (failure 6 NO_FREE_FRAME 0) in
      if address first =? address second then stop a (failure 6 "两次分配返回了同一个页帧" (address first)) else
      let! (a, r) := free a first in
      if negb (is_ok r) then stop a (failure 6 FREE_FAILED (address first)) else
      let! (a, r) := free a second in
      if negb (is_ok r) then stop a (failure 6 FREE_FAILED (address second)) else
      let! (a, o) := Frame.alloc a in
      let* again := o else stop a (failure 6 NO_FREE_FRAME 0) in
      if negb (address again =? address first) 
      then stop a (failure 6 "释放后未按最低地址优先重新发放" (address again)) else
      let! (a, r) := free a again in
      if negb (is_ok r) then stop a (failure 6 FREE_FAILED (address again)) else
      let! (a, r) := free a again in
      if is_ok r then stop a (failure 6 "重复释放没有被拒绝" (address again)) else
      let! ranges := reserved_ranges a in
      let! r := no_free_in a "保留区间内出现了空闲页帧" ranges in
      match r with
      | Err e => stop a e
      | Ok _ =>
          let! r := no_free_in a "内核自己的内存被算作空闲页帧" (owned_ranges b) in
          match r with
          | Err e => stop a e
          | Ok _ =>
              let expected := HEAP_SIZE / PAGE_SIZE in
              let! total := add64 (fs_free (Frame.stats a)) expected in
              if negb (total =? FREE_FRAMES_AFTER_INIT k)
              then stop a (failure 6 "堆消耗的页帧数与预期不符（free 计数不一致）" (fs_free (Frame.stats a)))
              else Done (Ok tt, with_allocator k a)
          end
      end
  end.

End Setup.

(** ** What a source of frames promises

    The threads take their stacks from here.  The promise is about sets of page
    addresses: those that may be handed out, and those that are lent. *)
Class FrameSource (K : Type) : Type := {
  take_frames : K -> Z -> exec (K * option PhysRange);
  give_frames : K -> PhysRange -> exec (K * Result unit FreeError);
  source_ok : K -> Prop;
  lent : K -> gset Z;
  spare : K -> gset Z;
  take_frames_law : forall k n, source_ok k -> 0 < n <= 1024 ->
    (exists r k', take_frames k n = Done (k', Some r) /\ source_ok k' /\
       range_len r = n * PAGE_SIZE /\ (PAGE_SIZE | range_start r) /\
       MIN_FREE_ADDR <= range_start r /\ range_start r + range_len r <= MAX_IDENTITY_BYTES /\
       list_to_set (range_pages r) ⊆ spare k /\
       spare k' = spare k ∖ list_to_set (range_pages r) /\
       lent k' = lent k ∪ list_to_set (range_pages r)) \/
    (exists k', take_frames k n = Done (k', None) /\ source_ok k' /\ spare k' = spare k /\ lent k' = lent k);
  give_frames_law : forall k r, source_ok k -> 0 <= range_start r -> (PAGE_SIZE | range_start r) ->
    (PAGE_SIZE | range_len r) -> 0 <= range_len r -> range_start r + range_len r <= MAX_IDENTITY_BYTES ->
    list_to_set (range_pages r) ⊆ lent k ->
    exists k', give_frames k r = Done (k', Ok tt) /\ source_ok k' /\
      spare k' = spare k ∪ list_to_set (range_pages r) /\
      lent k' = lent k ∖ list_to_set (range_pages r);
  lent_spare : forall k, source_ok k -> lent k ## spare k
}.

(** ** Releasing frames *)

(** [free] of a page that is handed out. *)
Lemma free_owned a i :
  frame_inv a -> i ∈ pool a ∖ free_set a ->
  exists a', free a (mkFrame (frame_addr a i)) = Done (a', Ok tt) /\ frame_inv a' /\ same_config a a' /\
    pool a' = pool a /\ free_set a' = {[i]} ∪ free_set a.
Proof.
  intros Hinv Hi. pose proof (fi_shape a Hinv) as Hs.
  apply elem_of_difference in Hi as [Hp Hnf]. pose proof Hp as [Hb _]%elem_pool.
  pose proof (frame_addr_limit a Hs i Hb) as Hlim.
  pose proof (free_spec a (frame_addr a i) Hinv ltac:(unfold PAGE_SIZE in *; ulia)) as H.
  destruct (free a (mkFrame (frame_addr a i))) as [[a' [[]|[x|x|x]]]|]; [..|done].
  - destruct H as (Hinv' & Hsame & Hp' & j & Hj%frame_addr_inj & _ & Hf). subst j. by exists a'.
  - destruct H as (_ & _ & H). by destruct (H i Hb eq_refl).
  - destruct H as (_ & _ & j & Hj%frame_addr_inj & Hf). by subst j.
  - destruct H as (_ & _ & H & _). by rewrite (fi_reserved a Hinv i Hp) in H.
Qed.

Lemma free_loop_run fuel a s n :
  frame_inv a -> 0 <= s -> (forall i, s <= i < s + Z.of_nat n -> i ∈ pool a ∖ free_set a) -> (n <= fuel)%nat ->
  frame_addr a s + Z.of_nat n * PAGE_SIZE <= U64_MAX ->
  exists a', free_loop fuel a (frame_addr a s) (frame_addr a (s + Z.of_nat n)) = Done (a', Ok tt) /\
    frame_inv a' /\ same_config a a' /\ pool a' = pool a /\
    free_set a' = free_set a ∪ run_set s n.
Proof.
  revert fuel a s. induction n as [|n IH]; intros fuel a s Hinv Hs Hrun Hf Hb.
  - exists a. replace (s + Z.of_nat 0) with s by lia.
    assert (E : free_loop fuel a (frame_addr a s) (frame_addr a s) = Done (a, Ok tt)).
    { destruct fuel; cbn [free_loop]; by rewrite Z.ltb_irrefl. }
    split_and!; try done. apply set_eq. intros j. rewrite elem_of_union, elem_run_set. intuition lia.
  - destruct fuel as [|fuel]; [lia|]. cbn [free_loop].
    replace (frame_addr a s <? frame_addr a (s + Z.of_nat (S n))) with true
      by (symmetry; apply Z.ltb_lt; unfold frame_addr, PAGE_SIZE; lia).
    destruct (free_owned a s Hinv ltac:(apply Hrun; lia)) as (a1 & -> & Hinv1 & Hsame1 & Hp1 & Hf1).
    cbn [exec_bind]. rewrite add64_done by (unfold PAGE_SIZE in *; lia). cbn [exec_bind].
    assert (E : frame_addr a s + PAGE_SIZE = frame_addr a1 (s + 1)).
    { rewrite (same_config_addr a a1) by done. unfold frame_addr. lia. }
    rewrite E. replace (frame_addr a (s + Z.of_nat (S n))) with (frame_addr a1 (s + 1 + Z.of_nat n))
      by (rewrite (same_config_addr a a1) by done; f_equal; lia).
    destruct (IH fuel a1 (s + 1)) as (a2 & -> & Hinv2 & Hsame2 & Hp2 & Hf2); [done|lia| |lia| |].
    + intros i Hi. specialize (Hrun i ltac:(lia)). rewrite Hp1, Hf1.
      apply elem_of_difference in Hrun as [? ?]. rewrite elem_of_difference, elem_of_union, elem_of_singleton.
      split; [done|]. intros [->|]; [lia|done].
    + rewrite <- E. unfold PAGE_SIZE in *. lia.
    + exists a2. split; [done|]. split; [done|]. split; [by etransitivity|]. split; [congruence|].
      rewrite Hf2, Hf1. apply set_eq. intros j.
      rewrite !elem_of_union, elem_of_singleton, !elem_run_set. intuition lia.
Qed.

(** ** The kernel as a source of frames *)
Definition addresses (a : FrameAllocator) (X : gset Z) : gset Z := set_map (frame_addr a) X.

Lemma elem_addresses a X p : p ∈ addresses a X <-> exists i, p = frame_addr a i /\ i ∈ X.
Proof. unfold addresses. rewrite elem_of_map. done. Qed.

Lemma addresses_same a b X : same_config a b -> addresses b X = addresses a X.
Proof.
  intros H. apply set_eq. intros p. rewrite !elem_addresses.
  by setoid_rewrite (same_config_addr a b _ H).
Qed.

Lemma addresses_difference a X Y : addresses a (X ∖ Y) = addresses a X ∖ addresses a Y.
Proof.
  apply set_eq. intros p. rewrite elem_of_difference, !elem_addresses. split.
  - intros (i & -> & Hi). apply elem_of_difference in Hi as [Hx Hy]. split; [by exists i|].
    intros (j & E%frame_addr_inj & Hj). by subst j.
  - intros [(i & -> & Hi) Hn]. exists i. split; [done|]. apply elem_of_difference. split; [done|].
    intros Hy. apply Hn. by exists i.
Qed.

Lemma addresses_union a X Y : addresses a (X ∪ Y) = addresses a X ∪ addresses a Y.
Proof. unfold addresses. set_solver. Qed.

Lemma addresses_run a s n :
  0 <= n -> addresses a (run_set s (Z.to_nat n)) = list_to_set (frame_addr a <$> seqZ s n).
Proof.
  intros Hn. apply set_eq. intros p. rewrite elem_addresses, elem_of_list_to_set, list_elem_of_fmap.
  setoid_rewrite elem_run_set. setoid_rewrite elem_of_seqZ. rewrite Z2Nat.id by lia. naive_solver.
Qed.

(** The allocator manages whole frames of identity-mapped memory above 1 MiB. *)
Definition managed_ok (a : FrameAllocator) : Prop :=
  MIN_FREE_ADDR <= first_frame a * PAGE_SIZE /\
  (first_frame a + frames a) * PAGE_SIZE <= MAX_IDENTITY_BYTES.

Lemma managed_same a b : same_config a b -> managed_ok a -> managed_ok b.
Proof. intros [H1 H2 _ _] [H3 H4]. unfold managed_ok. by rewrite H1, H2. Qed.

Definition kernel_frames_ok (k : Kernel) : Prop :=
  exists a, FRAME_ALLOCATOR k = Some a /\ frame_inv a /\ managed_ok a.
Definition kernel_lent (k : Kernel) : gset Z :=
  match FRAME_ALLOCATOR k with Some a => addresses a (pool a ∖ free_set a) | None => ∅ end.
Definition kernel_spare (k : Kernel) : gset Z :=
  match FRAME_ALLOCATOR k with Some a => addresses a (free_set a) | None => ∅ end.

Lemma alloc_frames_law k n :
  kernel_frames_ok k -> 0 < n <= 1024 ->
  (exists r k', alloc_frames k n = Done (k', Some r) /\ kernel_frames_ok k' /\
     range_len r = n * PAGE_SIZE /\ (PAGE_SIZE | range_start r) /\
     MIN_FREE_ADDR <= range_start r /\ range_start r + range_len r <= MAX_IDENTITY_BYTES /\
     list_to_set (range_pages r) ⊆ kernel_spare k /\
     kernel_spare k' = kernel_spare k ∖ list_to_set (range_pages r) /\
     kernel_lent k' = kernel_lent k ∪ list_to_set (range_pages r)) \/
  (exists k', alloc_frames k n = Done (k', None) /\ kernel_frames_ok k' /\
     kernel_spare k' = kernel_spare k /\ kernel_lent k' = kernel_lent k).
Proof.
  intros (a & Ea & Hinv & Hm) Hn. unfold alloc_frames, kernel_spare, kernel_lent. rewrite Ea.
  pose proof (fi_shape a Hinv) as Hs.
  destruct (alloc_contiguous_spec a n Hinv) as [(s & a' & -> & Hinv' & Hsame & Hrun & _ & Hf & Hp)|[-> _]]; [ulia|left|right].
  2: { eexists. split; [done|]. split; [|done]. by exists a. }
  cbn [exec_bind]. eexists _, _. split; [done|]. destruct Hrun as (Hs0 & Hsl & Hrun).
  assert (Hsub : run_set s (Z.to_nat n) ⊆ free_set a).
  { intros i Hi%elem_run_set. apply elem_free_set. split; [lia|]. apply Hrun. lia. }
  rewrite range_pages_run by lia. cbn [range_start range_len FRAME_ALLOCATOR with_allocator].
  rewrite <- addresses_run by lia. destruct Hm as [Hm1 Hm2]. pose proof (fs_first a Hs).
  split; [by exists a'; split_and!; try done; apply (managed_same a)|]. split; [done|].
  split; [by exists (first_frame a + s)|].
  split; [unfold frame_addr, PAGE_SIZE in *; lia|]. split; [unfold frame_addr, PAGE_SIZE in *; lia|].
  rewrite !(addresses_same a a') by done. rewrite Hf, Hp. split; [|split].
  - unfold addresses. set_solver.
  - apply addresses_difference.
  - rewrite <- addresses_union. f_equal. pose proof (free_set_pool a). apply set_eq. intros i.
    rewrite elem_of_union, !elem_of_difference. destruct (decide (i ∈ run_set s (Z.to_nat n))); set_solver.
Qed.

Lemma free_frames_law k r :
  kernel_frames_ok k -> 0 <= range_start r -> (PAGE_SIZE | range_start r) ->
  (PAGE_SIZE | range_len r) -> 0 <= range_len r -> range_start r + range_len r <= MAX_IDENTITY_BYTES ->
  list_to_set (range_pages r) ⊆ kernel_lent k ->
  exists k', free_frames k r = Done (k', Ok tt) /\ kernel_frames_ok k' /\
    kernel_spare k' = kernel_spare k ∪ list_to_set (range_pages r) /\
    kernel_lent k' = kernel_lent k ∖ list_to_set (range_pages r).
Proof.
  intros (a & Ea & Hinv & Hm) Hs0 [q Hq] [n Hn] Hl Hmax. unfold free_frames, kernel_spare, kernel_lent.
  rewrite Ea. destruct r as [start len]. cbn [range_start range_len] in *. subst start len.
  set (s := q - first_frame a).
  assert (Es : q * PAGE_SIZE = frame_addr a s) by (unfold frame_addr, s; f_equal; lia).
  assert (Hn0 : 0 <= n) by (unfold PAGE_SIZE in *; lia). rewrite Es.
  rewrite range_pages_run by done. rewrite <- addresses_run by done. intros Hsub.
  assert (Hall : forall i, s <= i < s + Z.of_nat (Z.to_nat n) -> i ∈ pool a ∖ free_set a).
  { intros i Hi. assert (Hp : frame_addr a i ∈ addresses a (pool a ∖ free_set a)).
    { apply Hsub, elem_addresses. exists i. split; [done|]. apply elem_run_set. lia. }
    apply elem_addresses in Hp as (j & Hj%frame_addr_inj & Hin). by subst j. }
  assert (Hlim : frame_addr a s + n * PAGE_SIZE <= U64_MAX).
  { rewrite <- Es. etransitivity; [exact Hmax|]. discriminate. }
  unfold range_end. cbn [range_start range_len]. rewrite add64_done by done. cbn [exec_bind].
  destruct (decide (n = 0)) as [->|Hne].
  { exists (with_allocator k a). rewrite div_ceil_alt by done. cbn [free_loop Z.to_nat].
    assert (E : forall f, free_loop f a (frame_addr a s) (frame_addr a s + 0 * PAGE_SIZE) = Done (a, Ok tt)).
    { intros f. replace (frame_addr a s + 0 * PAGE_SIZE) with (frame_addr a s) by lia.
      destruct f; cbn [free_loop]; by rewrite Z.ltb_irrefl. }
    rewrite E. cbn [exec_bind]. split; [done|]. split; [by exists a|]. cbn.
    unfold addresses. set_solver. }
  assert (Hss : 0 <= s).
  { specialize (Hall s ltac:(lia)). apply elem_of_difference in Hall as [[Hb _]%elem_pool _]. lia. }
  destruct (free_loop_run (Z.to_nat (div_ceil (n * PAGE_SIZE) PAGE_SIZE)) a s (Z.to_nat n))
    as (a' & E & Hinv' & Hsame & Hp & Hf); [done|lia|done| |rewrite Z2Nat.id by lia; done|].
  { apply Z2Nat.inj_le; [lia| |]; pose proof (div_ceil_spec (n * PAGE_SIZE) PAGE_SIZE ltac:(done));
      unfold PAGE_SIZE in *; lia. }
  rewrite Z2Nat.id in E by lia.
  replace (frame_addr a s + n * PAGE_SIZE) with (frame_addr a (s + n)) by (unfold frame_addr; lia).
  rewrite E. cbn [exec_bind]. eexists. split; [done|].
  split; [by exists a'; split_and!; try done; apply (managed_same a)|].
  cbn [FRAME_ALLOCATOR with_allocator]. rewrite !(addresses_same a a') by done. rewrite Hf, Hp. split.
  - apply addresses_union.
  - rewrite <- addresses_difference. f_equal. set_solver.
Qed.

Lemma kernel_lent_spare k : kernel_frames_ok k -> kernel_lent k ## kernel_spare k.
Proof.
  intros (a & Ea & _ & _). unfold kernel_lent, kernel_spare. rewrite Ea. intros p H1 H2.
  apply elem_addresses in H1 as (i & -> & Hi). apply elem_addresses in H2 as (j & E%frame_addr_inj & Hj).
  subst j. set_solver.
Qed.

#[global] Instance kernel_frame_source : FrameSource Kernel := {
  take_frames := alloc_frames;
  give_frames := free_frames;
  source_ok := kernel_frames_ok;
  lent := kernel_lent;
  spare := kernel_spare;
  take_frames_law := alloc_frames_law;
  give_frames_law := free_frames_law;
  lent_spare := kernel_lent_spare
}.

(** ** The kernel's own ranges *)

Lemma round_page x : is_u64 x -> Z.land x (bnot 64 (PAGE_SIZE - 1)) = x - x mod PAGE_SIZE.
Proof.
  intros Hx. change (PAGE_SIZE - 1) with (2 ^ 12 - 1). rewrite land_bnot_ones by (lia || ulia). done.
Qed.

(** The page of a frame below 4 GiB that meets [start .. start + len) meets the
    reserved range made for it, saturation included. *)
Lemma page_range_covers start length p :
  is_u64 start -> 0 < length <= U64_MAX -> 0 <= p -> p + PAGE_SIZE <= MAX_IDENTITY_BYTES ->
  start < p + PAGE_SIZE -> p < start + length ->
  res_overlaps (page_range start length) p (p + PAGE_SIZE) = true.
Proof.
  intros Hs Hl Hp Hm H1 H2. unfold page_range. destruct (Z.eqb_spec length 0); [lia|].
  unfold saturating_add, res_overlaps. cbn [res_start res_end].
  rewrite !round_page by ulia. unfold PAGE_SIZE, MAX_IDENTITY_BYTES in *. unfold_consts.
  set (x := Z.min (Z.min (start + length) _ + (4096 - 1)) _).
  assert (Hx : p < x - x mod 4096).
  { destruct (Z.le_gt_cases (start + length + 4095) 18446744073709551615).
    - replace x with (start + length + 4095) by (unfold x; lia). Z.div_mod_to_equations. lia.
    - replace x with 18446744073709551615 by (unfold x; lia). Z.div_mod_to_equations. lia. }
  clearbody x. pose proof (Z.mod_pos_bound start 4096 ltac:(lia)).
  apply andb_true_iff. split; apply Z.ltb_lt; lia.
Qed.

(** The ranges the kernel reserves start on a page boundary. *)
Definition range_shape (r : ReservedRange) : Prop :=
  is_u64 (res_start r) /\ is_u64 (res_end r) /\ (PAGE_SIZE | res_start r).

Lemma round_page_range x : is_u64 x -> is_u64 (x - x mod PAGE_SIZE) /\ (PAGE_SIZE | x - x mod PAGE_SIZE).
Proof.
  intros Hx. unfold PAGE_SIZE. pose proof (Z.div_mod x 4096 ltac:(lia)).
  pose proof (Z.mod_pos_bound x 4096 ltac:(lia)). assert (0 <= x / 4096) by (apply Z.div_pos; ulia).
  split; [ulia|]. exists (x / 4096). lia.
Qed.

Lemma page_range_shape start length : is_u64 start -> 0 <= length -> range_shape (page_range start length).
Proof.
  intros Hs Hl. unfold page_range. destruct (Z.eqb_spec length 0).
  { split_and!; [split; discriminate|split; discriminate|by exists 0]. }
  unfold range_shape, saturating_add. cbn [res_start res_end]. rewrite !round_page by (unfold PAGE_SIZE; ulia).
  set (x := Z.min _ U64_MAX). assert (Hx : is_u64 x) by (unfold x, PAGE_SIZE; ulia).
  destruct (round_page_range start Hs), (round_page_range x Hx). done.
Qed.

(** ** The frame self-check *)

(** [first_free_in] finds no frame when no page it looks at is free. *)
Lemma first_free_none a n first :
  frame_inv a -> 0 <= first -> (first + Z.of_nat n) * PAGE_SIZE <= 2 ^ 64 ->
  (forall f, first <= f < first + Z.of_nat n -> ~ free_page a (f * PAGE_SIZE)) ->
  first_free_loop a n first = Done None.
Proof.
  intros Hinv. revert first. induction n as [|n IH]; intros first Hf Hb Hno; [done|]. cbn [first_free_loop].
  pose proof (fi_shape a Hinv) as Hs. pose proof (fs_limit a Hs) as Hlim.
  rewrite mul64_done by (unfold PAGE_SIZE in *; ulia). cbn [exec_bind].
  assert (E : exists o, frame_index a (first * PAGE_SIZE) = Done o).
  { rewrite frame_index_done by (done || unfold PAGE_SIZE in *; ulia). eauto. }
  destruct E as [[i|] E]; rewrite E; cbn [exec_bind].
  - apply frame_index_some in E as [Hi Ei]; [|done|unfold PAGE_SIZE in *; ulia].
    rewrite is_free_done by done. cbn [exec_bind]. destruct (free_at a i) eqn:Efr.
    + exfalso. apply (Hno first ltac:(lia)). exists i. rewrite elem_free_set. done.
    + apply IH; [lia|lia|]. intros f Hff. apply Hno. lia.
  - apply IH; [lia|lia|]. intros f Hff. apply Hno. lia.
Qed.

Lemma first_free_in_reserved a r :
  frame_inv a -> range_shape r ->
  (forall p, free_page a p -> res_overlaps r p (p + PAGE_SIZE) = false) ->
  first_free_in a (res_start r) (res_end r) = Done None.
Proof.
  intros Hinv Hr Hno. unfold first_free_in. destruct Hr as (Hr1 & Hr2 & [q Hq0]).
  pose proof (div_ceil_spec (res_end r) PAGE_SIZE ltac:(done)) as Hd.
  assert (Hq : res_start r / PAGE_SIZE = q) by (rewrite Hq0; by apply Z.div_mul). rewrite Hq.
  destruct (Z.le_gt_cases (div_ceil (res_end r) PAGE_SIZE) q) as [Hle|Hgt].
  { by replace (Z.to_nat (div_ceil (res_end r) PAGE_SIZE - q)) with 0%nat by lia. }
  apply first_free_none; [done|unfold PAGE_SIZE in *; ulia|unfold PAGE_SIZE in *; ulia|].
  intros f Hf Hfree. apply Hno in Hfree. unfold res_overlaps in Hfree.
  apply andb_false_iff in Hfree as [Hx|Hx]; apply Z.ltb_ge in Hx; unfold PAGE_SIZE in *; lia.
Qed.

Lemma no_free_in_ok a what ranges :
  frame_inv a -> Forall range_shape ranges ->
  (forall r p, r ∈ ranges -> free_page a p -> res_overlaps r p (p + PAGE_SIZE) = false) ->
  no_free_in a what ranges = Done (Ok tt).
Proof.
  intros Hinv. induction ranges as [|r ranges IH]; intros Hs Hno; [done|].
  apply List.Forall_cons_iff in Hs as [Hr Hs]. cbn [no_free_in].
  rewrite first_free_in_reserved; [|done|done|intros p; apply Hno; by left]. cbn [exec_bind].
  apply IH; [done|]. intros r' p Hin. apply Hno. by right.
Qed.

Lemma free_twice a i :
  frame_inv a -> i ∈ free_set a ->
  free a (mkFrame (frame_addr a i)) = Done (a, Err (Frame.AlreadyFree (frame_addr a i))).
Proof.
  intros Hinv Hi. pose proof (fi_shape a Hinv) as Hs.
  pose proof Hi as [Hb _]%elem_free_set. pose proof (free_set_pool a i Hi) as Hp.
  pose proof (frame_addr_limit a Hs i Hb) as Hlim.
  pose proof (free_spec a (frame_addr a i) Hinv ltac:(unfold PAGE_SIZE in *; ulia)) as H.
  destruct (free a (mkFrame (frame_addr a i))) as [[a' [[]|[x|x|x]]]|]; [..|done].
  - destruct H as (_ & _ & _ & j & Hj%frame_addr_inj & Hn & _). subst j. set_solver.
  - destruct H as (_ & _ & H). by destruct (H i Hb eq_refl).
  - by destruct H as (-> & -> & _).
  - destruct H as (_ & _ & H & _). by rewrite (fi_reserved a Hinv i Hp) in H.
Qed.

(** A run of [alloc] that finds the frame [i]. *)
Lemma alloc_least a i :
  frame_inv a -> i ∈ free_set a -> (forall j, j ∈ free_set a -> i <= j) ->
  exists a', Frame.alloc a = Done (a', Some (mkFrame (frame_addr a i))) /\ frame_inv a' /\ same_config a a' /\
    free_set a' = free_set a ∖ {[i]} /\ pool a' = pool a.
Proof.
  intros Hinv Hi Hmin.
  destruct (alloc_spec a Hinv) as [(j & a' & E & Hinv' & Hsame & Hj & Hmj & Hf & Hp)|[_ H0]]; [|set_solver].
  assert (j = i) as -> by (specialize (Hmin j Hj); specialize (Hmj i Hi); lia). by exists a'.
Qed.

(** Two frames of lowest address. *)
Lemma two_least (X : gset Z) :
  (2 <= size X)%nat ->
  exists i j, i ∈ X /\ (forall x, x ∈ X -> i <= x) /\
    j ∈ X ∖ {[i]} /\ (forall x, x ∈ X ∖ {[i]} -> j <= x).
Proof.
  intros Hs. destruct (minimal_exists_elem_of_L Z.le X) as (i & Hi & Hmi).
  { intros E. rewrite E, size_empty in Hs. lia. }
  destruct (minimal_exists_elem_of_L Z.le (X ∖ {[i]})) as (j & Hj & Hmj).
  { intros E. assert (Hz : size (X ∖ {[i]}) = 0%nat) by (by rewrite E, size_empty).
    rewrite size_difference, size_singleton in Hz by set_solver. lia. }
  exists i, j. split_and!; [done| |done|].
  - intros x Hx. destruct (Z.le_gt_cases i x); [done|]. apply Hmi; [done|lia].
  - intros x Hx. destruct (Z.le_gt_cases j x); [done|]. apply Hmj; [done|lia].
Qed.

(** The allocator holds the ranges the kernel computes for itself. *)
Definition records_owned (aa ba ia : Z) (a : FrameAllocator) (b : BootInfo) : Prop :=
  reserved_ranges a = Done (owned_ranges aa ba ia b) /\ Forall range_shape (owned_ranges aa ba ia b).

Lemma reserved_ranges_take a rs : reserved_ranges a = Done rs -> rs = take (Z.to_nat (reserved_len a)) (reserved a).
Proof.
  unfold reserved_ranges. intros H%slice_done. apply get_range_some in H as (_ & _ & ->).
  unfold sub_list. by rewrite drop_0, Z.sub_0_r.
Qed.

Lemma reserved_ranges_same a a' : same_config a a' -> reserved_ranges a' = reserved_ranges a.
Proof. intros [_ _ H1 H2]. unfold reserved_ranges. by rewrite H1, H2. Qed.

Lemma free_page_unreserved a rs r p :
  frame_inv a -> reserved_ranges a = Done rs -> r ∈ rs -> free_page a p ->
  res_overlaps r p (p + PAGE_SIZE) = false.
Proof.
  intros Hinv Hrs Hr (i & Hi & ->). apply free_set_pool in Hi.
  pose proof (fi_reserved a Hinv i Hi) as H. unfold reserved_at in H.
  rewrite <- (reserved_ranges_take a rs Hrs) in H. rewrite existsb_false_forall in H. by apply H.
Qed.

(** The same, with addresses counted in the allocator the check started from. *)
Lemma free_owned_from a a1 i :
  same_config a a1 -> frame_inv a1 -> i ∈ pool a1 ∖ free_set a1 ->
  exists a', free a1 (mkFrame (frame_addr a i)) = Done (a', Ok tt) /\ frame_inv a' /\ same_config a a' /\
    pool a' = pool a1 /\ free_set a' = {[i]} ∪ free_set a1.
Proof.
  intros Hs Hinv Hi. destruct (free_owned a1 i Hinv Hi) as (a' & E & Hinv' & Hs' & Hp & Hf).
  rewrite (same_config_addr a a1) in E by done. exists a'. split_and!; try done. by etransitivity.
Qed.

Lemma alloc_least_from a a1 i :
  same_config a a1 -> frame_inv a1 -> i ∈ free_set a1 -> (forall j, j ∈ free_set a1 -> i <= j) ->
  exists a', Frame.alloc a1 = Done (a', Some (mkFrame (frame_addr a i))) /\ frame_inv a' /\ same_config a a' /\
    free_set a' = free_set a1 ∖ {[i]} /\ pool a' = pool a1.
Proof.
  intros Hs Hinv Hi Hm. destruct (alloc_least a1 i Hinv Hi Hm) as (a' & E & Hinv' & Hs' & Hp & Hf).
  rewrite (same_config_addr a a1) in E by done. exists a'. split_and!; try done. by etransitivity.
Qed.

Lemma frame_self_check_eq aa ba ia k b a :
  FRAME_ALLOCATOR k = Some a -> frame_inv a -> records_owned aa ba ia a b ->
  2 <= Frame.free_frames a -> FREE_FRAMES_AFTER_INIT k = Frame.free_frames a + HEAP_SIZE / PAGE_SIZE ->
  exists a', frame_self_check aa ba ia k b = Done (Ok tt, with_allocator k a') /\
    frame_inv a' /\ same_config a a' /\ pool a' = pool a /\ free_set a' = free_set a.
Proof.
  intros Ea Hinv [Hrec Hshape] H2 Hbefore. unfold frame_self_check. rewrite Ea. cbv zeta.
  rewrite (fi_count a Hinv) in H2. destruct (two_least (free_set a)) as (i & j & Hi & Hmi & Hj & Hmj); [lia|].
  assert (Hij : i <> j) by set_solver. pose proof (free_set_pool a) as Hsub.
  destruct (alloc_least_from a a i) as (a1 & -> & Hinv1 & Hs1 & Hf1 & Hp1); [done..|]. cbn [exec_bind].
  destruct (alloc_least_from a a1 j) as (a2 & -> & Hinv2 & Hs2 & Hf2 & Hp2);
    [done|done|by rewrite Hf1|by rewrite Hf1|]. cbn [exec_bind address].
  destruct (Z.eqb_spec (frame_addr a i) (frame_addr a j)) as [E%frame_addr_inj|_]; [done|].
  destruct (free_owned_from a a2 i) as (a3 & -> & Hinv3 & Hs3 & Hp3 & Hf3); [done|done| |].
  { rewrite Hp2, Hp1, Hf2, Hf1. apply elem_of_difference. split; [by apply Hsub|]. set_solver. }
  cbn [exec_bind is_ok negb].
  destruct (free_owned_from a a3 j) as (a4 & -> & Hinv4 & Hs4 & Hp4 & Hf4); [done|done| |].
  { rewrite Hp3, Hp2, Hp1, Hf3, Hf2, Hf1. apply elem_of_difference. split; set_solver. }
  cbn [exec_bind is_ok negb].
  assert (Hf4' : free_set a4 = free_set a).
  { rewrite Hf4, Hf3, Hf2, Hf1. apply set_eq. intros x. destruct (decide (x = i)), (decide (x = j)); set_solver. }
  destruct (alloc_least_from a a4 i) as (a5 & -> & Hinv5 & Hs5 & Hf5 & Hp5);
    [done|done|by rewrite Hf4'|by rewrite Hf4'|]. cbn [exec_bind address]. rewrite Z.eqb_refl. cbn [negb].
  destruct (free_owned_from a a5 i) as (a6 & -> & Hinv6 & Hs6 & Hp6 & Hf6); [done|done| |].
  { rewrite Hp5, Hf5, Hp4, Hp3, Hp2, Hp1. apply elem_of_difference. split; [by apply Hsub|]. set_solver. }
  cbn [exec_bind is_ok negb].
  assert (Hf6' : free_set a6 = free_set a).
  { rewrite Hf6, Hf5, Hf4'. apply set_eq. intros x. destruct (decide (x = i)); set_solver. }
  assert (E7 : free a6 (mkFrame (frame_addr a i)) = Done (a6, Err (Frame.AlreadyFree (frame_addr a i)))).
  { rewrite <- (same_config_addr a a6) by done. apply free_twice; [done|by rewrite Hf6']. }
  rewrite E7. cbn [exec_bind is_ok]. rewrite (reserved_ranges_same a a6), Hrec by done. cbn [exec_bind].
  assert (Hnone : forall what, no_free_in a6 what (owned_ranges aa ba ia b) = Done (Ok tt)).
  { intros what. apply no_free_in_ok; [done|done|]. intros r p Hr. eapply free_page_unreserved; [done| |done].
    by rewrite (reserved_ranges_same a a6). }
  rewrite !Hnone. cbn [exec_bind fs_free Frame.stats].
  assert (Hn6 : Frame.free_frames a6 = Frame.free_frames a) by (by rewrite (fi_count a6), (fi_count a), Hf6').
  rewrite Hn6. pose proof (size_free_set a ltac:(destruct (fi_shape a Hinv); lia)) as Hsz.
  rewrite add64_done.
  2: { rewrite (fi_count a Hinv). destruct (fi_shape a Hinv) as []. change (HEAP_SIZE / PAGE_SIZE) with 256.
       unfold PAGE_SIZE in *. ulia. }
  cbn [exec_bind]. rewrite Hbefore, Z.eqb_refl. cbn [negb].
  exists a6. split_and!; try done. congruence.
Qed.

(** ** Construction of the allocators *)

Lemma mem_ok_read m a n : mem_ok m -> bytes_ok (read_bytes m a n).
Proof.
  intros Hm. apply List.Forall_forall. intros x Hx. apply list_elem_of_In in Hx.
  apply list_elem_of_fmap in Hx as (i & -> & _). apply Hm.
Qed.

Lemma boot_info_ok_fields b : boot_info_ok b ->
  is_u64 (kernel_base b) /\ is_u64 (kernel_size b) /\ is_u64 (stack_top b) /\ is_u64 (stack_size b) /\
  is_u64 (mmap_ptr b) /\ is_u64 (mmap_len b) /\ is_u32 (mmap_desc_size b).
Proof.
  unfold boot_info_ok, fields, field_widths. rewrite !Forall2_cons. unfold width_ok. cbn [Z.of_nat].
  intros H. decompose [and] H. clear H. unfold_consts. cbn in *. lia.
Qed.

Lemma boot_info_map_ok m b map :
  mem_ok m -> boot_info_ok b -> boot_info_memory_map m b = Done (Ok map) -> map_ok map.
Proof.
  intros Hm Hb H. destruct (boot_info_ok_fields b Hb) as (_ & _ & _ & _ & _ & Hl & Hs).
  unfold boot_info_memory_map in H. destruct (mmap_desc_size b <? DESCRIPTOR_MIN_SIZE); [done|].
  destruct (buffer_len (mmap_len b) (mmap_desc_size b)) as [n|]; [|done].
  apply exec_bind_done in H as ([map'|e] & Hf & H); [|done]. injection H as ->.
  eapply from_bytes_map_ok; [|exact Hl|exact Hs|exact Hf]. by apply mem_ok_read.
Qed.

Section Boot.
  Context (aa ba ia : Z) (k : Kernel) (b : BootInfo) (map : MemoryMap).
  Context (Hmem : mem_ok (phys k)) (Hb : boot_info_ok b) (Haa : is_u64 aa) (Hba : is_u64 ba) (Hia : is_u64 ia).
  Context (Hparse : boot_info_memory_map (phys k) b = Done (Ok map)).
  Context (Halign : Forall Frame.page_aligned (region_list map)).
  Context (Hapart : ForallOrdPairs region_apart (region_list map)).
  Context (Hbytes : bytes_ok (FRAME_BITMAP k)) (Hlen : len (FRAME_BITMAP k) = FRAME_BITMAP_BYTES).

Lemma owned_shape : Forall range_shape (owned_ranges aa ba ia b).
Proof using Hb Haa Hba Hia.
  destruct (boot_info_ok_fields b Hb) as (H1 & H2 & H3 & H4 & H5 & H6 & H7). unfold owned_ranges.
  assert (Hpage : is_u64 (Z.land ia (bnot 64 (PAGE_SIZE - 1)))).
  { rewrite round_page by done. apply round_page_range, Hia. }
  assert (Hd : range_shape res_default) by (split_and!; [split; discriminate|split; discriminate|by exists 0]).
  repeat (apply List.Forall_cons; [first [exact Hd | apply page_range_shape]|]); [..|apply List.Forall_nil];
    try done; try discriminate; unfold saturating_sub, saturating_mul in *; ulia.
Qed.

Lemma owned_count : len (owned_ranges aa ba ia b) = MAX_RESERVED_RANGES.
Proof. done. Qed.

Lemma allocator_config lim :
  0 <= lim -> forall e, init_check (FRAME_BITMAP k) (owned_ranges aa ba ia b)
                (config_new (Z.min lim MAX_IDENTITY_BYTES)) = Some e ->
  e = EmptyRange MIN_FREE_ADDR (Z.min lim MAX_IDENTITY_BYTES).
Proof using Hlen.
  intros Hl e. unfold init_check. rewrite owned_count, Hlen. cbn [managed_start limit config_new].
  rewrite Z.ltb_irrefl. case_match; [by intros [= <-]|].
  set (x := Z.min lim MAX_IDENTITY_BYTES) in *.
  assert (Hx : x / PAGE_SIZE <= MAX_IDENTITY_BYTES / PAGE_SIZE) by (apply Z.div_le_mono; [done|unfold x; lia]).
  change (MAX_IDENTITY_BYTES / PAGE_SIZE) with 1048576 in Hx.
  change (div_ceil MIN_FREE_ADDR PAGE_SIZE) with 256 in *. change FRAME_BITMAP_BYTES with 262080 in *.
  pose proof (div_ceil_spec (x / PAGE_SIZE - 256) 8 ltac:(done)).
  destruct (Z.ltb_spec 262080 (2 * div_ceil (x / PAGE_SIZE - 256) 8)); [lia|done].
Qed.

Lemma allocator_built a lim :
  same_config (blank (FRAME_BITMAP k) (owned_ranges aa ba ia b)
                 (config_new (Z.min lim MAX_IDENTITY_BYTES))) a ->
  reserved_ranges a = Done (owned_ranges aa ba ia b) /\ managed_ok a.
Proof.
  intros Hs. split.
  - unfold reserved_ranges. destruct Hs as [_ _ -> ->]. unfold blank. cbn [reserved reserved_len].
    rewrite owned_count, Z.sub_diag, app_nil_r. reflexivity.
  - destruct Hs as [H1 H2 _ _]. unfold managed_ok. rewrite H1, H2. unfold blank. cbn [first_frame frames].
    cbn [managed_start limit config_new]. change (div_ceil MIN_FREE_ADDR PAGE_SIZE) with 256.
    split; [done|]. pose proof (Z.mul_div_le (Z.min lim MAX_IDENTITY_BYTES) PAGE_SIZE ltac:(done)).
    unfold PAGE_SIZE in *. lia.
Qed.

(** The heap holds the tiling [bs]. *)
Definition heap_ok (k : Kernel) (bs : tiling) : Prop :=
  heap_inv (heap_list (KERNEL_HEAP k)) (heap_arena k) bs /\
  0 < heap_base (KERNEL_HEAP k) /\ 0 < heap_len (KERNEL_HEAP k) <= ISIZE_MAX /\
  heap_base (KERNEL_HEAP k) + heap_len (KERNEL_HEAP k) <= U64_MAX.

Lemma heap_init_ok k0 base :
  mem_ok (phys k0) -> 0 < base -> base + HEAP_SIZE <= U64_MAX ->
  exists k', heap_init k0 base HEAP_SIZE = Done k' /\ heap_ok k' [(HEAP_SIZE, true)] /\
    heap_region k' = (base, HEAP_SIZE) /\ FRAME_ALLOCATOR k' = FRAME_ALLOCATOR k0 /\
    FREE_FRAMES_AFTER_INIT k' = FREE_FRAMES_AFTER_INIT k0 /\
    forall a n, a + n <= base \/ base + HEAP_SIZE <= a -> same_on a n (phys k') (phys k0).
Proof.
  intros Hm Hb0 Hb1. unfold heap_init.
  pose proof (init_spec (read_bytes (phys k0) base HEAP_SIZE) (mem_ok_read _ _ _ Hm)) as Hi.
  rewrite len_read_bytes in Hi by done. specialize (Hi ltac:(discriminate)).
  change (round_down HEAP_SIZE <? MIN_BLOCK) with false in Hi. change (round_down HEAP_SIZE) with HEAP_SIZE in Hi.
  destruct Hi as (h & arena & -> & Hinv & Hl). cbn [exec_bind]. eexists. split; [done|].
  split; [|split_and!; try done; intros a n Ha; apply copy_to_same_on; lia].
  unfold heap_ok, heap_arena. cbn [KERNEL_HEAP with_heap heap_list heap_base heap_len phys with_phys].
  rewrite <- Hl, read_bytes_copy_to, Hl. split_and!; try done.
Qed.

(** What [init_allocators] leaves when it succeeds. *)
Definition allocators_ready (lim : Z) (layout : MemoryLayout) (k' : Kernel) : Prop :=
  exists a region, FRAME_ALLOCATOR k' = Some a /\ frame_inv a /\ managed_ok a /\
    records_owned aa ba ia a b /\
    (forall i, i ∈ pool a -> usable_page (region_list map) (owned_ranges aa ba ia b)
                               (config_new (Z.min lim MAX_IDENTITY_BYTES)) (frame_addr a i)) /\
    kernel_lent k' = list_to_set (range_pages region) /\
    range_len region = HEAP_SIZE /\ heap_region k' = (range_start region, HEAP_SIZE) /\
    heap_ok k' [(HEAP_SIZE, true)] /\
    FREE_FRAMES_AFTER_INIT k' = Frame.free_frames a + HEAP_SIZE / PAGE_SIZE /\
    layout = mkLayout lim (mkFrameStats (frames a) (Frame.free_frames a)) (range_start region, HEAP_SIZE).

Lemma difference_difference_subset (X Y : gset Z) : Y ⊆ X -> X ∖ (X ∖ Y) = Y.
Proof.
  intros H. apply set_eq. intros i. rewrite !elem_of_difference. destruct (decide (i ∈ Y)); set_solver.
Qed.

Lemma size_run_set s n : size (run_set s n) = n.
Proof.
  unfold run_set. rewrite size_list_to_set by apply NoDup_seqZ. rewrite length_seqZ. lia.
Qed.

(** From a fresh allocator to the finished layout. *)
Lemma init_allocators_tail a lim :
  frame_inv a -> managed_ok a -> records_owned aa ba ia a b -> pool a = free_set a ->
  (forall p, free_page a p <-> usable_page (region_list map) (owned_ranges aa ba ia b)
                                 (config_new (Z.min lim MAX_IDENTITY_BYTES)) p) ->
  let k1 := with_allocator (with_free_after_init k (Frame.free_frames a)) a in
  (exists k2, alloc_frames k1 (HEAP_SIZE / PAGE_SIZE) = Done (k2, None) /\ forall s, ~ run_free a s 256) \/
  (exists region k2 k3, alloc_frames k1 (HEAP_SIZE / PAGE_SIZE) = Done (k2, Some region) /\
     heap_init k2 (range_start region) HEAP_SIZE = Done k3 /\
     exists n, frames_free k3 = Done n /\
       allocators_ready lim (mkLayout lim (mkFrameStats (frames a) n) (range_start region, HEAP_SIZE)) k3).
Proof using Hmem Hb Haa Hba Hia Hparse Halign Hapart Hbytes Hlen.
  intros Hinv Hm Hrec Hp Hpages k1. change (HEAP_SIZE / PAGE_SIZE) with 256.
  unfold alloc_frames. cbn [FRAME_ALLOCATOR k1 with_allocator].
  destruct (alloc_contiguous_spec a 256 Hinv) as [(s & a' & -> & Hinv' & Hsame & Hrun & _ & Hf & Hp')|[-> Hno]];
    [ulia|right|left; eauto].
  cbn [exec_bind]. eexists _, _. destruct Hrun as (Hs0 & Hsl & Hrun). pose proof (fi_shape a Hinv) as Hs.
  pose proof (fs_first a Hs) as Hff. pose proof Hm as [Hm1 Hm2].
  assert (Hsub : run_set s 256 ⊆ free_set a).
  { intros i Hi%elem_run_set. apply elem_free_set. split; [lia|]. apply Hrun. lia. }
  set (region := mkRange (frame_addr a s) (256 * PAGE_SIZE)).
  assert (Hbase : MIN_FREE_ADDR <= frame_addr a s /\ frame_addr a s + HEAP_SIZE <= MAX_IDENTITY_BYTES).
  { unfold frame_addr, HEAP_SIZE, PAGE_SIZE in *. lia. }
  destruct (heap_init_ok (with_allocator k1 a') (frame_addr a s)) as (k3 & Hk3 & Hok & Hreg & Hal & Hfr & _);
    [done|unfold MIN_FREE_ADDR in *; lia|unfold MAX_IDENTITY_BYTES in *; ulia|].
  exists k3. split; [reflexivity|]. split; [exact Hk3|]. cbn [FRAME_ALLOCATOR with_allocator] in Hal.
  exists (Frame.free_frames a'). unfold frames_free. rewrite Hal. split; [done|].
  exists a', region. split; [done|]. split; [done|]. split; [by apply (managed_same a)|].
  destruct Hrec as [Hrec Hsh]. split; [split; [by rewrite (reserved_ranges_same a a')|done]|].
  split; [|split; [|split; [done|split; [done|split; [done|split]]]]].
  - intros i. rewrite Hp', Hp, (same_config_addr a a') by done. intros Hi. apply Hpages. exists i. split; [exact Hi|reflexivity].
  - unfold kernel_lent. rewrite Hal, (addresses_same a a') by done. unfold region. rewrite range_pages_run by lia.
    rewrite <- addresses_run by lia. f_equal. rewrite Hp', Hp, Hf. change (Z.to_nat 256) with 256%nat.
    by apply difference_difference_subset.
  - rewrite Hfr. cbn [FREE_FRAMES_AFTER_INIT with_allocator with_free_after_init k1].
    change (HEAP_SIZE / PAGE_SIZE) with 256.
    rewrite (fi_count a Hinv), (fi_count a' Hinv'), Hf. change (Z.to_nat 256) with 256%nat.
    pose proof (subseteq_size _ _ Hsub) as Hle. rewrite size_run_set in Hle.
    rewrite size_difference, size_run_set by done. lia.
  - f_equal. f_equal. by destruct Hsame.
Qed.

Lemma init_allocators_outcome lim :
  is_u64 lim ->
  exists r k', init_allocators aa ba ia k b lim = Done (r, k') /\
    let usable := usable_page (region_list map) (owned_ranges aa ba ia b)
                    (config_new (Z.min lim MAX_IDENTITY_BYTES)) in
    match r with
    | Ok layout => allocators_ready lim layout k'
    | Err (Frames (EmptyRange _ _)) => k' = k /\ lim < MIN_FREE_ADDR + PAGE_SIZE
    | Err (Frames NoUsableMemory) => k' = k /\ forall p, ~ usable p
    | Err (HeapRegionUnavailable n) =>
        n = 256 /\ forall p, ~ (forall j, 0 <= j < 256 -> usable (p + j * PAGE_SIZE))
    | Err _ => False
    end.
Proof using Hmem Hb Haa Hba Hia Hparse Halign Hapart Hbytes Hlen.
  intros Hlim. pose proof (boot_info_map_ok _ _ _ Hmem Hb Hparse) as Hmap.
  unfold init_allocators. rewrite Hparse. cbn [exec_bind].
  set (config := config_new (Z.min lim MAX_IDENTITY_BYTES)). set (rsv := owned_ranges aa ba ia b) in *.
  assert (Hcfg : config_ok config).
  { split; [split; discriminate|]. unfold config, MAX_IDENTITY_BYTES. cbn [limit config_new]. ulia. }
  destruct (init_check (FRAME_BITMAP k) rsv config) as [e|] eqn:Hck.
  { pose proof Hck as He. apply allocator_config in He; [|ulia]. subst e.
    rewrite (init_checked _ _ _ _ _ Hcfg Hck). cbn [exec_bind]. eexists _, _. split; [done|]. split; [done|].
    unfold init_check in Hck. fold rsv in Hck. repeat case_match; try done. apply Z.leb_le in H0.
    change (div_ceil (managed_start config) PAGE_SIZE) with 256 in H0. cbn [limit config config_new] in H0.
    apply Z.nle_gt. intros Hge. unfold MIN_FREE_ADDR, PAGE_SIZE in *.
    assert (257 <= Z.min lim MAX_IDENTITY_BYTES / 4096); [|lia].
    apply Z.div_le_lower_bound; [lia|]. unfold MAX_IDENTITY_BYTES. lia. }
  destruct (init_ok (FRAME_BITMAP k) map rsv config) as (a & _ & -> & Hinv & Hsame & Hp & Hpages); [done..|].
  destruct (Z.eqb_spec (Frame.free_frames a) 0) as [H0|H0]; cbn [exec_bind].
  { eexists _, _. split; [done|]. split; [done|]. intros p (i & Hi & _)%Hpages.
    rewrite (fi_count a Hinv) in H0. assert (E0 : free_set a = ∅) by (apply leibniz_equiv, size_empty_iff; lia).
    rewrite E0 in Hi. by apply not_elem_of_empty in Hi. }
  destruct (allocator_built a lim Hsame) as [Hrsv Hman].
  destruct (init_allocators_tail a lim) as [(k2 & E & Hno)|(region & k2 & k3 & E & E3 & n & En & Hready)];
    [done|done|by split; [|apply owned_shape]|done|done|..]; cbn [fs_free Frame.stats fs_managed]; rewrite E; cbn [exec_bind].
  - eexists _, _. split; [done|]. split; [done|]. intros p Hall. destruct (proj2 (Hpages p)) as (s & Hs & ->).
    { specialize (Hall 0 ltac:(lia)). by rewrite Z.add_0_r in Hall. }
    apply (Hno s). pose proof Hs as [Hsb _]%elem_free_set.
    assert (Hin : forall j, 0 <= j < 256 -> s + j ∈ free_set a).
    { intros j Hj. destruct (proj2 (Hpages _) (Hall j Hj)) as (i & Hi & E'). replace (s + j) with i; [done|].
      apply (frame_addr_inj a). rewrite <- E'. unfold frame_addr. lia. }
    split; [lia|]. split; [destruct (proj1 (elem_free_set _ _) (Hin 255 ltac:(lia))); lia|].
    intros i Hi. replace i with (s + (i - s)) by lia. apply elem_free_set, Hin. lia.
  - rewrite E3. cbn [exec_bind]. rewrite En. cbn [exec_bind]. eexists _, _. split; [done|]. exact Hready.
Qed.

End Boot.

(** ** Switching to the kernel's own tables *)

Lemma validate_prefix page : BootInfo.validate (decode (take 16 page)) = BootInfo.validate (decode page).
Proof.
  assert (Hf : forall i n, 0 <= i -> 0 <= n -> i + n <= 16 ->
            sub_list (take 16 page) i n = sub_list page i n).
  { intros i n Hi Hn Hle. unfold sub_list. rewrite skipn_firstn_comm, take_take. f_equal. lia. }
  assert (H0 : read_field (take 16 page) 0 = read_field page 0) by (unfold read_field; by rewrite Hf).
  assert (H1 : read_field (take 16 page) 1 = read_field page 1) by (unfold read_field; by rewrite Hf).
  assert (H2 : read_field (take 16 page) 2 = read_field page 2) by (unfold read_field; by rewrite Hf).
  unfold BootInfo.validate, decode. cbn [magic bi_version bi_size]. by rewrite H0, H1, H2.
Qed.

Lemma take_read_bytes m a n k : 0 <= k <= n -> take (Z.to_nat k) (read_bytes m a n) = read_bytes m a k.
Proof.
  intros Hk. unfold read_bytes. rewrite <- fmap_take. f_equal. rewrite take_seq. f_equal. lia.
Qed.

(** A read through tables that map each byte to itself is a plain read. *)
Lemma read_virtual_identity aa k va n :
  (forall a, va <= a < va + n ->
     mmu_walk aa (read_bytes (phys k) aa ARENA_BYTES) (cr3 k) a = Some (mkAccess a true false)) ->
  read_virtual aa k va n = Some (read_bytes (phys k) va n).
Proof.
  intros H. unfold read_virtual. apply mapM_Some. apply Forall2_fmap_r, Forall_Forall2_diag, Forall_forall.
  intros i Hi%elem_of_seq. rewrite H by lia. done.
Qed.

Section Install.
  Context (aa ia : Z) (k : Kernel) (b : BootInfo).
  Context (Hmem : mem_ok (phys k)) (Hb : boot_info_ok b).
  Context (Haa : 0 <= aa /\ aa + ARENA_BYTES <= 2 ^ 52).
  Context (Hbi : b = decode (read_bytes (phys k) ia 120)).
  Context (Hvalid : BootInfo.validate b = Ok tt).
  Context (Hia : ia + 16 <= aa \/ aa + ARENA_BYTES <= ia).
  Context (Hram : forall map arena t,
    boot_info_memory_map (phys k) b = Done (Ok map) ->
    build aa (read_bytes (phys k) aa ARENA_BYTES) map M2 = Done (arena, Ok t) ->
    exists r, r ∈ region_list map /\ is_ram (kind r) = true /\ base r <= ia /\ ia + 16 <= end_of r /\
      PAGE_SIZE <= ia /\ ia + 16 <= pt_limit t).

Let arena0 := read_bytes (phys k) aa ARENA_BYTES.

Lemma install_build_input map :
  boot_info_memory_map (phys k) b = Done (Ok map) -> build_input aa arena0 map M2.
Proof using Hmem Hb Haa.
  intros Hp. unfold build_input, arena0. rewrite len_read_bytes by done.
  split_and!; [lia|lia|by apply mem_ok_read|by eapply boot_info_map_ok|split; discriminate|split; discriminate].
Qed.

(** What the switch leaves: the tables are live, nothing outside the arena
    changed, and a byte of RAM below the limit is read at its own address. *)
Definition switched (map : MemoryMap) (t : PageTables) (k' : Kernel) : Prop :=
  cr3 k' = aa /\ pml4_phys t = aa /\
  (forall a n, a + n <= aa \/ aa + ARENA_BYTES <= a -> same_on a n (phys k') (phys k)) /\
  (forall r va, r ∈ region_list map -> is_ram (kind r) = true -> base r <= va < end_of r ->
     PAGE_SIZE <= va < pt_limit t -> read_virtual aa k' va 1 = Some [phys k' va]) /\
  (forall va, 0 <= va < PAGE_SIZE -> read_virtual aa k' va 1 = None).

Lemma install_switch map arena t :
  boot_info_memory_map (phys k) b = Done (Ok map) -> build aa arena0 map M2 = Done (arena, Ok t) ->
  let k' := write_cr3 (with_phys k (copy_to (phys k) aa arena)) (pml4_phys t) in
  switched map t k' /\ read_virtual aa k' ia 16 = Some (read_bytes (phys k) ia 16).
Proof using Hmem Hb Haa Hia Hram.
  intros Hp Hbuild k'. pose proof (install_build_input map Hp) as Hin.
  destruct (build_ok_facts _ _ _ _ _ _ Hin Hbuild) as (_ & Hroot & _ & _ & _ & _ & _ & _ & Hent).
  assert (Hl : len arena = ARENA_BYTES).
  { destruct Hent as [Hlen _]. rewrite Hlen. by apply len_read_bytes. }
  assert (Har : read_bytes (phys k') aa ARENA_BYTES = arena).
  { rewrite <- Hl. apply read_bytes_copy_to. }
  assert (Hsame : forall a n, a + n <= aa \/ aa + ARENA_BYTES <= a -> same_on a n (phys k') (phys k)).
  { intros a n Ha. apply copy_to_same_on. rewrite Hl. lia. }
  assert (Hwalk : forall r va, r ∈ region_list map -> is_ram (kind r) = true -> base r <= va < end_of r ->
            PAGE_SIZE <= va < pt_limit t ->
            mmu_walk aa (read_bytes (phys k') aa ARENA_BYTES) (cr3 k') va = Some (mkAccess va true false)).
  { intros r va Hr Hk Hv Hlt. rewrite Har.
    by apply (proj1 (ram_reachable aa arena0 map M2 arena t va Hin Hbuild eq_refl eq_refl) r). }
  split.
  - split; [done|]. split; [done|]. split; [done|]. split.
    + intros r va Hr Hk Hv Hlt. rewrite read_virtual_identity.
      * unfold read_bytes. change (seq 0 (Z.to_nat 1)) with [0%nat]. cbn [fmap list_fmap].
        by replace (va + Z.of_nat 0) with va by lia.
      * intros a Ha. replace a with va by lia. by apply (Hwalk r).
    + intros va Hva. unfold read_virtual. rewrite Har. change (seq 0 (Z.to_nat 1)) with [0%nat].
      change (cr3 k') with (pml4_phys t). cbn [mapM]. replace (va + Z.of_nat 0) with va by lia.
      by rewrite (proj2 (ram_reachable aa arena0 map M2 arena t va Hin Hbuild eq_refl eq_refl) Hva).
  - destruct (Hram map arena t Hp Hbuild) as (r & Hr & Hk & H1 & H2 & H3 & H4).
    rewrite read_virtual_identity by (intros a Ha; apply (Hwalk r); (done || lia)).
    f_equal. apply read_bytes_ext. apply Hsame. lia.
Qed.

(** The arena lies in the kernel image. *)
Definition arena_in_kernel : Prop := kernel_base b <= aa < saturating_add (kernel_base b) (kernel_size b).

(** The result [r] of [install] and the kernel [k'] it leaves, each with the
    reason and with the checks that passed before it. *)
Definition install_result (r : Result PageTables MemoryError) (k' : Kernel) : Prop :=
  match r with
  | Ok t => check_cpu_mode k = Ok tt /\ arena_in_kernel /\
      exists map arena, boot_info_memory_map (phys k) b = Done (Ok map) /\
        build aa arena0 map M2 = Done (arena, Ok t) /\ switched map t k' /\
        decode (read_bytes (phys k') ia 16) = decode (read_bytes (phys k) ia 16)
  | Err (UnexpectedCpuMode d) => k' = k /\ check_cpu_mode k = Err (UnexpectedCpuMode d)
  | Err (ArenaOutsideKernel a) => k' = k /\ check_cpu_mode k = Ok tt /\ a = aa /\ ~ arena_in_kernel
  | Err (MapFailed e) => k' = k /\ check_cpu_mode k = Ok tt /\ arena_in_kernel /\
      boot_info_memory_map (phys k) b = Done (Err (MapFailed e))
  | Err (BuildFailed e) => cr3 k' = cr3 k /\ same_on aa ARENA_BYTES (phys k') (phys k) /\
      check_cpu_mode k = Ok tt /\ arena_in_kernel /\
      exists map arena, boot_info_memory_map (phys k) b = Done (Ok map) /\ build aa arena0 map M2 = Done (arena, Err e)
  | Err _ => False
  end.

Lemma install_outcome :
  exists r k', install aa ia k b = Done (r, k') /\ install_result r k'.
Proof using Hmem Hb Haa Hbi Hvalid Hia Hram.
  unfold install. destruct (check_cpu_mode k) as [[]|e] eqn:Hcpu.
  2: { assert (exists d, e = UnexpectedCpuMode d) as [d ->].
       { unfold check_cpu_mode in Hcpu. case_match; [|done]. injection Hcpu as <-. by eexists. }
       eexists _, _. split; [done|]. by split. }
  destruct ((aa <? kernel_base b) || (saturating_add (kernel_base b) (kernel_size b) <=? aa)) eqn:Hk.
  { eexists _, _. split; [done|]. split; [done|]. split; [done|]. split; [done|]. unfold arena_in_kernel. lia. }
  assert (Hin : arena_in_kernel) by (unfold arena_in_kernel; lia).
  destruct (boot_info_ok_fields b Hb) as (_ & _ & _ & _ & _ & Hml & Hms).
  assert (Hrm : exists rm, boot_info_memory_map (phys k) b = Done rm /\
            match rm with Ok _ => True | Err (MapFailed _) => True | Err _ => False end).
  { unfold boot_info_memory_map. case_match; [by eexists|]. case_match; [|by eexists].
    rewrite from_bytes_eq by (done || by apply mem_ok_read). cbn [exec_bind].
    destruct (from_bytes_spec _ _ _ _); by eexists. }
  destruct Hrm as ([map|e] & Hrm & He); rewrite Hrm; cbn [exec_bind].
  2: { destruct e; try done. eexists _, _. split; [done|]. done. }
  pose proof (install_build_input map Hrm) as (Ha & Hn & Hbs & Hm & Hmx & Hfn).
  destruct (build_eq aa arena0 map M2 (conj Ha Hn) Hbs Hm) as (top & arena & _ & _ & Hbuild & Hpost);
    [discriminate|discriminate|]. fold arena0.
  destruct (build_outcome aa (len arena0) (region_list map) top M2) as [t|e] eqn:Ho;
    rewrite Hbuild; cbn [exec_bind].
  - destruct (install_switch map arena t Hrm Hbuild) as [Hsw Hread]. rewrite Hread.
    assert (Hv : BootInfo.validate (decode (read_bytes (phys k) ia 16)) = Ok tt).
    { rewrite <- Hvalid, Hbi, <- (validate_prefix (read_bytes (phys k) ia 120)).
      by rewrite <- (take_read_bytes (phys k) ia 120 16). }
    rewrite Hv. cbn [is_ok]. eexists _, _. split; [done|]. split; [done|]. split; [done|].
    exists map, arena. split; [done|]. split; [exact Hbuild|]. split; [done|].
    f_equal. apply read_bytes_ext. apply Hsw. lia.
  - eexists _, _. split; [done|]. split; [done|].
    split; [|split; [done|]; split; [done|]; exists map, arena; split; [done|exact Hbuild]].
    subst arena. intros a Ha'. cbn. unfold copy_to, arena0. destruct (get (read_bytes (phys k) aa ARENA_BYTES) (a - aa)) as [x|] eqn:Eg; [|done].
    apply get_some in Eg as [Hge Eg]. unfold read_bytes in Eg. rewrite list_lookup_fmap in Eg.
    rewrite lookup_seq_lt in Eg by (change ARENA_BYTES with 45056 in *; lia). cbn in Eg. injection Eg as <-.
    f_equal. lia.
Qed.

End Install.

(** ** Sequences of allocations *)
Inductive mem_op : Type :=
| TakeOp (n : Z)
| GiveOp (r : PhysRange).

Definition mem_step (op : mem_op) (k : Kernel) : exec Kernel :=
  match op with
  | TakeOp n => let! (k, _) := alloc_frames k n in Done k
  | GiveOp r => let! (k, _) := free_frames k r in Done k
  end.

Fixpoint mem_run (ops : list mem_op) (k : Kernel) : exec Kernel :=
  match ops with
  | [] => Done k
  | op :: ops => let! k := mem_step op k in mem_run ops k
  end.

Definition mem_op_ok (op : mem_op) : Prop :=
  match op with
  | TakeOp n => is_usize n
  | GiveOp r => 0 <= range_start r /\ 0 <= range_len r /\ range_start r + range_len r + PAGE_SIZE <= U64_MAX
  end.

(** [free_frames] of an arbitrary range, whatever it stumbles over. *)
Lemma free_loop_any fuel a addr stop :
  frame_inv a -> 0 <= addr -> stop + PAGE_SIZE <= U64_MAX -> stop - addr <= Z.of_nat fuel * PAGE_SIZE ->
  exists a' r, free_loop fuel a addr stop = Done (a', r) /\ frame_inv a' /\ same_config a a' /\ pool a' = pool a.
Proof.
  revert a addr. induction fuel as [|fuel IH]; intros a addr Hinv Ha Hs Hf; cbn [free_loop].
  { replace (addr <? stop) with false by (unfold PAGE_SIZE in *; lia). by exists a, (Ok tt). }
  destruct (Z.ltb_spec addr stop) as [Hlt|]; [|by exists a, (Ok tt)].
  pose proof (free_spec a addr Hinv ltac:(unfold PAGE_SIZE in *; ulia)) as H.
  destruct (free a (mkFrame addr)) as [[a1 [[]|e]]|]; [| |done]; cbn [exec_bind].
  - destruct H as (Hinv1 & Hs1 & Hp1 & _). rewrite add64_done by lia. cbn [exec_bind].
    destruct (IH a1 (addr + PAGE_SIZE)) as (a2 & r & E & Hinv2 & Hs2 & Hp2);
      [done|unfold PAGE_SIZE in *; lia|done|unfold PAGE_SIZE in *; lia|].
    exists a2, r. split; [exact E|]. split; [done|]. split; [by etransitivity|congruence].
  - assert (a1 = a) as -> by (destruct e; naive_solver). by exists a, (Err e).
Qed.

Lemma mem_step_pool op k a :
  FRAME_ALLOCATOR k = Some a -> frame_inv a -> mem_op_ok op ->
  exists k' a', mem_step op k = Done k' /\ FRAME_ALLOCATOR k' = Some a' /\ frame_inv a' /\
    same_config a a' /\ pool a' = pool a.
Proof.
  intros Ea Hinv Hop. destruct op as [n|r]; cbn [mem_step].
  - unfold alloc_frames. rewrite Ea. destruct (decide (n = 0)) as [->|Hn].
    { by eexists _, a. }
    destruct (alloc_contiguous_spec a n Hinv) as [(s & a' & -> & Hinv' & Hs & _ & _ & _ & Hp)|[-> _]];
      [unfold mem_op_ok in Hop; ulia|by eexists _, a'|by eexists _, a].
  - destruct Hop as (H1 & H2 & H3). unfold free_frames. rewrite Ea. unfold range_end.
    rewrite add64_done by (unfold PAGE_SIZE in *; lia). cbn [exec_bind].
    pose proof (div_ceil_spec (range_len r) PAGE_SIZE ltac:(done)).
    destruct (free_loop_any (Z.to_nat (div_ceil (range_len r) PAGE_SIZE)) a (range_start r)
                (range_start r + range_len r)) as (a' & res & -> & Hinv' & Hs & Hp);
      [done|done|done|unfold PAGE_SIZE in *; lia|]. cbn [exec_bind]. by eexists _, a'.
Qed.

Lemma mem_run_pool ops k a :
  FRAME_ALLOCATOR k = Some a -> frame_inv a -> Forall mem_op_ok ops ->
  exists k' a', mem_run ops k = Done k' /\ FRAME_ALLOCATOR k' = Some a' /\ frame_inv a' /\
    same_config a a' /\ pool a' = pool a.
Proof.
  revert k a. induction ops as [|op ops IH]; intros k a Ea Hinv Hops; [by eexists _, a|].
  apply List.Forall_cons_iff in Hops as [Hop Hops]. cbn [mem_run].
  destruct (mem_step_pool op k a Ea Hinv Hop) as (k1 & a1 & -> & Ea1 & Hinv1 & Hs1 & Hp1). cbn [exec_bind].
  destruct (IH k1 a1 Ea1 Hinv1 Hops) as (k2 & a2 & E & Ea2 & Hinv2 & Hs2 & Hp2).
  exists k2, a2. split; [exact E|]. split; [done|]. split; [done|]. split; [by etransitivity|congruence].
Qed.

(** The memory the kernel must keep for itself: its image, its stack, the
    BootInfo page, the memory map, the page tables and the frame bitmap. *)
Definition kernel_memory (aa ba ia : Z) (b : BootInfo) : list (Z * Z) :=
  [(kernel_base b, kernel_size b);
   (saturating_sub (stack_top b) (stack_size b), stack_size b);
   (ia - ia mod PAGE_SIZE, PAGE_SIZE);
   (mmap_ptr b, saturating_mul (mmap_len b) (mmap_desc_size b));
   (aa, ARENA_BYTES);
   (ba, FRAME_BITMAP_BYTES)].

Lemma kernel_memory_apart aa ba ia b p start length :
  boot_info_ok b -> is_u64 aa -> is_u64 ba -> is_u64 ia ->
  0 <= p -> p + PAGE_SIZE <= MAX_IDENTITY_BYTES ->
  (forall r, r ∈ owned_ranges aa ba ia b -> res_overlaps r p (p + PAGE_SIZE) = false) ->
  In (start, length) (kernel_memory aa ba ia b) ->
  length = 0 \/ p + PAGE_SIZE <= start \/ start + length <= p.
Proof.
  intros Hb Haa Hba Hia Hp Hmax Hno Hin.
  destruct (boot_info_ok_fields b Hb) as (H1 & H2 & H3 & H4 & H5 & H6 & H7).
  assert (Hpage : Z.land ia (bnot 64 (PAGE_SIZE - 1)) = ia - ia mod PAGE_SIZE) by (by apply round_page).
  destruct (round_page_range ia Hia) as [Hpu _].
  assert (Hr : In (page_range start length) (owned_ranges aa ba ia b) /\ is_u64 start /\ is_u64 length).
  { unfold owned_ranges. cbv zeta. rewrite Hpage. unfold kernel_memory in Hin. cbn [In] in Hin |- *.
    repeat destruct Hin as [[= <- <-]|Hin]; [..|done].
    all: split; [tauto|]. all: split; try done; try (split; discriminate).
    all: unfold saturating_sub, saturating_mul in *; ulia. }
  destruct Hr as (Hr & Hs & Hl). apply list_elem_of_In in Hr. specialize (Hno _ Hr).
  destruct (decide (length = 0)); [by left|right].
  destruct (decide (start < p + PAGE_SIZE /\ p < start + length)) as [[Hx Hy]|]; [|lia].
  rewrite page_range_covers in Hno; [done|done|ulia|done|done|done|done].
Qed.

(** The pages of an allocator whose pool is usable avoid the kernel's memory. *)
Lemma owned_pages_apart aa ba ia b map lim k a p start length :
  boot_info_ok b -> is_u64 aa -> is_u64 ba -> is_u64 ia -> FRAME_ALLOCATOR k = Some a -> managed_ok a ->
  (forall i, i ∈ pool a -> usable_page (region_list map) (owned_ranges aa ba ia b)
                             (config_new (Z.min lim MAX_IDENTITY_BYTES)) (frame_addr a i)) ->
  p ∈ kernel_lent k ∪ kernel_spare k -> In (start, length) (kernel_memory aa ba ia b) ->
  length = 0 \/ p + PAGE_SIZE <= start \/ start + length <= p.
Proof.
  intros Hb Haa Hba Hia Ea [_ Hmax] Huse Hin Hown.
  unfold kernel_lent, kernel_spare in Hin. rewrite Ea, <- addresses_union in Hin.
  apply elem_addresses in Hin as (i & -> & Hi).
  assert (Hp : i ∈ pool a) by (pose proof (free_set_pool a); set_solver).
  destruct (Huse i Hp) as (_ & Hlo & _ & _ & Hno). pose proof Hp as [Hib _]%elem_pool.
  apply (kernel_memory_apart aa ba ia b (frame_addr a i)); [done|done|done|done| | |exact Hno|done].
  - cbn [managed_start config_new] in Hlo. unfold MIN_FREE_ADDR in Hlo. lia.
  - unfold frame_addr, PAGE_SIZE in *. lia.
Qed.

(** ** The global allocator *)

Lemma heap_alloc_null k size align :
  heap_len (KERNEL_HEAP k) = 0 \/ heap_base (KERNEL_HEAP k) = 0 -> heap_alloc k size align = Done (k, 0).
Proof.
  intros H. unfold heap_alloc.
  by replace ((heap_len (KERNEL_HEAP k) =? 0) || (heap_base (KERNEL_HEAP k) =? 0)) with true by lia.
Qed.

(** Writing a new arena of the same length over the heap. *)
Lemma heap_arena_written k l arena :
  len arena = heap_len (KERNEL_HEAP k) ->
  let k' := with_heap (with_phys k (copy_to (phys k) (heap_base (KERNEL_HEAP k)) arena))
              (mkHeapState l (heap_base (KERNEL_HEAP k)) (heap_len (KERNEL_HEAP k))) in
  heap_arena k' = arena /\ heap_region k' = heap_region k /\
  (forall a n, a + n <= heap_base (KERNEL_HEAP k) \/ heap_base (KERNEL_HEAP k) + heap_len (KERNEL_HEAP k) <= a ->
     same_on a n (phys k') (phys k)).
Proof.
  intros Hl k'. split; [|split; [done|]].
  - unfold heap_arena. cbn [KERNEL_HEAP k' with_heap heap_base heap_len phys with_phys].
    rewrite <- Hl. apply read_bytes_copy_to.
  - intros a n Ha. apply copy_to_same_on. rewrite Hl. lia.
Qed.

Lemma heap_ok_written k l arena bs :
  heap_inv l arena bs -> len arena = heap_len (KERNEL_HEAP k) ->
  0 < heap_base (KERNEL_HEAP k) -> 0 < heap_len (KERNEL_HEAP k) <= ISIZE_MAX ->
  heap_base (KERNEL_HEAP k) + heap_len (KERNEL_HEAP k) <= U64_MAX ->
  heap_ok (with_heap (with_phys k (copy_to (phys k) (heap_base (KERNEL_HEAP k)) arena))
             (mkHeapState l (heap_base (KERNEL_HEAP k)) (heap_len (KERNEL_HEAP k)))) bs.
Proof.
  intros Hinv Hl H1 H2 H3. destruct (heap_arena_written k l arena Hl) as (Har & _ & _).
  unfold heap_ok. rewrite Har. exact (conj Hinv (conj H1 (conj H2 H3))).
Qed.

Lemma sub_list_read_bytes m a n o k :
  0 <= o -> 0 <= k -> o + k <= n -> sub_list (read_bytes m a n) o k = read_bytes m (a + o) k.
Proof.
  intros Ho Hk Hle. apply list_eq. intros i. destruct (decide (i < Z.to_nat k)%nat).
  - rewrite sub_list_lookup by done. unfold read_bytes. rewrite !list_lookup_fmap.
    rewrite !lookup_seq_lt by lia. cbn. do 2 f_equal. lia.
  - rewrite !lookup_ge_None_2; [done|..].
    + unfold read_bytes. rewrite length_fmap, length_seq. lia.
    + unfold sub_list. rewrite length_take. lia.
Qed.

(** Releasing what [alloc] has just returned restores the heap. *)
Lemma heap_alloc_undone k bs size align l arena off :
  let base := heap_base (KERNEL_HEAP k) in let n := heap_len (KERNEL_HEAP k) in
  heap_ok k bs -> is_usize size -> is_usize align ->
  Heap.alloc (heap_list (KERNEL_HEAP k)) (heap_arena k) size align = Done (l, arena, Some off) ->
  0 <= off < n ->
  exists k', heap_dealloc (with_heap (with_phys k (copy_to (phys k) base arena)) (mkHeapState l base n)) (base + off) =
      Done k' /\ heap_ok k' bs.
Proof.
  intros base n (Hinv & Hb0 & Hn & Hb1) Hsz Hal E Hoff.
  assert (Hl : len arena = n) by (rewrite (alloc_len _ _ _ _ _ _ _ E); apply len_read_bytes; lia).
  destruct (heap_arena_written k l arena Hl) as (Har & _ & _). fold base n in Har.
  unfold heap_dealloc. cbn [KERNEL_HEAP with_heap heap_base heap_len heap_list].
  replace ((n =? 0) || (base =? 0) || (base + off =? 0)) with false by (unfold n, base in *; lia).
  replace (base + off <? base) with false by lia. rewrite add64_done by (unfold n, base; lia). cbn [exec_bind].
  destruct (alloc_dealloc_restores _ _ _ size align l arena off Hinv Hsz Hal E) as (arena2 & Ed & Hinv2).
  replace (base + n <=? base + off) with false by lia.
  rewrite sub64_done by (unfold n, base in *; lia). cbn [exec_bind]. replace (base + off - base) with off by lia.
  rewrite Har, Ed. cbn [exec_bind]. eexists. split; [done|].
  set (k1 := with_heap (with_phys k _) (mkHeapState l base n)).
  apply (heap_ok_written k1 (heap_list (KERNEL_HEAP k)) arena2 bs Hinv2); [|done..].
  rewrite (dealloc_len _ _ _ _ _ _ Ed). exact Hl.
Qed.

Lemma heap_alloc_ok k bs size align :
  heap_ok k bs -> is_usize size -> is_usize align ->
  let base := heap_base (KERNEL_HEAP k) in let n := heap_len (KERNEL_HEAP k) in
  exists k' p, heap_alloc k size align = Done (k', p) /\ heap_region k' = heap_region k /\
    (forall a c, a + c <= base \/ base + n <= a -> same_on a c (phys k') (phys k)) /\
    ((p = 0 /\ heap_ok k' bs /\
      (size = 0 \/ is_power_of_two align = false \/ MAX_ALIGN < align \/ none_fits 0 bs size align)) \/
     (exists bs' before after cap, base + HEADER_SIZE <= p /\ p + cap <= base + n /\ size <= cap /\
        (align | p - base) /\ heap_ok k' bs' /\
        live 0 bs = before ++ after /\ live 0 bs' = before ++ (p - base, cap) :: after /\
        (forall o c, (o, c) ∈ live 0 bs ->
           read_bytes (phys k') (base + o) c = read_bytes (phys k) (base + o) c) /\
        exists k'', heap_dealloc k' p = Done k'' /\ heap_ok k'' bs)).
Proof.
  intros (Hinv & Hb0 & Hn & Hb1) Hsz Hal base n. unfold heap_alloc. fold base n.
  replace ((n =? 0) || (base =? 0)) with false by (unfold n, base; lia).
  pose proof (heap_alloc_full _ _ _ size align Hinv Hsz Hal) as H.
  destruct (Heap.alloc (heap_list (KERNEL_HEAP k)) (heap_arena k) size align) as [[[l arena] [off|]]|] eqn:E;
    [..|done]; cbn [exec_bind].
  all: assert (Hl : len arena = n) by (rewrite (alloc_len _ _ _ _ _ _ _ E); apply len_read_bytes; lia).
  all: destruct (heap_arena_written k l arena Hl) as (Har & Hreg & Hout); fold base n in Har, Hreg, Hout.
  - destruct H as (Hdiv & bs' & pre & sz & post & cap & _ & _ & _ & Hinv' & Hcap & Hlv & Hlv' & Hkeep).
    assert (Hpos : 0 < size).
    { destruct (Z.eq_dec size 0) as [->|]; [discriminate E|unfold is_usize in Hsz; lia]. }
    assert (Hin : (off, cap) ∈ live 0 bs') by (rewrite Hlv'; apply elem_of_app; right; left).
    destruct (payloads_isolated l arena bs' off cap off [] Hinv' Hin) as (Hlo & Hhi & _);
      [lia|change (len []) with 0; ulia|apply List.Forall_nil|].
    rewrite Hl in Hhi. unfold HEADER_SIZE in *. unfold is_usize in Hsz.
    rewrite add64_done by (unfold base, n in *; lia). cbn [exec_bind].
    eexists _, _. split; [done|]. split; [exact Hreg|]. split; [exact Hout|]. right.
    exists bs', (live 0 pre), (live (span pre + sz) post), cap.
    replace (base + off - base) with off by lia.
    split; [lia|]. split; [lia|]. split; [done|]. split; [done|].
    assert (Hok' : heap_ok (with_heap (with_phys k (copy_to (phys k) base arena)) (mkHeapState l base n)) bs').
    { by apply heap_ok_written. }
    split; [exact Hok'|]. split; [done|]. split; [done|]. split.
    + intros o c Hoc. pose proof (Hkeep o c Hoc) as Hk.
      destruct (live_range _ _ _ _ _ _ (hs_tiles _ _ _ (hi_shape _ _ _ Hinv)) Hoc) as (Ho1 & Ho2 & Ho3).
      rewrite (hs_span _ _ _ (hi_shape _ _ _ Hinv)) in Ho2.
      pose proof (shape_len _ _ _ (hi_shape _ _ _ Hinv)) as (Hal1 & _).
      assert (Hln : len (heap_arena k) = n) by (apply len_read_bytes; unfold n; lia). unfold HEADER_SIZE in *.
      rewrite <- Har in Hk. unfold heap_arena in Hk. cbn [KERNEL_HEAP with_heap heap_base heap_len] in Hk.
      fold base n in Hk. rewrite !sub_list_read_bytes in Hk by lia. exact Hk.
    + apply (heap_alloc_undone k bs size align l arena off (conj Hinv (conj Hb0 (conj Hn Hb1)))); [done|done|done|lia].
  - destruct H as (-> & -> & H). eexists _, _. split; [done|]. split; [exact Hreg|]. split; [exact Hout|]. left.
    split; [done|]. split; [|done]. by apply heap_ok_written.
Qed.

(** A pointer that is null or not inside the heap is ignored. *)
Lemma heap_dealloc_foreign k p :
  heap_base (KERNEL_HEAP k) + heap_len (KERNEL_HEAP k) <= U64_MAX ->
  p = 0 \/ p < heap_base (KERNEL_HEAP k) \/ heap_base (KERNEL_HEAP k) + heap_len (KERNEL_HEAP k) <= p ->
  heap_dealloc k p = Done k.
Proof.
  intros Hb Hp. unfold heap_dealloc. case_match; [done|]. case_match; [done|].
  rewrite add64_done by done. cbn [exec_bind].
  by replace (heap_base (KERNEL_HEAP k) + heap_len (KERNEL_HEAP k) <=? p) with true by lia.
Qed.

(** ** An example machine

    16 MiB of conventional memory, the BootInfo page at 0x3000, the memory map
    at 0x4000, the kernel from 2 MiB on with its page tables and bitmap. *)
Definition demo_info : BootInfo :=
  mkBootInfo BOOT_INFO_MAGIC 1 120 0x4000 1 40 1 0xE0000 0x200000 0x100000 0x420000 0x10000 0xF4 0 0 0 0 0.
Definition demo_desc : descriptor := mkDesc 7 0 0x1000 (replicate 4 0) (replicate 8 0) (replicate 8 0).
Definition demo_phys : memory :=
  copy_to (copy_to (fun _ => 0) 0x3000 (encode demo_info)) 0x4000 (encode_descriptor demo_desc).
Definition demo_kernel : Kernel :=
  mkKernel demo_phys 0x80000011 0x1000 0x620 0xD00 (replicate (Z.to_nat FRAME_BITMAP_BYTES) 0) None 0
           (mkHeapState Heap.empty 0 0).
Definition demo_boot_map : MemoryMap := mkMap (encode_descriptor demo_desc) 1 40 1.

Lemma demo_mem_ok : mem_ok demo_phys.
Proof.
  apply copy_to_ok; [by apply bytes_ok_b|]. apply copy_to_ok; [by apply bytes_ok_b|].
  intros a. split; discriminate.
Qed.

Lemma demo_info_ok : boot_info_ok demo_info.
Proof. repeat constructor; vm_compute; congruence. Qed.

Lemma demo_parse : boot_info_memory_map demo_phys demo_info = Done (Ok demo_boot_map).
Proof. vm_compute. reflexivity. Qed.

Lemma demo_boot_regions : region_list demo_boot_map = [mkRegion Conventional 0 0x1000].
Proof. vm_compute. reflexivity. Qed.

(** ** Theorems *)

(** What [install] is called with: the BootInfo structure in memory, accepted
    before, outside the page table arena, and inside a RAM region of the map
    below the limit of the tables that are built. *)
Record install_input (aa ia : Z) (k : Kernel) (b : BootInfo) : Prop := mkInstallInput {
  ii_mem : mem_ok (phys k);
  ii_info : boot_info_ok b;
  ii_arena : 0 <= aa /\ aa + ARENA_BYTES <= 2 ^ 52;
  ii_here : b = decode (read_bytes (phys k) ia 120);
  ii_valid : BootInfo.validate b = Ok tt;
  ii_apart : ia + 16 <= aa \/ aa + ARENA_BYTES <= ia;
  ii_ram : forall map arena t,
    boot_info_memory_map (phys k) b = Done (Ok map) ->
    build aa (read_bytes (phys k) aa ARENA_BYTES) map M2 = Done (arena, Ok t) ->
    exists r, r ∈ region_list map /\ is_ram (kind r) = true /\ base r <= ia /\ ia + 16 <= end_of r /\
      PAGE_SIZE <= ia /\ ia + 16 <= pt_limit t
}.

(** C8 [install] always finishes, and its result is the first of its four
    checks that fails: the processor mode, an arena outside the kernel image,
    an unusable memory map, a failed build, each reported with its own reason
    and with [CR3] untouched.  Only when all four pass does it succeed, and
    then [CR3] holds the new root, memory outside the arena is unchanged, every
    RAM byte below the limit is read through the new tables at its own address,
    page 0 faults, and the BootInfo header is still read as it was, so
    [BootInfoLostAfterSwitch] is never reported. *)
Theorem install_switches_safely aa ia k b :
  install_input aa ia k b ->
  exists r k', install aa ia k b = Done (r, k') /\ install_result aa ia k b r k'.
Proof. intros []. by apply install_outcome. Qed.

Lemma demo_install_input : install_input 0x280000 0x3000 demo_kernel demo_info.
Proof.
  constructor; [apply demo_mem_ok|apply demo_info_ok|split; discriminate|vm_compute; reflexivity|reflexivity
               |left; discriminate|].
  intros map arena t Hp Hb. cbn [phys demo_kernel] in Hp. rewrite demo_parse in Hp. injection Hp as <-.
  exists (mkRegion Conventional 0 0x1000). rewrite demo_boot_regions. split; [left|].
  assert (Hin : build_input 0x280000 (read_bytes (phys demo_kernel) 0x280000 ARENA_BYTES) demo_boot_map M2).
  { apply (install_build_input 0x280000 demo_kernel demo_info); [apply demo_mem_ok|apply demo_info_ok
      |split; discriminate|apply demo_parse]. }
  destruct (build_ok_facts _ _ _ _ _ _ Hin Hb) as (_ & _ & _ & _ & _ & _ & _ & (top & Htop & ->) & _).
  split; [reflexivity|]. split; [discriminate|]. split; [discriminate|]. split; [discriminate|].
  assert (Ht : top = 0x1000000).
  { rewrite demo_boot_regions in Htop. unfold is_ram_top in Htop. destruct Htop as [(r & Hr & _ & <-) _].
    apply list_elem_of_singleton in Hr. by subst r. }
  rewrite Ht. discriminate.
Qed.

Lemma install_switches_safely_witness :
  install_input 0x280000 0x3000 demo_kernel demo_info /\
  exists t k', install 0x280000 0x3000 demo_kernel demo_info = Done (Ok t, k') /\ cr3 k' = 0x280000.
Proof.
  split; [apply demo_install_input|].
  destruct (install_switches_safely 0x280000 0x3000 demo_kernel demo_info demo_install_input) as (r & k' & H & Hr).
  assert (Hmode : check_cpu_mode demo_kernel = Ok tt) by reflexivity.
  assert (Hin : arena_in_kernel 0x280000 demo_info) by (split; [discriminate|reflexivity]).
  destruct r as [t|[d|a|e|e| | | |]]; cbn [install_result] in Hr; try (destruct Hr; fail).
  - exists t, k'. split; [exact H|]. destruct Hr as (_ & _ & map & arena & _ & _ & (Hc & _) & _). exact Hc.
  - destruct Hr as [_ Hd]. rewrite Hmode in Hd. discriminate Hd.
  - destruct Hr as (_ & _ & _ & Hno). destruct (Hno Hin).
  - destruct Hr as (_ & _ & _ & Hp). cbn [phys demo_kernel] in Hp. rewrite demo_parse in Hp. discriminate Hp.
  - destruct Hr as (_ & _ & _ & _ & map & arena & Hp & Hb). cbn [phys demo_kernel] in Hp. rewrite demo_parse in Hp.
    injection Hp as <-.
    pose proof (install_build_input 0x280000 demo_kernel demo_info demo_mem_ok demo_info_ok ltac:(split; discriminate)
                  demo_boot_map demo_parse) as (Ha & Hn & Hbs & Hm & _).
    destruct (build_eq 0x280000 _ demo_boot_map M2 (conj Ha Hn) Hbs Hm) as (top & arena' & Hrt & _ & Hbuild & _);
      [discriminate|discriminate|].
    replace top with (Some 0x1000000) in Hbuild by (vm_compute in Hrt; injection Hrt as <-; reflexivity).
    rewrite len_read_bytes in Hbuild by discriminate. cbn [phys demo_kernel] in Hb, Hbuild. rewrite Hbuild in Hb. discriminate Hb.
Defined.

(** What [init_allocators] is called with: a parsed memory map whose regions
    are page-aligned and whose conventional regions do not overlap, and the
    static bitmap. *)
Record allocators_input (aa ba ia : Z) (k : Kernel) (b : BootInfo) (map : MemoryMap) : Prop := mkAllocatorsInput {
  ai_mem : mem_ok (phys k);
  ai_info : boot_info_ok b;
  ai_addresses : is_u64 aa /\ is_u64 ba /\ is_u64 ia;
  ai_map : boot_info_memory_map (phys k) b = Done (Ok map);
  ai_aligned : Forall Frame.page_aligned (region_list map);
  ai_apart : ForallOrdPairs region_apart (region_list map);
  ai_bitmap : bytes_ok (FRAME_BITMAP k) /\ len (FRAME_BITMAP k) = FRAME_BITMAP_BYTES
}.

(** C3 [init_allocators] always finishes.  It fails only when the managed range
    is empty, no page is usable, or no 256 usable pages are contiguous.  When
    it succeeds the heap is one free block in lent pages, the counter kept for
    the self-check is exact, and whatever allocations and releases follow, with
    whatever arguments, none panics and no page that is lent or could be lent
    meets the kernel image, its stack, the BootInfo page, the memory map, the
    page tables or the bitmap. *)
Theorem kernel_memory_never_handed_out aa ba ia k b map lim :
  allocators_input aa ba ia k b map -> is_u64 lim ->
  exists r k', init_allocators aa ba ia k b lim = Done (r, k') /\
    match r with
    | Ok layout => allocators_ready aa ba ia b map lim layout k' /\
        forall ops, Forall mem_op_ok ops ->
          exists k'', mem_run ops k' = Done k'' /\
            forall p start length, p ∈ kernel_lent k'' ∪ kernel_spare k'' ->
              In (start, length) (kernel_memory aa ba ia b) ->
              length = 0 \/ p + PAGE_SIZE <= start \/ start + length <= p
    | Err (Frames (EmptyRange _ _)) => k' = k /\ lim < MIN_FREE_ADDR + PAGE_SIZE
    | Err (Frames NoUsableMemory) => k' = k /\ forall p,
        ~ usable_page (region_list map) (owned_ranges aa ba ia b) (config_new (Z.min lim MAX_IDENTITY_BYTES)) p
    | Err (HeapRegionUnavailable n) => n = 256 /\ forall p, ~ (forall j, 0 <= j < 256 ->
        usable_page (region_list map) (owned_ranges aa ba ia b) (config_new (Z.min lim MAX_IDENTITY_BYTES))
          (p + j * PAGE_SIZE))
    | Err _ => False
    end.
Proof.
  intros [Hm Hb (Haa & Hba & Hia) Hp Hal Hap [Hbt Hbl]] Hlim.
  destruct (init_allocators_outcome aa ba ia k b map Hm Hb Haa Hba Hia Hp Hal Hap Hbt Hbl lim Hlim)
    as (r & k' & E & Hr). exists r, k'. split; [exact E|]. destruct r as [layout|e]; [|exact Hr].
  split; [exact Hr|]. destruct Hr as (a & region & Ea & Hinv & Hman & _ & Huse & _).
  intros ops Hops. destruct (mem_run_pool ops k' a Ea Hinv Hops) as (k'' & a'' & E'' & Ea'' & _ & Hs & Hpool).
  exists k''. split; [exact E''|]. intros p start length Hin Hown.
  apply (owned_pages_apart aa ba ia b map lim k'' a''); [done..|by apply (managed_same a)| |done|done].
  intros i Hi. rewrite (same_config_addr a a'') by done. apply Huse. by rewrite <- Hpool.
Qed.

Lemma demo_allocators_input : allocators_input 0x280000 0x290000 0x3000 demo_kernel demo_info demo_boot_map.
Proof.
  constructor; [apply demo_mem_ok|apply demo_info_ok|split_and!; split; discriminate|apply demo_parse|..].
  - rewrite demo_boot_regions. apply Forall_singleton. by exists 0.
  - rewrite demo_boot_regions. constructor; constructor.
  - split; [apply Forall_replicate; split; discriminate|]. cbn [FRAME_BITMAP demo_kernel].
    rewrite len_replicate. apply Z2Nat.id. discriminate.
Qed.

Lemma kernel_memory_never_handed_out_witness :
  allocators_input 0x280000 0x290000 0x3000 demo_kernel demo_info demo_boot_map /\
  exists r k', init_allocators 0x280000 0x290000 0x3000 demo_kernel demo_info 0x1000000 = Done (r, k').
Proof.
  split; [apply demo_allocators_input|].
  destruct (kernel_memory_never_handed_out 0x280000 0x290000 0x3000 demo_kernel demo_info demo_boot_map 0x1000000
    demo_allocators_input) as (r & k' & H & _); [split; discriminate|].
  exists r, k'. exact H.
Defined.

(** On every sound allocator that records the kernel's ranges, has two free
    frames and lost exactly the heap's 256 since it was built, the frame
    self-check passes without a panic and leaves the same frames free and the
    same pages lent. *)
Lemma frame_self_check_passes aa ba ia k b a :
  FRAME_ALLOCATOR k = Some a -> frame_inv a -> records_owned aa ba ia a b ->
  2 <= Frame.free_frames a -> FREE_FRAMES_AFTER_INIT k = Frame.free_frames a + HEAP_SIZE / PAGE_SIZE ->
  exists a', frame_self_check aa ba ia k b = Done (Ok tt, with_allocator k a') /\
    frame_inv a' /\ pool a' = pool a /\ free_set a' = free_set a /\
    kernel_lent (with_allocator k a') = kernel_lent k.
Proof.
  intros Ea Hinv Hrec H2 Hb.
  destruct (frame_self_check_eq aa ba ia k b a Ea Hinv Hrec H2 Hb) as (a' & E & Hinv' & Hs & Hp & Hf).
  exists a'. split_and!; try done. unfold kernel_lent. rewrite Ea. cbn [FRAME_ALLOCATOR with_allocator].
  by rewrite (addresses_same a a'), Hp, Hf.
Qed.

(** 16 pages from 1 MiB on, away from the ranges of [demo_info]. *)
Definition demo_boot_alloc : FrameAllocator :=
  match Frame.init demo_bitmap demo_map (owned_ranges 0x280000 0x290000 0x3000 demo_info) demo_config with
  | Done (Ok a) => a
  | _ => blank demo_bitmap (owned_ranges 0x280000 0x290000 0x3000 demo_info) demo_config
  end.

Lemma demo_boot_alloc_ok : frame_inv demo_boot_alloc /\ Frame.free_frames demo_boot_alloc = 16.
Proof.
  destruct (init_ok demo_bitmap demo_map (owned_ranges 0x280000 0x290000 0x3000 demo_info) demo_config)
    as (a & Em & E & Hinv & _).
  - by apply bytes_ok_b.
  - split; vm_compute; split; discriminate.
  - apply demo_map_ok.
  - rewrite demo_regions. apply Forall_singleton. exists 256. vm_compute. reflexivity.
  - rewrite demo_regions. constructor; constructor.
  - reflexivity.
  - assert (Ea : a = demo_boot_alloc).
    { vm_compute in Em. injection Em as <-. vm_compute. reflexivity. }
    rewrite Ea in Hinv. split; [exact Hinv|]. vm_compute. reflexivity.
Qed.

Lemma frame_self_check_passes_witness :
  exists a', frame_self_check 0x280000 0x290000 0x3000
      (with_allocator (with_free_after_init demo_kernel 272) demo_boot_alloc) demo_info =
    Done (Ok tt, with_allocator (with_allocator (with_free_after_init demo_kernel 272) demo_boot_alloc) a').
Proof.
  destruct (frame_self_check_passes 0x280000 0x290000 0x3000
      (with_allocator (with_free_after_init demo_kernel 272) demo_boot_alloc) demo_info demo_boot_alloc)
    as (a' & H & _).
  - reflexivity.
  - apply demo_boot_alloc_ok.
  - split; [vm_compute; reflexivity|]. apply owned_shape; [apply demo_info_ok|split; discriminate..].
  - rewrite (proj2 demo_boot_alloc_ok). discriminate.
  - rewrite (proj2 demo_boot_alloc_ok). reflexivity.
  - exists a'. exact H.
Defined.

(** C28 The global allocator: on a sound heap [alloc] never panics; a null answer
    leaves the heap alone and means the request is empty, its alignment is not
    supported or no block can take it; otherwise the block lies inside the heap
    behind its header, has room for the request at the alignment asked for
    (counted from the page-aligned heap start), is new among the blocks in use,
    which keep their bytes, no byte outside the heap changes, and releasing the
    pointer restores the tiling; null and foreign pointers are ignored by
    [dealloc]. *)
Theorem global_allocator_sound k bs size align :
  heap_ok k bs -> is_usize size -> is_usize align ->
  let base := heap_base (KERNEL_HEAP k) in let n := heap_len (KERNEL_HEAP k) in
  (exists k' p, heap_alloc k size align = Done (k', p) /\ heap_region k' = heap_region k /\
    (forall a c, a + c <= base \/ base + n <= a -> same_on a c (phys k') (phys k)) /\
    ((p = 0 /\ heap_ok k' bs /\
      (size = 0 \/ is_power_of_two align = false \/ MAX_ALIGN < align \/ none_fits 0 bs size align)) \/
     (exists bs' before after cap, base + HEADER_SIZE <= p /\ p + cap <= base + n /\ size <= cap /\
        (align | p - base) /\ heap_ok k' bs' /\
        live 0 bs = before ++ after /\ live 0 bs' = before ++ (p - base, cap) :: after /\
        (forall o c, (o, c) ∈ live 0 bs ->
           read_bytes (phys k') (base + o) c = read_bytes (phys k) (base + o) c) /\
        exists k'', heap_dealloc k' p = Done k'' /\ heap_ok k'' bs))) /\
  (forall p, p = 0 \/ p < base \/ base + n <= p -> heap_dealloc k p = Done k).
Proof.
  intros Hk Hs Ha base n. split; [by apply heap_alloc_ok|].
  intros p Hp. apply heap_dealloc_foreign; [apply Hk|exact Hp].
Qed.

(** A heap of 256 bytes at 1 MiB. *)
Definition demo_heap_kernel : Kernel :=
  with_heap (with_phys demo_kernel (copy_to demo_phys 0x100000 (snd demo_heap)))
            (mkHeapState (fst demo_heap) 0x100000 256).

Lemma demo_heap_kernel_ok : heap_ok demo_heap_kernel [(256, true)].
Proof.
  split; [|split_and!; (reflexivity || discriminate)].
  assert (E : heap_arena demo_heap_kernel = snd demo_heap).
  { unfold heap_arena. cbn [KERNEL_HEAP demo_heap_kernel with_heap heap_base heap_len phys with_phys].
    rewrite <- (read_bytes_copy_to demo_phys 0x100000 (snd demo_heap)) at 2. reflexivity. }
  rewrite E. exact demo_heap_inv.
Qed.

Lemma global_allocator_sound_witness :
  exists k' p, heap_alloc demo_heap_kernel 20 16 = Done (k', p) /\ heap_dealloc demo_heap_kernel 0x90000 = Done demo_heap_kernel.
Proof.
  destruct (global_allocator_sound demo_heap_kernel [(256, true)] 20 16 demo_heap_kernel_ok)
    as ((k' & p & H & _) & Hf); [split; discriminate|split; discriminate|].
  exists k', p. split; [exact H|]. apply Hf. right. left. reflexivity.
Defined.
