(* ===== verification/Threads.v ===== *)
(** * Threads and context switches (thread.rs, sched.rs, user.rs)

    The machine side of threads: the slot table, the construction of a new
    thread's stack and first frame, the interrupt handler that reaps, decides
    and switches, and the release of a stack.  The state is the whole of what
    the handler touches: the frame allocator and physical memory (through the
    interface [StackMemory]), the scheduler, the slots, the TSS, the live
    FXSAVE state, the ports, and the lines passed to the logger.

    The theorems: a created thread starts in exactly the intended context; an
    interrupt that switches stores the interrupted context and resumes exactly
    the context, floating point state included, that the next thread was saved
    in; the stacks of live threads are apart, lent by the allocator, and given
    back when their thread has been reaped.  In the runs of the machine a
    creation is two steps, the registration and the stack, with anything in
    between; [pool_with] records the threads that are ready without a stack,
    and the runs are those in which no interrupt chooses one of them.

    [critical()] around the slot table does not appear: [Lock] shows that it
    restores the interrupt flag, and the handler runs with interrupts off. *)
From Stdlib Require Import ZArith Lia Bool Relations.
From stdpp Require Import base tactics option list numbers gmap sets fin_sets.
From S2P Require Import Prelude MemoryMap Sched Frame Paging PhysMem Ports Descriptors Interrupts KMemory.

#[local] Open Scope Z_scope.

(** ** Constants and data *)
Definition THREAD_STACK_PAGES : Z := 4.
Definition THREAD_STACK_SIZE : Z := THREAD_STACK_PAGES * 4096.
Definition STACK_CANARY : Z := 0x5061_7261_6E75_6B02.
Definition PREEMPTION_ENABLED : bool := true.

Record Context : Type := mkContext { ctx_rsp : Z; ctx_thread : Z; ctx_pad : Z }.

Record Slot : Type := mkSlot {
  context : Context;
  stack : option PhysRange;
  canary_address : Z;
  fx : FxSaveArea;
  entry : Z;
  user : bool;
  kernel_stack_top : Z
}.

Definition new_slot : Slot := mkSlot (mkContext 0 0 0) None 0 fx_zeroed 0 false 0.

Inductive CreateError : Type := NoFreeSlot | NoStack.

(** The lines the handler passes to the logger, without their formatting. *)
Inductive Message : Type :=
| CanaryDestroyed (id : Z)
| ExitFailed (e : SchedError)
| SpuriousIrq7
| UnexpectedIrq7
| UnexpectedVector (vector irq : Z)
| ServiceReached (cs rax rdi : Z)
| SyscallFromCpl (cpl : Z)
| ServiceMapped (paddr va pages stack entry tables : Z)
| ServiceStarted (id : Z).

(** The statics of user.rs. *)
Record Service : Type := mkService {
  SERVICE : Z;
  REACHED_CPL3 : bool;
  SYSCALL_CS : Z;
  TICKS_BEFORE : Z
}.

(** ** What the threads need of memory

    A source of frames whose pages can be written through the identity map. *)
Class StackMemory (K : Type) `{FrameSource K} : Type := {
  ram : K -> memory;
  set_ram : K -> memory -> K;
  ram_set_ram : forall k m, ram (set_ram k m) = m;
  set_ram_source_ok : forall k m, source_ok k -> source_ok (set_ram k m);
  set_ram_lent : forall k m, lent (set_ram k m) = lent k;
  set_ram_spare : forall k m, spare (set_ram k m) = spare k;
  take_frames_ram : forall k n k' r, take_frames k n = Done (k', r) -> ram k' = ram k;
  give_frames_ram : forall k p k' r, give_frames k p = Done (k', r) -> ram k' = ram k
}.

Record System (K D : Type) : Type := mkSystem {
  mem : K;
  sched : Scheduler;
  SLOTS : list Slot;
  CANARY_FAILURES : Z;
  segments : Gdt.machine;
  xmm : FxSaveArea;
  ports : D;
  lines : list (Logging.Level * Message);
  service : Service
}.
Arguments mkSystem {K D}.
Arguments mem {K D}.
Arguments sched {K D}.
Arguments SLOTS {K D}.
Arguments CANARY_FAILURES {K D}.
Arguments segments {K D}.
Arguments xmm {K D}.
Arguments ports {K D}.
Arguments lines {K D}.
Arguments service {K D}.

Section Operations.
  Context {K D : Type} `{StackMemory K} `{PortIO D}.

(** The address of [thread_trampoline]. *)
  Variable trampoline : Z.

Definition with_mem (s : System K D) (k : K) : System K D :=
  mkSystem k (sched s) (SLOTS s) (CANARY_FAILURES s) (segments s) (xmm s) (ports s) (lines s) (service s).
Definition with_sched (s : System K D) (x : Scheduler) : System K D :=
  mkSystem (mem s) x (SLOTS s) (CANARY_FAILURES s) (segments s) (xmm s) (ports s) (lines s) (service s).
Definition with_slots (s : System K D) (l : list Slot) : System K D :=
  mkSystem (mem s) (sched s) l (CANARY_FAILURES s) (segments s) (xmm s) (ports s) (lines s) (service s).
Definition with_canary_failures (s : System K D) (n : Z) : System K D :=
  mkSystem (mem s) (sched s) (SLOTS s) n (segments s) (xmm s) (ports s) (lines s) (service s).
Definition with_segments (s : System K D) (g : Gdt.machine) : System K D :=
  mkSystem (mem s) (sched s) (SLOTS s) (CANARY_FAILURES s) g (xmm s) (ports s) (lines s) (service s).
Definition with_xmm (s : System K D) (x : FxSaveArea) : System K D :=
  mkSystem (mem s) (sched s) (SLOTS s) (CANARY_FAILURES s) (segments s) x (ports s) (lines s) (service s).
Definition with_ports (s : System K D) (d : D) : System K D :=
  mkSystem (mem s) (sched s) (SLOTS s) (CANARY_FAILURES s) (segments s) (xmm s) d (lines s) (service s).
Definition with_service (s : System K D) (v : Service) : System K D :=
  mkSystem (mem s) (sched s) (SLOTS s) (CANARY_FAILURES s) (segments s) (xmm s) (ports s) (lines s) v.
Definition log (s : System K D) (level : Logging.Level) (line : Message) : System K D :=
  mkSystem (mem s) (sched s) (SLOTS s) (CANARY_FAILURES s) (segments s) (xmm s) (ports s)
           (lines s ++ [(level, line)]) (service s).
Definition with_ram (s : System K D) (m : memory) : System K D := with_mem s (set_ram (mem s) m).
Definition set_slot (s : System K D) (id : Z) (x : Slot) : exec (System K D) :=
  let! l := set_index (SLOTS s) id x in Done (with_slots s l).

(** ** Creating threads (thread.rs) *)

(** The stores of [prepare_stack] through the frame pointer, in order; the
    numbers are the offsets of the fields of [IrqFrame]. *)
Definition write_kernel_frame (m : memory) (f entry id top : Z) : memory :=
  let m := write_bytes m f 0 size_of_IrqFrame in
  let m := write64 m (f + 64) entry in
  let m := write64 m (f + 72) id in
  let m := write64 m (f + 120) Idt.YIELD_VECTOR in
  let m := write64 m (f + 136) trampoline in
  let m := write64 m (f + 144) Gdt.KERNEL_CODE in
  let m := write64 m (f + 168) Gdt.KERNEL_DATA in
  let m := write64 m (f + 152) 0x202 in
  write64 m (f + 160) (top - 8).

Definition write_user_frame (m : memory) (f entry_va user_stack_top : Z) : memory :=
  let m := write_bytes m f 0 size_of_IrqFrame in
  let m := write64 m (f + 136) entry_va in
  let m := write64 m (f + 160) user_stack_top in
  let m := write64 m (f + 144) (Z.lor Gdt.USER_CODE 3) in
  let m := write64 m (f + 168) (Z.lor Gdt.USER_DATA 3) in
  let m := write64 m (f + 152) 0x202 in
  write64 m (f + 120) Idt.YIELD_VECTOR.

Definition prepare_stack (s : System K D) (id entry : Z) (st : PhysRange) : exec (System K D) :=
  if negb (range_len st =? THREAD_STACK_SIZE) then Panic else
  let base := range_start st in
  let! top := range_end st in
  let m := write64 (ram (mem s)) base STACK_CANARY in
  let! f := sub64 top size_of_IrqFrame in
  if negb (base + 8 <? f) then Panic else
  let s := with_ram s (write_kernel_frame m f entry id top) in
  let! area := fx_default_state in
  set_slot s id (mkSlot (mkContext f id 0) (Some st) base area entry false top).

Definition prepare_user_frame (s : System K D) (id entry_va user_stack_top : Z) (st : PhysRange) :
    exec (System K D) :=
  let base := range_start st in
  let! top := range_end st in
  let m := write64 (ram (mem s)) base STACK_CANARY in
  let! f := sub64 top size_of_IrqFrame in
  let s := with_ram s (write_user_frame m f entry_va user_stack_top) in
  let! area := fx_default_state in
  set_slot s id (mkSlot (mkContext f id 0) (Some st) base area entry_va true top).

Definition create_with_id (s : System K D) (id entry : Z) : exec (System K D * Result Z CreateError) :=
  let! (k, r) := take_frames (mem s) THREAD_STACK_PAGES in
  let s := with_mem s k in
  match r with
  | None => Done (s, Err NoStack)
  | Some st =>
      if negb (id <? MAX_THREADS) then Panic else
      let! s := prepare_stack s id entry st in
      Done (s, Ok id)
  end.

Definition create (s : System K D) (entry : Z) : exec (System K D * Result Z CreateError) :=
  let! (x, r) := Sched.create (sched s) in
  let s := with_sched s x in
  match r with
  | Err _ => Done (s, Err NoFreeSlot)
  | Ok id => create_with_id s id entry
  end.

Definition create_idle (s : System K D) (entry : Z) : exec (System K D * Result Z CreateError) :=
  let! (x, r) := register_idle_any (sched s) in
  let s := with_sched s x in
  match r with
  | Err _ => Done (s, Err NoFreeSlot)
  | Ok id => create_with_id s id entry
  end.

Definition create_user (s : System K D) (entry_va user_stack_top : Z) :
    exec (System K D * Result Z CreateError) :=
  let! (x, r) := Sched.create (sched s) in
  let s := with_sched s x in
  match r with
  | Err _ => Done (s, Err NoFreeSlot)
  | Ok id =>
      let! (k, r) := take_frames (mem s) THREAD_STACK_PAGES in
      let s := with_mem s k in
      match r with
      | None => Done (s, Err NoStack)
      | Some st =>
          let! s := prepare_user_frame s id entry_va user_stack_top st in
          Done (s, Ok id)
      end
  end.

Definition is_user (s : System K D) (id : Z) : exec bool :=
  let! x := index (SLOTS s) id in Done (user x).

Definition stack_top_of (s : System K D) (id : Z) : exec Z :=
  let! x := index (SLOTS s) id in Done (kernel_stack_top x).

(** ** Releasing threads *)
Definition canary_ok (s : System K D) (id : Z) : exec bool :=
  let! x := index (SLOTS s) id in
  if canary_address x =? 0 then Done true
  else Done (read64 (ram (mem s)) (canary_address x) =? STACK_CANARY).

Definition release (s : System K D) (id : Z) : exec (System K D) :=
  let! x := index (SLOTS s) id in
  let taken := stack x in
  let! s := set_slot s id (mkSlot (context x) None (canary_address x) (fx x) (entry x) (user x) (kernel_stack_top x)) in
  let! s := (match taken with
             | Some st => let! (k, _) := give_frames (mem s) st in Done (with_mem s k)
             | None => Done s
             end) in
  let! x := index (SLOTS s) id in
  set_slot s id (mkSlot (mkContext 0 (ctx_thread (context x)) (ctx_pad (context x))) (stack x) 0 (fx x) 0 false 0).

(** ** The interrupt handler (sched.rs) *)

(** [while let Some(id) = take_reapable()]. *)
Fixpoint reap_loop (fuel : nat) (s : System K D) : exec (System K D) :=
  let! (x, r) := take_reapable (sched s) in
  let s := with_sched s x in
  match r with
  | None => Done s
  | Some id =>
      match fuel with
      | O => Panic
      | S fuel =>
          let! ok := canary_ok s id in
          let s := if ok then s
                   else log (with_canary_failures s ((CANARY_FAILURES s + 1) mod 2 ^ 64)) Logging.Error
                            (CanaryDestroyed id) in
          let! s := release s id in
          reap_loop fuel s
      end
  end.

Definition reap_exited (s : System K D) : exec (System K D) := reap_loop (Z.to_nat MAX_THREADS) s.

(** The registers saved and restored around the switch: the slot of the thread
    switched out takes the frame and the live FXSAVE state. *)
Definition switch_to (s : System K D) (from to frame : Z) : exec (System K D * Z) :=
  if negb ((from <? MAX_THREADS) && (to <? MAX_THREADS)) then Panic else
  let! x := index (SLOTS s) from in
  let! s := set_slot s from (mkSlot (mkContext frame (ctx_thread (context x)) (ctx_pad (context x))) (stack x)
                               (canary_address x) (fx x) (entry x) (user x) (kernel_stack_top x)) in
  let! u := is_user s to in
  let! s := (if u then let! top := stack_top_of s to in
                       Done (with_segments s (Gdt.set_rsp0 (segments s) top))
             else Done s) in
  let! x := index (SLOTS s) from in
  let! s := set_slot s from (mkSlot (context x) (stack x) (canary_address x) (xmm s) (entry x) (user x)
                               (kernel_stack_top x)) in
  let! y := index (SLOTS s) to in
  Done (with_xmm s (fx y), ctx_rsp (context y)).

Definition exit_thread (s : System K D) : exec (System K D * Decision) :=
  let! (x, r) := exit_current (sched s) in
  let s := with_sched s x in
  match r with
  | Ok d => Done (s, d)
  | Err e => Done (log s Logging.Error (ExitFailed e), Keep)
  end.

Definition on_syscall (s : System K D) (frame : IrqFrame) : exec (System K D * Decision) :=
  let s := with_service s (mkService (SERVICE (service s)) true (f_cs frame) (TICKS_BEFORE (service s))) in
  let s := log s Logging.Info (ServiceReached (f_cs frame) (f_rax frame) (f_rdi frame)) in
  let s := if negb (Z.land (f_cs frame) 3 =? 3)
           then log s Logging.Error (SyscallFromCpl (Z.land (f_cs frame) 3)) else s in
  exit_thread s.

(** The chain of tests on the vector. *)
Definition decide_vector (s : System K D) (vector frame : Z) : exec (System K D * Decision) :=
  if vector =? Pic.TIMER_VECTOR then
    let! (x, d) := on_tick (sched s) PREEMPTION_ENABLED in
    let s := with_sched s x in
    Done (with_ports s (Pic.eoi (ports s) Pic.TIMER_IRQ), d)
  else if vector =? Idt.YIELD_VECTOR then
    let! (x, d) := yield_current (sched s) in Done (with_sched s x, d)
  else if vector =? Idt.EXIT_VECTOR then exit_thread s
  else if vector =? Idt.SYSCALL_VECTOR then on_syscall s (irq_frame_at (ram (mem s)) frame)
  else if vector =? Pic.SPURIOUS_IRQ7_VECTOR then
    let (spurious, d) := Pic.handle_spurious_irq7 (ports s) in
    let s := with_ports s d in
    Done (log s Logging.Error (if spurious then SpuriousIrq7 else UnexpectedIrq7), Keep)
  else
    let irq := Z.land ((vector - Pic.PIC1_OFFSET) mod 256) 0x0F in
    let s := log s Logging.Error (UnexpectedVector vector irq) in
    let! d := Pic.mask (ports s) irq in
    Done (with_ports s (Pic.eoi d irq), Keep).

Definition irq_handler (s : System K D) (frame : Z) : exec (System K D * Z) :=
  let! s := reap_exited s in
  let vector := f_vector (irq_frame_at (ram (mem s)) frame) mod 256 in
  let! (s, decision) := decide_vector s vector frame in
  match decision with
  | Keep => Done (s, 0)
  | Switch from to => switch_to s from to frame
  end.

End Operations.

(** ** Bounded waiting (sched.rs)

    [poll] is one evaluation of the predicate: what it answers and the state
    the machine is in when it has. *)
Section Waiting.
  Context {S : Type}.

Fixpoint wait_loop (poll : S -> bool * S) (fuel : nat) (s : S) : bool * S :=
  let (ok, s) := poll s in
  if ok then (true, s)
  else match fuel with
       | O => (false, s)
       | Datatypes.S fuel => wait_loop poll fuel s
       end.

Definition wait_until (poll : S -> bool * S) (budget : Z) (s : S) : bool * S :=
  wait_loop poll (Z.to_nat budget) s.

Definition SPIN_BUDGET : Z := 200_000_000.

(** [read] is one call of [ticks()]. *)
Fixpoint ticks_loop (read : S -> Z * S) (wanted : Z) (fuel : nat) (s : S) : option Z * S :=
  let (t, s) := read s in
  if wanted <=? t then (Some t, s)
  else match fuel with
       | O => (None, s)
       | Datatypes.S fuel => ticks_loop read wanted fuel s
       end.

Definition wait_for_ticks (read : S -> Z * S) (wanted : Z) (s : S) : option Z * S :=
  ticks_loop read wanted (Z.to_nat SPIN_BUDGET) s.

End Waiting.

(** ** What holds between interrupts *)

(** The stack a thread runs its kernel code on: its own, or for the boot thread
    the one the bootloader made. *)
Definition region (boot : PhysRange) (id : Z) (x : Slot) : option PhysRange :=
  match stack x with
  | Some r => Some r
  | None => if id =? 0 then Some boot else None
  end.

Definition top_of (r : PhysRange) : Z := range_start r + range_len r.
Definition apart (r1 r2 : PhysRange) : Prop := top_of r1 <= range_start r2 \/ top_of r2 <= range_start r1.

Record stack_shape (r : PhysRange) : Prop := mkShape {
  ss_len : range_len r = THREAD_STACK_SIZE;
  ss_aligned : (PAGE_SIZE | range_start r);
  ss_low : MIN_FREE_ADDR <= range_start r;
  ss_high : top_of r <= MAX_IDENTITY_BYTES
}.

(** A context an interrupt of which lands on the stack [r] above the canary:
    kernel code runs on [r] itself with room for a frame, user code only in a
    user thread. *)
Definition at_home (r : PhysRange) (u : bool) (c : cpu) : Prop :=
  cpu_ok c /\
  (if Z.land (code_seg c) 3 =? 0
   then range_start r + 264 <= stack_ptr c - stack_ptr c mod 16 /\ stack_ptr c <= top_of r
   else u = true).

#[global] Instance at_home_proper r u : Proper (cpu_eq ==> iff) (at_home r u).
Proof.
  assert (Hone : forall c1 c2, cpu_eq c1 c2 -> at_home r u c1 -> at_home r u c2).
  { intros c1 c2 (Hg & H1 & H2 & H3 & H4 & H5) [(G & K1 & K2 & K3 & K4 & K5) Hif].
    split; [split_and!; try congruence; intros q; by rewrite <- Hg|]. by rewrite <- H2, <- H4. }
  intros c1 c2 E. split; apply Hone; [done|by symmetry].
Qed.

(** The thread of slot [x] is stopped in context [c] with floating point state
    [v]: its saved pointer leads to a frame on its stack that says so. *)
Definition stopped_in (m : memory) (r : PhysRange) (x : Slot) (cv : cpu * FxSaveArea) : Prop :=
  range_start r + 8 <= ctx_rsp (context x) /\ ctx_rsp (context x) + size_of_IrqFrame <= top_of r /\
  cpu_eq (context_of (irq_frame_at m (ctx_rsp (context x)))) (fst cv) /\ fx x = snd cv /\
  at_home r (user x) (fst cv).

Definition upd {A : Type} (f : Z -> A) (i : Z) (a : A) : Z -> A := fun j => if j =? i then a else f j.

Section Invariant.
  Context {K D : Type} `{StackMemory K} `{PortIO D}.

(** The boot stack, and the pages lent to others than threads. *)
  Variable boot : PhysRange.
  Variable others : gset Z.

(** Threads that are ready and have no stack yet: inside a creation, or left
    behind by one that failed. *)
  Variable unmade : gset Z.

Record pool_with (s : System K D) (ctx : Z -> cpu * FxSaveArea) : Prop := mkPool {
  po_sched : sched_inv (sched s);
  po_source : source_ok (mem s);
  po_slots : len (SLOTS s) = MAX_THREADS;
  po_boot : 8 <= range_start boot /\ 0 < range_len boot /\ top_of boot <= U64_MAX;
  po_spare : forall p, p ∈ spare (mem s) -> p + PAGE_SIZE <= range_start boot \/ top_of boot <= p;
  po_lent : forall p, p ∈ lent (mem s) <->
    p ∈ others \/ exists id x r, get (SLOTS s) id = Some x /\ stack x = Some r /\ p ∈ range_pages r;
  po_stack : forall id x r, get (SLOTS s) id = Some x -> stack x = Some r ->
    stack_shape r /\ kernel_stack_top x = top_of r /\ apart r boot /\ (forall p, p ∈ range_pages r -> p ∉ others);
  po_apart : forall i j x y r1 r2, i <> j -> get (SLOTS s) i = Some x -> get (SLOTS s) j = Some y ->
    stack x = Some r1 -> stack y = Some r2 -> apart r1 r2;
  po_unused : forall id x, get (Sched.states (sched s)) id = Some Unused -> get (SLOTS s) id = Some x ->
    stack x = None /\ ctx_rsp (context x) = 0;
  po_user : forall id x, get (SLOTS s) id = Some x -> user x = true -> exists r, stack x = Some r;
  po_running : forall x, current (sched s) <> NO_THREAD -> get (SLOTS s) (current (sched s)) = Some x ->
    (exists r, region boot (current (sched s)) x = Some r) /\
    (user x = true -> Gdt.rsp0 (segments s) = kernel_stack_top x);
  po_ready : forall id x, id ∉ unmade -> get (Sched.states (sched s)) id = Some Ready -> get (SLOTS s) id = Some x ->
    exists r, region boot id x = Some r /\ stopped_in (ram (mem s)) r x (ctx id);
  po_unmade : forall id, id ∈ unmade -> get (Sched.states (sched s)) id = Some Ready /\
    exists x, get (SLOTS s) id = Some x /\ stack x = None /\ ctx_rsp (context x) = 0 /\ user x = false
}.

(** The running thread executes in [c] on its own stack. *)
Definition running_in (s : System K D) (c : cpu) : Prop :=
  current (sched s) <> NO_THREAD /\
  exists x r, get (SLOTS s) (current (sched s)) = Some x /\
    region boot (current (sched s)) x = Some r /\ at_home r (user x) c.

End Invariant.
#[global] Arguments po_sched {K D _ _} boot others {unmade} s ctx _.
#[global] Arguments po_source {K D _ _} boot others {unmade} s ctx _.
#[global] Arguments po_slots {K D _ _} boot others {unmade} s ctx _.
#[global] Arguments po_boot {K D _ _} boot others {unmade} s ctx _.
#[global] Arguments po_spare {K D _ _} boot others {unmade} s ctx _ _ _.
#[global] Arguments po_lent {K D _ _} boot others {unmade} s ctx _ _.
#[global] Arguments po_stack {K D _ _} boot others {unmade} s ctx _ _ _ _ _ _.
#[global] Arguments po_apart {K D _ _} boot others {unmade} s ctx _ _ _ _ _ _ _ _ _ _ _ _.
#[global] Arguments po_unused {K D _ _} boot others {unmade} s ctx _ _ _ _ _.
#[global] Arguments po_user {K D _ _} boot others {unmade} s ctx _ _ _ _ _.
#[global] Arguments po_running {K D _ _} boot others {unmade} s ctx _ _ _ _.
#[global] Arguments po_ready {K D _ _} boot others {unmade} s ctx _ _ _ _ _ _.
#[global] Arguments po_unmade {K D _ _} boot others {unmade} s ctx _ _ _.

(** Every thread that is ready has a stack. *)
Notation pool_ok boot others := (pool_with boot others ∅).

Lemma upd_same {A : Type} (f : Z -> A) i a : upd f i a i = a.
Proof. unfold upd. by rewrite Z.eqb_refl. Qed.

Lemma upd_other {A : Type} (f : Z -> A) i j a : j <> i -> upd f i a j = f j.
Proof. intros H. unfold upd. by rewrite (proj2 (Z.eqb_neq _ _)). Qed.

(** The pages of a thread stack. *)
Lemma stack_pages r p :
  stack_shape r -> p ∈ range_pages r <->
  p = range_start r \/ p = range_start r + 4096 \/ p = range_start r + 8192 \/ p = range_start r + 12288.
Proof.
  intros [E _ _ _]. unfold range_pages, range_frames. rewrite E.
  change (Z.to_nat (THREAD_STACK_SIZE / PAGE_SIZE)) with 4%nat. cbn [seq fmap list_fmap].
  rewrite !elem_of_cons, elem_of_nil. unfold PAGE_SIZE. split; intros; repeat destruct_or!; subst; try done; lia.
Qed.

(** Stacks that share no page are apart. *)
Lemma stacks_apart r1 r2 :
  stack_shape r1 -> stack_shape r2 -> (forall p, p ∈ range_pages r1 -> p ∉ range_pages r2) -> apart r1 r2.
Proof.
  intros H1 H2 H. destruct (decide (apart r1 r2)) as [|Hn]; [done|exfalso].
  pose proof H1 as [E1 [k1 A1] _ _]. pose proof H2 as [E2 [k2 A2] _ _].
  unfold apart, top_of in Hn. rewrite E1, E2 in Hn. unfold THREAD_STACK_SIZE, THREAD_STACK_PAGES, PAGE_SIZE in *.
  destruct (decide (range_start r1 <= range_start r2)).
  - apply (H (range_start r2)); apply stack_pages; [done| |done|by left]. lia.
  - apply (H (range_start r1)); apply stack_pages; [done|by left|done|]. lia.
Qed.

Lemma stack_apart_boot r boot :
  stack_shape r -> 0 < range_len boot ->
  (forall p, p ∈ range_pages r -> p + PAGE_SIZE <= range_start boot \/ top_of boot <= p) -> apart r boot.
Proof.
  intros Hr Hb H. pose proof Hr as [E _ _ _].
  pose proof (H (range_start r)) as H0. pose proof (H (range_start r + 4096)) as H1.
  pose proof (H (range_start r + 8192)) as H2. pose proof (H (range_start r + 12288)) as H3.
  rewrite stack_pages in H0, H1, H2, H3 by done.
  specialize (H0 ltac:(lia)). specialize (H1 ltac:(lia)). specialize (H2 ltac:(lia)). specialize (H3 ltac:(lia)).
  unfold apart, top_of, PAGE_SIZE in *. rewrite E. change THREAD_STACK_SIZE with 16384. lia.
Qed.

Lemma apart_page r boot p :
  stack_shape r -> apart r boot -> p ∈ range_pages r -> p + PAGE_SIZE <= range_start boot \/ top_of boot <= p.
Proof.
  intros Hr Ha Hp. apply stack_pages in Hp; [|done]. destruct Hr as [E _ _ _].
  unfold apart, top_of, PAGE_SIZE in *. rewrite E in Ha. change THREAD_STACK_SIZE with 16384 in Ha. lia.
Qed.

Section Reaping.
  Context {K D : Type} `{StackMemory K} `{PortIO D}.

Definition cleared (x : Slot) : Slot :=
  mkSlot (mkContext 0 (ctx_thread (context x)) (ctx_pad (context x))) None 0 (fx x) 0 false 0.

(** The pages [release] gives back. *)
Definition slot_pages (x : Slot) : gset Z :=
  match stack x with Some r => list_to_set (range_pages r) | None => ∅ end.

Lemma set_slot_done (s : System K D) id x :
  0 <= id < len (SLOTS s) -> set_slot s id x = Done (with_slots s (<[Z.to_nat id := x]> (SLOTS s))).
Proof. intros Hid. unfold set_slot. by rewrite set_index_done. Qed.

Lemma release_spec (s : System K D) id x :
  source_ok (mem s) -> get (SLOTS s) id = Some x ->
  (forall r, stack x = Some r -> stack_shape r) -> slot_pages x ⊆ lent (mem s) ->
  exists k, release s id = Done (with_slots (with_mem s k) (<[Z.to_nat id := cleared x]> (SLOTS s))) /\
    ram k = ram (mem s) /\ source_ok k /\
    spare k = spare (mem s) ∪ slot_pages x /\ lent k = lent (mem s) ∖ slot_pages x.
Proof.
  intros Hok Hx Hshape Hlent. pose proof (get_in_range _ _ _ Hx) as Hid.
  unfold release. rewrite (proj2 (index_done _ _ _) Hx). cbn [exec_bind].
  rewrite set_slot_done by done. cbn [exec_bind].
  set (s1 := with_slots s _). unfold slot_pages in *.
  assert (Hend : forall k,
    (let! x0 := index (SLOTS (with_mem s1 k)) id in
     set_slot (with_mem s1 k) id (mkSlot (mkContext 0 (ctx_thread (context x0)) (ctx_pad (context x0))) (stack x0) 0
                       (fx x0) 0 false 0)) =
    Done (with_slots (with_mem s k) (<[Z.to_nat id := cleared x]> (SLOTS s)))).
  { intros k. cbn [SLOTS with_mem s1 with_slots].
    rewrite (proj2 (index_done _ _ _) (get_insert_eq _ _ _ Hid)). cbn [exec_bind].
    rewrite set_slot_done by (cbn [SLOTS with_mem s1 with_slots]; by rewrite len_insert).
    cbn [SLOTS with_mem s1 with_slots]. by rewrite list_insert_insert_eq. }
  destruct (stack x) as [r|] eqn:Er.
  - destruct (Hshape r eq_refl) as [E1 E2 E3 E4]. unfold top_of in E4.
    assert (E5 : range_len r = 16384) by exact E1. unfold MIN_FREE_ADDR in E3.
    destruct (give_frames_law (mem s) r) as (k & Eg & Hok' & Hs & Hl); try done; [lia| |lia|].
    { rewrite E5. by exists 4. }
    cbn [mem s1 with_slots]. rewrite Eg. cbn [exec_bind].
    exists k. split; [exact (Hend k)|]. split; [by apply (give_frames_ram _ _ _ _ Eg)|done].
  - cbn [exec_bind]. exists (mem s). split; [exact (Hend (mem s))|]. split_and!; [done|done|set_solver|set_solver].
Qed.

End Reaping.

Section Pool.
  Context {K D : Type} `{StackMemory K} `{PortIO D}.
  Context (boot : PhysRange) (others : gset Z) {unmade : gset Z}.
  Notation pool := (@pool_with K D _ _ boot others unmade).

Lemma pool_pages s ctx id x :
  pool s ctx -> get (SLOTS s) id = Some x -> slot_pages x ⊆ lent (mem s).
Proof.
  intros Hp Hx p Hin. unfold slot_pages in Hin. destruct (stack x) as [r|] eqn:Er; [|set_solver].
  apply (po_lent _ _ _ _ Hp). right. exists id, x, r. split_and!; [done|done|]. by apply elem_of_list_to_set in Hin.
Qed.

(** Pages of different threads differ. *)
Lemma pool_pages_differ s ctx i j x y r p :
  pool s ctx -> i <> j -> get (SLOTS s) i = Some x -> get (SLOTS s) j = Some y -> stack y = Some r ->
  p ∈ range_pages r -> p ∉ slot_pages x.
Proof.
  intros Hp Hij Hx Hy Hr Hin Hin'. unfold slot_pages in Hin'. destruct (stack x) as [r'|] eqn:Er; [|set_solver].
  apply elem_of_list_to_set in Hin'.
  pose proof (po_apart _ _ _ _ Hp i j x y r' r Hij Hx Hy Er Hr) as Ha.
  pose proof (po_stack _ _ _ _ Hp i x r' Hx Er) as (S1 & _). pose proof (po_stack _ _ _ _ Hp j y r Hy Hr) as (S2 & _).
  apply stack_pages in Hin, Hin'; [|done..]. destruct S1 as [E1 _ _ _], S2 as [E2 _ _ _].
  unfold apart, top_of in Ha. rewrite E1, E2 in Ha. change THREAD_STACK_SIZE with 16384 in Ha. lia.
Qed.

(** Clearing the slot of a thread that is not live any more, with its pages
    given back, keeps the invariant. *)
(** The lent pages when a slot gives its stack back. *)
Lemma lent_cleared (s s' : System K D) ctx id x :
  pool s ctx -> get (SLOTS s) id = Some x -> SLOTS s' = <[Z.to_nat id := cleared x]> (SLOTS s) ->
  lent (mem s') = lent (mem s) ∖ slot_pages x ->
  forall p, p ∈ lent (mem s') <->
    p ∈ others \/ exists j y r, get (SLOTS s') j = Some y /\ stack y = Some r /\ p ∈ range_pages r.
Proof.
  intros Hp Hx Esl Hl p. pose proof (get_in_range _ _ _ Hx) as Hid. pose proof Hp as [_ _ _ _ _ P6 P7 _ _ _ _ _ _].
  rewrite Hl, elem_of_difference, (P6 p). split.
  - intros [[Hin|(j & y & r & Hy & Hr & Hin)] Hn]; [by left|]. right.
    destruct (decide (j = id)) as [->|Hne].
    { rewrite Hx in Hy. injection Hy as <-. destruct Hn. unfold slot_pages. rewrite Hr.
      by apply elem_of_list_to_set. }
    exists j, y, r. split_and!; [|done|done]. by rewrite Esl, get_insert_ne by lia.
  - intros [Hin|(j & y & r & Hy & Hr & Hin)].
    + split; [by left|]. unfold slot_pages. destruct (stack x) as [r|] eqn:Er; [|set_solver].
      rewrite elem_of_list_to_set. intros Hin'. by destruct (P7 id x r Hx Er) as (_ & _ & _ & Hno); apply (Hno p).
    + rewrite Esl in Hy. destruct (get_insert_cases _ _ _ _ _ Hid Hy) as [[_ ->]|[Hne Hy']]; [done|].
      split; [right; by exists j, y, r|]. by apply (pool_pages_differ s ctx id j x y r p).
Qed.

Lemma pool_clear s ctx id x (k : K) (x' : Scheduler) (s' : System K D) :
  pool s ctx -> get (SLOTS s) id = Some x ->
  get (Sched.states (sched s)) id = Some Exited ->
  sched_inv x' -> Sched.states x' = <[Z.to_nat id := Unused]> (Sched.states (sched s)) ->
  current x' = current (sched s) ->
  ram k = ram (mem s) -> source_ok k ->
  spare k = spare (mem s) ∪ slot_pages x -> lent k = lent (mem s) ∖ slot_pages x ->
  mem s' = k -> sched s' = x' -> SLOTS s' = <[Z.to_nat id := cleared x]> (SLOTS s) ->
  segments s' = segments s ->
  pool s' ctx.
Proof.
  intros Hp Hx Hex Hinv Hst Hcur Hram Hok Hsp Hl Em Es Esl Eseg.
  pose proof (get_in_range _ _ _ Hx) as Hid.
  pose proof (get_in_range _ _ _ Hex) as Hid'.
  assert (Hget : forall j y, get (SLOTS s') j = Some y ->
            (j = id /\ y = cleared x) \/ (j <> id /\ get (SLOTS s) j = Some y)).
  { intros j y. rewrite Esl. by apply get_insert_cases. }
  assert (Hstate : forall j st, get (Sched.states (sched s')) j = Some st ->
            (j = id /\ st = Unused) \/ (j <> id /\ get (Sched.states (sched s)) j = Some st)).
  { intros j st. rewrite Es, Hst. by apply get_insert_cases. }
  pose proof Hp as [P1 P2 P3 P4 P5 P6 P7 P8 P9 P10 P11 P12 P13].
  constructor.
  - by rewrite Es.
  - by rewrite Em.
  - by rewrite Esl, len_insert.
  - done.
  - intros p. rewrite Em, Hsp. intros [Hin|Hin]%elem_of_union; [by apply P5|].
    unfold slot_pages in Hin. destruct (stack x) as [r|] eqn:Er; [|set_solver].
    apply elem_of_list_to_set in Hin. destruct (P7 id x r Hx Er) as (S1 & _ & Ha & _). by apply (apart_page r).
  - apply (lent_cleared s s' ctx id x); [done|done|done|by rewrite Em].
  - intros j y r Hy Hr. destruct (Hget j y Hy) as [[_ ->]|[Hne Hy']]; [done|]. by apply (P7 j).
  - intros i j y z r1 r2 Hij Hy Hz Hr1 Hr2. destruct (Hget i y Hy) as [[_ ->]|[? Hy']]; [done|].
    destruct (Hget j z Hz) as [[_ ->]|[? Hz']]; [done|]. by apply (P8 i j y z).
  - intros j y Hj Hy. destruct (Hget j y Hy) as [[_ ->]|[Hne Hy']]; [done|].
    destruct (Hstate j _ Hj) as [[? _]|[_ Hj']]; [done|]. by apply (P9 j).
  - intros j y Hy Hu. destruct (Hget j y Hy) as [[_ ->]|[Hne Hy']]; [done|]. by apply (P10 j).
  - intros y Hc Hy. rewrite Es, Hcur in Hc, Hy. rewrite Es, Hcur, Eseg.
    destruct (Hget _ y Hy) as [[Heq _]|[Hne Hy']]; [|by apply P11].
    pose proof (inv_current _ P1 Hc) as Hr. rewrite Heq, Hex in Hr. done.
  - intros j y Hju Hj Hy. destruct (Hstate j _ Hj) as [[_ ?]|[Hne Hj']]; [done|].
    destruct (Hget j y Hy) as [[? _]|[_ Hy']]; [done|]. rewrite Em, Hram. by apply P12.
  - intros j Hj. destruct (P13 j Hj) as [Hr Hsl]. assert (id <> j) by congruence.
    rewrite Es, Esl, Hst, !get_insert_ne by lia. done.
Qed.

(** What the handler's housekeeping leaves alone. *)
Record kept (s s' : System K D) : Prop := mkKept {
  ke_ram : ram (mem s') = ram (mem s);
  ke_segments : segments s' = segments s;
  ke_xmm : xmm s' = xmm s;
  ke_ports : ports s' = ports s;
  ke_service : service s' = service s;
  ke_queue : ready_queue (sched s') = ready_queue (sched s);
  ke_current : current (sched s') = current (sched s);
  ke_idle : idle (sched s') = idle (sched s);
  ke_counters : counters (sched s') = counters (sched s);
  ke_live : forall j st, get (Sched.states (sched s)) j = Some st -> st <> Exited ->
    get (Sched.states (sched s')) j = Some st /\ get (SLOTS s') j = get (SLOTS s) j;
  ke_exited : forall j, get (Sched.states (sched s)) j = Some Exited ->
    get (Sched.states (sched s')) j = Some Exited \/ get (Sched.states (sched s')) j = Some Unused
}.

Lemma kept_refl s : kept s s.
Proof. constructor; auto. Qed.

Lemma kept_trans s1 s2 s3 : kept s1 s2 -> kept s2 s3 -> kept s1 s3.
Proof.
  intros A B. destruct A as [A1 A2 A3 A4 A5 A6 A7 A8 A9 A10 A11], B as [B1 B2 B3 B4 B5 B6 B7 B8 B9 B10 B11].
  constructor; try congruence.
  - intros j st Hj Hst. destruct (A10 j st Hj Hst) as [E1 E2].
    destruct (B10 j st E1 Hst) as [E3 E4]. split; congruence.
  - intros j Hj. destruct (A11 j Hj) as [E|E]; [by apply B11|]. right. by apply B10.
Qed.

(** One round of the loop. *)
Lemma reap_round fuel s ctx id :
  pool s ctx -> position (is_state Exited) (Sched.states (sched s)) = Some id ->
  exists s', reap_loop (S fuel) s = reap_loop fuel s' /\ pool s' ctx /\ kept s s' /\
    Sched.states (sched s') = <[Z.to_nat id := Unused]> (Sched.states (sched s)).
Proof.
  intros Hp Hpos. pose proof (take_reapable_spec _ (po_sched _ _ _ _ Hp)) as Ht. rewrite Hpos in Ht.
  destruct Ht as (x' & Et & Hinv & Hst & Hq & Hc & Hi & Hn).
  pose proof (position_state _ _ _ Hpos) as Hex. pose proof (get_in_range _ _ _ Hex) as Hr.
  destruct (get_lt_some (SLOTS s) id) as [x Hx].
  { rewrite (po_slots _ _ _ _ Hp). by rewrite <- (si_states _ (po_sched _ _ _ _ Hp)). }
  cbn [reap_loop]. rewrite Et. cbn [exec_bind].
  assert (Hcan : exists ok, canary_ok (with_sched s x') id = Done ok).
  { unfold canary_ok. cbn [SLOTS with_sched]. rewrite (proj2 (index_done _ _ _) Hx). cbn [exec_bind].
    case_match; by eexists. }
  destruct Hcan as [ok ->]. cbn [exec_bind].
  set (s1 := if ok then _ else _).
  assert (Es : sched s1 = x' /\ mem s1 = mem s /\ SLOTS s1 = SLOTS s /\ segments s1 = segments s /\
               xmm s1 = xmm s /\ ports s1 = ports s /\ service s1 = service s) by (unfold s1; by destruct ok).
  destruct Es as (E1 & E2 & E3 & E4 & E5 & E6 & E7).
  destruct (release_spec s1 id x) as (k & Er & Hram & Hok & Hsp & Hl).
  { rewrite E2. by apply (po_source _ _ _ _ Hp). }
  { by rewrite E3. }
  { intros r Hr'. by apply (po_stack _ _ _ _ Hp id x). }
  { rewrite E2. by apply (pool_pages s ctx id). }
  rewrite Er. cbn [exec_bind]. eexists. split; [reflexivity|].
  rewrite E2 in Hram, Hsp, Hl. split; [|split].
  - apply (pool_clear s ctx id x k x'); try done; cbn [mem sched SLOTS segments with_slots with_mem].
    by rewrite E3.
  - constructor; cbn [mem sched SLOTS segments with_slots with_mem xmm ports service]; try congruence.
    + intros j st Hj Hne. rewrite E1, E3, Hst. destruct (decide (id = j)) as [<-|]; [naive_solver|].
      split; [by rewrite get_insert_ne by lia|by rewrite get_insert_ne by lia].
    + intros j Hj. rewrite E1, Hst, get_insert_dec by done. case_decide; [by right|by left].
  - cbn [sched with_slots with_mem]. by rewrite E1.
Qed.

(** [reap_exited] always ends with no exited thread left. *)
Lemma reap_loop_spec fuel s ctx :
  pool s ctx -> (forall j, 0 <= j < MAX_THREADS - Z.of_nat fuel -> get (Sched.states (sched s)) j <> Some Exited) ->
  exists s', reap_loop fuel s = Done s' /\ pool s' ctx /\ kept s s' /\
    forall j, get (Sched.states (sched s')) j <> Some Exited.
Proof.
  revert s. induction fuel as [|fuel IH]; intros s Hp Hlow;
    pose proof (take_reapable_spec _ (po_sched _ _ _ _ Hp)) as Ht;
    destruct (position (is_state Exited) (Sched.states (sched s))) as [id|] eqn:Epos.
  - apply position_state in Epos. pose proof (inv_state_range _ (po_sched _ _ _ _ Hp) _ _ Epos).
    exfalso. apply (Hlow id); [simpl; lia|done].
  - cbn [reap_loop]. rewrite Ht. cbn [exec_bind]. exists s. split; [by destruct s|].
    split; [done|]. split; [apply kept_refl|]. by apply position_absent.
  - destruct (reap_round fuel s ctx id Hp Epos) as (s1 & -> & Hp1 & Hk1 & Hst).
    apply position_least in Epos as [Hid Hmin]. pose proof (get_in_range _ _ _ Hid) as Hr.
    destruct (IH s1 Hp1) as (s2 & E & Hp2 & Hk2 & Hno).
    + intros j Hj. rewrite Hst, get_insert_dec by done. case_decide as E; [done|].
      destruct (decide (j < id)); [by apply Hmin; lia|].
      intros Hex. destruct (decide (id < MAX_THREADS - Z.of_nat (S fuel))) as [Hlt|]; [by apply (Hlow id); [lia|]|].
      lia.
    + exists s2. split_and!; [done|done|by apply (kept_trans s s1)|done].
  - cbn [reap_loop]. rewrite Ht. cbn [exec_bind]. exists s. split; [by destruct s|].
    split; [done|]. split; [apply kept_refl|]. by apply position_absent.
Qed.

Lemma reap_exited_spec s ctx :
  pool s ctx ->
  exists s', reap_exited s = Done s' /\ pool s' ctx /\ kept s s' /\
    forall j, get (Sched.states (sched s')) j <> Some Exited.
Proof. intros Hp. apply reap_loop_spec; [done|]. intros j Hj. unfold MAX_THREADS in Hj. simpl in Hj. lia. Qed.

(** The slot of the thread switched out. *)
Definition switched_out (x : Slot) (frame : Z) (area : FxSaveArea) : Slot :=
  mkSlot (mkContext frame (ctx_thread (context x)) (ctx_pad (context x))) (stack x) (canary_address x) area
         (entry x) (user x) (kernel_stack_top x).

Lemma switch_to_eq (s : System K D) from to frame x y :
  len (SLOTS s) = MAX_THREADS -> from <> to ->
  get (SLOTS s) from = Some x -> get (SLOTS s) to = Some y ->
  switch_to s from to frame =
    Done (with_xmm (with_segments (with_slots s (<[Z.to_nat from := switched_out x frame (xmm s)]> (SLOTS s)))
                      (if user y then Gdt.set_rsp0 (segments s) (kernel_stack_top y) else segments s)) (fx y),
          ctx_rsp (context y)).
Proof.
  intros Hlen Hne Hx Hy. pose proof (get_in_range _ _ _ Hx) as Hf. pose proof (get_in_range _ _ _ Hy) as Ht.
  unfold switch_to. rewrite Hlen in Hf, Ht.
  rewrite (proj2 (Z.ltb_lt _ _) (proj2 Hf)), (proj2 (Z.ltb_lt _ _) (proj2 Ht)). cbn [negb andb].
  rewrite (proj2 (index_done _ _ _) Hx). cbn [exec_bind].
  rewrite set_slot_done by (by rewrite Hlen). cbn [exec_bind].
  unfold is_user, stack_top_of. cbn [SLOTS with_slots].
  rewrite (proj2 (index_done _ _ y)) by (by rewrite get_insert_ne by lia). cbn [exec_bind].
  set (s2 := with_segments (with_slots s (<[Z.to_nat from := switched_out x frame (fx x)]> (SLOTS s)))
               (if user y then Gdt.set_rsp0 (segments s) (kernel_stack_top y) else segments s)).
  transitivity (let! x := index (SLOTS s2) from in
    let! s := set_slot s2 from (mkSlot (context x) (stack x) (canary_address x) (xmm s2) (entry x) (user x)
                               (kernel_stack_top x)) in
    let! y := index (SLOTS s) to in
    Done (with_xmm s (fx y), ctx_rsp (context y))).
  { unfold s2. by destruct (user y), s. }
  rewrite (proj2 (index_done _ _ (switched_out x frame (fx x)))) by (apply get_insert_eq; by rewrite Hlen).
  cbn [exec_bind]. rewrite set_slot_done by (cbn; by rewrite len_insert, Hlen). cbn [exec_bind].
  cbn [SLOTS with_slots s2 with_segments].
  rewrite list_insert_insert_eq, (proj2 (index_done _ _ y)) by (by rewrite get_insert_ne by lia).
  reflexivity.
Qed.

(** A switch from the running thread, stopped in [c], to a ready one.  [s] is
    the state before the decision and [s2] the state after it. *)
(** The pages in stacks when only the saved context of a slot changes. *)
Lemma stack_pages_switched (l : list Slot) i x f a p :
  get l i = Some x ->
  (exists j y r, get l j = Some y /\ stack y = Some r /\ p ∈ range_pages r) <->
  (exists j y r, get (<[Z.to_nat i := switched_out x f a]> l) j = Some y /\ stack y = Some r /\ p ∈ range_pages r).
Proof.
  intros Hx. pose proof (get_in_range _ _ _ Hx) as Hi. split; intros (j & y & r & Hy & Hr & Hin).
  - destruct (decide (j = i)) as [->|].
    + exists i, (switched_out x f a), r. split_and!; [by apply get_insert_eq| |done].
      rewrite Hx in Hy. by injection Hy as <-.
    + exists j, y, r. split_and!; [by rewrite get_insert_ne by lia|done|done].
  - destruct (get_insert_cases _ _ _ _ _ Hi Hy) as [[_ ->]|[_ Hy']]; [by exists i, x, r|by exists j, y, r].
Qed.

Lemma switch_pool s s2 ctx c to frame st x r :
  pool s ctx -> current (sched s) <> NO_THREAD -> to <> current (sched s) -> to ∉ unmade ->
  get (Sched.states (sched s)) to = Some Ready -> (st = Ready \/ st = Exited) ->
  mem s2 = mem s -> SLOTS s2 = SLOTS s -> segments s2 = segments s -> sched_inv (sched s2) ->
  Sched.states (sched s2) =
    <[Z.to_nat to := Running]> (<[Z.to_nat (current (sched s)) := st]> (Sched.states (sched s))) ->
  current (sched s2) = to ->
  get (SLOTS s) (current (sched s)) = Some x -> region boot (current (sched s)) x = Some r ->
  stopped_in (ram (mem s)) r (switched_out x frame (xmm s2)) (c, xmm s2) ->
  exists s' ret, switch_to s2 (current (sched s)) to frame = Done (s', ret) /\
    pool s' (upd ctx (current (sched s)) (c, xmm s2)) /\
    mem s' = mem s /\ sched s' = sched s2 /\ ports s' = ports s2 /\ xmm s' = snd (ctx to) /\
    (exists y r', get (SLOTS s') to = Some y /\ region boot to y = Some r' /\ ret = ctx_rsp (context y) /\
      stopped_in (ram (mem s)) r' y (ctx to)).
Proof.
  intros Hp Hc Hne Htu Hto Hst Em Esl Eseg Hinv Est Ecur Hx Hreg Hstop.
  pose proof Hp as [P1 P2 P3 P4 P5 P6 P7 P8 P9 P10 P11 P12 P13].
  set (from := current (sched s)) in *.
  pose proof (get_in_range _ _ _ Hx) as Hf. pose proof (get_in_range _ _ _ Hto) as Ht.
  destruct (get_lt_some (SLOTS s) to) as [y Hy]; [by rewrite P3, <- (si_states _ P1)|].
  destruct (P12 to y Htu Hto Hy) as (r' & Hr' & Hs').
  rewrite (switch_to_eq s2 from to frame x y) by (by rewrite ?Esl).
  eexists _, _. split; [reflexivity|]. cbn [SLOTS with_slots with_segments with_xmm mem sched ports xmm segments].
  rewrite Esl, Em, Eseg. split; [|split_and!; try done].
  2: by destruct Hs' as (_ & _ & _ & -> & _).
  2: { exists y, r'. split; [by rewrite get_insert_ne by lia|done]. }
  assert (Hget : forall j z, get (<[Z.to_nat from := switched_out x frame (xmm s2)]> (SLOTS s)) j = Some z ->
            exists z0, get (SLOTS s) j = Some z0 /\ stack z = stack z0 /\ user z = user z0 /\
              kernel_stack_top z = kernel_stack_top z0 /\
              ((j = from /\ z = switched_out x frame (xmm s2)) \/ (j <> from /\ z = z0))).
  { intros j z [[-> ->]|[Hj Hz]]%get_insert_cases; [|exists z; split_and!; try done; by right|done].
    exists x. split_and!; try done. by left. }
  assert (Hstate : forall j q, get (Sched.states (sched s2)) j = Some q ->
            (j = to /\ q = Running) \/ (j = from /\ q = st) \/
            (j <> from /\ j <> to /\ get (Sched.states (sched s)) j = Some q)).
  { intros j q. pose proof (get_in_range _ _ _ (inv_current _ P1 Hc)) as Hcr.
    rewrite Est, get_insert_dec by (by rewrite len_insert).
    case_decide as E; [intros [= <-]; by left|]. rewrite get_insert_dec by done.
    case_decide as E'; [intros [= <-]; right; by left|]. intros ?. right. right. split_and!; congruence. }
  constructor; cbn [SLOTS with_slots with_segments with_xmm mem sched ports xmm segments]; rewrite ?Em.
  - done.
  - done.
  - by rewrite len_insert.
  - done.
  - done.
  - intros p. rewrite (P6 p). by rewrite (stack_pages_switched _ from x frame (xmm s2) p Hx).
  - intros j z q Hz Hq. destruct (Hget j z Hz) as (z0 & Hz0 & E1 & E2 & E3 & _).
    rewrite E3. apply (P7 j z0 q); [done|congruence].
  - intros i j z w r1 r2 Hij Hz Hw Hr1 Hr2. destruct (Hget i z Hz) as (z0 & Hz0 & E1 & _).
    destruct (Hget j w Hw) as (w0 & Hw0 & E2 & _). apply (P8 i j z0 w0); congruence.
  - intros j z Hj Hz. destruct (Hstate j _ Hj) as [[_ ?]|[[-> Hq]|(H1' & H2' & Hq)]]; [done| |].
    + exfalso. destruct Hst; congruence.
    + destruct (Hget j z Hz) as (z0 & Hz0 & _ & _ & _ & [[? _]|[_ ->]]); [done|]. by apply (P9 j).
  - intros j z Hz Hu. destruct (Hget j z Hz) as (z0 & Hz0 & E1 & E2 & _). rewrite E1.
    apply (P10 j z0); congruence.
  - rewrite Ecur. intros z _ Hz. destruct (Hget to z Hz) as (z0 & Hz0 & _ & _ & _ & [[? _]|[_ ->]]); [done|].
    rewrite Hy in Hz0. injection Hz0 as <-. split; [by exists r'|]. intros ->. done.
  - intros j z Hju Hj Hz. destruct (Hstate j _ Hj) as [[_ ?]|[[-> Hq]|(H1' & H2' & Hq)]]; [done| |].
    + rewrite get_insert_eq in Hz by done. injection Hz as <-. exists r. split; [exact Hreg|].
      by rewrite upd_same.
    + destruct (Hget j z Hz) as (z0 & Hz0 & _ & _ & _ & [[? _]|[_ ->]]); [done|].
      rewrite upd_other by done. by apply P12.
  - intros j Hj. destruct (P13 j Hj) as [Hrd Hsl]. assert (to <> j) by congruence.
    assert (from <> j) by (pose proof (inv_current _ P1 Hc) as Hrun; fold from in Hrun; congruence).
    rewrite Est, !get_insert_ne by (try done; pose proof (inv_current_range _ P1 Hc); lia). done.
Qed.

(** ** The decision *)

(** The thread an interrupt with [vector] makes current, and the queue after. *)
Definition is_rotation (vector : Z) : bool := (vector =? Pic.TIMER_VECTOR) || (vector =? Idt.YIELD_VECTOR).
Definition is_exit (vector : Z) : bool := (vector =? Idt.EXIT_VECTOR) || (vector =? Idt.SYSCALL_VECTOR).

Definition next_thread (vector : Z) (x : Scheduler) : option Z :=
  if is_rotation vector then Some (fst (fifo_rotate (current x) (idle_running x) (ready_queue x)))
  else if is_exit vector then successor x
  else Some (current x).

Definition next_queue (vector : Z) (x : Scheduler) : list Z :=
  if is_rotation vector then snd (fifo_rotate (current x) (idle_running x) (ready_queue x))
  else if is_exit vector then tail (ready_queue x)
  else ready_queue x.

Lemma decide_spec (s : System K D) vector frame next :
  sched_inv (sched s) -> counters_ok (sched s) -> current (sched s) <> NO_THREAD -> 0 <= vector < 256 ->
  (is_exit vector = true -> idle_running (sched s) = false) ->
  next_thread vector (sched s) = Some next ->
  exists s2 d, decide_vector s vector frame = Done (s2, d) /\
    mem s2 = mem s /\ SLOTS s2 = SLOTS s /\ segments s2 = segments s /\ xmm s2 = xmm s /\
    decided (sched s) (sched s2) d next /\ ready_queue (sched s2) = next_queue vector (sched s).
Proof.
  intros Hinv [Ht Hsw] Hc Hv Hex Hn. unfold decide_vector, next_thread, next_queue, is_rotation, is_exit in *.
  destruct (vector =? Pic.TIMER_VECTOR).
  { cbn [orb] in *. injection Hn as <-. unfold on_tick. rewrite add64_done by lia. cbn [exec_bind negb PREEMPTION_ENABLED].
    destruct (rotate_decided (set_ticks (sched s) (ticks (sched s) + 1))) as (x' & d & E & Hd & Hq);
      [by apply set_ticks_inv|done|done|].
    rewrite E. cbn [exec_bind]. eexists _, d. split; [reflexivity|]. done. }
  destruct (vector =? Idt.YIELD_VECTOR).
  { cbn [orb] in *. injection Hn as <-. unfold yield_current.
    destruct (rotate_decided (sched s)) as (x' & d & E & Hd & Hq); [done..|].
    rewrite E. cbn [exec_bind]. eexists _, d. split; [reflexivity|]. done. }
  cbn [orb] in *.
  assert (Hexit : forall s1 : System K D, sched s1 = sched s -> mem s1 = mem s -> SLOTS s1 = SLOTS s ->
     segments s1 = segments s -> xmm s1 = xmm s -> idle_running (sched s) = false ->
     successor (sched s) = Some next ->
     exists s2 d, exit_thread s1 = Done (s2, d) /\
      mem s2 = mem s /\ SLOTS s2 = SLOTS s /\ segments s2 = segments s /\ xmm s2 = xmm s /\
      decided (sched s) (sched s2) d next /\ ready_queue (sched s2) = tail (ready_queue (sched s))).
  { intros s1 E1 E2 E3 E4 E5 Hi Hs. unfold exit_thread. rewrite E1.
    destruct (exit_decided (sched s) next) as (x' & d & E & Hd & Hq); [done..|].
    rewrite E. cbn [exec_bind]. eexists _, d. split; [reflexivity|]. done. }
  destruct (vector =? Idt.EXIT_VECTOR); [cbn [orb] in *; apply Hexit; auto|].
  destruct (vector =? Idt.SYSCALL_VECTOR).
  { cbn [orb] in *. unfold on_syscall. apply Hexit; try (by case_match); auto. }
  cbn [orb] in *. injection Hn as <-.
  destruct (vector =? Pic.SPURIOUS_IRQ7_VECTOR).
  { destruct (Pic.handle_spurious_irq7 (ports s)) as [b d]. eexists _, Keep. split; [reflexivity|].
    split_and!; try done. split_and!; try done. by left. }
  set (irq := Z.land _ 0x0F).
  assert (Hirq : 0 <= irq < 16).
  { unfold irq. change 0x0F with (Z.ones 4). rewrite Z.land_ones by lia. apply Z.mod_pos_bound. lia. }
  assert (Hm : forall d : D, exists d', Pic.mask d irq = Done d').
  { intros d. unfold Pic.mask. destruct (Z.ltb_spec irq 8) as [Hlt|Hge].
    - destruct (inb d Pic.PIC1_DATA) as [v d1]. unfold shl1_u8.
      rewrite (proj2 (Z.ltb_lt _ _)) by lia. by eexists.
    - destruct (inb d Pic.PIC2_DATA) as [v d1]. unfold shl1_u8.
      rewrite (proj2 (Z.ltb_lt _ _)) by lia. by eexists. }
  destruct (Hm (ports (log s Logging.Error (UnexpectedVector vector irq)))) as [d' ->]. cbn [exec_bind].
  eexists _, Keep. split; [reflexivity|]. split_and!; try done. split_and!; try done. by left.
Qed.

(** Nothing but the scheduler's counters and the ports changed. *)
Lemma pool_keep s s2 ctx v :
  pool s ctx -> current (sched s) <> NO_THREAD -> mem s2 = mem s -> SLOTS s2 = SLOTS s -> segments s2 = segments s ->
  sched_inv (sched s2) -> Sched.states (sched s2) = Sched.states (sched s) ->
  current (sched s2) = current (sched s) -> pool s2 (upd ctx (current (sched s)) v).
Proof.
  intros [P1 P2 P3 P4 P5 P6 P7 P8 P9 P10 P11 P12 P13] Hc Em Esl Eseg Hinv Est Ec.
  constructor; rewrite ?Em, ?Esl, ?Eseg, ?Est, ?Ec; try done.
  intros id x Hu Hid Hx. rewrite upd_other; [by apply P12|].
  intros ->. by rewrite (inv_current _ P1 Hc) in Hid.
Qed.

(** Stacks of different threads are apart. *)
Lemma regions_apart s ctx i j x y r1 r2 :
  pool s ctx -> i <> j -> get (SLOTS s) i = Some x -> get (SLOTS s) j = Some y ->
  region boot i x = Some r1 -> region boot j y = Some r2 -> apart r1 r2.
Proof.
  intros Hp Hij Hx Hy. unfold region.
  destruct (stack x) as [q1|] eqn:E1, (stack y) as [q2|] eqn:E2.
  - intros [= <-] [= <-]. by apply (po_apart _ _ _ _ Hp i j x y).
  - intros [= <-]. destruct (j =? 0); [|done]. intros [= <-]. by apply (po_stack _ _ _ _ Hp i x q1).
  - destruct (i =? 0); [|done]. intros [= <-] [= <-].
    destruct (po_stack _ _ _ _ Hp j y q2) as (_ & _ & Ha & _); [done|done|]. unfold apart in *. lia.
  - destruct (Z.eqb_spec i 0), (Z.eqb_spec j 0); try done. lia.
Qed.

Lemma region_bounds s ctx i x r :
  pool s ctx -> get (SLOTS s) i = Some x -> region boot i x = Some r -> 8 <= range_start r /\ top_of r <= U64_MAX.
Proof.
  intros Hp Hx. unfold region. destruct (stack x) as [q|] eqn:E.
  - intros [= <-]. destruct (po_stack _ _ _ _ Hp i x q) as ([_ _ H3 H4] & _); [done|done|].
    unfold MIN_FREE_ADDR, MAX_IDENTITY_BYTES in *. ulia.
  - destruct (i =? 0); [|done]. intros [= <-]. pose proof (po_boot _ _ _ _ Hp). lia.
Qed.

(** Only the frames of stopped threads matter. *)
Lemma pool_ram s ctx m :
  pool s ctx ->
  (forall id x, id ∉ unmade -> get (Sched.states (sched s)) id = Some Ready -> get (SLOTS s) id = Some x ->
     same_on (ctx_rsp (context x)) size_of_IrqFrame m (ram (mem s))) ->
  pool (with_ram s m) ctx.
Proof.
  intros [P1 P2 P3 P4 P5 P6 P7 P8 P9 P10 P11 P12 P13] Hm.
  constructor; cbn [with_ram with_mem mem sched SLOTS segments];
    rewrite ?ram_set_ram, ?set_ram_lent, ?set_ram_spare; try done; [by apply set_ram_source_ok|].
  intros id x Hu Hid Hx. destruct (P12 id x Hu Hid Hx) as (r & Hr & A1 & A2 & A3 & A4 & A5).
  exists r. split; [done|]. split_and!; try done. by rewrite (irq_frame_at_ext m (ram (mem s))) by eauto.
Qed.

Lemma idle_running_kept (s s1 : System K D) :
  sched_inv (sched s) -> sched_inv (sched s1) -> current (sched s1) = current (sched s) ->
  idle (sched s1) = idle (sched s) -> idle_running (sched s1) = idle_running (sched s).
Proof.
  intros H1' H2' Hc Hi. unfold idle_running. apply bool_decide_ext.
  rewrite (si_idle _ H1'), (si_idle _ H2'), Hc, Hi. done.
Qed.

Lemma next_kept vector (s s1 : System K D) :
  sched_inv (sched s) -> sched_inv (sched s1) -> kept s s1 ->
  next_thread vector (sched s1) = next_thread vector (sched s) /\
  next_queue vector (sched s1) = next_queue vector (sched s) /\
  idle_running (sched s1) = idle_running (sched s).
Proof.
  intros H1' H2' Hk. pose proof (idle_running_kept s s1 H1' H2' (ke_current _ _ Hk) (ke_idle _ _ Hk)) as E.
  unfold next_thread, next_queue, successor. by rewrite E, (ke_queue _ _ Hk), (ke_current _ _ Hk), (ke_idle _ _ Hk).
Qed.

(** ** The handler as a whole *)
Lemma handler_spec s ctx c vector next f x r :
  pool s ctx -> current (sched s) <> NO_THREAD -> counters_ok (sched s) -> 0 <= vector < 256 ->
  (is_exit vector = true -> idle_running (sched s) = false) -> next_thread vector (sched s) = Some next ->
  get (SLOTS s) (current (sched s)) = Some x -> region boot (current (sched s)) x = Some r ->
  at_home r (user x) c -> range_start r + 8 <= f -> f + size_of_IrqFrame <= top_of r ->
  irq_frame_at (ram (mem s)) f = frame_of c vector -> next ∉ unmade ->
  let ctx' := upd ctx (current (sched s)) (c, xmm s) in
  exists s' ret x', irq_handler s f = Done (s', ret) /\ ram (mem s') = ram (mem s) /\ pool s' ctx' /\
    current (sched s') = next /\ ready_queue (sched s') = next_queue vector (sched s) /\
    xmm s' = snd (ctx' next) /\
    get (SLOTS s') (current (sched s)) = Some x' /\ region boot (current (sched s)) x' = Some r /\
    user x' = user x /\
    (get (Sched.states (sched s')) (current (sched s)) = Some Ready -> ctx_rsp (context x') = f) /\
    ((next = current (sched s) /\ ret = 0) \/
     (next <> current (sched s) /\ exists y r', get (SLOTS s') next = Some y /\ region boot next y = Some r' /\
       ret = ctx_rsp (context y) /\ stopped_in (ram (mem s)) r' y (ctx next))).
Proof.
  intros Hp Hc Hn Hv Hex Hnext Hx Hr Hhome Hf1 Hf2 Hframe Hmade ctx'.
  destruct (reap_exited_spec s ctx Hp) as (s1 & E1 & Hp1 & Hk & _).
  destruct (next_kept vector s s1 (po_sched _ _ _ _ Hp) (po_sched _ _ _ _ Hp1) Hk) as (N1 & N2 & N3).
  destruct (ke_live _ _ Hk _ Running (inv_current _ (po_sched _ _ _ _ Hp) Hc) ltac:(done)) as [_ Esl].
  pose proof (ke_current _ _ Hk) as Ecur. pose proof (ke_xmm _ _ Hk) as Exmm. pose proof (ke_ram _ _ Hk) as Eram.
  unfold irq_handler. rewrite E1. cbn [exec_bind]. rewrite Eram, Hframe. cbn [f_vector frame_of].
  rewrite (Z.mod_small vector) by lia.
  destruct (decide_spec s1 vector f next) as (s2 & d & E2 & Em & Es & Eg & Ex & (Hinv & Hcur & Hd) & Hq);
    [by apply (po_sched _ _ _ _ Hp1)| |by rewrite Ecur|done|by rewrite N3|by rewrite N1|].
  { pose proof (ke_counters _ _ Hk) as Ec. unfold counters in Ec. injection Ec as Ec1 Ec2.
    unfold counters_ok. by rewrite Ec1, Ec2. }
  rewrite E2. cbn [exec_bind]. rewrite N2 in Hq.
  destruct Hd as [(-> & Hd1 & Hd2)|(-> & Hne & Hready & st & Hst & Hstates)].
  - rewrite Ecur in Hd1. exists s2, 0, x. split; [done|]. rewrite Em, Eram. split; [done|].
    assert (Hp2 : pool s2 ctx').
    { unfold ctx'. rewrite <- Ecur. apply (pool_keep s1); try done; congruence. }
    split; [done|]. split; [done|]. split; [done|]. rewrite Hd1 in *. unfold ctx'. rewrite upd_same.
    split; [simpl; congruence|]. split; [congruence|]. split; [done|]. split; [done|]. split; [|by left].
    rewrite Hd2. intros Hbad. pose proof (inv_current _ (po_sched _ _ _ _ Hp1)) as Hrun.
    rewrite Ecur in Hrun. rewrite Hrun in Hbad by done. done.
  - assert (Hstop : stopped_in (ram (mem s1)) r (switched_out x f (xmm s2)) (c, xmm s2)).
    { split_and!; cbn [context switched_out ctx_rsp fx user fst snd]; try done.
      rewrite Eram. by apply (frame_context _ _ _ vector). }
    destruct (switch_pool s1 s2 ctx c next f st x r) as (s' & ret & Esw & Hp' & Em' & Es' & _ & Ex' & Hto);
      try done; rewrite ?Ecur, ?Esl; try done.
    exists s', ret, (switched_out x f (xmm s2)).
    assert (Hslot : get (SLOTS s') (current (sched s)) = Some (switched_out x f (xmm s2))).
    { assert (exists y, get (SLOTS s1) next = Some y) as [y Hy].
      { apply get_lt_some. rewrite (po_slots _ _ _ _ Hp1), <- (si_states _ (po_sched _ _ _ _ Hp1)).
        by apply get_in_range in Hready. }
      rewrite (switch_to_eq s2 (current (sched s1)) next f x y) in Esw;
        [|by rewrite Es; apply (po_slots _ _ _ _ Hp1)|done|by rewrite Es, Ecur, Esl|by rewrite Es].
      injection Esw as <- _. cbn [SLOTS with_xmm with_segments with_slots]. rewrite Ecur, Es.
      apply get_insert_eq. rewrite <- Esl in Hx. by apply get_in_range in Hx. }
    rewrite Ecur in Esw, Hp', Hne. rewrite Ex, Exmm in Hp'.
    split; [done|]. rewrite Em', Es'. split; [done|]. split; [done|]. split; [done|]. split; [done|].
    split; [unfold ctx'; by rewrite upd_other|]. split; [done|]. split; [done|]. split; [done|]. split; [done|].
    right. split; [done|]. destruct Hto as (y & r' & T1 & T2 & T3 & T4). exists y, r'.
    rewrite Eram in T4. done.
Qed.

(** ** A whole interrupt

    The processor and the entry code save the context, the handler runs, and
    the exit code resumes a context.  [scratch] is what the handler's Rust code
    leaves in the part of the stack below its frame. *)
Definition take_interrupt (scratch : memory -> memory) (ra : Z) (s : System K D) (c : cpu) (vector : Z) :
    option (System K D * cpu) :=
  let m := ram (mem s) in
  let rsp0 := Gdt.rsp0 (segments s) in
  match interrupt (fun _ _ _ => None) ra vector c m 0 rsp0 with
  | Entered g _ m1 =>
      match irq_handler (with_ram s m1) (g RDI) with
      | Done (s', ret) =>
          match interrupt (fun g _ _ => Some (set_reg g RAX ret, scratch (ram (mem s')))) ra vector c m 0 rsp0 with
          | Resumed c' m2 => Some (with_ram s' m2, c')
          | _ => None
          end
      | Panic => None
      end
  | _ => None
  end.

(** The handler stays on the stack of the thread it interrupted: above the
    canary and below the frame and the return address. *)
Definition stays_on_stack (s : System K D) (c : cpu) (scratch : memory -> memory) : Prop :=
  forall x r m a, get (SLOTS s) (current (sched s)) = Some x -> region boot (current (sched s)) x = Some r ->
    a < range_start r + 8 \/ frame_address c 0 (Gdt.rsp0 (segments s)) - 8 <= a -> scratch m a = m a.

(** The stack an interrupt of the running thread lands on. *)
Lemma entry_on_stack s ctx c x r :
  pool s ctx -> current (sched s) <> NO_THREAD -> get (SLOTS s) (current (sched s)) = Some x ->
  region boot (current (sched s)) x = Some r -> at_home r (user x) c ->
  let e := entry_stack c 0 (Gdt.rsp0 (segments s)) in range_start r + 264 <= e <= top_of r.
Proof.
  intros Hp Hc Hx Hr [_ Hh] e. unfold e, entry_stack. cbn [Z.eqb].
  destruct (Z.land (code_seg c) 3 =? 0).
  - pose proof (Z.mod_pos_bound (stack_ptr c) 16). lia.
  - destruct (po_running _ _ _ _ Hp x Hc Hx) as [_ Hu]. rewrite (Hu Hh).
    destruct (po_user _ _ _ _ Hp _ x Hx Hh) as [q Hq]. unfold region in Hr. rewrite Hq in Hr. injection Hr as ->.
    destruct (po_stack _ _ _ _ Hp _ x r Hx Hq) as ([E [k A] _ _] & -> & _).
    unfold top_of. rewrite E, A. change THREAD_STACK_SIZE with 16384. unfold PAGE_SIZE.
    replace (k * 4096 + 16384) with ((k * 256 + 1024) * 16) by lia. rewrite Z.mod_mul by lia. lia.
Qed.

(** The frame of a stopped thread is not on the stack of another. *)
Lemma stopped_elsewhere s ctx id j x y r q :
  pool s ctx -> id <> j -> get (SLOTS s) id = Some y -> region boot id y = Some q ->
  get (SLOTS s) j = Some x -> region boot j x = Some r ->
  range_start q + 8 <= ctx_rsp (context y) -> ctx_rsp (context y) + size_of_IrqFrame <= top_of q ->
  ctx_rsp (context y) + size_of_IrqFrame <= range_start r \/ top_of r <= ctx_rsp (context y).
Proof. intros Hp Hne Hy Hq Hx Hr A1 A2. destruct (regions_apart s ctx id j y x q r Hp Hne Hy Hx Hq Hr); lia. Qed.

(** From an interrupt of the running thread to the call of the handler: the
    frame is on the thread's stack and every stopped thread is still stopped
    where it was. *)
Lemma interrupt_entry ra s ctx c vector x r :
  pool s ctx -> current (sched s) <> NO_THREAD -> get (SLOTS s) (current (sched s)) = Some x ->
  region boot (current (sched s)) x = Some r -> at_home r (user x) c -> is_u64 ra -> 0 <= vector < 256 ->
  let f := frame_address c 0 (Gdt.rsp0 (segments s)) in
  exists m1, range_start r + 88 <= f /\ f + size_of_IrqFrame <= top_of r /\
    irq_frame_at m1 f = frame_of c vector /\ pool (with_ram s m1) ctx /\
    forall h, interrupt h ra vector c (ram (mem s)) 0 (Gdt.rsp0 (segments s)) =
      match h (set_reg (gpr c) RDI f) (f - 8) m1 with
      | Some (g, m2) =>
          run h ra ((POP <$> restored_order) ++ [ADD_RSP 16; IRETQ])
            (mkCore g (if g RAX =? 0 then f else g RAX) (g RAX =? 0) m2)
      | None => Entered (set_reg (gpr c) RDI f) (f - 8) m1
      end.
Proof.
  intros Hp Hc Hx Hr Hh Hra Hv f.
  pose proof (entry_on_stack s ctx c x r Hp Hc Hx Hr Hh) as He. cbv zeta in He.
  destruct (region_bounds s ctx _ x r Hp Hx Hr) as [Hb1 Hb2].
  assert (Hf : range_start r + 88 <= f /\ f + size_of_IrqFrame <= top_of r).
  { unfold f, frame_address, size_of_IrqFrame. lia. }
  destruct (irq_entry ra vector c (ram (mem s)) false 0 (Gdt.rsp0 (segments s))) as (m1 & Hfr & Hsame & Hrun);
    [apply Hh|done|ulia|lia|]. fold f in Hfr, Hsame, Hrun.
  exists m1. split; [apply Hf|]. split; [apply Hf|]. split; [exact Hfr|]. split; [|exact Hrun].
  apply pool_ram; [done|]. intros id y Hmade Hid Hy.
  assert (Hne : id <> current (sched s)).
  { intros ->. by rewrite (inv_current _ (po_sched _ _ _ _ Hp) Hc) in Hid. }
  destruct (po_ready _ _ _ _ Hp id y Hmade Hid Hy) as (q & Hq & A1 & A2 & _).
  apply Hsame. destruct (stopped_elsewhere s ctx id _ x y r q Hp Hne Hy Hq Hx Hr A1 A2); lia.
Qed.

(** [take_interrupt] once the entry is known. *)
Lemma take_interrupt_eq scratch ra s c vector f m1 :
  (forall h, interrupt h ra vector c (ram (mem s)) 0 (Gdt.rsp0 (segments s)) =
      match h (set_reg (gpr c) RDI f) (f - 8) m1 with
      | Some (g, m2) =>
          run h ra ((POP <$> restored_order) ++ [ADD_RSP 16; IRETQ])
            (mkCore g (if g RAX =? 0 then f else g RAX) (g RAX =? 0) m2)
      | None => Entered (set_reg (gpr c) RDI f) (f - 8) m1
      end) ->
  take_interrupt scratch ra s c vector =
    match irq_handler (with_ram s m1) f with
    | Done (s', ret) =>
        match run (fun g _ _ => Some (set_reg g RAX ret, scratch (ram (mem s')))) ra
                ((POP <$> restored_order) ++ [ADD_RSP 16; IRETQ])
                (mkCore (set_reg (set_reg (gpr c) RDI f) RAX ret) (if ret =? 0 then f else ret) (ret =? 0)
                   (scratch (ram (mem s')))) with
        | Resumed c' m2 => Some (with_ram s' m2, c')
        | _ => None
        end
    | Panic => None
    end.
Proof.
  intros Hrun. unfold take_interrupt. rewrite Hrun. cbv beta iota. rewrite set_reg_same.
  destruct (irq_handler (with_ram s m1) f) as [[s' ret]|]; [|reflexivity]. rewrite Hrun. cbv beta iota.
  rewrite set_reg_same. reflexivity.
Qed.

Lemma interrupt_switches scratch ra s ctx c vector next :
  pool s ctx -> running_in boot s c -> counters_ok (sched s) -> 0 <= vector < 256 -> is_u64 ra ->
  (is_exit vector = true -> idle_running (sched s) = false) ->
  stays_on_stack s c scratch -> next_thread vector (sched s) = Some next -> next ∉ unmade ->
  let ctx' := upd ctx (current (sched s)) (c, xmm s) in
  exists s' c', take_interrupt scratch ra s c vector = Some (s', c') /\
    current (sched s') = next /\ ready_queue (sched s') = next_queue vector (sched s) /\
    cpu_eq c' (fst (ctx' next)) /\ xmm s' = snd (ctx' next) /\
    pool s' ctx' /\ running_in boot s' c'.
Proof.
  intros Hp (Hc & x & r & Hx & Hr & Hh) Hn Hv Hra Hex Hscr Hnext Hmade ctx'.
  destruct (region_bounds s ctx _ x r Hp Hx Hr) as [Hb1 Hb2].
  destruct (interrupt_entry ra s ctx c vector x r Hp Hc Hx Hr Hh Hra Hv) as (m1 & Hf1 & Hf2 & Hfr & Hp1 & Hrun).
  set (f := frame_address c 0 (Gdt.rsp0 (segments s))) in *.
  destruct (handler_spec (with_ram s m1) ctx c vector next f x r) as
    (s' & ret & x' & Eh & Eram & Hp' & Hcur & Hq & Hxmm & Hx' & Hr' & Hu' & Hsaved & Hret); try done; [lia| |].
  { cbn [with_ram with_mem mem]. by rewrite ram_set_ram. }
  cbn [with_ram with_mem mem sched xmm] in Eram, Hp', Hxmm, Hret, Hx', Hr', Hsaved. rewrite ram_set_ram in Eram.
  fold ctx' in Hp', Hxmm.
  assert (Hp2 : pool (with_ram s' (scratch m1)) ctx').
  { apply pool_ram; [done|]. rewrite Eram. intros id y Hidu Hid Hy.
    destruct (po_ready _ _ _ _ Hp' id y Hidu Hid Hy) as (q & Hq' & A1 & A2 & _).
    intros a Ha. apply (Hscr x r); [done|done|].
    destruct (decide (id = current (sched s))) as [->|Hne].
    - rewrite Hx' in Hy. injection Hy as <-. rewrite (Hsaved Hid) in Ha. fold f. lia.
    - destruct (stopped_elsewhere s' ctx' id _ x' y r q Hp' Hne Hy Hq' Hx' Hr' A1 A2); fold f; lia. }
  rewrite (take_interrupt_eq scratch ra s c vector f m1 Hrun), Eh, Eram.
  destruct Hret as [[-> ->]|(Hne & y & q & Hy & Hq' & -> & A1 & A2 & A3 & A4 & A5)].
  - rewrite Z.eqb_refl.
    destruct (return_resumes (fun g _ _ => Some (set_reg g RAX 0, scratch m1)) ra
                (set_reg (set_reg (gpr c) RDI f) RAX 0) true (scratch m1) m1 f c) as (c' & Hres & Hcc);
      [lia|lia| |by apply (frame_context _ _ _ vector)|].
    { intros a Ha. apply (Hscr x r); [done|done|]. fold f. lia. }
    rewrite Hres. eexists _, c'. split; [reflexivity|].
    unfold ctx' in *. rewrite upd_same in Hxmm |- *. cbn [with_ram with_mem sched xmm fst snd] in *.
    split; [exact Hcur|]. split; [exact Hq|]. split; [exact Hcc|]. split; [exact Hxmm|]. split; [exact Hp2|].
    split; cbn [with_ram with_mem sched SLOTS]; rewrite Hcur; [done|].
    exists x', r. split_and!; [done|done|]. by rewrite Hcc, Hu'.
  - assert (Hy8 : 0 < ctx_rsp (context y) /\ ctx_rsp (context y) + size_of_IrqFrame <= U64_MAX).
    { destruct (region_bounds s' ctx' next y q Hp' Hy Hq'). lia. }
    assert (Hyscr : same_on (ctx_rsp (context y)) size_of_IrqFrame (scratch m1) m1).
    { intros a Ha. apply (Hscr x r); [exact Hx|exact Hr|].
      destruct (stopped_elsewhere s' ctx' next _ x' y r q Hp' Hne Hy Hq' Hx' Hr' A1 A2); fold f; lia. }
    rewrite (proj2 (Z.eqb_neq _ _)) by lia.
    match goal with |- context [run ?h ra _ (mkCore ?g ?t false ?m2)] =>
      destruct (return_resumes h ra g false m2 m1 t (fst (ctx next))) as (c' & Hres & Hcc); [lia|lia|exact Hyscr| |]
    end.
    { etransitivity; [|exact A3]. cbn [with_ram with_mem mem]. by rewrite ram_set_ram. }
    rewrite Hres. eexists _, c'. split; [reflexivity|].
    unfold ctx' in *. rewrite upd_other in Hxmm |- * by done. cbn [with_ram with_mem sched xmm] in *.
    split; [exact Hcur|]. split; [exact Hq|]. split; [exact Hcc|]. split; [exact Hxmm|]. split; [exact Hp2|].
    split; cbn [with_ram with_mem sched SLOTS]; rewrite Hcur.
    + intros E. apply get_in_range in Hy. rewrite (po_slots _ _ _ _ Hp'), E in Hy.
      unfold MAX_THREADS, NO_THREAD in Hy. ulia.
    + exists y, q. split_and!; [done|done|]. by rewrite Hcc.
Qed.

(** ** New threads *)

(** A new stack, taken from spare frames, and a frame on it. *)
(** The lent pages when a slot gets a new stack. *)
Lemma lent_placed (s s' : System K D) ctx id st sl :
  pool s ctx -> id ∈ unmade ->
  lent (mem s') = lent (mem s) ∪ list_to_set (range_pages st) ->
  SLOTS s' = <[Z.to_nat id := sl]> (SLOTS s) -> stack sl = Some st ->
  forall p, p ∈ lent (mem s') <->
    p ∈ others \/ exists j y r, get (SLOTS s') j = Some y /\ stack y = Some r /\ p ∈ range_pages r.
Proof.
  intros Hp Hid Hl Esl Estk p. pose proof (po_lent _ _ _ _ Hp) as P6.
  destruct (po_unmade _ _ _ _ Hp id Hid) as (_ & x0 & Hx0 & Hs0 & _). pose proof (get_in_range _ _ _ Hx0) as Hr.
  rewrite Hl, elem_of_union, elem_of_list_to_set, (P6 p). split.
  - intros [[Hin|(j & y & q & Hy & Hq & Hin)]|Hin]; [by left|right|right].
    + exists j, y, q. split_and!; [|done|done]. rewrite Esl, get_insert_ne; [done|lia|].
      intros ->. congruence.
    + exists id, sl, st. split_and!; [|done|done]. rewrite Esl. by apply get_insert_eq.
  - intros [Hin|(j & y & q & Hy & Hq & Hin)]; [by left; left|]. rewrite Esl in Hy.
    destruct (get_insert_cases _ _ _ _ _ Hr Hy) as [[-> ->]|[Hne Hy']]; [right; congruence|].
    left. right. by exists j, y, q.
Qed.

(** The scheduler makes an unused slot ready: a thread without a stack. *)
Lemma pool_register s ctx id x' :
  pool s ctx -> get (Sched.states (sched s)) id = Some Unused ->
  sched_inv x' -> Sched.states x' = <[Z.to_nat id := Ready]> (Sched.states (sched s)) ->
  current x' = current (sched s) ->
  @pool_with K D _ _ boot others ({[id]} ∪ unmade) (with_sched s x') ctx.
Proof.
  intros [P1 P2 P3 P4 P5 P6 P7 P8 P9 P10 P11 P12 P13] Hid Hinv Hst Hcur.
  pose proof (get_in_range _ _ _ Hid) as Hr.
  assert (Hstate : forall j q, get (Sched.states x') j = Some q ->
            (j = id /\ q = Ready) \/ (j <> id /\ get (Sched.states (sched s)) j = Some q)).
  { intros j q. rewrite Hst. by apply get_insert_cases. }
  constructor; cbn [with_sched sched mem SLOTS segments]; rewrite ?Hcur; try done.
  - intros j y Hj Hy. destruct (Hstate j _ Hj) as [[_ ?]|[Hne Hj']]; [done|]. by apply (P9 j).
  - intros j y Hju Hj Hy. destruct (Hstate j _ Hj) as [[-> _]|[Hne Hj']]; [set_solver|]. apply P12; [set_solver|done|done].
  - intros j Hj. destruct (decide (j = id)) as [->|Hne].
    + split; [rewrite Hst; by apply get_insert_eq|].
      destruct (get_lt_some (SLOTS s) id) as [y Hy]; [by rewrite P3, <- (si_states _ P1)|].
      destruct (P9 id y Hid Hy) as [Hn Hz]. exists y. split_and!; try done.
      destruct (user y) eqn:Eu; [|done]. destruct (P10 id y Hy Eu). congruence.
    + destruct (P13 j) as [Hrd Hsl]; [set_solver|]. split; [|done]. rewrite Hst, get_insert_ne by lia. done.
Qed.

(** A stack, taken from spare frames, and a frame on it, for a thread that has
    none. *)
Lemma pool_fill s s' ctx id st sl cv :
  pool s ctx -> id ∈ unmade -> sched s' = sched s ->
  stack_shape st -> list_to_set (range_pages st) ⊆ spare (mem s) ->
  source_ok (mem s') -> spare (mem s') = spare (mem s) ∖ list_to_set (range_pages st) ->
  lent (mem s') = lent (mem s) ∪ list_to_set (range_pages st) ->
  (forall a n, a + n <= range_start st \/ top_of st <= a -> same_on a n (ram (mem s')) (ram (mem s))) ->
  SLOTS s' = <[Z.to_nat id := sl]> (SLOTS s) -> stack sl = Some st -> kernel_stack_top sl = top_of st ->
  segments s' = segments s -> stopped_in (ram (mem s')) st sl cv ->
  @pool_with K D _ _ boot others (unmade ∖ {[id]}) s' (upd ctx id cv).
Proof.
  intros Hp Hid Esc Hsh Hpages Hok Hsp Hl Hram Esl Estk Etop Eseg Hstop.
  pose proof Hp as [P1 P2 P3 P4 P5 P6 P7 P8 P9 P10 P11 P12 P13].
  destruct (P13 id Hid) as (Hrd & x0 & Hx0 & Hs0 & _). pose proof (get_in_range _ _ _ Hx0) as Hr.
  assert (Hget : forall j y, get (SLOTS s') j = Some y ->
            (j = id /\ y = sl) \/ (j <> id /\ get (SLOTS s) j = Some y)).
  { intros j y. rewrite Esl. by apply get_insert_cases. }
  assert (Hnew : forall p, p ∈ range_pages st -> p ∈ spare (mem s) /\ p ∉ lent (mem s)).
  { intros p Hin. assert (p ∈ spare (mem s)) by (apply Hpages; by apply elem_of_list_to_set).
    split; [done|]. intros Hl'. exact (lent_spare (mem s) P2 p Hl' ltac:(done)). }
  assert (Hboot : apart st boot).
  { apply stack_apart_boot; [done|lia|]. intros p Hin. apply P5. by apply Hnew. }
  assert (Hap : forall j y q, get (SLOTS s) j = Some y -> stack y = Some q -> apart st q).
  { intros j y q Hy Hq. apply stacks_apart; [done|by apply (P7 j y q)|].
    intros p Hin Hin'. apply (proj2 (Hnew p Hin)), P6. right. by exists j, y, q. }
  constructor; rewrite ?Esc; try done.
  - by rewrite Esl, len_insert.
  - intros p. rewrite Hsp. intros [Hin _]%elem_of_difference. by apply P5.
  - by apply (lent_placed s s' ctx id st sl).
  - intros j y q Hy Hq. destruct (Hget j y Hy) as [[-> ->]|[Hne Hy']]; [|by apply (P7 j)].
    rewrite Estk in Hq. injection Hq as <-. split_and!; try done.
    intros p Hin Ho. apply (proj2 (Hnew p Hin)), P6. by left.
  - intros i j y z r1 r2 Hij Hy Hz Hr1 Hr2.
    destruct (Hget i y Hy) as [[-> ->]|[? Hy']], (Hget j z Hz) as [[-> ->]|[? Hz']]; [done|..|by apply (P8 i j y z)].
    + rewrite Estk in Hr1. injection Hr1 as <-. by apply (Hap j z).
    + rewrite Estk in Hr2. injection Hr2 as <-. destruct (Hap i y r1); [done|done|by right|by left].
  - intros j y Hj Hy. destruct (Hget j y Hy) as [[-> _]|[_ Hy']]; [congruence|]. by apply (P9 j).
  - intros j y Hy Hu. destruct (Hget j y Hy) as [[-> ->]|[Hne Hy']]; [by exists st|by apply (P10 j)].
  - rewrite Eseg. intros y Hc Hy. destruct (Hget _ y Hy) as [[E _]|[_ Hy']]; [|by apply P11].
    by rewrite <- E, (inv_current _ P1 Hc) in Hrd.
  - intros j y Hju Hj Hy. destruct (Hget j y Hy) as [[-> ->]|[Hne Hy']].
    + exists st. unfold region. rewrite Estk, upd_same. done.
    + rewrite upd_other by done. assert (Hju' : j ∉ unmade) by set_solver.
      destruct (P12 j y Hju' Hj Hy') as (q & Hq & A1 & A2 & A3 & A4). exists q. split; [done|].
      split_and!; [done|done| |apply A4|apply A4].
      rewrite (irq_frame_at_ext _ (ram (mem s))); [done|]. apply Hram.
      assert (Haq : apart st q).
      { unfold region in Hq. destruct (stack y) as [q'|] eqn:Eq; [injection Hq as ->; by apply (Hap j y)|].
        destruct (j =? 0); [by injection Hq as <-|done]. }
      unfold apart in Haq. lia.
  - intros j [Hj Hne]%elem_of_difference. rewrite elem_of_singleton in Hne.
    destruct (P13 j Hj) as [Hjr Hsl]. split; [done|]. by rewrite Esl, get_insert_ne by lia.
Qed.

End Pool.

(** Words written to a frame, read back. *)
Ltac frame_word :=
  repeat first [ rewrite read64_write64_ne by lia
               | rewrite read64_write64 by first [assumption | split; discriminate | ulia]
               | rewrite read64_zeroed by (unfold size_of_IrqFrame; lia) ].

(** The contexts the constructed frames describe. *)
Definition kernel_start (trampoline entry id top : Z) : cpu :=
  mkCpu (fun r => match r with RDI => entry | RSI => id | _ => 0 end)
        trampoline Gdt.KERNEL_CODE 0x202 (top - 8) Gdt.KERNEL_DATA.
Definition user_start (entry_va user_stack_top : Z) : cpu :=
  mkCpu (fun _ => 0) entry_va (Z.lor Gdt.USER_CODE 3) 0x202 user_stack_top (Z.lor Gdt.USER_DATA 3).

Lemma kernel_frame_read trampoline m f entry id top :
  is_u64 trampoline -> is_u64 entry -> is_u64 id -> 8 <= top <= U64_MAX ->
  irq_frame_at (write_kernel_frame trampoline m f entry id top) f =
    frame_of (kernel_start trampoline entry id top) Idt.YIELD_VECTOR.
Proof.
  intros Ht He Hi Htop. unfold irq_frame_at, frame_of, kernel_start, write_kernel_frame. cbv zeta.
  cbn [gpr rip code_seg rflags stack_ptr stack_seg].
  f_equal; frame_word; reflexivity.
Qed.

Lemma user_frame_read m f entry_va ust :
  is_u64 entry_va -> is_u64 ust ->
  irq_frame_at (write_user_frame m f entry_va ust) f = frame_of (user_start entry_va ust) Idt.YIELD_VECTOR.
Proof.
  intros He Hu. unfold irq_frame_at, frame_of, user_start, write_user_frame. cbv zeta.
  cbn [gpr rip code_seg rflags stack_ptr stack_seg].
  f_equal; frame_word; reflexivity.
Qed.

Lemma write_frame_same_on tr m f entry id top a n :
  a + n <= f \/ f + size_of_IrqFrame <= a -> same_on a n (write_kernel_frame tr m f entry id top) m.
Proof.
  unfold size_of_IrqFrame. intros Ha. unfold write_kernel_frame. cbv zeta.
  repeat (etransitivity; [apply write64_same_on; lia|]). apply write_bytes_same_on. unfold size_of_IrqFrame. lia.
Qed.

Lemma write_user_frame_same_on m f entry ust a n :
  a + n <= f \/ f + size_of_IrqFrame <= a -> same_on a n (write_user_frame m f entry ust) m.
Proof.
  unfold size_of_IrqFrame. intros Ha. unfold write_user_frame. cbv zeta.
  repeat (etransitivity; [apply write64_same_on; lia|]). apply write_bytes_same_on. unfold size_of_IrqFrame. lia.
Qed.

(** The floating point state a thread starts with. *)
Definition fx_initial : FxSaveArea :=
  Eval vm_compute in match fx_default_state with Done a => a | Panic => [] end.

Lemma fx_default_done : fx_default_state = Done fx_initial.
Proof. vm_compute. reflexivity. Qed.

Section Creation.
  Context {K D : Type} `{StackMemory K} `{PortIO D}.
  Context (boot : PhysRange) (others : gset Z) (trampoline : Z).
  Context (Htramp : is_u64 trampoline).
  Notation pool := (@pool_with K D _ _ boot others ∅).

Definition start_frame (st : PhysRange) : Z := top_of st - size_of_IrqFrame.

(** The state once [W] has written the first frame of thread [id] on [st]. *)
Definition placed (s : System K D) (k : K) (x' : Scheduler) (W : memory -> memory) (id e : Z) (u : bool)
    (st : PhysRange) : System K D :=
  with_slots (with_ram (with_mem (with_sched s x') k) (W (write64 (ram k) (range_start st) STACK_CANARY)))
    (<[Z.to_nat id := mkSlot (mkContext (start_frame st) id 0) (Some st) (range_start st) fx_initial e u (top_of st)]>
       (SLOTS s)).

Lemma prepare_stack_done s k x' id e st :
  stack_shape st -> 0 <= id < len (SLOTS s) ->
  prepare_stack trampoline (with_mem (with_sched s x') k) id e st =
    Done (placed s k x' (fun m => write_kernel_frame trampoline m (start_frame st) e id (top_of st)) id e false st).
Proof.
  intros [E1 _ E3 E4] Hid. unfold prepare_stack, placed. rewrite (proj2 (Z.eqb_eq _ _) E1). cbn [negb].
  unfold range_end, top_of, start_frame, MIN_FREE_ADDR, MAX_IDENTITY_BYTES in *.
  rewrite add64_done by ulia. cbn [exec_bind].
  rewrite sub64_done by (rewrite E1; change THREAD_STACK_SIZE with 16384; unfold size_of_IrqFrame; lia).
  cbn [exec_bind].
  rewrite (proj2 (Z.ltb_lt _ _)) by (rewrite E1; change THREAD_STACK_SIZE with 16384; unfold size_of_IrqFrame; lia).
  cbn [negb]. rewrite fx_default_done. cbn [exec_bind]. by rewrite set_slot_done.
Qed.

Lemma prepare_user_frame_done s k x' id e ust st :
  stack_shape st -> 0 <= id < len (SLOTS s) ->
  prepare_user_frame (with_mem (with_sched s x') k) id e ust st =
    Done (placed s k x' (fun m => write_user_frame m (start_frame st) e ust) id e true st).
Proof.
  intros [E1 _ E3 E4] Hid. unfold prepare_user_frame, placed.
  unfold range_end, top_of, start_frame, MIN_FREE_ADDR, MAX_IDENTITY_BYTES in *.
  rewrite add64_done by ulia. cbn [exec_bind].
  rewrite sub64_done by (rewrite E1; change THREAD_STACK_SIZE with 16384; unfold size_of_IrqFrame; lia).
  cbn [exec_bind].
  rewrite fx_default_done. cbn [exec_bind]. by rewrite set_slot_done.
Qed.

(** What a successful creation establishes. *)
Definition started (s s' : System K D) (ctx : Z -> cpu * FxSaveArea) (id : Z) (st : PhysRange) (c : cpu) : Prop :=
  pool s' (upd ctx id (c, fx_initial)) /\
  get (Sched.states (sched s)) id = Some Unused /\ get (Sched.states (sched s')) id = Some Ready /\
  (exists y, get (SLOTS s') id = Some y /\ stack y = Some st) /\
  (forall j, j <> id -> get (SLOTS s') j = get (SLOTS s) j) /\
  lent (mem s') = lent (mem s) ∪ list_to_set (range_pages st) /\
  list_to_set (range_pages st) ⊆ spare (mem s) /\ list_to_set (range_pages st) ## lent (mem s) /\
  read64 (ram (mem s')) (range_start st) = STACK_CANARY /\
  (forall a n, a + n <= range_start st \/ top_of st <= a -> same_on a n (ram (mem s')) (ram (mem s))) /\
  current (sched s') = current (sched s) /\ xmm s' = xmm s /\
  spare (mem s') = spare (mem s) ∖ list_to_set (range_pages st).

(** The memory a new stack leaves alone. *)
Lemma placed_memory (m : memory) W st :
  stack_shape st ->
  (forall m a n, a + n <= start_frame st \/ start_frame st + size_of_IrqFrame <= a -> same_on a n (W m) m) ->
  (forall a n, a + n <= range_start st \/ top_of st <= a ->
     same_on a n (W (write64 m (range_start st) STACK_CANARY)) m) /\
  read64 (W (write64 m (range_start st) STACK_CANARY)) (range_start st) = STACK_CANARY.
Proof.
  intros [E1 _ E3 E4] HW.
  assert (Hfr : start_frame st = range_start st + 16208).
  { unfold start_frame, top_of, size_of_IrqFrame. rewrite E1. change THREAD_STACK_SIZE with 16384. lia. }
  assert (Htop : top_of st = range_start st + 16384).
  { unfold top_of. rewrite E1. reflexivity. }
  split.
  - intros a n Ha. etransitivity; [apply HW; unfold size_of_IrqFrame; lia|]. apply write64_same_on. lia.
  - rewrite (read64_ext _ (write64 m (range_start st) STACK_CANARY)); [apply read64_write64; split; discriminate|].
    apply HW. lia.
Qed.

(** The second half of a creation: a thread without a stack gets one. *)
Lemma place_filled {unmade} s k ctx W id e u st c :
  @pool_with K D _ _ boot others unmade s ctx -> id ∈ unmade ->
  stack_shape st -> list_to_set (range_pages st) ⊆ spare (mem s) ->
  source_ok k -> spare k = spare (mem s) ∖ list_to_set (range_pages st) ->
  lent k = lent (mem s) ∪ list_to_set (range_pages st) -> ram k = ram (mem s) ->
  (forall m a n, a + n <= start_frame st \/ start_frame st + size_of_IrqFrame <= a -> same_on a n (W m) m) ->
  (forall m, irq_frame_at (W m) (start_frame st) = frame_of c Idt.YIELD_VECTOR) -> at_home st u c ->
  @pool_with K D _ _ boot others (unmade ∖ {[id]}) (placed s k (sched s) W id e u st) (upd ctx id (c, fx_initial)).
Proof.
  intros Hp Hid Hsh Hpg Hok Hsp Hl Hram HW Hf Hh. pose proof Hsh as [E1 _ E3 E4].
  assert (Hfr : start_frame st = range_start st + 16208).
  { unfold start_frame, top_of, size_of_IrqFrame. rewrite E1. change THREAD_STACK_SIZE with 16384. lia. }
  eapply (pool_fill boot others s _ ctx id st); try exact Hp; try exact Hid; unfold placed;
    cbn [sched mem SLOTS segments with_slots with_ram with_mem with_sched];
    rewrite ?ram_set_ram, ?set_ram_lent, ?set_ram_spare; try done; [by apply set_ram_source_ok| |].
  - rewrite <- Hram. by apply placed_memory.
  - split_and!; cbn [context ctx_rsp fx user fst snd]; try done; [lia|unfold start_frame, size_of_IrqFrame; lia|].
    by apply (frame_context _ _ _ Idt.YIELD_VECTOR).
Qed.

Lemma place_started s k x' ctx W id e u st c :
  pool s ctx -> get (Sched.states (sched s)) id = Some Unused ->
  sched_inv x' -> Sched.states x' = <[Z.to_nat id := Ready]> (Sched.states (sched s)) ->
  current x' = current (sched s) -> stack_shape st -> list_to_set (range_pages st) ⊆ spare (mem s) ->
  source_ok k -> spare k = spare (mem s) ∖ list_to_set (range_pages st) ->
  lent k = lent (mem s) ∪ list_to_set (range_pages st) -> ram k = ram (mem s) ->
  (forall m a n, a + n <= start_frame st \/ start_frame st + size_of_IrqFrame <= a -> same_on a n (W m) m) ->
  (forall m, irq_frame_at (W m) (start_frame st) = frame_of c Idt.YIELD_VECTOR) -> at_home st u c ->
  started s (placed s k x' W id e u st) ctx id st c.
Proof.
  intros Hp Hid Hinv Hst Hcur Hsh Hpg Hok Hsp Hl Hram HW Hf Hh.
  pose proof (get_in_range _ _ _ Hid) as Hr. pose proof Hr as Hr'.
  rewrite (si_states _ (po_sched _ _ _ _ Hp)), <- (po_slots _ _ _ _ Hp) in Hr'.
  pose proof (placed_memory (ram k) W st Hsh HW) as [Hm0 Hcan].
  assert (Hm : forall a n, a + n <= range_start st \/ top_of st <= a ->
            same_on a n (W (write64 (ram k) (range_start st) STACK_CANARY)) (ram (mem s))).
  { intros a n Ha. rewrite <- Hram. by apply Hm0. }
  pose proof (pool_register boot others s ctx id x' Hp Hid Hinv Hst Hcur) as Hp1.
  assert (Hnew : id ∈ ({[id]} ∪ ∅ : gset Z)) by set_solver.
  pose proof (place_filled (with_sched s x') k ctx W id e u st c Hp1 Hnew Hsh Hpg Hok Hsp Hl Hram HW Hf Hh) as Hp2.
  replace (({[id]} ∪ ∅) ∖ {[id]} : gset Z) with (∅ : gset Z) in Hp2 by set_solver.
  split; [exact Hp2|].
  unfold placed. cbn [sched mem SLOTS segments with_slots with_ram with_mem with_sched xmm].
  rewrite ram_set_ram, set_ram_lent, set_ram_spare.
  split; [done|]. split; [by rewrite Hst, get_insert_eq|]. split; [eexists; split; [by apply get_insert_eq|done]|].
  split; [intros j Hj; apply get_insert_ne; lia|].
  split; [done|]. split; [done|]. split; [|done].
  intros p Hin Hin'. apply Hpg in Hin. exact (lent_spare _ (po_source _ _ _ _ Hp) p Hin' Hin).
Qed.

Lemma kernel_start_at_home st e id :
  stack_shape st -> is_u64 e -> 0 <= id < MAX_THREADS -> at_home st false (kernel_start trampoline e id (top_of st)).
Proof.
  intros [E1 [k A] E3 E4] He Hid. unfold top_of in *. unfold MIN_FREE_ADDR, MAX_IDENTITY_BYTES in *.
  assert (E5 : range_len st = 16384) by exact E1. unfold MAX_THREADS in Hid.
  split.
  - split_and!; cbn [gpr rip code_seg rflags stack_ptr stack_seg kernel_start]; try done; try (split; discriminate).
    + intros []; first [exact He | split; discriminate | ulia].
    + ulia.
  - cbn [code_seg stack_ptr kernel_start]. change (Z.land Gdt.KERNEL_CODE 3 =? 0) with true. cbv iota.
    unfold top_of. rewrite E5, A. unfold PAGE_SIZE.
    replace (k * 4096 + 16384 - 8) with (8 + (k * 256 + 1023) * 16) by lia. rewrite Z.mod_add by lia.
    change (8 mod 16) with 8. lia.
Qed.

(** Taking the frames for a stack. *)
Lemma take_stack (s : System K D) :
  source_ok (mem s) ->
  (exists st k, take_frames (mem s) THREAD_STACK_PAGES = Done (k, Some st) /\ stack_shape st /\ source_ok k /\
     list_to_set (range_pages st) ⊆ spare (mem s) /\
     spare k = spare (mem s) ∖ list_to_set (range_pages st) /\
     lent k = lent (mem s) ∪ list_to_set (range_pages st) /\ ram k = ram (mem s)) \/
  (exists k, take_frames (mem s) THREAD_STACK_PAGES = Done (k, None) /\ source_ok k /\
     spare k = spare (mem s) /\ lent k = lent (mem s) /\ ram k = ram (mem s)).
Proof.
  intros Hok. destruct (take_frames_law (mem s) THREAD_STACK_PAGES Hok) as
    [(st & k & E & Hk & T1 & T2 & T3 & T4 & T5 & T6 & T7)|(k & E & Hk & T1 & T2)]; [unfold THREAD_STACK_PAGES; lia|left|right].
  - exists st, k. split; [done|]. split; [by constructor|]. split_and!; try done. by apply (take_frames_ram _ _ _ _ E).
  - exists k. split_and!; try done. by apply (take_frames_ram _ _ _ _ E).
Qed.

(** The three ways to make a thread, and the context each starts in. *)
Inductive request : Type :=
| KernelThread (entry : Z)
| IdleThread (entry : Z)
| UserThread (entry_va user_stack_top : Z).

Definition perform (q : request) (s : System K D) : exec (System K D * Result Z CreateError) :=
  match q with
  | KernelThread e => create trampoline s e
  | IdleThread e => create_idle trampoline s e
  | UserThread e ust => create_user s e ust
  end.

Definition start_context (q : request) (id : Z) (st : PhysRange) : cpu :=
  match q with
  | KernelThread e | IdleThread e => kernel_start trampoline e id (top_of st)
  | UserThread e ust => user_start e ust
  end.

Definition request_ok (q : request) : Prop :=
  match q with
  | KernelThread e | IdleThread e => is_u64 e
  | UserThread e ust => is_u64 e /\ is_u64 ust
  end.

(** The scheduler's part of a request. *)
Definition request_slot (q : request) (x : Scheduler) : exec (Scheduler * Result Z SchedError) :=
  match q with IdleThread _ => register_idle_any x | _ => Sched.create x end.

Definition request_queue (q : request) (id : Z) : list Z :=
  match q with IdleThread _ => [] | _ => [id] end.

(** What is left of a request once thread [id] is registered. *)
Definition complete (q : request) (s : System K D) (id : Z) : exec (System K D * Result Z CreateError) :=
  match q with
  | KernelThread e | IdleThread e => create_with_id trampoline s id e
  | UserThread e ust =>
      let! (k, r) := take_frames (mem s) THREAD_STACK_PAGES in
      let s := with_mem s k in
      match r with
      | None => Done (s, Err NoStack)
      | Some st =>
          let! s := prepare_user_frame s id e ust st in
          Done (s, Ok id)
      end
  end.

Lemma perform_in_two_halves q s :
  perform q s =
    let! (x, r) := request_slot q (sched s) in
    match r with
    | Err _ => Done (with_sched s x, Err NoFreeSlot)
    | Ok id => complete q (with_sched s x) id
    end.
Proof.
  destruct q; unfold perform, create, create_idle, create_user; cbn [request_slot complete];
    repeat case_match; reflexivity.
Qed.

Lemma request_slot_spec q x :
  sched_inv x ->
  (exists x' id, request_slot q x = Done (x', Ok id) /\ sched_inv x' /\ current x' = current x /\
     get (Sched.states x) id = Some Unused /\ Sched.states x' = <[Z.to_nat id := Ready]> (Sched.states x) /\
     ready_queue x' = ready_queue x ++ request_queue q id) \/
  (exists e, request_slot q x = Done (x, Err e) /\
     ((forall id, get (Sched.states x) id <> Some Unused) \/ (idle x <> NO_THREAD /\ exists z, q = IdleThread z))).
Proof.
  intros Hinv. destruct q as [z|z|z w]; cbn [request_slot request_queue].
  2: { pose proof (register_idle_any_spec x Hinv) as Hs.
       destruct (position _ _) as [id|] eqn:Ep.
       - destruct (Z.eqb_spec (idle x) NO_THREAD) as [|Hi].
         + destruct Hs as (x' & E & I1 & _ & I3 & I4 & _). left. exists x', id.
           destruct (register_idle_states x x' id E) as [S1 S2]. rewrite app_nil_r. done.
         + right. eexists. split; [exact Hs|]. right. split; [done|by eexists].
       - right. eexists. split; [exact Hs|]. left. by apply position_absent. }
  all: pose proof (create_spec x Hinv) as Hs; destruct (position _ _) as [id|] eqn:Ep;
    [destruct Hs as (x' & E & I1 & I2 & I3 & _); left; exists x', id;
     destruct (create_states x x' id E) as [S1 S2]; done
    |right; eexists; split; [exact Hs|]; left; by apply position_absent].
Qed.

(** Only the source of frames changed, and not what it has lent. *)
Lemma pool_mem {unmade} s ctx k :
  @pool_with K D _ _ boot others unmade s ctx -> source_ok k -> spare k = spare (mem s) -> lent k = lent (mem s) ->
  ram k = ram (mem s) -> @pool_with K D _ _ boot others unmade (with_mem s k) ctx.
Proof.
  intros [P1 P2 P3 P4 P5 P6 P7 P8 P9 P10 P11 P12 P13] Hok Hsp Hl Hram.
  constructor; cbn [with_mem mem sched SLOTS segments]; rewrite ?Hsp, ?Hl, ?Hram; done.
Qed.

(** The second half, for a thread without a stack: it gets a fresh one and its
    first frame, or stays as it was. *)
Lemma complete_spec {unmade} q s ctx id :
  @pool_with K D _ _ boot others unmade s ctx -> id ∈ unmade -> request_ok q ->
  (exists st k W e u, complete q s id = Done (placed s k (sched s) W id e u st, Ok id) /\ stack_shape st /\
     source_ok k /\ list_to_set (range_pages st) ⊆ spare (mem s) /\
     spare k = spare (mem s) ∖ list_to_set (range_pages st) /\
     lent k = lent (mem s) ∪ list_to_set (range_pages st) /\ ram k = ram (mem s) /\
     (forall m a n, a + n <= start_frame st \/ start_frame st + size_of_IrqFrame <= a -> same_on a n (W m) m) /\
     (forall m, irq_frame_at (W m) (start_frame st) = frame_of (start_context q id st) Idt.YIELD_VECTOR) /\
     at_home st u (start_context q id st)) \/
  (exists k, complete q s id = Done (with_mem s k, Err NoStack) /\ source_ok k /\
     spare k = spare (mem s) /\ lent k = lent (mem s) /\ ram k = ram (mem s)).
Proof.
  intros Hp Hid Hq. destruct (po_unmade _ _ _ _ Hp id Hid) as (_ & x0 & Hx0 & _). pose proof (get_in_range _ _ _ Hx0) as Hr.
  pose proof Hr as Hr'. rewrite (po_slots _ _ _ _ Hp) in Hr'.
  assert (Es : forall k, with_mem s k = with_mem (with_sched s (sched s)) k) by (intros k; by destruct s).
  destruct (take_stack s (po_source _ _ _ _ Hp)) as
    [(st & k & T & T1 & T2 & T3 & T4 & T5 & T6)|(k & T & T1 & T2 & T3 & T4)]; [left|right].
  - assert (Htop : 8 <= top_of st <= U64_MAX).
    { destruct T1 as [L1 L2 L3 L4]. unfold top_of, MIN_FREE_ADDR, MAX_IDENTITY_BYTES in *.
      rewrite L1 in *. change THREAD_STACK_SIZE with 16384 in *. ulia. }
    destruct q as [z|z|z w]; cbn [complete start_context request_ok] in *; [unfold create_with_id|unfold create_with_id|];
      rewrite T; cbn [exec_bind]; rewrite (Es k).
    1, 2: rewrite (proj2 (Z.ltb_lt _ _)) by lia; cbn [negb]; rewrite prepare_stack_done by done; cbn [exec_bind];
      eexists st, k, _, z, false; (split; [reflexivity|]); split_and!; try done;
        [intros m a n Ha; by apply write_frame_same_on
        |intros m; apply kernel_frame_read; try done; unfold MAX_THREADS in Hr'; ulia
        |by apply kernel_start_at_home..].
    rewrite prepare_user_frame_done by done; cbn [exec_bind]. destruct Hq as [Hz Hw].
    eexists st, k, _, z, true. split; [reflexivity|]. split_and!; try done;
      [intros m a n Ha; by apply write_user_frame_same_on|intros m; by apply user_frame_read].
  - exists k. split_and!; try done.
    destruct q; cbn [complete]; [unfold create_with_id|unfold create_with_id|]; rewrite T; reflexivity.
Qed.

Lemma perform_spec q s ctx :
  pool s ctx -> request_ok q ->
  exists s' r, perform q s = Done (s', r) /\
    match r with
    | Ok id => exists st, started s s' ctx id st (start_context q id st) /\
        ready_queue (sched s') = ready_queue (sched s) ++ request_queue q id
    | Err NoFreeSlot => s' = s /\
        ((forall id, get (Sched.states (sched s)) id <> Some Unused) \/
         (idle (sched s) <> NO_THREAD /\ exists e, q = IdleThread e))
    | Err NoStack => lent (mem s') = lent (mem s) /\ spare (mem s') = spare (mem s) /\
        ram (mem s') = ram (mem s) /\ SLOTS s' = SLOTS s /\ source_ok (mem s') /\
        exists id, get (Sched.states (sched s)) id = Some Unused /\ get (Sched.states (sched s')) id = Some Ready /\
          ready_queue (sched s') = ready_queue (sched s) ++ request_queue q id
    end.
Proof.
  intros Hp Hq. rewrite perform_in_two_halves.
  destruct (request_slot_spec q (sched s) (po_sched _ _ _ _ Hp)) as
    [(x' & id & E & I1 & I2 & I3 & I4 & I5)|(e & E & Hfull)]; rewrite E; cbn [exec_bind].
  2: { exists s, (Err NoFreeSlot). split; [by destruct s|by split]. }
  pose proof (get_in_range _ _ _ I3) as Hr.
  pose proof (pool_register boot others s ctx id x' Hp I3 I1 I4 I2) as Hp1.
  destruct (complete_spec q _ ctx id Hp1 ltac:(set_solver) Hq) as
    [(st & k & W & z & u & -> & T1 & T2 & T3 & T4 & T5 & T6 & T7 & T8 & T9)|(k & -> & T1 & T2 & T3 & T4)].
  - eexists _, _. split; [reflexivity|]. exists st. split; [|exact I5].
    by apply (place_started s k x' ctx W id z u st).
  - eexists _, _. split; [reflexivity|]. cbn [mem SLOTS with_mem with_sched sched]. split_and!; try done.
    exists id. split; [done|]. split; [by rewrite I4, get_insert_eq|done].
Qed.

End Creation.

(** ** A thread whose stack could not be allocated

    The comment of [create] promises that a failure returns what was taken.
    The scheduler's slot is not: the thread stays queued with a null frame
    pointer, and the switch to it answers 0, which [irq_common] reads as "keep
    the interrupted thread" while the scheduler counts the new one as running. *)
Lemma nostack_thread_stays_queued {K D : Type} `{StackMemory K} `{PortIO D} boot others trampoline
    (s s' : System K D) ctx entry :
  pool_ok boot others s ctx -> is_u64 trampoline -> is_u64 entry ->
  create trampoline s entry = Done (s', Err NoStack) ->
  exists id y, id ∈ ready_queue (sched s') /\ get (SLOTS s') id = Some y /\ stack y = None /\
    ctx_rsp (context y) = 0 /\
    forall from x frame, from <> id -> get (SLOTS s') from = Some x ->
      exists s'', switch_to s' from id frame = Done (s'', 0).
Proof.
  intros Hp Ht He Hc. destruct (perform_spec boot others trampoline Ht (KernelThread entry) s ctx Hp He)
    as (s1 & r & E & Hr). cbn [perform] in E. rewrite Hc in E. injection E as <- <-.
  destruct Hr as (_ & _ & _ & Es & _ & id & Hu & Hrd & Hq).
  destruct (get_lt_some (SLOTS s) id) as [y Hy].
  { rewrite (po_slots _ _ _ _ Hp). by apply (inv_state_range _ (po_sched _ _ _ _ Hp) _ _ Hu). }
  destruct (po_unused _ _ _ _ Hp id y Hu Hy) as [Hn Hz].
  exists id, y. rewrite Es, Hq. split; [apply elem_of_app; right; by left|]. split_and!; try done.
  intros from x frame Hne Hx. rewrite <- Es in Hx, Hy.
  rewrite (switch_to_eq s' from id frame x y); [rewrite Hz; by eexists| |done|done|done].
  by rewrite Es, (po_slots _ _ _ _ Hp).
Qed.

(** ** Bounded waiting *)
Fixpoint polls {S R : Type} (poll : S -> R * S) (n : nat) (s : S) : S :=
  match n with O => s | Datatypes.S n => polls poll n (snd (poll s)) end.

(** [wait_until] answers [true] exactly when one of its first [budget + 1]
    evaluations does, and [wait_for_ticks] a count exactly when one of its
    readings reaches the wanted one. *)
Lemma wait_until_exact {S : Type} (poll : S -> bool * S) budget s :
  0 <= budget ->
  fst (wait_until poll budget s) = true <->
  exists i : nat, Z.of_nat i <= budget /\ fst (poll (polls poll i s)) = true.
Proof.
  intros Hb. unfold wait_until. rewrite <- (Z2Nat.id budget Hb). generalize (Z.to_nat budget) as n. clear Hb.
  intros n. rewrite Nat2Z.id. revert s. induction n as [|n IH]; intros s; cbn [wait_loop]; destruct (poll s) as [ok s1] eqn:E.
  all: destruct ok; cbn [fst]; [split; [|done]; intros _; exists O; cbn [polls]; rewrite E; split; [lia|done]|].
  - split; [done|]. intros (i & Hi & Hp). replace i with O in Hp by lia. cbn [polls] in Hp. by rewrite E in Hp.
  - rewrite IH. split.
    + intros (i & Hi & Hp). exists (Datatypes.S i). cbn [polls]. rewrite E. split; [lia|done].
    + intros ([|i] & Hi & Hp); cbn [polls] in Hp; rewrite E in Hp; [done|]. exists i. split; [lia|done].
Qed.

Lemma wait_for_ticks_bound {S : Type} (read : S -> Z * S) wanted s t :
  fst (wait_for_ticks read wanted s) = Some t -> wanted <= t.
Proof.
  unfold wait_for_ticks. generalize (Z.to_nat SPIN_BUDGET) as n. intros n. revert s.
  induction n as [|n IH]; intros s; cbn [ticks_loop]; destruct (read s) as [v s1];
    destruct (Z.leb_spec wanted v); cbn [fst]; try done.
  all: first [by intros [= <-] | apply IH].
Qed.

(** ** Runs of the machine *)
Section Runs.
  Context {K D : Type} `{StackMemory K} `{PortIO D}.
  Variable boot : PhysRange.
  Variable trampoline : Z.

(** The system, the context the processor is in, for each stopped thread the
    context it was stopped in, and the threads that are ready without a stack. *)
Record World : Type := mkWorld {
  sys : System K D;
  cpu_in : cpu;
  contexts : Z -> cpu * FxSaveArea;
  without_stack : gset Z
}.

(** Writes that leave the saved frames of stopped threads alone. *)
Definition respects_frames (s : System K D) (unmade : gset Z) (m : memory) : Prop :=
  forall id x, id ∉ unmade -> get (Sched.states (sched s)) id = Some Ready -> get (SLOTS s) id = Some x ->
    same_on (ctx_rsp (context x)) size_of_IrqFrame m (ram (mem s)).

(** An interrupt the kernel allows for: counters in range, an exit only by a
    thread other than idle and with a successor. *)
Definition interrupt_ok (s : System K D) (c : cpu) (scratch : memory -> memory) (ra vector next : Z) : Prop :=
  counters_ok (sched s) /\ 0 <= vector < 256 /\ is_u64 ra /\
  (is_exit vector = true -> idle_running (sched s) = false) /\
  stays_on_stack boot s c scratch /\ next_thread vector (sched s) = Some next.

(** The running thread computes; an interrupt is taken that does not choose a
    thread without a stack; a creation registers its thread, or finds no slot;
    later it gives the thread its stack, or finds no frames.  Between the two
    halves of a creation anything else may happen. *)
Inductive mstep : World -> World -> Prop :=
| step_run s c ctx un c' m x :
    running_in boot s c' -> respects_frames s un m ->
    mstep (mkWorld s c ctx un) (mkWorld (with_xmm (with_ram s m) x) c' ctx un)
| step_interrupt s c ctx un scratch ra vector next s' c' :
    interrupt_ok s c scratch ra vector next -> next ∉ un ->
    take_interrupt scratch ra s c vector = Some (s', c') ->
    mstep (mkWorld s c ctx un) (mkWorld s' c' (upd ctx (current (sched s)) (c, xmm s)) un)
| step_register s c ctx un q x id :
    request_slot q (sched s) = Done (x, Ok id) ->
    mstep (mkWorld s c ctx un) (mkWorld (with_sched s x) c ctx ({[id]} ∪ un))
| step_no_slot s c ctx un q x e :
    request_slot q (sched s) = Done (x, Err e) ->
    mstep (mkWorld s c ctx un) (mkWorld (with_sched s x) c ctx un)
| step_complete s c ctx un q id s' y st :
    request_ok q -> id ∈ un -> complete trampoline q s id = Done (s', Ok id) ->
    get (SLOTS s') id = Some y -> stack y = Some st ->
    mstep (mkWorld s c ctx un) (mkWorld s' c (upd ctx id (start_context trampoline q id st, fx_initial)) (un ∖ {[id]}))
| step_no_stack s c ctx un q id s' e :
    request_ok q -> id ∈ un -> complete trampoline q s id = Done (s', Err e) ->
    mstep (mkWorld s c ctx un) (mkWorld s' c ctx un).

Definition world_ok (others : gset Z) (w : World) : Prop :=
  pool_with boot others (without_stack w) (sys w) (contexts w) /\ running_in boot (sys w) (cpu_in w).

(** The running thread goes on when its own slot and its number stay. *)
Lemma running_kept (s s' : System K D) c :
  current (sched s') = current (sched s) -> get (SLOTS s') (current (sched s)) = get (SLOTS s) (current (sched s)) ->
  running_in boot s c -> running_in boot s' c.
Proof.
  intros Hcur Hsl (Hc & x & r & Hx & Hr & Hh). split; rewrite Hcur; [done|]. exists x, r. by rewrite Hsl.
Qed.

Lemma started_running others (s s' : System K D) ctx id st c c0 :
  pool_ok boot others s ctx -> started boot others s s' ctx id st c ->
  running_in boot s c0 -> running_in boot s' c0.
Proof.
  intros Hp (_ & Hu & _ & _ & Hsl & _ & _ & _ & _ & _ & Hcur & _) Hrun. pose proof Hrun as [Hc _].
  apply (running_kept s); try done. apply Hsl. intros E.
  by rewrite <- E, (inv_current _ (po_sched _ _ _ _ Hp) Hc) in Hu.
Qed.

Lemma mstep_creates others w w' :
  is_u64 trampoline -> world_ok others w ->
  (exists s c ctx un q id, w = mkWorld s c ctx un /\ request_ok q /\ id ∈ un /\
     ((exists s' y st, complete trampoline q s id = Done (s', Ok id) /\ get (SLOTS s') id = Some y /\ stack y = Some st /\
         w' = mkWorld s' c (upd ctx id (start_context trampoline q id st, fx_initial)) (un ∖ {[id]})) \/
      exists s' e, complete trampoline q s id = Done (s', Err e) /\ w' = mkWorld s' c ctx un)) ->
  world_ok others w'.
Proof.
  intros Ht [Hp Hr] (s & c & ctx & un & q & id & -> & Hq & Hid & Hcase). cbn [sys cpu_in contexts without_stack] in *.
  pose proof Hr as [Hc _]. destruct (po_unmade _ _ _ _ Hp id Hid) as [Hrd (x0 & Hx0 & _)].
  pose proof (get_in_range _ _ _ Hx0) as Hir.
  assert (Hne : id <> current (sched s)).
  { intros ->. by rewrite (inv_current _ (po_sched _ _ _ _ Hp) Hc) in Hrd. }
  destruct (complete_spec boot others trampoline Ht q s ctx id Hp Hid Hq) as
    [(st & k & W & z & u & E & T1 & T2 & T3 & T4 & T5 & T6 & T7 & T8 & T9)|(k & E & T1 & T2 & T3 & T4)];
    destruct Hcase as [(s' & y & st' & E' & Hy & Hst & ->)|(s' & e & E' & ->)]; rewrite E in E'; try discriminate E'.
  - injection E' as <-. unfold placed in Hy. cbn [SLOTS with_slots] in Hy. rewrite get_insert_eq in Hy by done.
    injection Hy as <-. cbn [stack] in Hst. injection Hst as <-. split; cbn [sys cpu_in contexts without_stack].
    + by apply place_filled.
    + apply (running_kept s); [done| |done]. unfold placed. cbn [SLOTS with_slots]. apply get_insert_ne; lia.
  - injection E' as <- _. split; cbn [sys cpu_in contexts without_stack]; [by apply pool_mem|exact Hr].
Qed.

Lemma mstep_ok others w w' : is_u64 trampoline -> world_ok others w -> mstep w w' -> world_ok others w'.
Proof.
  intros Ht [Hp Hr] Hs.
  destruct Hs as [s c ctx un c' m x Hr' Hm|s c ctx un scratch ra v next s' c' Hi Hmade E|s c ctx un q x id E
                 |s c ctx un q x e E|s c ctx un q id s' y st Hq Hid E Hy Hst|s c ctx un q id s' e Hq Hid E];
    cbn [sys cpu_in contexts without_stack] in *.
  - split; cbn [sys cpu_in contexts without_stack]; [|exact Hr'].
    pose proof (pool_ram boot others s ctx m Hp Hm) as [P1 P2 P3 P4 P5 P6 P7 P8 P9 P10 P11 P12 P13].
    by constructor.
  - destruct Hi as (I1 & I2 & I3 & I4 & I5 & I6).
    destruct (interrupt_switches boot others scratch ra s ctx c v next Hp Hr I1 I2 I3 I4 I5 I6 Hmade)
      as (s2 & c2 & E2 & _ & _ & _ & _ & Hp2 & Hr2).
    rewrite E in E2. injection E2 as <- <-. split; [exact Hp2|exact Hr2].
  - destruct (request_slot_spec q (sched s) (po_sched _ _ _ _ Hp)) as
      [(x' & i & E' & I1 & I2 & I3 & I4 & _)|(e & E' & _)]; rewrite E in E'; [|discriminate E'].
    injection E' as <- <-. split; cbn [sys cpu_in contexts without_stack]; [by apply pool_register|].
    by apply (running_kept s).
  - destruct (request_slot_spec q (sched s) (po_sched _ _ _ _ Hp)) as [(x' & i & E' & _)|(e' & E' & _)];
      rewrite E in E'; [discriminate E'|]. injection E' as -> _. split; cbn [sys cpu_in contexts without_stack].
    + by destruct s.
    + by destruct s.
  - apply (mstep_creates others (mkWorld s c ctx un)); [done|by split|]. exists s, c, ctx, un, q, id. split_and!; try done.
    left. by exists s', y, st.
  - apply (mstep_creates others (mkWorld s c ctx un)); [done|by split|]. exists s, c, ctx, un, q, id. split_and!; try done.
    right. by exists s', e.
Qed.

Lemma runs_ok others w w' :
  is_u64 trampoline -> world_ok others w -> clos_refl_trans World mstep w w' -> world_ok others w'.
Proof. intros Ht Hw Hs. induction Hs as [w w' Hs|w|w1 w2 w3 _ IH1 _ IH2]; [exact (mstep_ok others w w' Ht Hw Hs)|exact Hw|exact (IH2 (IH1 Hw))]. Qed.

End Runs.
Arguments World : clear implicits.

Section Stacks.
  Context {K D : Type} `{StackMemory K} `{PortIO D}.

Lemma reap_lent boot others (s : System K D) ctx :
  pool_ok boot others s ctx ->
  exists s', reap_exited s = Done s' /\ pool_ok boot others s' ctx /\
    (forall j, get (Sched.states (sched s')) j <> Some Exited) /\
    (forall p, p ∈ lent (mem s') <-> p ∈ lent (mem s) /\
       forall j x r, get (Sched.states (sched s)) j = Some Exited -> get (SLOTS s) j = Some x ->
         stack x = Some r -> p ∉ range_pages r).
Proof.
  intros Hp. destruct (reap_exited_spec boot others s ctx Hp) as (s' & E & Hp' & Hk & Hno).
  exists s'. split; [done|]. split; [done|]. split; [done|]. intros p.
  rewrite (po_lent _ _ _ _ Hp' p), (po_lent _ _ _ _ Hp p).
  assert (Hlive : forall j x r, get (SLOTS s') j = Some x -> stack x = Some r ->
            get (SLOTS s) j = Some x /\ get (Sched.states (sched s)) j <> Some Exited).
  { intros j x r Hx Hr. destruct (get_lt_some (Sched.states (sched s)) j) as [st Hst].
    { rewrite (si_states _ (po_sched _ _ _ _ Hp)), <- (po_slots _ _ _ _ Hp'). by apply get_in_range in Hx. }
    destruct (decide (st = Exited)) as [->|Hne].
    - destruct (ke_exited _ _ Hk j Hst) as [Hbad|Hu]; [by destruct (Hno j)|].
      destruct (po_unused _ _ _ _ Hp' j x Hu Hx). congruence.
    - destruct (ke_live _ _ Hk j st Hst Hne) as [_ <-]. split; [done|congruence]. }
  split.
  - intros [Hin|(j & x & r & Hx & Hr & Hin)].
    + split; [by left|]. intros j x r _ Hx Hr Hin'. by destruct (po_stack _ _ _ _ Hp j x r Hx Hr) as (_ & _ & _ & Ho); apply (Ho p).
    + destruct (Hlive j x r Hx Hr) as [Hx' Hst]. split; [right; by exists j, x, r|].
      intros i y q Hex Hy Hq Hin'. destruct (decide (i = j)) as [->|Hne]; [done|].
      apply (pool_pages_differ boot others s ctx i j y x r p Hp Hne Hy Hx' Hr Hin). unfold slot_pages. rewrite Hq.
      by apply elem_of_list_to_set.
  - intros [[Hin|(j & x & r & Hx & Hr & Hin)] Hnot]; [by left|right].
    exists j, x, r. split_and!; [|done|done].
    destruct (get_lt_some (Sched.states (sched s)) j) as [st Hst].
    { rewrite (si_states _ (po_sched _ _ _ _ Hp)), <- (po_slots _ _ _ _ Hp). by apply get_in_range in Hx. }
    destruct (decide (st = Exited)) as [->|Hne]; [by destruct (Hnot j x r Hst Hx Hr)|].
    by destruct (ke_live _ _ Hk j st Hst Hne) as [_ ->].
Qed.

End Stacks.

(** ** The kernel's memory as the source of stacks *)
#[global] Instance kernel_stack_memory : StackMemory Kernel.
Proof.
  refine {| ram := phys; set_ram := with_phys |}.
  - done.
  - intros k m. exact id.
  - done.
  - done.
  - intros k n k' r E. cbn [take_frames kernel_frame_source] in E. unfold alloc_frames in E.
    destruct (FRAME_ALLOCATOR k); [|done]. repeat step_exec. done.
  - intros k p k' r E. cbn [give_frames kernel_frame_source] in E. unfold free_frames in E.
    destruct (FRAME_ALLOCATOR k); [|done]. repeat step_exec. done.
Defined.

(** ** A small source for examples: one stack at 2 MiB *)
Definition one_stack : PhysRange := mkRange 0x200000 (4 * PAGE_SIZE).
Definition one_pages : gset Z := list_to_set (range_pages one_stack).

Record Shelf : Type := mkShelf { shelf_ram : memory; shelf_lent : gset Z }.

Definition shelf_take (k : Shelf) (n : Z) : exec (Shelf * option PhysRange) :=
  if (n =? 4) && bool_decide (shelf_lent k = ∅)
  then Done (mkShelf (shelf_ram k) one_pages, Some one_stack) else Done (k, None).

Definition shelf_give (k : Shelf) (r : PhysRange) : exec (Shelf * Result unit FreeError) :=
  Done (mkShelf (shelf_ram k) (shelf_lent k ∖ list_to_set (range_pages r)), Ok tt).

#[global] Instance shelf_source : FrameSource Shelf.
Proof.
  refine {| take_frames := shelf_take; give_frames := shelf_give; source_ok := fun k => shelf_lent k ⊆ one_pages;
            lent := shelf_lent; spare := fun k => one_pages ∖ shelf_lent k |}.
  - intros k n Hok Hn. unfold shelf_take. destruct (Z.eqb_spec n 4) as [->|]; [|by right; exists k].
    destruct (bool_decide_reflect (shelf_lent k = ∅)) as [E|E]; [left|by right; exists k].
    exists one_stack, (mkShelf (shelf_ram k) one_pages). cbn [andb shelf_lent]. rewrite E.
    split; [done|]. split; [done|]. split; [done|]. split; [by exists 512|]. split; [discriminate|].
    split; [discriminate|]. change (list_to_set (range_pages one_stack)) with one_pages.
    generalize one_pages. intros P. split_and!; set_solver.
  - intros k r Hok _ _ _ _ _ Hsub. eexists. split; [reflexivity|]. cbn [shelf_lent].
    revert Hok Hsub. generalize one_pages as P, (list_to_set (C := gset Z) (range_pages r)) as Q.
    intros P Q Hok Hsub. split; [set_solver|]. split; [|done].
    apply set_eq. intros p. rewrite elem_of_union, !elem_of_difference.
    destruct (decide (p ∈ Q)); set_solver.
  - intros k _. set_solver.
Defined.

#[global] Instance shelf_memory : StackMemory Shelf.
Proof.
  refine {| ram := shelf_ram; set_ram := fun k m => mkShelf m (shelf_lent k) |}; try done.
  - intros k n k' r. cbn. unfold shelf_take. case_match; by intros [= <- _].
  - intros k p k' r. cbn. unfold shelf_give. by intros [= <- _].
Defined.

(** ** Claims *)

(** The boot thread alone, as after [sched::init_boot]. *)
Definition demo_segments : Gdt.machine := Gdt.mkMachine [] 0 Gdt.new_tss 0 (Gdt.mkPointer 0 0) 0 0 0 0 0 0 0.
Definition fresh_system {K D : Type} (k : K) (d : D) : System K D :=
  mkSystem k boot_only (replicate 16 new_slot) 0 demo_segments fx_zeroed d [] (mkService USIZE_MAX false 0 0).

(** The boot thread alone. *)
Lemma boot_pool {K D : Type} `{StackMemory K} `{PortIO D} (s : System K D) boot ctx :
  sched s = boot_only -> SLOTS s = replicate 16 new_slot ->
  source_ok (mem s) -> 8 <= range_start boot -> 0 < range_len boot -> top_of boot <= U64_MAX ->
  (forall p, p ∈ spare (mem s) -> p + PAGE_SIZE <= range_start boot \/ top_of boot <= p) ->
  pool_ok boot (lent (mem s)) s ctx.
Proof.
  intros Es El Hok Hb1 Hb2 Hb3 Hsp.
  assert (Hslot : forall id x, get (SLOTS s) id = Some x -> x = new_slot).
  { intros id x [_ E]%get_some. rewrite El in E. by apply lookup_replicate in E as [-> _]. }
  constructor; rewrite ?Es; try done.
  - apply boot_only_inv.
  - by rewrite El.
  - intros p. split; [by left|]. intros [Hin|(id & x & r & Hx & Hr & _)]; [done|].
    apply Hslot in Hx. by subst x.
  - intros id x r Hx Hr. apply Hslot in Hx. by subst x.
  - intros i j x y r1 r2 _ Hx _ Hr. apply Hslot in Hx. by subst x.
  - intros id x _ Hx. apply Hslot in Hx. by subst x.
  - intros id x Hx Hu. apply Hslot in Hx. by subst x.
  - intros x _ Hx. apply Hslot in Hx. subst x. split; [by exists boot|done].
  - intros id x _ Hid. exfalso. revert Hid. apply (proj1 (position_absent boot_only Ready)). reflexivity.
Qed.

Lemma fresh_pool {K D : Type} `{StackMemory K} `{PortIO D} (k : K) (d : D) boot ctx :
  source_ok k -> 8 <= range_start boot -> 0 < range_len boot -> top_of boot <= U64_MAX ->
  (forall p, p ∈ spare k -> p + PAGE_SIZE <= range_start boot \/ top_of boot <= p) ->
  pool_ok boot (lent k) (fresh_system k d) ctx.
Proof. by apply (boot_pool (fresh_system k d)). Qed.

(** The example on one shelf, with the boot stack at 0x90000. *)
Definition demo_boot : PhysRange := mkRange 0x90000 0x10000.
Definition demo_sys : System Shelf Board.board := fresh_system (mkShelf (fun _ => 0) ∅) Board.wild.
Definition boot_cpu : cpu := mkCpu (fun _ => 0) 0x100000 0x08 0x202 0x9FFF8 0x10.
Definition demo_ctx : Z -> cpu * FxSaveArea := fun _ => (boot_cpu, fx_zeroed).

Lemma one_stack_shape : stack_shape one_stack.
Proof. constructor; [reflexivity|by exists 512|discriminate|discriminate]. Qed.

Lemma demo_pool : pool_ok demo_boot ∅ demo_sys demo_ctx.
Proof.
  refine (fresh_pool (mkShelf (fun _ => 0) ∅) Board.wild demo_boot demo_ctx _ _ _ _ _);
    [exact (empty_subseteq one_pages)|discriminate|reflexivity|discriminate|].
  intros p Hin. right. cbn [spare shelf_source shelf_lent] in Hin.
  apply elem_of_difference in Hin as [Hin _]. unfold one_pages in Hin. apply elem_of_list_to_set in Hin.
  apply stack_pages in Hin; [|apply one_stack_shape]. change (range_start one_stack) with 0x200000 in Hin.
  change (top_of demo_boot) with 0xA0000. lia.
Qed.

Lemma demo_running : running_in demo_boot demo_sys boot_cpu.
Proof.
  split; [done|]. exists new_slot, demo_boot. split; [reflexivity|]. split; [reflexivity|].
  split; [split_and!; try (split; discriminate); intros r; split; discriminate|].
  split; discriminate.
Qed.

(** C33 Making a thread.  A kernel, idle or user thread that is created starts
    in exactly its intended context: the trampoline with the entry and the
    thread's number as arguments on its own stack, or the entry at privilege
    level 3 on the user stack; its stack is four fresh pages that were lent to
    nobody, its canary is in place, and no byte outside that stack changes.
    Without a free slot (or with the idle thread already there) nothing at all
    changes; without frames nothing is lent and no byte is written. *)
Theorem thread_creation_exact {K D : Type} `{StackMemory K} `{PortIO D} boot others trampoline (q : request)
    (s : System K D) ctx :
  is_u64 trampoline -> pool_ok boot others s ctx -> request_ok q ->
  exists s' r, perform trampoline q s = Done (s', r) /\
    match r with
    | Ok id => exists st, started boot others s s' ctx id st (start_context trampoline q id st) /\
        ready_queue (sched s') = ready_queue (sched s) ++ request_queue q id
    | Err NoFreeSlot => s' = s /\
        ((forall id, get (Sched.states (sched s)) id <> Some Unused) \/
         (idle (sched s) <> NO_THREAD /\ exists e, q = IdleThread e))
    | Err NoStack => lent (mem s') = lent (mem s) /\ spare (mem s') = spare (mem s) /\
        ram (mem s') = ram (mem s) /\ SLOTS s' = SLOTS s /\ source_ok (mem s') /\
        exists id, get (Sched.states (sched s)) id = Some Unused /\ get (Sched.states (sched s')) id = Some Ready /\
          ready_queue (sched s') = ready_queue (sched s) ++ request_queue q id
    end.
Proof. intros Ht Hp Hq. exact (perform_spec boot others trampoline Ht q s ctx Hp Hq). Qed.

(** The first thread of the example. *)
Lemma demo_create : exists s1, create 0x100000 demo_sys 0x101000 = Done (s1, Ok 1) /\
  counters (sched s1) = (0, 0) /\ current (sched s1) = 0.
Proof.
  destruct (create 0x100000 demo_sys 0x101000) as [[s1 r]|] eqn:E.
  - exists s1.
    assert (Hr : match create 0x100000 demo_sys 0x101000 with
                 | Done (s, r) => (r, counters (sched s), current (sched s)) | Panic => (Err NoStack, (0, 0), 0)
                 end = (Ok 1, (0, 0), 0)) by (vm_compute; reflexivity).
    rewrite E in Hr. injection Hr as -> H1 H2 H3. split; [done|]. split; [unfold counters; congruence|done].
  - exfalso. assert (Hr : match create 0x100000 demo_sys 0x101000 with Done _ => true | Panic => false end = true)
      by (vm_compute; reflexivity). rewrite E in Hr. done.
Qed.

Lemma thread_creation_exact_witness :
  exists s' st, perform 0x100000 (KernelThread 0x101000) demo_sys = Done (s', Ok 1) /\
    started demo_boot ∅ demo_sys s' demo_ctx 1 st (kernel_start 0x100000 0x101000 1 (top_of st)).
Proof.
  destruct (thread_creation_exact demo_boot ∅ 0x100000 (KernelThread 0x101000) demo_sys demo_ctx)
    as (s' & r & E & Hr); [split; discriminate|apply demo_pool|split; discriminate|].
  destruct demo_create as (s1 & E1 & _). cbn [perform] in E. rewrite E1 in E. injection E as -> <-.
  destruct Hr as (st & Hst & _). exists s', st. split; [exact E1|exact Hst].
Defined.

(** C2 A context switch.  An interrupt of any vector in the running thread's
    context saves exactly that context and the live floating point state, and
    resumes exactly the context and floating point state that the thread the
    scheduler chose was saved in: the head of the queue for a timer tick or a
    yield, the successor for an exit or a system call, the same thread for any
    other vector.  It never panics and it keeps the invariant, so the next
    interrupt finds the machine in the same condition. *)
Theorem context_switch_exact {K D : Type} `{StackMemory K} `{PortIO D} boot others scratch ra (s : System K D) ctx c
    vector next :
  pool_ok boot others s ctx -> running_in boot s c -> interrupt_ok boot s c scratch ra vector next ->
  let ctx' := upd ctx (current (sched s)) (c, xmm s) in
  exists s' c', take_interrupt scratch ra s c vector = Some (s', c') /\
    current (sched s') = next /\ ready_queue (sched s') = next_queue vector (sched s) /\
    cpu_eq c' (fst (ctx' next)) /\ xmm s' = snd (ctx' next) /\
    pool_ok boot others s' ctx' /\ running_in boot s' c'.
Proof.
  intros Hp Hr (I1 & I2 & I3 & I4 & I5 & I6).
  exact (interrupt_switches boot others scratch ra s ctx c vector next Hp Hr I1 I2 I3 I4 I5 I6 (not_elem_of_empty next)).
Qed.

Lemma context_switch_exact_witness :
  exists s1 s2 c2, create 0x100000 demo_sys 0x101000 = Done (s1, Ok 1) /\
    take_interrupt id 0x100 s1 boot_cpu Pic.TIMER_VECTOR = Some (s2, c2) /\
    current (sched s2) = 1 /\ gpr c2 RDI = 0x101000 /\ rip c2 = 0x100000 /\ xmm s2 = fx_initial.
Proof.
  destruct demo_create as (s1 & E1 & Hn & Hc1). exists s1.
  destruct (perform_spec demo_boot ∅ 0x100000 ltac:(split; discriminate) (KernelThread 0x101000) demo_sys demo_ctx
              demo_pool ltac:(split; discriminate)) as (s' & r & E & Hr).
  cbn [perform] in E. rewrite E1 in E. injection E as <- <-. destruct Hr as (st & Hst & Hq).
  pose proof (started_running demo_boot ∅ demo_sys s1 demo_ctx 1 st _ boot_cpu demo_pool Hst demo_running) as Hrun.
  pose proof Hst as (Hp1 & _). change (ready_queue (sched demo_sys) ++ request_queue (KernelThread 0x101000) 1)
    with [1] in Hq.
  destruct (context_switch_exact demo_boot ∅ id 0x100 s1 _ boot_cpu Pic.TIMER_VECTOR 1 Hp1 Hrun)
    as (s2 & c2 & E2 & Hcur & _ & Hcc & Hx & _).
  - split; [unfold counters in Hn; injection Hn as H1 H2; unfold counters_ok; rewrite H1, H2; repeat split; discriminate|].
    split; [split; [discriminate|reflexivity]|]. split; [split; discriminate|]. split; [discriminate|].
    split; [by intros ? ? ? ? _ _ _|]. unfold next_thread. cbn [is_rotation Z.eqb].
    change (is_rotation Pic.TIMER_VECTOR) with true. cbv iota. rewrite Hq. reflexivity.
  - exists s2, c2. split; [exact E1|]. split; [exact E2|]. split; [exact Hcur|].
    rewrite Hc1 in Hcc, Hx. rewrite upd_other, upd_same in Hcc, Hx by discriminate.
    destruct Hcc as (Hg & Hrip & _). split; [exact (Hg RDI)|]. split; [exact Hrip|exact Hx].
Defined.

(** C11 Isolation over whole runs, up to a switch to a thread that has no
    stack.  Whatever sequence of thread computation (which leaves the saved
    frames of other threads alone), interrupts and thread creations follows,
    with anything else between the two halves of a creation and with creations
    that find no slot or no frames, as long as no interrupt chooses a thread
    that is still without a stack: the stacks of different threads are apart,
    every stack consists of pages the allocator has lent and nobody else
    holds, exactly the threads on record as such are ready without a stack, and
    any further interrupt the kernel allows for that chooses another thread
    succeeds and resumes that thread exactly where it was stopped. *)
Theorem runs_keep_threads_apart {K D : Type} `{StackMemory K} `{PortIO D} boot others trampoline (w w' : World K D) :
  is_u64 trampoline -> world_ok boot others w -> clos_refl_trans (World K D) (mstep boot trampoline) w w' ->
  (forall i j x y r1 r2, i <> j -> get (SLOTS (sys w')) i = Some x -> get (SLOTS (sys w')) j = Some y ->
     region boot i x = Some r1 -> region boot j y = Some r2 -> apart r1 r2) /\
  (forall i x r p, get (SLOTS (sys w')) i = Some x -> stack x = Some r -> p ∈ range_pages r ->
     p ∈ lent (mem (sys w')) /\ p ∉ others) /\
  (forall i x, get (Sched.states (sched (sys w'))) i = Some Ready -> get (SLOTS (sys w')) i = Some x ->
     if decide (i ∈ without_stack w') then stack x = None else exists r, region boot i x = Some r) /\
  (forall scratch ra vector next, interrupt_ok boot (sys w') (cpu_in w') scratch ra vector next ->
     next <> current (sched (sys w')) -> next ∉ without_stack w' ->
     exists s' c', take_interrupt scratch ra (sys w') (cpu_in w') vector = Some (s', c') /\
       current (sched s') = next /\ cpu_eq c' (fst (contexts w' next)) /\ xmm s' = snd (contexts w' next)).
Proof.
  intros Ht Hw Hs. destruct (runs_ok boot trampoline others w w' Ht Hw Hs) as [Hp Hr]. split_and!.
  - intros i j x y r1 r2 Hij. exact (regions_apart boot others _ _ i j x y r1 r2 Hp Hij).
  - intros i x r p Hx Hst Hin. split.
    + apply (po_lent _ _ _ _ Hp). right. exists i, x, r. split_and!; assumption.
    + destruct (po_stack _ _ _ _ Hp i x r Hx Hst) as (_ & _ & _ & Ho). exact (Ho p Hin).
  - intros i x Hi Hx. case_decide as Hu.
    + destruct (po_unmade _ _ _ _ Hp i Hu) as (_ & x' & Hx' & Hn & _). congruence.
    + destruct (po_ready _ _ _ _ Hp i x Hu Hi Hx) as (r & Hreg & _). by exists r.
  - intros scratch ra vector next (I1 & I2 & I3 & I4 & I5 & I6) Hne Hmade.
    destruct (interrupt_switches boot others scratch ra _ _ _ vector next Hp Hr I1 I2 I3 I4 I5 I6 Hmade)
      as (s' & c' & E & Hcur & _ & Hcc & Hx & _).
    rewrite upd_other in Hcc, Hx by exact Hne. exists s', c'. split_and!; assumption.
Qed.

(** A run that registers a thread and completes it. *)
Lemma runs_keep_threads_apart_witness :
  exists w' : World Shelf Board.board,
    clos_refl_trans (World Shelf Board.board) (mstep demo_boot 0x100000) (mkWorld demo_sys boot_cpu demo_ctx ∅) w' /\
    without_stack w' = ∅ /\
    exists y, get (SLOTS (sys w')) 1 = Some y /\ exists r, stack y = Some r /\ apart r demo_boot.
Proof.
  destruct (request_slot (KernelThread 0x101000) (sched demo_sys)) as [[x r0]|] eqn:Ereg;
    [|vm_compute in Ereg; discriminate Ereg].
  assert (r0 = Ok 1) as -> by (vm_compute in Ereg; by injection Ereg).
  destruct demo_create as (s1 & E1 & _).
  change (create 0x100000 demo_sys 0x101000) with (perform 0x100000 (KernelThread 0x101000) demo_sys) in E1.
  rewrite perform_in_two_halves, Ereg in E1. cbn [exec_bind] in E1.
  destruct (complete_spec demo_boot ∅ 0x100000 ltac:(split; discriminate) (KernelThread 0x101000) (with_sched demo_sys x)
              demo_ctx 1 (unmade := {[1]} ∪ ∅)) as [(st & k & W & e & u & E & _)|(k & E & _)].
  - destruct (request_slot_spec (KernelThread 0x101000) (sched demo_sys) (po_sched _ _ _ _ demo_pool)) as
      [(x' & i & E' & I1 & I2 & I3 & I4 & _)|(e & E' & _)]; rewrite Ereg in E'; [|discriminate E'].
    injection E' as <- <-. exact (pool_register demo_boot ∅ demo_sys demo_ctx 1 x demo_pool I3 I1 I4 I2).
  - set_solver.
  - split; discriminate.
  - rewrite E1 in E. injection E as ->.
    set (s' := placed (with_sched demo_sys x) k (sched (with_sched demo_sys x)) W 1 e u st) in *.
    set (y := mkSlot (mkContext (start_frame st) 1 0) (Some st) (range_start st) fx_initial e u (top_of st)).
    assert (Hy : get (SLOTS s') 1 = Some y) by (apply get_insert_eq; split; [discriminate|reflexivity]).
    set (w' := mkWorld s' boot_cpu (upd demo_ctx 1 (start_context 0x100000 (KernelThread 0x101000) 1 st, fx_initial))
                 (({[1]} ∪ ∅) ∖ {[1]})).
    assert (Hstep : clos_refl_trans (World Shelf Board.board) (mstep demo_boot 0x100000)
                      (mkWorld demo_sys boot_cpu demo_ctx ∅) w').
    { eapply rt_trans; apply rt_step; [exact (step_register _ _ _ _ _ _ _ _ _ Ereg)|].
      apply (step_complete _ _ _ _ _ _ (KernelThread 0x101000) 1 s' y st); [split; discriminate|set_solver|exact E1|exact Hy|reflexivity]. }
    exists w'. split; [exact Hstep|]. split; [apply leibniz_equiv; cbn; set_solver|].
    exists y. split; [exact Hy|]. exists st. split; [reflexivity|].
    destruct (runs_keep_threads_apart demo_boot ∅ 0x100000 (mkWorld demo_sys boot_cpu demo_ctx ∅) w'
                ltac:(split; discriminate) (conj demo_pool demo_running) Hstep) as (Hap & _).
    refine (Hap 1 0 y new_slot st demo_boot ltac:(discriminate) Hy _ eq_refl eq_refl).
    cbn [sys w']. change (SLOTS s') with (<[Z.to_nat 1 := y]> (SLOTS demo_sys)).
    rewrite get_insert_ne by lia. reflexivity.
  - rewrite E1 in E. discriminate E.
Defined.

(** C34 Reaping.  [reap_exited], run at every interrupt, finishes, leaves no
    exited thread, and gives back to the allocator exactly the pages of the
    stacks of the threads that had exited. *)
Theorem reap_returns_stacks {K D : Type} `{StackMemory K} `{PortIO D} boot others (s : System K D) ctx :
  pool_ok boot others s ctx ->
  exists s', reap_exited s = Done s' /\ pool_ok boot others s' ctx /\
    (forall j, get (Sched.states (sched s')) j <> Some Exited) /\
    (forall p, p ∈ lent (mem s') <-> p ∈ lent (mem s) /\
       forall j x r, get (Sched.states (sched s)) j = Some Exited -> get (SLOTS s) j = Some x ->
         stack x = Some r -> p ∉ range_pages r).
Proof. exact (reap_lent boot others s ctx). Qed.

Lemma reap_returns_stacks_witness :
  exists s', reap_exited demo_sys = Done s' /\ forall j, get (Sched.states (sched s')) j <> Some Exited.
Proof.
  destruct (reap_returns_stacks demo_boot ∅ demo_sys demo_ctx demo_pool) as (s' & E & _ & Hno & _).
  exists s'. split; [exact E|exact Hno].
Defined.
