(* ===== verification/Handoff.v ===== *)
(** * The handoff to the kernel (src/bootloader/handoff.rs, src/main.rs)

    [main] loads the two images, prepares the kernel's stack and the BootInfo
    page, leaves the boot services, writes [BootInfo] and jumps.  The firmware
    is the interface of [Loader] with the configuration table and
    [exit_boot_services] added.  Something is known to overwrite the magic
    number now and then after it has been written; it is the parameter [noise],
    which acts before each look of the repair loop.

    The theorem: whatever the noise does to the magic number in those moments,
    the kernel is entered with the stack aligned as the ABI asks, and reads
    exactly the structure the loader meant, which it accepts; the repairs are
    counted behind it, and no byte outside the page's first 128 changes.  A
    second theorem covers every other end of [main]. *)
From Stdlib Require Import ZArith Lia Bool String.
From stdpp Require Import base tactics option list numbers.
From S2P Require Import Prelude MemoryMap KernelImage BootInfo PhysMem Loader KMemory.

#[local] Open Scope Z_scope.

(** ** The firmware *)

(** What [exit_boot_services] returns: where it put the memory map, the number
    of descriptors, their size and version. *)
Record OwnedMap : Type := mkOwnedMap {
  map_buffer : Z;
  map_entries : Z;
  map_desc_size : Z;
  map_desc_version : Z
}.

(** [uefi::helpers::init] and [boot::set_watchdog_timer] answer whether they
    succeeded; [main] unwraps the first and only warns about the second. *)
Class HandoffServices (F G : Type) : Type := {
  helpers_init : F -> bool * F;
  set_watchdog_timer : F -> bool * F;
  ACPI2_GUID : G;
  ACPI_GUID : G;
  guid_eqb : G -> G -> bool;
  config_table : F -> list (G * Z);
  exit_boot_services : F -> memory -> OwnedMap * memory
}.

(** ** Data *)
Definition KERNEL_STACK_SIZE : Z := 64 * 1024.

Record Prepared : Type := mkPrepared {
  pr_stack_top : Z;
  pr_boot_info : Z;
  pr_rsdp : Z
}.

(** The processor as [jump_to_kernel] leaves it. *)
Record Entry : Type := mkEntry {
  e_rip : Z;
  e_rsp : Z;
  e_rdi : Z;
  e_interrupts : bool
}.

(** [a + b] on [i64], and [x as u64]. *)
Definition add_i64 (a b : Z) : exec Z :=
  if (- 2 ^ 63 <=? a + b) && (a + b <? 2 ^ 63) then Done (a + b) else Panic.
Definition as_u64 (x : Z) : Z := x mod 2 ^ 64.

(** ** Operations *)
Definition exit_port (qemu_exit : bool) : Z := if qemu_exit then DEBUG_EXIT_PORT else 0.

(** How the boot loader ends: in the kernel, by returning a status to the
    firmware, or by a write to QEMU's exit port. *)
Inductive BootEnd (St : Type) : Type :=
| Entered (e : Entry) (m : memory)
| Returned (s : St) (m : memory)
| ExitedQemu (port value : Z) (m : memory).

Arguments Entered {St} _ _.
Arguments Returned {St} _ _.
Arguments ExitedQemu {St} _ _ _.

Definition exit_qemu {St : Type} (value : Z) (m : memory) : BootEnd St := ExitedQemu DEBUG_EXIT_PORT value m.

Section Handoff.
  Context {F E FE G St : Type} `{!Firmware F E FE} `{!HandoffServices F G} `{!UefiStatus E FE St}.

(** The loop of [find_rsdp] with its [fallback]. *)
Fixpoint find_rsdp_loop (entries : list (G * Z)) (fallback : Z) : Z :=
  match entries with
  | [] => fallback
  | (guid, address) :: entries =>
      if guid_eqb guid (ACPI2_GUID (F := F)) then address
      else find_rsdp_loop entries
             (if guid_eqb guid (ACPI_GUID (F := F)) && (fallback =? 0) then address else fallback)
  end.

Definition find_rsdp (fw : F) : Z := find_rsdp_loop (config_table fw) 0.

Definition prepare (fw : F) : exec (Result Prepared (LoadError E FE) * F) :=
  let stack_pages := KERNEL_STACK_SIZE / 4096 in
  match allocate_any fw stack_pages with
  | (Err e, fw) => Done (Err (Efi e), fw)
  | (Ok stack_base, fw) =>
      let! stack_top := add64 stack_base KERNEL_STACK_SIZE in
      match allocate_any fw 1 with
      | (Err e, fw) => Done (Err (Efi e), fw)
      | (Ok boot_info, fw) => Done (Ok (mkPrepared stack_top boot_info (find_rsdp fw)), fw)
      end
  end.

(** The structure [enter_kernel] builds. *)
Definition build_info (qemu_exit : bool) (map : OwnedMap) (kernel user : LoadedKernel) (p : Prepared) :
    exec BootInfo :=
  let! va := add_i64 (as_i64 (lk_base user)) (vaddr_delta user) in
  Done (mkBootInfo BOOT_INFO_MAGIC BOOT_INFO_VERSION size_of_boot_info
          (map_buffer map) (map_entries map) (map_desc_size map) (map_desc_version map)
          (pr_rsdp p) (lk_base kernel) (lk_size kernel) (pr_stack_top p) KERNEL_STACK_SIZE
          (exit_port qemu_exit) 0 (lk_base user) (lk_size user) (as_u64 va) (lk_entry user)).

(** The repair loop, [for _ in 0..8]. *)
Fixpoint repair (noise : nat -> memory -> memory) (rounds : nat) (slot repairs : Z) (m : memory) : memory * Z :=
  match rounds with
  | O => (m, repairs)
  | S rounds =>
      let m := noise rounds m in
      if read64 m slot =? BOOT_INFO_MAGIC then (m, repairs)
      else repair noise rounds slot (repairs + 1) (write64 m slot BOOT_INFO_MAGIC)
  end.

Definition jump_to_kernel (entry boot_info stack_top : Z) : exec Entry :=
  let! rsp := sub64 stack_top 8 in Done (mkEntry entry rsp boot_info false).

Definition enter_kernel (qemu_exit : bool) (noise : nat -> memory -> memory) (fw : F) (m : memory)
    (kernel user : LoadedKernel) (p : Prepared) : exec (Entry * memory) :=
  let! _ := sub64 (pr_stack_top p) 8 in
  let (map, m) := exit_boot_services fw m in
  let! info := build_info qemu_exit map kernel user p in
  if negb (magic info =? BOOT_INFO_MAGIC) then Panic else
  if negb (bi_version info =? BOOT_INFO_VERSION) then Panic else
  let m := copy_to m (pr_boot_info p) (encode info) in
  let (m, repairs) := repair noise 8 (pr_boot_info p) 0 m in
  let m := write64 m (pr_boot_info p + 120) repairs in
  let! e := jump_to_kernel (lk_entry kernel) (pr_boot_info p) (pr_stack_top p) in
  Done (e, m).

(** The closure of [main]: the kernel is entered, or the first failing step's
    status comes back; memory is kept in both cases. *)
Definition boot_sequence (qemu_exit : bool) (noise : nat -> memory -> memory) (fw : F) (m : memory) :
    exec (Entry * memory + St * memory) :=
  let! (kernel, st) := load_kernel fw m in
  match kernel with
  | Err err => Done (inr (status err, Loader.phys st))
  | Ok kernel =>
      let! (user, st) := load_user (firmware st) (Loader.phys st) in
      match user with
      | Err err => Done (inr (status err, Loader.phys st))
      | Ok user =>
          let! (prepared, fw) := prepare (firmware st) in
          match prepared with
          | Err err => Done (inr (status err, Loader.phys st))
          | Ok prepared =>
              let! r := enter_kernel qemu_exit noise fw (Loader.phys st) kernel user prepared in Done (inl r)
          end
      end
  end.

(** [main]: with the feature [qemu-exit] a failure leaves through the port. *)
Definition main (qemu_exit : bool) (noise : nat -> memory -> memory) (fw : F) (m : memory) : exec (BootEnd St) :=
  let (ready, fw) := helpers_init fw in
  if negb ready then Panic else
  let (_, fw) := set_watchdog_timer fw in
  let! r := boot_sequence qemu_exit noise fw m in
  match r with
  | inl (e, m) => Done (Entered e m)
  | inr (status, m) => Done (if qemu_exit then exit_qemu EXIT_VALUE_LOAD_FAILURE m else Returned status m)
  end.

End Handoff.

(** ** Reading the page back *)
Lemma sub_list_ext {A : Type} (l k : list A) i n :
  0 <= i -> (forall j, i <= j < i + n -> l !! Z.to_nat j = k !! Z.to_nat j) -> sub_list l i n = sub_list k i n.
Proof.
  intros Hi H. apply list_eq. intros j. destruct (decide (j < Z.to_nat n)%nat).
  - rewrite !sub_list_lookup by lia. specialize (H (i + Z.of_nat j) ltac:(lia)).
    replace (Z.to_nat (i + Z.of_nat j)) with (Z.to_nat i + j)%nat in H by lia. exact H.
  - unfold sub_list. by rewrite !lookup_take_ge by lia.
Qed.

Lemma read_field_ext page page' k :
  (0 < k < 18)%nat -> (forall j, 8 <= j < 120 -> page !! Z.to_nat j = page' !! Z.to_nat j) ->
  read_field page k = read_field page' k.
Proof.
  intros Hk H. unfold read_field. f_equal.
  assert (Hr : 8 <= nth k field_offsets 0 /\
               nth k field_offsets 0 + Z.of_nat (nth k field_widths 0%nat) <= 120).
  { rewrite field_offsets_eq. do 18 (destruct k as [|k]; [simpl; lia|]). lia. }
  apply sub_list_ext; [lia|]. intros j Hj. apply H. lia.
Qed.

(** A page whose first word is the magic number and whose other 112 bytes are
    those of the structure. *)
Lemma decode_patched info page :
  boot_info_ok info -> le_val (sub_list page 0 8) = magic info ->
  (forall j, 8 <= j < 120 -> page !! Z.to_nat j = encode info !! Z.to_nat j) -> decode page = info.
Proof.
  intros Hok Hm Hrest. pose proof (decode_encode_eq info [] Hok) as E. rewrite app_nil_r in E.
  transitivity (decode (encode info)); [|exact E].
  unfold decode. assert (H0 : read_field page 0 = read_field (encode info) 0).
  { transitivity (magic info); [exact Hm|]. symmetry. pose proof (f_equal magic E) as E'. exact E'. }
  rewrite H0. f_equal; apply read_field_ext; try exact Hrest; lia.
Qed.

Lemma read64_sub_list m a n : 8 <= n -> le_val (sub_list (read_bytes m a n) 0 8) = read64 m a.
Proof.
  intros Hn. unfold read64. f_equal. apply list_eq. intros j. destruct (decide (j < 8)%nat).
  - rewrite sub_list_lookup by (simpl; lia). change (Z.to_nat 0 + j)%nat with j.
    by rewrite !read_bytes_lookup by lia.
  - unfold sub_list. rewrite lookup_take_ge by lia. symmetry. apply lookup_ge_None_2.
    unfold read_bytes. rewrite length_fmap, length_seq. lia.
Qed.

(** ** The repair loop *)

(** The noise changes nothing but the magic number. *)
Definition hits_magic_only (slot : Z) (noise : nat -> memory -> memory) : Prop :=
  forall n m a, a < slot \/ slot + 8 <= a -> noise n m a = m a.

(** What the loop finds at its look [i], counted from 0, if it has repaired the
    number after every look before. *)
Fixpoint look (noise : nat -> memory -> memory) (slot : Z) (rounds : nat) (m : memory) (i : nat) : memory :=
  let seen := noise (pred rounds) m in
  match i with
  | O => seen
  | S i => look noise slot (pred rounds) (write64 seen slot BOOT_INFO_MAGIC) i
  end.

(** Exactly [n] looks found a damaged number: the first [n], and the one after
    them, if there was one, found it intact. *)
Definition repaired (noise : nat -> memory -> memory) (slot : Z) (rounds : nat) (m : memory) (n : Z) : Prop :=
  0 <= n <= Z.of_nat rounds /\
  (forall i, Z.of_nat i < n -> read64 (look noise slot rounds m i) slot <> BOOT_INFO_MAGIC) /\
  (n < Z.of_nat rounds -> read64 (look noise slot rounds m (Z.to_nat n)) slot = BOOT_INFO_MAGIC).

Lemma repair_spec noise rounds slot r m :
  hits_magic_only slot noise -> (rounds = 0%nat -> read64 m slot = BOOT_INFO_MAGIC) ->
  exists m' n, repair noise rounds slot r m = (m', r + n) /\ repaired noise slot rounds m n /\
    read64 m' slot = BOOT_INFO_MAGIC /\ forall a, a < slot \/ slot + 8 <= a -> m' a = m a.
Proof.
  intros Hn. revert r m. induction rounds as [|rounds IH]; intros r m H0.
  - exists m, 0. split; [cbn; f_equal; lia|]. split; [split_and!; [lia|lia|lia|lia]|auto].
  - cbn [repair]. destruct (Z.eqb_spec (read64 (noise rounds m) slot) BOOT_INFO_MAGIC) as [E|E].
    + exists (noise rounds m), 0. split; [f_equal; lia|]. split; [split_and!; [lia|lia|lia|done]|]. split; [done|]. apply Hn.
    + destruct (IH (r + 1) (write64 (noise rounds m) slot BOOT_INFO_MAGIC)) as (m' & n & -> & (Hb & Hd & Hi) & Hm & Hs).
      { intros _. apply read64_write64. split; discriminate. }
      exists m', (n + 1). split; [f_equal; lia|]. split.
      { split; [lia|]. split.
        - intros [|i] Hlt; cbn [look pred]; [exact E|]. apply Hd. lia.
        - intros Hlt. replace (Z.to_nat (n + 1)) with (S (Z.to_nat n)) by lia. cbn [look pred]. apply Hi. lia. }
      split; [done|]. intros a Ha. rewrite Hs by done. rewrite write64_out by lia. by apply Hn.
Qed.

(** ** The handoff *)
Section Proofs.
  Context {F E FE G : Type} `{!Firmware F E FE} `{!HandoffServices F G}.

(** Values that fit their types: what the loader found, what was prepared, and
    the firmware's map. *)
Record handoff_input (map : OwnedMap) (kernel user : LoadedKernel) (p : Prepared) : Prop := mkInput {
  hi_map : is_u64 (map_buffer map) /\ is_u64 (map_entries map) /\ is_u32 (map_desc_size map) /\
           is_u32 (map_desc_version map);
  hi_kernel : is_u64 (lk_base kernel) /\ is_u64 (lk_size kernel);
  hi_user : 0 <= lk_base user < 2 ^ 63 /\ is_u64 (lk_size user) /\ is_u64 (lk_entry user) /\
            0 <= lk_base user + vaddr_delta user < 2 ^ 63;
  hi_prepared : 16 <= pr_stack_top p <= U64_MAX /\ pr_stack_top p mod 16 = 0 /\ is_u64 (pr_rsdp p) /\
                0 < pr_boot_info p
}.

(** The structure the kernel should see. *)
Definition intended (qemu_exit : bool) (map : OwnedMap) (kernel user : LoadedKernel) (p : Prepared) : BootInfo :=
  mkBootInfo BOOT_INFO_MAGIC 1 120 (map_buffer map) (map_entries map) (map_desc_size map) (map_desc_version map)
    (pr_rsdp p) (lk_base kernel) (lk_size kernel) (pr_stack_top p) 65536 (if qemu_exit then 0xF4 else 0) 0
    (lk_base user) (lk_size user) (lk_base user + vaddr_delta user) (lk_entry user).

Lemma build_info_intended qemu_exit map kernel user p :
  handoff_input map kernel user p ->
  build_info qemu_exit map kernel user p = Done (intended qemu_exit map kernel user p).
Proof.
  intros [_ _ (H1 & H2 & H3 & H4) _]. unfold build_info, add_i64, as_i64.
  rewrite (proj2 (Z.ltb_lt _ _) (proj2 H1)). cbn [negb].
  rewrite (proj2 (andb_true_iff _ _)) by lia. cbn [exec_bind]. unfold intended, as_u64, exit_port.
  rewrite Z.mod_small by lia. rewrite size_of_boot_info_eq. done.
Qed.

Lemma intended_ok qemu_exit map kernel user p :
  handoff_input map kernel user p -> boot_info_ok (intended qemu_exit map kernel user p).
Proof.
  intros [(M1 & M2 & M3 & M4) (K1 & K2) (U1 & U2 & U3 & U4) (P1 & P2 & P3 & P4)].
  unfold boot_info_ok, intended, fields, field_widths.
  cbn [magic bi_version bi_size mmap_ptr mmap_len mmap_desc_size mmap_desc_ver rsdp kernel_base kernel_size
       stack_top stack_size bi_exit_port bi_reserved user_phys user_size user_vaddr user_entry].
  unfold_consts. unfold BOOT_INFO_MAGIC. change (2 ^ 63) with 9223372036854775808 in *.
  assert (W8 : forall v, 0 <= v <= 18446744073709551615 -> width_ok 8 v).
  { intros v Hv. unfold width_ok. change (2 ^ (8 * Z.of_nat 8)) with 18446744073709551616. lia. }
  assert (W4 : forall v, 0 <= v <= 4294967295 -> width_ok 4 v).
  { intros v Hv. unfold width_ok. change (2 ^ (8 * Z.of_nat 4)) with 4294967296. lia. }
  repeat (apply List.Forall2_cons; [first [apply W8; lia | apply W4; lia | apply W4; destruct qemu_exit; lia]|]).
  apply List.Forall2_nil.
Qed.

(** [enter_kernel] as a whole; [m1] is memory after [exit_boot_services]. *)
Lemma enter_kernel_spec qemu_exit noise (fw : F) m m1 map kernel user p :
  exit_boot_services fw m = (map, m1) -> handoff_input map kernel user p ->
  hits_magic_only (pr_boot_info p) noise ->
  let info := intended qemu_exit map kernel user p in
  let slot := pr_boot_info p in
  exists m' n, enter_kernel qemu_exit noise fw m kernel user p =
      Done (mkEntry (lk_entry kernel) (pr_stack_top p - 8) slot false, m') /\
    repaired noise slot 8 (copy_to m1 slot (encode info)) n /\ read64 m' (slot + 120) = n /\
    decode (read_bytes m' slot size_of_boot_info) = info /\
    (forall a, a < slot \/ slot + 128 <= a -> m' a = m1 a).
Proof.
  intros Hexit Hin Hnoise info slot. pose proof Hin as [_ _ _ (P1 & P2 & _ & P4)].
  unfold enter_kernel. rewrite sub64_done by lia. cbn [exec_bind]. rewrite Hexit.
  rewrite build_info_intended by done. cbn [exec_bind]. fold info slot.
  change (magic info) with BOOT_INFO_MAGIC. change (bi_version info) with BOOT_INFO_VERSION.
  rewrite !Z.eqb_refl. cbn [negb].
  destruct (repair_spec noise 8 slot 0 (copy_to m1 slot (encode info)) Hnoise) as (m2 & n & -> & Hn & Hmag & Hs);
    [discriminate|].
  unfold jump_to_kernel. rewrite sub64_done by lia. cbn [exec_bind].
  rewrite Z.add_0_l. exists (write64 m2 (slot + 120) n), n. split; [reflexivity|]. split; [exact Hn|].
  pose proof Hn as (Hn8 & _). split; [apply read64_write64; ulia|].
  assert (Hlen : len (encode info) = 120) by (by rewrite len_encode_boot_info, size_of_boot_info_eq).
  split.
  - rewrite size_of_boot_info_eq. apply decode_patched; [by apply intended_ok| |].
    + rewrite read64_sub_list by lia. rewrite read64_write64_ne by lia. exact Hmag.
    + intros j Hj. rewrite read_bytes_lookup, Z2Nat.id by lia. rewrite write64_out by lia. rewrite Hs by lia.
      destruct (get_lt_some (encode info) j) as [v Hv]; [lia|].
      rewrite (copy_to_in _ _ _ _ v) by (by replace (slot + j - slot) with j by lia).
      symmetry. by apply get_some in Hv as [_ Hv].
  - intros a Ha. rewrite write64_out by lia. rewrite Hs by lia. apply copy_to_out. lia.
Qed.

End Proofs.

Section Claims.
  Context {F E FE G St : Type} `{!Firmware F E FE} `{!FirmwareLaws F E FE} `{!HandoffServices F G}
    `{!UefiStatus E FE St} `{!UefiStatusLaws E FE St}.

Lemma prepare_shape (fw fw' : F) p :
  prepare fw = Done (Ok p, fw') ->
  (16 <= pr_stack_top p <= U64_MAX /\ pr_stack_top p mod 16 = 0 /\ 0 < pr_boot_info p) /\ pr_rsdp p = find_rsdp fw'.
Proof.
  unfold prepare. destruct (allocate_any fw (KERNEL_STACK_SIZE / 4096)) as [[a|e] fw1] eqn:E1; [|done].
  intros H. apply exec_bind_done in H as (t & Ht & H). apply add64_inv in Ht as [-> Ht].
  destruct (allocate_any fw1 1) as [[b|e] fw2] eqn:E2; [|done]. injection H as <- <-.
  destruct (any_aligned _ _ _ _ E1) as (Ha1 & Ha2 & _), (any_aligned _ _ _ _ E2) as (Hb1 & Hb2 & _).
  cbn [pr_stack_top pr_boot_info pr_rsdp]. split; [|done]. unfold KERNEL_STACK_SIZE in *.
  split; [lia|]. split; [|done]. Z.div_mod_to_equations. lia.
Qed.

(** The values the two loads, the configuration table and the firmware's map
    can have. *)
Definition values_ok (map : OwnedMap) (kernel user : LoadedKernel) (rsdp : Z) : Prop :=
  (is_u64 (map_buffer map) /\ is_u64 (map_entries map) /\ is_u32 (map_desc_size map) /\
   is_u32 (map_desc_version map)) /\
  (is_u64 (lk_base kernel) /\ is_u64 (lk_size kernel)) /\
  (0 <= lk_base user < 2 ^ 63 /\ is_u64 (lk_size user) /\ is_u64 (lk_entry user) /\
   0 <= lk_base user + vaddr_delta user < 2 ^ 63) /\ is_u64 rsdp.

Lemma prepared_input (fw fw' : F) map kernel user p :
  prepare fw = Done (Ok p, fw') -> values_ok map kernel user (find_rsdp fw') -> handoff_input map kernel user p.
Proof.
  intros Hp (V1 & V2 & V3 & V4). destruct (prepare_shape _ _ _ Hp) as [(S1 & S2 & S3) S4].
  constructor; [done|done|done|]. rewrite S4. split_and!; try done; lia.
Qed.

(** The two calls before the sequence. *)
Lemma main_starts (qemu_exit : bool) noise (fw0 fw1 fw : F) w m :
  helpers_init fw0 = (true, fw1) -> set_watchdog_timer fw1 = (w, fw) ->
  main (St := St) qemu_exit noise fw0 m =
    let! r := boot_sequence qemu_exit noise fw m in
    match r with
    | inl (e, m) => Done (Entered e m)
    | inr (status, m) => Done (if qemu_exit then exit_qemu EXIT_VALUE_LOAD_FAILURE m else Returned status m)
    end.
Proof. intros H1 H2. unfold main. rewrite H1. cbn [negb]. by rewrite H2. Qed.

(** C36 The handoff.  When both images load and the stack and the page can be
    allocated, [main] enters the kernel at the entry of its image with
    interrupts off, the stack aligned as after a call, and [rdi] pointing to a
    page from which the kernel reads exactly the intended structure, whatever
    the unexplained writer did to the magic number before each look of the
    repair loop; the word at offset 120 is the number of looks, of at most
    eight, that found the number damaged.
    The kernel's validation accepts the structure, it offers a user image
    exactly when the loaded one has an address, a size and an entry, the
    memory map is parsed from it as the firmware left it, and no byte outside
    the page's first 128 has changed. *)
Theorem handoff_delivers (qemu_exit : bool) noise (fw00 fw01 fw fw3 : F) w m m1 st1 st2 kernel user p map :
  helpers_init fw00 = (true, fw01) -> set_watchdog_timer fw01 = (w, fw) ->
  load_kernel fw m = Done (Ok kernel, st1) ->
  load_user (firmware st1) (Loader.phys st1) = Done (Ok user, st2) ->
  prepare (firmware st2) = Done (Ok p, fw3) -> exit_boot_services fw3 (Loader.phys st2) = (map, m1) ->
  values_ok map kernel user (find_rsdp fw3) -> hits_magic_only (pr_boot_info p) noise ->
  let info := intended qemu_exit map kernel user p in
  let slot := pr_boot_info p in
  exists m' n e, main (St := St) qemu_exit noise fw00 m = Done (Entered e m') /\
    e = mkEntry (lk_entry kernel) (pr_stack_top p - 8) slot false /\ e_rsp e mod 16 = 8 /\
    decode (read_bytes m' (e_rdi e) size_of_boot_info) = info /\
    read64 m' (slot + 120) = n /\ repaired noise slot 8 (copy_to m1 slot (encode info)) n /\
    validate info = Ok tt /\ exit_enabled info = qemu_exit /\
    (has_user_image info = true <->
       lk_base user <> 0 /\ lk_size user <> 0 /\ lk_base user + vaddr_delta user <> 0 /\ lk_entry user <> 0) /\
    (forall a, a < slot \/ slot + 128 <= a -> m' a = m1 a) /\
    ((forall n, buffer_len (map_entries map) (map_desc_size map) = Some n ->
        map_buffer map + n <= slot \/ slot + 128 <= map_buffer map) ->
     boot_info_memory_map m' info = boot_info_memory_map m1 info).
Proof.
  intros Hi Hw Hk Hu Hp Hx Hv Hn info slot.
  destruct (prepare_shape _ _ _ Hp) as [(S1 & S2 & S3) S4]. pose proof (prepared_input _ _ _ _ _ _ Hp Hv) as Hin.
  destruct (enter_kernel_spec qemu_exit noise fw3 (Loader.phys st2) m1 map kernel user p Hx Hin Hn)
    as (m' & n & He & Hn8 & Hrep & Hdec & Hout).
  exists m', n, (mkEntry (lk_entry kernel) (pr_stack_top p - 8) slot false).
  split. { rewrite (main_starts _ _ _ _ _ _ _ Hi Hw). unfold boot_sequence. rewrite Hk. cbn [exec_bind]. rewrite Hu.
           cbn [exec_bind]. rewrite Hp. cbn [exec_bind]. by rewrite He. }
  split; [done|]. split; [cbn [e_rsp]; Z.div_mod_to_equations; lia|].
  split; [exact Hdec|]. split; [exact Hrep|]. split; [exact Hn8|]. split; [reflexivity|].
  split; [by destruct qemu_exit|]. split.
  { unfold has_user_image. rewrite size_of_boot_info_eq. unfold info, intended.
    cbn [bi_version bi_size user_phys user_size user_vaddr user_entry].
    rewrite !andb_true_iff, !negb_true_iff, !Z.eqb_neq. split; [tauto|]. intros; split_and!; tauto || done. }
  split; [exact Hout|]. intros Hap. unfold boot_info_memory_map.
  change (mmap_len info) with (map_entries map). change (mmap_desc_size info) with (map_desc_size map).
  change (mmap_ptr info) with (map_buffer map).
  destruct (_ <? _); [done|]. destruct (buffer_len _ _) as [k|] eqn:Eb; [|done].
  rewrite (read_bytes_ext m' m1); [done|]. intros a Ha. apply Hout. fold slot. destruct (Hap k eq_refl); lia.
Qed.

(** A file the loader can deal with: if it can be read at all, it is a byte
    string which, if it is a well-formed image, keeps its arithmetic in range. *)
Definition readable (fw : F) (path : string) : Prop :=
  forall fw1 fw2 data, get_image_file_system fw = (Ok tt, fw1) -> read_file fw1 path = (Ok data, fw2) ->
    image data /\ in_range data.

Lemma load_returns (fw : F) m path : readable fw path -> exists r st, load fw m path = Done (r, st).
Proof.
  intros Hr. destruct (get_image_file_system fw) as [[[]|e] fw1] eqn:Ho.
  - destruct (read_file fw1 path) as [[data|e] fw2] eqn:Hf.
    + destruct (Hr fw1 fw2 data Ho Hf) as [Him Hb].
      pose proof (load_total fw fw1 fw2 m path data Ho Hf Him) as Hl.
      destruct (load fw m path) as [[r st]|]; [eauto|done].
    + unfold load, attempt. rewrite Ho. cbn [exec_bind]. rewrite Hf. cbn [exec_bind]. eauto.
  - unfold load, attempt. rewrite Ho. cbn [exec_bind]. eauto.
Qed.

Lemma prepare_returns (fw : F) : exists r fw', prepare (E := E) (FE := FE) fw = Done (r, fw').
Proof.
  unfold prepare. destruct (allocate_any fw (KERNEL_STACK_SIZE / 4096)) as [[a|e] fw1] eqn:E1; [|eauto].
  apply any_aligned in E1 as (_ & Ha & Hb). change (KERNEL_STACK_SIZE / 4096 * 4096) with KERNEL_STACK_SIZE in Hb.
  assert (0 < KERNEL_STACK_SIZE) by done. rewrite add64_done by lia. cbn [exec_bind].
  destruct (allocate_any fw1 1) as [[b|e] fw2]; eauto.
Qed.

(** [err] is the error of the first step that fails, which leaves memory [m']. *)
Definition first_failure (fw : F) (m : memory) (err : LoadError E FE) (m' : memory) : Prop :=
  (exists st, load_kernel fw m = Done (Err err, st) /\ m' = Loader.phys st) \/
  exists kernel st1, load_kernel fw m = Done (Ok kernel, st1) /\
    ((exists st2, load_user (firmware st1) (Loader.phys st1) = Done (Err err, st2) /\ m' = Loader.phys st2) \/
     exists user st2 fw3, load_user (firmware st1) (Loader.phys st1) = Done (Ok user, st2) /\
       prepare (firmware st2) = Done (Err err, fw3) /\ m' = Loader.phys st2).

(** Every step succeeds. *)
Definition all_ready (fw : F) (m : memory) (kernel user : LoadedKernel) (p : Prepared) (fw3 : F) (m2 : memory) : Prop :=
  exists st1 st2, load_kernel fw m = Done (Ok kernel, st1) /\
    load_user (firmware st1) (Loader.phys st1) = Done (Ok user, st2) /\
    prepare (firmware st2) = Done (Ok p, fw3) /\ m2 = Loader.phys st2.

Lemma boot_sequence_ends (qemu_exit : bool) noise (fw : F) m :
  readable fw KERNEL_PATH ->
  (forall kernel st1, load_kernel fw m = Done (Ok kernel, st1) -> readable (firmware st1) USER_PATH) ->
  (exists err m', first_failure fw m err m' /\ boot_sequence (St := St) qemu_exit noise fw m = Done (inr (status err, m'))) \/
  (exists kernel user p fw3 m2, all_ready fw m kernel user p fw3 m2 /\
     boot_sequence (St := St) qemu_exit noise fw m =
       let! r := enter_kernel qemu_exit noise fw3 m2 kernel user p in Done (inl r)).
Proof.
  intros Hk Hu. unfold boot_sequence.
  destruct (load_returns fw m KERNEL_PATH Hk) as (r1 & st1 & H1). fold (load_kernel fw m) in H1. rewrite H1.
  cbn [exec_bind]. destruct r1 as [kernel|err]; [|left; exists err, (Loader.phys st1); split; [left; eauto|done]].
  destruct (load_returns (firmware st1) (Loader.phys st1) USER_PATH (Hu _ _ H1)) as (r2 & st2 & H2).
  fold (load_user (firmware st1) (Loader.phys st1)) in H2. rewrite H2. cbn [exec_bind].
  destruct r2 as [user|err]; [|left; exists err, (Loader.phys st2); split; [right; eauto 10|done]].
  destruct (prepare_returns (firmware st2)) as (r3 & fw3 & H3). rewrite H3. cbn [exec_bind].
  destruct r3 as [p|err]; [|left; exists err, (Loader.phys st2); split; [right; eauto 15|done]].
  right. exists kernel, user, p, fw3, (Loader.phys st2). split; [exists st1, st2; done|done].
Qed.

(** C15 The ends of the boot loader.  Once the firmware library is up, and if
    neither file is a well-formed image that the loader's arithmetic cannot
    handle (the ones [load] panics on), if the user image's address and that address moved by its
    displacement are below 2^63 and the firmware's values fit their fields, and
    if the unexplained writer hits nothing but the magic number: [main] does
    not panic.  It enters the kernel exactly when both images load and the
    stack and the page can be had; otherwise memory is as the first failing
    step left it, and that step's status, never a success, is returned, or with
    [qemu-exit] the exit code 35 is produced.  A kernel file that is not a
    well-formed image gives [LOAD_ERROR] with memory untouched. *)
Theorem main_always_reports (qemu_exit : bool) noise (fw00 fw01 fw : F) w m :
  helpers_init fw00 = (true, fw01) -> set_watchdog_timer fw01 = (w, fw) ->
  readable fw KERNEL_PATH ->
  (forall kernel st1, load_kernel fw m = Done (Ok kernel, st1) -> readable (firmware st1) USER_PATH) ->
  (forall kernel user p fw3 m2 map m1, all_ready fw m kernel user p fw3 m2 ->
     exit_boot_services fw3 m2 = (map, m1) ->
     values_ok map kernel user (find_rsdp fw3) /\ hits_magic_only (pr_boot_info p) noise) ->
  exists r, main (St := St) qemu_exit noise fw00 m = Done r /\
    match r with
    | Entered e _ => exists kernel user p fw3 m2, all_ready fw m kernel user p fw3 m2 /\
        e = mkEntry (lk_entry kernel) (pr_stack_top p - 8) (pr_boot_info p) false
    | Returned s m' => qemu_exit = false /\ is_success s = false /\
        exists err, first_failure fw m err m' /\ s = status err
    | ExitedQemu port value m' => qemu_exit = true /\ port = 0xF4 /\ qemu_exit_code value = 35 /\
        exists err, first_failure fw m err m'
    end /\
    (forall fw1 fw2 data, get_image_file_system fw = (Ok tt, fw1) -> read_file fw1 KERNEL_PATH = (Ok data, fw2) ->
       (forall entry l, ~ well_formed data entry l) ->
       r = if qemu_exit then exit_qemu EXIT_VALUE_LOAD_FAILURE m else Returned LOAD_ERROR m).
Proof.
  intros Hi Hw Hk Hu Hv. rewrite (main_starts _ _ _ _ _ _ _ Hi Hw).
  destruct (boot_sequence_ends qemu_exit noise fw m Hk Hu)
    as [(err & m' & Hf & ->)|(kernel & user & p & fw3 & m2 & Hr & ->)].
  - cbn [exec_bind]. eexists. split; [done|]. split.
    { destruct qemu_exit; cbn [exit_qemu]; [split_and!; eauto|]. split_and!; [done|apply status_fails|eauto]. }
    intros fw1 fw2 data Ho Hd Hbad. destruct (Hk fw1 fw2 data Ho Hd) as [Him _].
    destruct (load_refuses_malformed fw fw1 fw2 m KERNEL_PATH data Ho Hd Him Hbad) as (e & Hl & He).
    destruct Hf as [(st & Hl' & ->)|(k & st & Hl' & _)]; unfold load_kernel in Hl'; rewrite Hl in Hl'; [|done].
    injection Hl' as <- <-. by destruct e.
  - destruct (exit_boot_services fw3 m2) as [map m1] eqn:Hx.
    destruct (Hv _ _ _ _ _ _ _ Hr Hx) as [Hval Hn]. pose proof Hr as (st1 & st2 & L1 & L2 & Hp & ->).
    destruct (enter_kernel_spec qemu_exit noise fw3 (Loader.phys st2) m1 map kernel user p Hx
                (prepared_input _ _ _ _ _ _ Hp Hval) Hn) as (m' & n & -> & _).
    cbn [exec_bind]. eexists. split; [done|]. split; [by exists kernel, user, p, fw3, (Loader.phys st2)|].
    intros fw1 fw2 data Ho Hd Hbad. destruct (Hk fw1 fw2 data Ho Hd) as [Him _].
    destruct (load_refuses_malformed fw fw1 fw2 m KERNEL_PATH data Ho Hd Him Hbad) as (e & Hl & He).
    unfold load_kernel in L1. by rewrite Hl in L1.
Qed.

End Claims.

(** ** A firmware for the example: one file under both names, plenty of pages *)
Record boot_firmware : Type := mkBootFirmware { bf_file : list Z }.

#[export] Instance boot_fw : Firmware boot_firmware unit unit := {|
  get_image_file_system f := (Ok tt, f);
  read_file f _ := (Ok (bf_file f), f);
  allocate_address f _ := (Ok tt, f);
  allocate_any f n := (if n =? 1 then Ok 0x3000 else if n =? 16 then Ok 0x80000 else Err tt, f)
|}.

#[export] Instance boot_fw_laws : FirmwareLaws boot_firmware unit unit.
Proof.
  refine {| available _ _ := True; holds_file f _ d := bf_file f = d |}.
  - intros f path data Hd. by exists f.
  - intros f path data Hd. exists f. split; [|done]. simpl. by rewrite Hd.
  - intros f p _. by exists f.
  - intros f n a f' [= Ha _]. destruct (Z.eqb_spec n 1) as [->|]; [by injection Ha as <-|].
    destruct (Z.eqb_spec n 16) as [->|]; [by injection Ha as <-|done].
Defined.

#[export] Instance boot_status : UefiStatus unit unit Z := {|
  efi_status _ := 2 ^ 63 + 14;
  io_error := Some;
  is_success s := s =? 0;
  VOLUME_CORRUPTED := 2 ^ 63 + 10;
  LOAD_ERROR := 2 ^ 63 + 1;
  OUT_OF_RESOURCES := 2 ^ 63 + 9
|}.

#[export] Instance boot_status_laws : UefiStatusLaws unit unit Z.
Proof. by constructor. Qed.

#[export] Instance boot_services : HandoffServices boot_firmware bool := {|
  helpers_init f := (true, f);
  set_watchdog_timer f := (false, f);
  ACPI2_GUID := true;
  ACPI_GUID := false;
  guid_eqb := Bool.eqb;
  config_table _ := [(false, 0xE0000)];
  exit_boot_services _ m := (mkOwnedMap 0x7000 1 40 1, m)
|}.

(** A writer that clears the low half of the magic number twice. *)
Definition demo_noise (round : nat) (m : memory) : memory :=
  if (5 <? round)%nat then write_bytes m 0x3000 0 4 else m.

Lemma demo_load m :
  exists st, load (mkBootFirmware demo_image) m KERNEL_PATH =
      Done (Ok (mkLoaded 0x100000 0x1000 0x100000 1 0), st) /\ firmware st = mkBootFirmware demo_image /\
    load (mkBootFirmware demo_image) m USER_PATH = Done (Ok (mkLoaded 0x100000 0x1000 0x100000 1 0), st).
Proof.
  assert (H : match load (mkBootFirmware demo_image) m KERNEL_PATH with
              | Done (r, st) => r = Ok (mkLoaded 0x100000 0x1000 0x100000 1 0) /\
                  firmware st = mkBootFirmware demo_image | Panic => False end)
    by (vm_compute; split; reflexivity).
  destruct (load (mkBootFirmware demo_image) m KERNEL_PATH) as [[r st]|] eqn:E; [|done].
  destruct H as [-> H]. exists st. split; [done|]. split; [done|]. exact E.
Qed.

Lemma handoff_delivers_witness :
  exists m' e, main (St := Z) true demo_noise (mkBootFirmware demo_image) (fun _ => 0) = Done (Entered e m') /\
    e = mkEntry 0x100000 0x8FFF8 0x3000 false /\
    rsdp (decode (read_bytes m' 0x3000 size_of_boot_info)) = 0xE0000 /\
    magic (decode (read_bytes m' 0x3000 size_of_boot_info)) = BOOT_INFO_MAGIC /\ read64 m' (0x3000 + 120) = 2.
Proof.
  destruct (demo_load (fun _ => 0)) as (st1 & L1 & F1 & _).
  destruct (demo_load (Loader.phys st1)) as (st2 & _ & F2 & L2).
  destruct (handoff_delivers (St := Z) true demo_noise (mkBootFirmware demo_image) (mkBootFirmware demo_image)
    (mkBootFirmware demo_image) (mkBootFirmware demo_image) false (fun _ => 0)
    (Loader.phys st2) st1 st2 (mkLoaded 0x100000 0x1000 0x100000 1 0) (mkLoaded 0x100000 0x1000 0x100000 1 0)
    (mkPrepared 0x90000 0x3000 0xE0000) (mkOwnedMap 0x7000 1 40 1)) as (m' & n & e & H1 & H2 & _ & H3 & H4 & (_ & Hd & Hi) & _).
  - reflexivity.
  - reflexivity.
  - exact L1.
  - rewrite F1. exact L2.
  - rewrite F2. reflexivity.
  - reflexivity.
  - repeat split; discriminate.
  - intros k m a Ha. unfold demo_noise. destruct (5 <? k)%nat; [|reflexivity].
    unfold write_bytes. cbn [pr_boot_info] in Ha.
    destruct (Z.leb_spec 0x3000 a); cbn [andb]; [|reflexivity].
    destruct (Z.ltb_spec a (0x3000 + 4)); [lia|reflexivity].
  - exists m', e. split; [exact H1|]. split; [exact H2|]. rewrite H2 in H3. cbn [e_rdi pr_boot_info] in H3.
    rewrite H3. split; [reflexivity|]. split; [reflexivity|]. cbn [pr_boot_info] in H4. rewrite H4.
    cbn [pr_boot_info] in Hd, Hi.
    destruct (Z.lt_trichotomy n 2) as [Hlt|[->|Hgt]]; [exfalso|reflexivity|exfalso].
    + specialize (Hi ltac:(lia)). assert (Hc : Z.to_nat n = 0%nat \/ Z.to_nat n = 1%nat) by lia.
      destruct Hc as [Hc|Hc]; rewrite Hc in Hi; vm_compute in Hi; discriminate Hi.
    + apply (Hd 2%nat); [lia|]. vm_compute. reflexivity.
Defined.

(** A kernel file for another machine is refused. *)
Lemma main_always_reports_witness :
  main (St := Z) false demo_noise (mkBootFirmware arm_image) (fun _ => 0xAA) = Done (Returned LOAD_ERROR (fun _ => 0xAA)).
Proof.
  assert (Hno : forall kernel st1, load_kernel (mkBootFirmware arm_image) (fun _ => 0xAA) <> Done (Ok kernel, st1))
    by (intros kernel st1 Hl; vm_compute in Hl; discriminate Hl).
  assert (Hbad : forall entry l, ~ well_formed arm_image entry l)
    by (intros entry l [Hv _ _ _ _ _]; vm_compute in Hv; discriminate Hv).
  destruct (main_always_reports (St := Z) false demo_noise (mkBootFirmware arm_image) (mkBootFirmware arm_image)
    (mkBootFirmware arm_image) false (fun _ => 0xAA)) as (r & Hm & _ & Hr).
  - reflexivity.
  - reflexivity.
  - intros fw1 fw2 data Ho Hd. injection Ho as <-. assert (data = arm_image) as -> by (symmetry; by injection Hd).
    split; [split; [by apply bytes_ok_b|vm_compute; discriminate]|].
    intros entry l Hwf. by destruct (Hbad entry l).
  - intros kernel st1 Hl. by destruct (Hno kernel st1).
  - intros kernel user p fw3 m2 map m1 (st1 & st2 & Hl & _). by destruct (Hno kernel st1).
  - rewrite Hm. f_equal. apply (Hr (mkBootFirmware arm_image) (mkBootFirmware arm_image) arm_image); [done..|exact Hbad].
Defined.
