(* ===== verification/UserInit.v ===== *)
(** * The first user service (crates/kernel/src/user.rs)

    [init] gives the user program its address space and its thread: it takes
    frames for the user stack, maps the image read-only and the stack writable
    into the tables the kernel runs on, and makes a thread that starts at the
    image's entry at privilege level 3.  The state is the one of [Threads] on
    the kernel's memory of [KMemory].

    The theorem joins the page tables, the frame allocator and the threads:
    after a successful [init] user mode reaches exactly the image and the
    stack, the kernel's own mapping is as before, and the thread pool has one
    more thread in the intended context.  Every failure leaves the kernel's
    mapping; a thread whose kernel stack cannot be had stays queued without
    one.  [init] is one call here; [KRun] has it with what happens between its
    accesses. *)
From Stdlib Require Import ZArith Lia Bool.
From stdpp Require Import base tactics option list numbers gmap sets fin_sets.
From S2P Require Import Prelude MemoryMap Sched Frame Paging UserMap BootInfo PhysMem Ports Descriptors Interrupts KMemory Threads.

#[local] Open Scope Z_scope.

Module User.
Definition USER_STACK_PAGES : Z := 4.
Definition USER_STACK_VA : Z := USER_BASE + 0x200000.

Inductive InitError : Type :=
| NoUserImage
| NoStack
| Map (e : MapError)
| Thread (e : CreateError).

Section User.
  Context {D : Type} `{PortIO D}.

(** The address of the page table arena. *)
  Variable arena_address : Z.

Definition with_ticks_before (s : System Kernel D) (t : Z) : System Kernel D :=
  let v := service s in with_service s (mkService (SERVICE v) (REACHED_CPL3 v) (SYSCALL_CS v) t).
Definition with_service_id (s : System Kernel D) (id : Z) : System Kernel D :=
  let v := service s in with_service s (mkService id (REACHED_CPL3 v) (SYSCALL_CS v) (TICKS_BEFORE v)).

(** The two mappings, for the user stack's frames [st]. *)
Definition mappings (b : BootInfo) (st : PhysRange) : list Mapping :=
  [ mkMapping (user_vaddr b) (user_phys b) (user_size b) false;
    mkMapping USER_STACK_VA (range_start st) (USER_STACK_PAGES * 4096) true ].

Definition init (s : System Kernel D) (b : BootInfo) : exec (System Kernel D * Result Z InitError) :=
  if negb (has_user_image b) then Done (s, Err NoUserImage) else
  let! (k, r) := alloc_frames (mem s) USER_STACK_PAGES in
  let s := with_mem s k in
  match r with
  | None => Done (s, Err NoStack)
  | Some st =>
      let '(arena, pml4_offset, first_free) := page_arena arena_address (mem s) in
      let! (arena, r) := map_user_region arena_address arena pml4_offset first_free (mappings b st) in
      let s := with_ram s (copy_to (ram (mem s)) arena_address arena) in
      match r with
      | Err e => Done (s, Err (Map e))
      | Ok mapped =>
          let s := log s Logging.Info (ServiceMapped (user_phys b) (user_vaddr b) (user_size b / 4096) USER_STACK_VA
                                         (user_entry b) (um_tables_used mapped)) in
          let s := with_ticks_before s (st_ticks (Sched.stats (sched s))) in
          let! (s, r) := create_user s (user_entry b) (USER_STACK_VA + 4096 * USER_STACK_PAGES) in
          match r with
          | Err e => Done (s, Err (Thread e))
          | Ok id => Done (log (with_service_id s id) Logging.Info (ServiceStarted id), Ok id)
          end
      end
  end.

Definition reached_cpl3 (s : System Kernel D) : bool := REACHED_CPL3 (service s).
Definition syscall_cs (s : System Kernel D) : Z := SYSCALL_CS (service s).
Definition elapsed_ticks (s : System Kernel D) : Z :=
  saturating_sub (st_ticks (Sched.stats (sched s))) (TICKS_BEFORE (service s)).
End User.
End User.

(** ** Frames lent to somebody else *)
Section Lending.
  Context {K D : Type} `{StackMemory K} `{PortIO D}.
  Context (boot : PhysRange) (others : gset Z).

Lemma pool_lend (s : System K D) ctx (k : K) (P : gset Z) :
  pool_ok boot others s ctx -> source_ok k -> P ⊆ spare (mem s) -> spare k = spare (mem s) ∖ P ->
  lent k = lent (mem s) ∪ P -> ram k = ram (mem s) -> pool_ok boot (others ∪ P) (with_mem s k) ctx.
Proof.
  intros [P1 P2 P3 P4 P5 P6 P7 P8 P9 P10 P11 P12 P13] Hok Hsub Hsp Hl Hram.
  constructor; cbn [with_mem mem sched SLOTS segments]; rewrite ?Hram; try done.
  - intros p. rewrite Hsp. intros [Hin _]%elem_of_difference. by apply P5.
  - intros p. rewrite Hl, !elem_of_union, (P6 p). tauto.
  - intros id x r Hx Hr. destruct (P7 id x r Hx Hr) as (S1 & S2 & S3 & S4). split_and!; try done.
    intros p Hin [Ho|Hp]%elem_of_union; [by apply (S4 p)|].
    apply (lent_spare (mem s) P2 p); [|by apply Hsub]. apply P6. right. by exists id, x, r.
Qed.

(** Writes to memory that is neither lent nor the boot stack. *)
Lemma pool_write (s : System K D) ctx a n m :
  pool_ok boot others s ctx -> 0 < n ->
  (forall p, p ∈ lent (mem s) -> p + PAGE_SIZE <= a \/ a + n <= p) -> apart boot (mkRange a n) ->
  (forall b c, b + c <= a \/ a + n <= b -> same_on b c m (ram (mem s))) ->
  pool_ok boot others (with_ram s m) ctx.
Proof.
  intros Hp Hn Hpages Hboot Hm. apply pool_ram; [done|]. intros id x Hmade Hid Hx.
  destruct (po_ready _ _ _ _ Hp id x Hmade Hid Hx) as (r & Hr & A1 & A2 & _). apply Hm.
  assert (Hap : apart r (mkRange a n)).
  { unfold region in Hr. destruct (stack x) as [q|] eqn:Eq.
    - injection Hr as ->. destruct (po_stack _ _ _ _ Hp id x r Hx Eq) as (Hsh & _).
      apply stack_apart_boot; [done|done|]. intros p Hin. apply Hpages. apply (po_lent _ _ _ _ Hp).
      right. by exists id, x, r.
    - destruct (id =? 0); [|done]. by injection Hr as <-. }
  unfold apart, top_of in *. cbn [range_start range_len] in Hap. lia.
Qed.

End Lending.

(** ** [init] as a whole *)
Section Init.
  Context {D : Type} `{PortIO D}.
  Context (boot : PhysRange) (others : gset Z) (aa : Z).

Definition arena_of (s : System Kernel D) : list Z := read_bytes (phys (mem s)) aa ARENA_BYTES.

(** The kernel after [memory::install] and [memory::init_allocators]: the
    arena holds the tables [build] made, and no page of it is the allocator's
    or part of the boot stack. *)
Record service_input (s : System Kernel D) (ctx : Z -> cpu * FxSaveArea) (b : BootInfo)
    (arena0 : list Z) (map : MemoryMap) (t : PageTables) : Prop := mkServiceInput {
  sv_pool : pool_ok boot others s ctx;
  sv_input : build_input aa arena0 map M2;
  sv_len : len arena0 = ARENA_BYTES;
  sv_build : build aa arena0 map M2 = Done (arena_of s, Ok t);
  sv_pages : forall p, p ∈ lent (mem s) ∪ spare (mem s) -> p + PAGE_SIZE <= aa \/ aa + ARENA_BYTES <= p;
  sv_boot : apart boot (mkRange aa ARENA_BYTES);
  sv_info : is_u64 (user_vaddr b) /\ is_u64 (user_entry b) /\ 0 <= user_phys b /\ 0 <= user_size b /\
            user_vaddr b + user_size b <= U64_MAX /\ user_phys b + user_size b <= 2 ^ 52
}.

(** The walk of the tables the kernel runs on. *)
Definition kernel_view (s : System Kernel D) (map : MemoryMap) (t : PageTables) (va : Z) : Prop :=
  mmu_walk aa (arena_of s) aa va =
  if identity_policy (region_list map) M2 (pt_limit t) va then Some (mkAccess va true false) else None.

Definition user_view (s : System Kernel D) (map : MemoryMap) (t : PageTables) (b : BootInfo) (st : PhysRange) (va : Z) : Prop :=
  mmu_walk aa (arena_of s) aa va =
  match find_mapping (User.mappings b st) va None with Some mp => Some (user_access mp va) | None => None end.

Lemma mappings_fit b st :
  is_u64 (user_vaddr b) -> 0 <= user_phys b -> 0 <= user_size b -> user_vaddr b + user_size b <= U64_MAX ->
  user_phys b + user_size b <= 2 ^ 52 -> stack_shape st ->
  Forall map_fits (User.mappings b st) /\ total_size (User.mappings b st) <= 2 ^ 62.
Proof.
  intros H1 H2 H3 H4 H5 [L1 _ L3 L4]. unfold top_of, MIN_FREE_ADDR, MAX_IDENTITY_BYTES in *.
  rewrite L1 in L4. change THREAD_STACK_SIZE with 16384 in L4.
  change (2 ^ 52) with 4503599627370496 in *. change (2 ^ 62) with 4611686018427387904. split.
  - repeat apply List.Forall_cons; [| |apply List.Forall_nil]; unfold map_fits; cbn [vaddr size paddr];
      change (2 ^ 52) with 4503599627370496; [ulia|].
    unfold User.USER_STACK_VA, User.USER_STACK_PAGES, USER_BASE. ulia.
  - cbn [total_size User.mappings foldr size]. unfold User.USER_STACK_PAGES. lia.
Qed.

(** What [map_user_region] answers for the two mappings. *)
Definition mapping_answer (b : BootInfo) (st : PhysRange) : Result Mapped MapError :=
  user_map_outcome ARENA_BYTES KERNEL_TABLE_PAGES (div_ceil (max_identity_bytes M2) PD_COVERAGE) (User.mappings b st).

(** The arena once [map_user_region] has written it back. *)
Lemma mapped_views s ctx b arena0 map t st k :
  service_input s ctx b arena0 map t -> stack_shape st -> phys k = phys (mem s) ->
  exists arena2,
    map_user_region aa (read_bytes (phys k) aa ARENA_BYTES) 0 (KERNEL_TABLE_PAGES * PAGE_SIZE) (User.mappings b st) =
      Done (arena2, mapping_answer b st) /\ len arena2 = ARENA_BYTES /\
    forall s', arena_of s' = arena2 -> forall va, 0 <= va < 2 ^ 48 ->
      if is_ok (mapping_answer b st) && (USER_BASE <=? va) && (va <? USER_BASE + USER_MAX_BYTES)
      then user_view s' map t b st va else kernel_view s' map t va.
Proof.
  intros Hin Hst Hk. destruct Hin as [_ Hbi Hl Hb _ _ (I1 & _ & I3 & I4 & I5 & I6)].
  destruct (mappings_fit b st I1 I3 I4 I5 I6 Hst) as [Hf Ht].
  destruct (build_ok_facts _ _ _ _ _ _ Hbi Hb) as (_ & Hroot & _ & _ & _ & Htu & _).
  assert (Eft : tables_used t = KERNEL_TABLE_PAGES) by (rewrite Htu; reflexivity).
  destruct (user_region_total _ _ _ _ _ _ _ Hbi Hb Hf Ht) as (arena2 & Hmap & Hl2).
  unfold arena_of in Hmap. rewrite Eft, <- Hk, Hl in Hmap.
  exists arena2. split; [exact Hmap|]. split; [by rewrite Hl2|].
  intros s' Es' va Hva. unfold user_view, kernel_view. rewrite Es'.
  assert (Hmap2 := Hmap). rewrite Hk, <- Eft in Hmap2.
  pose proof (user_walk_exact _ _ _ _ _ _ _ _ _ va Hbi Hb Hf Ht Hmap2 Hva) as Hw. rewrite Hroot in Hw.
  rewrite bool_decide_eq_false_2 in Hw by discriminate. rewrite andb_true_r, Eft in Hw.
  destruct (_ && (USER_BASE <=? va) && (va <? USER_BASE + USER_MAX_BYTES)); exact Hw.
Qed.

Lemma take_user_stack (s : System Kernel D) :
  source_ok (mem s) ->
  (exists st k, alloc_frames (mem s) User.USER_STACK_PAGES = Done (k, Some st) /\ stack_shape st /\ source_ok k /\
     list_to_set (range_pages st) ⊆ spare (mem s) /\
     spare k = spare (mem s) ∖ list_to_set (range_pages st) /\
     lent k = lent (mem s) ∪ list_to_set (range_pages st) /\ phys k = phys (mem s)) \/
  (exists k, alloc_frames (mem s) User.USER_STACK_PAGES = Done (k, None) /\ source_ok k /\
     spare k = spare (mem s) /\ lent k = lent (mem s) /\ phys k = phys (mem s)).
Proof. exact (take_stack s). Qed.

(** The walk gives in the user region the image and the stack, elsewhere the
    kernel's identity map. *)
Definition both_views (s' : System Kernel D) (map : MemoryMap) (t : PageTables) (b : BootInfo) (st : PhysRange) : Prop :=
  forall va, 0 <= va < 2 ^ 48 ->
    if (USER_BASE <=? va) && (va <? USER_BASE + USER_MAX_BYTES)
    then user_view s' map t b st va else kernel_view s' map t va.

(** The context the service starts in. *)
Definition service_start (b : BootInfo) : cpu * FxSaveArea :=
  (user_start (user_entry b) (User.USER_STACK_VA + 4096 * User.USER_STACK_PAGES), fx_initial).

(** Thread [id] has been made: it was unused, is ready and last in the queue,
    has a kernel stack of its own on fresh pages and waits there, as a user
    thread, in the context the service starts in. *)
Definition service_made (s s' : System Kernel D) (b : BootInfo) (st : PhysRange) (id : Z) : Prop :=
  get (Sched.states (sched s)) id = Some Unused /\ get (Sched.states (sched s')) id = Some Ready /\
  ready_queue (sched s') = ready_queue (sched s) ++ [id] /\
  exists y kst, get (SLOTS s') id = Some y /\ stack y = Some kst /\ user y = true /\
    kernel_stack_top y = top_of kst /\ stopped_in (phys (mem s')) kst y (service_start b) /\
    list_to_set (range_pages kst) ⊆ spare (mem s) ∖ list_to_set (range_pages st) /\
    lent (mem s') = lent (mem s) ∪ list_to_set (range_pages st) ∪ list_to_set (range_pages kst).

(** What [init] leaves when it has got past the user stack [st]. *)
Definition served (s s' : System Kernel D) (ctx : Z -> cpu * FxSaveArea) (b : BootInfo) (map : MemoryMap)
    (t : PageTables) (r : Result Z User.InitError) : Prop :=
  exists st k, alloc_frames (mem s) User.USER_STACK_PAGES = Done (k, Some st) /\
    stack_shape st /\ list_to_set (range_pages st) ⊆ spare (mem s) /\
    match r with
    | Ok id => is_ok (mapping_answer b st) = true /\ SERVICE (service s') = id /\
        TICKS_BEFORE (service s') = ticks (sched s) /\ service_made s s' b st id /\
        pool_ok boot (others ∪ list_to_set (range_pages st)) s' (upd ctx id (service_start b)) /\
        both_views s' map t b st
    | Err (User.Map e) => mapping_answer b st = Err e /\
        lent (mem s') = lent (mem s) ∪ list_to_set (range_pages st) /\
        pool_ok boot (others ∪ list_to_set (range_pages st)) s' ctx /\
        forall va, 0 <= va < 2 ^ 48 -> kernel_view s' map t va
    | Err (User.Thread e) => is_ok (mapping_answer b st) = true /\
        lent (mem s') = lent (mem s) ∪ list_to_set (range_pages st) /\ SLOTS s' = SLOTS s /\ both_views s' map t b st /\
        match e with
        | NoFreeSlot => sched s' = sched s /\ forall id, get (Sched.states (sched s)) id <> Some Unused
        | NoStack => exists id, get (Sched.states (sched s)) id = Some Unused /\
            get (Sched.states (sched s')) id = Some Ready /\ ready_queue (sched s') = ready_queue (sched s) ++ [id]
        end
    | Err _ => False
    end.

Lemma arena_after_write (s : System Kernel D) arena2 :
  len arena2 = ARENA_BYTES -> arena_of (with_ram s (copy_to (ram (mem s)) aa arena2)) = arena2.
Proof.
  intros Hl. unfold arena_of. cbn [with_ram with_mem mem set_ram kernel_stack_memory with_phys phys ram].
  rewrite <- Hl. apply read_bytes_copy_to.
Qed.

Lemma pool_service oth (s : System Kernel D) ctx v :
  pool_ok boot oth s ctx -> pool_ok boot oth (with_service s v) ctx.
Proof. intros []. by constructor. Qed.

Lemma pool_log oth (s : System Kernel D) ctx level line :
  pool_ok boot oth s ctx -> pool_ok boot oth (log s level line) ctx.
Proof. intros []. by constructor. Qed.

(** The thread pool when the pages [P] are lent to the user stack and the
    arena is rewritten. *)
Lemma pool_mapped s ctx b arena0 map t (k : Kernel) (P : gset Z) arena2 :
  service_input s ctx b arena0 map t -> source_ok k -> P ⊆ spare (mem s) -> spare k = spare (mem s) ∖ P ->
  lent k = lent (mem s) ∪ P -> ram k = ram (mem s) -> len arena2 = ARENA_BYTES ->
  pool_ok boot (others ∪ P) (with_ram (with_mem s k) (copy_to (ram k) aa arena2)) ctx.
Proof.
  intros [Hp _ _ _ Hpg Hbt _] T2 T3 T4 T5 T6 Hl.
  apply (pool_write boot (others ∪ P) (with_mem s k) ctx aa ARENA_BYTES); [by apply pool_lend|done| |done|].
  - cbn [mem with_mem]. rewrite T5. intros p Hpin. apply Hpg. set_solver.
  - intros a n Ha. apply copy_to_same_on. by rewrite Hl.
Qed.

(** A stack made of pages that could be handed out is not in the arena. *)
Lemma stack_off_arena s ctx b arena0 map t r :
  service_input s ctx b arena0 map t -> stack_shape r -> (forall p, p ∈ range_pages r -> p ∈ spare (mem s)) ->
  aa + ARENA_BYTES <= range_start r \/ top_of r <= aa.
Proof.
  intros [_ _ _ _ Hpg _ _] Hsh Hs. assert (Hk : apart r (mkRange aa ARENA_BYTES)).
  { apply stack_apart_boot; [done|done|]. intros p Hpin. apply Hpg, elem_of_union. right. by apply Hs. }
  unfold apart, top_of in Hk |- *. cbn [range_start range_len] in Hk. lia.
Qed.

(** [create_user] does not touch the service's statics. *)
Lemma create_user_service (s s' : System Kernel D) e ust r :
  create_user s e ust = Done (s', r) -> service s' = service s.
Proof.
  intros E. unfold create_user, prepare_user_frame, set_slot in E. repeat (step_exec || case_match); simplify_eq; done.
Qed.

(** The service's thread, once [create_user] has made it on the state [s3]
    that [init] had reached. *)
Lemma served_thread s s3 s4 ctx b arena0 map t (k : Kernel) st kst id arena2 :
  service_input s ctx b arena0 map t ->
  sched s3 = sched s -> arena_of s3 = arena2 ->
  spare (mem s3) = spare (mem s) ∖ list_to_set (range_pages st) ->
  lent (mem s3) = lent (mem s) ∪ list_to_set (range_pages st) ->
  (forall s', arena_of s' = arena2 -> both_views s' map t b st) ->
  started boot (others ∪ list_to_set (range_pages st)) s3 s4 ctx id kst (fst (service_start b)) ->
  ready_queue (sched s4) = ready_queue (sched s3) ++ [id] ->
  let s' := log (User.with_service_id s4 id) Logging.Info (ServiceStarted id) in
  service_made s s' b st id /\
  pool_ok boot (others ∪ list_to_set (range_pages st)) s' (upd ctx id (service_start b)) /\ both_views s' map t b st.
Proof.
  intros Hin Es Har Hsp Hl Hv (S1 & S2 & S3 & (y & Sy & Sk) & _ & S6 & S7 & _ & _ & S9 & _) Hq s'.
  destruct (po_stack _ _ _ _ S1 id y kst Sy Sk) as (Hsh & Htop & _).
  destruct (po_ready _ _ _ _ S1 id y (not_elem_of_empty id) S3 Sy) as (r & Hr & Hstop).
  unfold region in Hr. rewrite Sk in Hr. injection Hr as <-. rewrite upd_same in Hstop.
  split; [|split; [apply pool_log, pool_service; exact S1|]].
  - rewrite Es in S2, Hq. split; [exact S2|]. split; [exact S3|]. split; [exact Hq|].
    exists y, kst. split; [exact Sy|]. split; [exact Sk|]. split; [by destruct Hstop as (_ & _ & _ & _ & _ & Hu)|].
    split; [exact Htop|]. split; [exact Hstop|]. rewrite <- Hsp. split; [exact S7|]. rewrite <- Hl. exact S6.
  - apply Hv. rewrite <- Har. apply read_bytes_ext. cbn [s' log User.with_service_id with_service mem]. apply S9.
    apply (stack_off_arena s ctx b arena0 map t kst Hin Hsh).
    intros p Hpin. assert (Hps : p ∈ spare (mem s3)) by (apply S7; by apply elem_of_list_to_set).
    rewrite Hsp in Hps. by apply elem_of_difference in Hps as [? _].
Qed.

Lemma user_init_cases s ctx b arena0 map t :
  service_input s ctx b arena0 map t ->
  exists s' r, User.init aa s b = Done (s', r) /\
    match r with
    | Err User.NoUserImage => s' = s /\ has_user_image b = false
    | Err User.NoStack => has_user_image b = true /\
        (exists k, alloc_frames (mem s) User.USER_STACK_PAGES = Done (k, None)) /\
        lent (mem s') = lent (mem s) /\ phys (mem s') = phys (mem s) /\ SLOTS s' = SLOTS s /\ sched s' = sched s
    | _ => served s s' ctx b map t r
    end.
Proof.
  intros Hin. pose proof Hin as [Hp _ _ _ Hpg Hbt (_ & He & _)]. unfold User.init.
  destruct (has_user_image b) eqn:Hu; cbn [negb]; [|exists s, (Err User.NoUserImage); done].
  destruct (take_user_stack s (po_source _ _ _ _ Hp)) as
    [(st & k & E & T1 & T2 & T3 & T4 & T5 & T6)|(k & E & _ & _ & T2 & T3)]; rewrite E; cbn [exec_bind];
    [|by eexists _, (Err User.NoStack); split_and!; try done; exists k].
  destruct (mapped_views s ctx b arena0 map t st k Hin T1 T6) as (arena2 & Em & Hl & Hv).
  cbn [mem with_mem page_arena]. unfold page_arena. rewrite Em. cbn [exec_bind].
  set (P := list_to_set (range_pages st)) in *.
  set (s2 := with_ram (with_mem s k) (copy_to (ram k) aa arena2)).
  pose proof (pool_mapped s ctx b arena0 map t k P arena2 Hin T2 T3 T4 T5 T6 Hl) as Hp2. fold s2 in Hp2.
  assert (Har : arena_of s2 = arena2) by (apply (arena_after_write (with_mem s k)); done).
  destruct (mapping_answer b st) as [md|err] eqn:Eans.
  2: { exists s2, (Err (User.Map err)). split; [done|]. exists st, k. split; [done|]. split; [done|]. split; [done|].
       split; [done|]. split; [exact T5|]. split; [exact Hp2|]. intros va Hva. exact (Hv s2 Har va Hva). }
  set (s3 := User.with_ticks_before (log s2 _ _) _).
  assert (Hp3 : pool_ok boot (others ∪ P) s3 ctx) by (by apply pool_service, pool_log).
  destruct (perform_spec (K := Kernel) boot (others ∪ P) 0 ltac:(split; discriminate)
              (UserThread (user_entry b) (User.USER_STACK_VA + 4096 * User.USER_STACK_PAGES)) s3 ctx Hp3)
    as (s4 & r & Ep & Hr); [split; [done|split; discriminate]|].
  cbn [perform] in Ep. rewrite Ep. cbn [exec_bind].
  destruct r as [id|[]].
  - destruct Hr as (kst & Hstart & Hq). eexists _, (Ok id). split; [reflexivity|]. exists st, k.
    split; [done|]. split; [done|]. split; [done|]. split; [by rewrite Eans|]. split; [done|].
    split; [|by apply (served_thread s s3 s4 ctx b arena0 map t k st kst id arena2)].
    cbn [log User.with_service_id with_service service TICKS_BEFORE]. by rewrite (create_user_service _ _ _ _ _ Ep).
  - destruct Hr as (-> & [Hno|[_ [e' Hbad]]]); [|discriminate Hbad].
    eexists _, (Err (User.Thread NoFreeSlot)). split; [reflexivity|].
    exists st, k. split; [done|]. split; [done|]. split; [done|]. split; [by rewrite Eans|]. split; [exact T5|].
    split; [done|]. split; [|done]. intros va Hva. exact (Hv s3 Har va Hva).
  - destruct Hr as (R1 & _ & R3 & R4 & _ & R6). eexists _, (Err (User.Thread NoStack)). split; [reflexivity|].
    exists st, k. split; [done|]. split; [done|]. split; [done|]. split; [by rewrite Eans|].
    split; [rewrite R1; exact T5|]. split; [exact R4|]. split; [|exact R6].
    assert (Har4 : arena_of s4 = arena2).
    { rewrite <- Har. unfold arena_of. change (phys (mem s4)) with (ram (mem s4)). rewrite R3. done. }
    intros va Hva. exact (Hv s4 Har4 va Hva).
Qed.

(** With an image and a stack, the answer is that of the mapping or that of
    the creation. *)
Lemma init_answer (s s' : System Kernel D) b r k st :
  has_user_image b = true -> alloc_frames (mem s) User.USER_STACK_PAGES = Done (k, Some st) ->
  User.init aa s b = Done (s', r) ->
  (exists e, r = Err (User.Map e)) \/
  exists (s3 s4 : System Kernel D) m e ust r', sched s3 = sched s /\ SLOTS s3 = SLOTS s /\ mem s3 = with_phys k m /\
    create_user s3 e ust = Done (s4, r') /\
    r = match r' with Ok id => Ok id | Err e => Err (User.Thread e) end.
Proof.
  intros Hu Ha H1. unfold User.init in H1. rewrite Hu in H1. cbn [negb] in H1. rewrite Ha in H1. cbn [exec_bind] in H1.
  destruct (page_arena aa _) as [[ar0 p0] f0].
  destruct (map_user_region aa ar0 p0 f0 (User.mappings b st)) as [[ar1 [md|e]]|]; cbn [exec_bind] in H1;
    [|injection H1 as _ <-; left; by exists e|discriminate H1]. right.
  match type of H1 with context [create_user ?s ?e ?u] => set (s3 := s) in H1;
    destruct (create_user s3 e u) as [[s4 r']|] eqn:Ec; cbn [exec_bind] in H1; [|discriminate H1];
    exists s3, s4, (copy_to (ram k) aa ar1), e, u, r' end.
  split; [done|]. split; [done|]. split; [done|]. split; [exact Ec|]. destruct r'; by injection H1 as _ <-.
Qed.

End Init.

(** ** Claims *)

(** C35 Starting the service.  On a kernel whose arena holds the tables it
    built, [user::init], taken as one call, never panics.  Without a user image
    nothing changes; without frames for the user stack nothing is lent or
    written.  When it succeeds, the processor's walk of the kernel's tables
    gives in the user region exactly the image, read-only, and the stack,
    writable, both with user access, and everywhere else the kernel's identity
    map without user access; [SERVICE] names a thread that was unused and is
    now ready and last in the queue, with a kernel stack on fresh pages,
    stopped at the image's entry at level 3 with the top of the user stack.  A
    mapping that is refused leaves the kernel's map as it was, a thread that
    cannot be made leaves the user region mapped; both keep the user stack's
    frames, and without frames for the kernel stack the thread stays queued. *)
Theorem user_init_exact {D : Type} `{PortIO D} boot others aa (s : System Kernel D) ctx b arena0 map t :
  service_input boot others aa s ctx b arena0 map t ->
  exists s' r, User.init aa s b = Done (s', r) /\
    match r with
    | Err User.NoUserImage => s' = s /\ has_user_image b = false
    | Err User.NoStack => has_user_image b = true /\
        (exists k, alloc_frames (mem s) User.USER_STACK_PAGES = Done (k, None)) /\
        lent (mem s') = lent (mem s) /\ phys (mem s') = phys (mem s) /\ SLOTS s' = SLOTS s /\ sched s' = sched s
    | _ => served boot others aa s s' ctx b map t r
    end.
Proof. exact (user_init_cases boot others aa s ctx b arena0 map t). Qed.

(** The example machine of [KMemory] with its tables built, and a user image
    of one page at 3 MiB. *)
Definition demo_user_info : BootInfo :=
  mkBootInfo BOOT_INFO_MAGIC 1 120 0x4000 1 40 1 0xE0000 0x200000 0x100000 0x420000 0x10000 0xF4 0
             0x300000 0x1000 0x100000000 0x100000010.
Definition demo_arena0 : list Z := read_bytes demo_phys 0x280000 ARENA_BYTES.

Lemma demo_build : build_input 0x280000 demo_arena0 demo_boot_map M2 /\
  exists arena t, build 0x280000 demo_arena0 demo_boot_map M2 = Done (arena, Ok t) /\ len arena = ARENA_BYTES.
Proof.
  assert (Hin : build_input 0x280000 demo_arena0 demo_boot_map M2).
  { apply (install_build_input 0x280000 demo_kernel demo_info); [apply demo_mem_ok|apply demo_info_ok
      |split; discriminate|apply demo_parse]. }
  split; [exact Hin|]. pose proof Hin as (Ha & Hn & Hbs & Hm & Hmx & Hfn).
  destruct (build_eq 0x280000 demo_arena0 demo_boot_map M2 (conj Ha Hn) Hbs Hm)
    as (top & arena & Hrt & _ & Hbuild & _); [discriminate|discriminate|].
  replace top with (Some 0x1000000) in Hbuild by (vm_compute in Hrt; injection Hrt as <-; reflexivity).
  assert (Hl : len demo_arena0 = ARENA_BYTES) by (by apply len_read_bytes).
  rewrite Hl in Hbuild. eexists arena, _. split; [exact Hbuild|].
  destruct (build_ok_facts _ _ _ _ _ _ Hin Hbuild) as (_ & _ & _ & _ & _ & _ & _ & _ & [He _]). by rewrite He.
Qed.

Lemma demo_alloc_pages p :
  p ∈ kernel_lent (with_allocator demo_kernel demo_boot_alloc) ∪
      kernel_spare (with_allocator demo_kernel demo_boot_alloc) -> 0x100000 <= p < 0x110000.
Proof.
  unfold kernel_lent, kernel_spare. cbn [FRAME_ALLOCATOR with_allocator].
  assert (Hi : forall i, i ∈ pool demo_boot_alloc -> 0x100000 <= frame_addr demo_boot_alloc i < 0x110000).
  { intros i [Hb _]%elem_pool. assert (Hf : frames demo_boot_alloc = 16) by (vm_compute; reflexivity).
    assert (Hs : first_frame demo_boot_alloc = 256) by (vm_compute; reflexivity).
    unfold frame_addr, PAGE_SIZE. rewrite Hs. rewrite Hf in Hb. lia. }
  intros [Hin|Hin]%elem_of_union; apply elem_addresses in Hin as (i & -> & Hin); apply Hi.
  - by apply elem_of_difference in Hin as [? _].
  - by apply free_set_pool.
Qed.

(** The example's allocator has the frames for both stacks. *)
Lemma demo_take_stack :
  exists a st, alloc_contiguous demo_boot_alloc User.USER_STACK_PAGES = Done (a, Some st) /\
    is_ok (mapping_answer demo_user_info st) = true /\
    (forall (s : System Kernel Board.board) m e ust, sched s = boot_only ->
       SLOTS s = replicate 16 new_slot -> mem s = with_allocator (with_phys demo_kernel m) a ->
       match create_user s e ust with Done (_, Ok id) => id = 1 | _ => False end).
Proof.
  eexists _, _. split; [vm_compute; reflexivity|]. split; [vm_compute; reflexivity|].
  intros [k x sl cf sg xm d con sv] m e ust Hs Hsl Hm. cbn [sched SLOTS mem] in Hs, Hsl, Hm. subst.
  vm_compute. reflexivity.
Qed.

Lemma same_stack {A B : Type} (x : exec (A * option B)) (y y' : A) (a a' : B) :
  x = Done (y, Some a) -> x = Done (y', Some a') -> a = a'.
Proof. intros -> [= _ <-]. done. Qed.

Lemma user_init_exact_witness :
  exists s s' t, User.init (D := Board.board) 0x280000 s demo_user_info = Done (s', Ok 1) /\
    served demo_boot (lent (mem s)) 0x280000 s s' demo_ctx demo_user_info demo_boot_map t (Ok 1).
Proof.
  destruct demo_build as [Hin (arena & t & Hb & Hl)].
  set (k := with_allocator (with_phys demo_kernel (copy_to demo_phys 0x280000 arena)) demo_boot_alloc).
  assert (Hok : source_ok k).
  { exists demo_boot_alloc. split; [reflexivity|]. split; [apply demo_boot_alloc_ok|].
    split; vm_compute; discriminate. }
  assert (Har : arena_of 0x280000 (fresh_system k Board.wild) = arena).
  { unfold arena_of. rewrite <- Hl. apply read_bytes_copy_to. }
  destruct (user_init_exact demo_boot (lent k) 0x280000 (fresh_system k Board.wild) demo_ctx demo_user_info
              demo_arena0 demo_boot_map t) as (s' & r & H & Hr).
  - constructor.
    + apply fresh_pool; [exact Hok|discriminate|reflexivity|discriminate|].
      intros p Hp. right. change (top_of demo_boot) with 0xA0000.
      assert (0x100000 <= p < 0x110000) by (apply demo_alloc_pages; apply elem_of_union; right; exact Hp). lia.
    + exact Hin.
    + by apply len_read_bytes.
    + rewrite Har. exact Hb.
    + intros p Hp. left. unfold PAGE_SIZE. assert (0x100000 <= p < 0x110000) by (apply demo_alloc_pages; exact Hp). lia.
    + left. discriminate.
    + split_and!; (split; discriminate) || discriminate.
  - assert (Er : r = Ok 1).
    { destruct demo_take_stack as (a & st & Ea0 & Hans & Hth).
      assert (Ea : alloc_frames k User.USER_STACK_PAGES =
                Done (with_allocator (with_phys demo_kernel (copy_to demo_phys 0x280000 arena)) a, Some st)).
      { unfold alloc_frames. cbn [FRAME_ALLOCATOR k with_allocator]. rewrite Ea0. reflexivity. }
      destruct (init_answer 0x280000 (fresh_system k Board.wild) s' demo_user_info r _ st eq_refl Ea H)
        as [[e ->]|(s3 & s4 & m & e & ust & r' & E1 & E2 & E3 & Ec & ->)].
      - destruct Hr as (st' & k' & E' & _ & _ & Hmap & _).
        rewrite (same_stack _ _ _ _ _ Ea E'), Hmap in Hans. discriminate Hans.
      - specialize (Hth s3 m e ust E1 E2 E3). rewrite Ec in Hth. destruct r' as [i|]; [rewrite Hth; reflexivity|destruct Hth]. }
    subst r. exists (fresh_system k Board.wild), s', t. split; [exact H|exact Hr].
Defined.
