(* ===== verification/Races.v ===== *)
(** * The window in which a thread is queued without a stack (thread.rs)

    [create], [create_idle] and [create_user] register the new thread with the
    scheduler first and give it a stack and a first frame afterwards; the
    critical section of [with_sched] ends in between.  The runs of [Threads]
    end where an interrupt chooses such a thread.  Here is what happens then: a
    clock interrupt between the two halves of [create] chooses the new thread,
    the switch
    answers its null frame pointer, which [irq_common] reads as "keep the
    interrupted context", and from then on the creating thread runs under the
    number of the new one. *)
From Stdlib Require Import ZArith Lia Bool.
From stdpp Require Import base tactics option list numbers gmap sets.
From S2P Require Import Prelude MemoryMap Sched Frame Paging PhysMem Ports Descriptors Interrupts KMemory Threads.

#[local] Open Scope Z_scope.

Section Window.
  Context {K D : Type} `{StackMemory K} `{PortIO D}.

(** What [create] does after the scheduler has answered. *)
Definition create_continue (trampoline : Z) (s : System K D) (r : Result Z SchedError) (entry : Z) :
    exec (System K D * Result Z CreateError) :=
  match r with
  | Err _ => Done (s, Err NoFreeSlot)
  | Ok id => create_with_id trampoline s id entry
  end.

Lemma create_in_two_halves trampoline (s : System K D) entry :
  create trampoline s entry =
    let! (x, r) := Sched.create (sched s) in create_continue trampoline (with_sched s x) r entry.
Proof. unfold create. destruct (Sched.create (sched s)) as [[x []]|]; reflexivity. Qed.

(** Nothing to reap. *)
Lemma reap_nothing (s : System K D) :
  sched_inv (sched s) -> (forall j, get (Sched.states (sched s)) j <> Some Exited) -> reap_exited s = Done s.
Proof.
  intros Hinv Hno. pose proof (take_reapable_spec _ Hinv) as Ht.
  rewrite (proj2 (position_absent (sched s) Exited) Hno) in Ht.
  unfold reap_exited. change (Z.to_nat MAX_THREADS) with 16%nat. cbn [reap_loop]. rewrite Ht. by destruct s.
Qed.

(** A clock interrupt with a waiting thread, whatever the slots hold: the
    handler answers the frame pointer of the head of the queue. *)
Lemma tick_switches (s : System K D) f to rest x y :
  sched_inv (sched s) -> counters_ok (sched s) -> current (sched s) <> NO_THREAD ->
  len (SLOTS s) = MAX_THREADS -> (forall j, get (Sched.states (sched s)) j <> Some Exited) ->
  ready_queue (sched s) = to :: rest ->
  get (SLOTS s) (current (sched s)) = Some x -> get (SLOTS s) to = Some y ->
  f_vector (irq_frame_at (ram (mem s)) f) = Pic.TIMER_VECTOR ->
  exists s', irq_handler s f = Done (s', ctx_rsp (context y)) /\ mem s' = mem s /\
    rotated (set_ticks (sched s) (ticks (sched s) + 1)) (sched s') to rest /\ sched_inv (sched s') /\
    SLOTS s' = <[Z.to_nat (current (sched s)) := switched_out x f (xmm s)]> (SLOTS s) /\
    segments s' = (if user y then Gdt.set_rsp0 (segments s) (kernel_stack_top y) else segments s).
Proof.
  intros Hinv [Ht Hsw] Hc Hlen Hno Hq Hx Hy Hv.
  assert (Hne : current (sched s) <> to).
  { intros E. assert (Hr : get (Sched.states (sched s)) to = Some Ready).
    { apply (si_ready _ Hinv to). rewrite Hq. by left. }
    by rewrite <- E, (inv_current _ Hinv Hc) in Hr. }
  destruct (rotate_switch (set_ticks (sched s) (ticks (sched s) + 1)) to rest) as (x' & E & Hro);
    [by apply set_ticks_inv|done|done|done|].
  unfold irq_handler. rewrite (reap_nothing s Hinv Hno). cbn [exec_bind]. rewrite Hv.
  change (Pic.TIMER_VECTOR mod 256) with Pic.TIMER_VECTOR. unfold decide_vector. rewrite Z.eqb_refl.
  unfold on_tick. rewrite add64_done by lia. cbn [exec_bind negb PREEMPTION_ENABLED]. rewrite E. cbn [exec_bind].
  change (current (set_ticks (sched s) (ticks (sched s) + 1))) with (current (sched s)).
  rewrite (switch_to_eq _ (current (sched s)) to f x y) by done.
  eexists. split; [reflexivity|]. split; [done|]. split; [exact Hro|]. split; [|done].
  apply (rotated_inv (set_ticks (sched s) (ticks (sched s) + 1)) _ to rest); [by apply set_ticks_inv|done|done|exact Hro].
Qed.

(** A whole interrupt whose handler answers 0 and leaves memory alone. *)
Lemma interrupt_resumes boot others scratch ra (s s1 : System K D) ctx c :
  pool_ok boot others s ctx -> running_in boot s c -> is_u64 ra -> stays_on_stack boot s c scratch ->
  mem s1 = mem s -> segments s1 = segments s ->
  exists m1, irq_frame_at m1 (frame_address c 0 (Gdt.rsp0 (segments s))) = frame_of c Pic.TIMER_VECTOR /\
  forall s', irq_handler (with_ram s1 m1) (frame_address c 0 (Gdt.rsp0 (segments s))) = Done (s', 0) ->
    ram (mem s') = m1 ->
    exists c', take_interrupt scratch ra s1 c Pic.TIMER_VECTOR = Some (with_ram s' (scratch m1), c') /\ cpu_eq c' c.
Proof.
  intros Hp (Hc & x & r & Hx & Hr & Hh) Hra Hscr Em Eg.
  destruct (region_bounds boot others s ctx _ x r Hp Hx Hr) as [Hb1 Hb2].
  destruct (interrupt_entry boot others ra s ctx c Pic.TIMER_VECTOR x r Hp Hc Hx Hr Hh Hra)
    as (m1 & Hf1 & Hf2 & Hfr & _ & Hrun); [split; [discriminate|reflexivity]|].
  set (f := frame_address c 0 (Gdt.rsp0 (segments s))) in *.
  exists m1. split; [exact Hfr|]. intros s' Eh Eram.
  rewrite <- Em, <- Eg in Hrun. rewrite (take_interrupt_eq scratch ra s1 c Pic.TIMER_VECTOR f m1 Hrun), Eh, Eram, Z.eqb_refl.
  destruct (return_resumes (fun g _ _ => Some (set_reg g RAX 0, scratch m1)) ra
              (set_reg (set_reg (gpr c) RDI f) RAX 0) true (scratch m1) m1 f c) as (c' & Hres & Hc');
    [lia|lia| |by apply (frame_context _ _ _ Pic.TIMER_VECTOR)|].
  { intros a Ha. apply (Hscr x r); [done|done|]. fold f. lia. }
  rewrite Hres. exists c'. split; [reflexivity|exact Hc'].
Qed.

(** The state after the first half of [create], in a system with nothing else
    to run and nothing to reap. *)
Lemma half_created boot others (s : System K D) ctx x id :
  pool_ok boot others s ctx -> current (sched s) <> NO_THREAD -> ready_queue (sched s) = [] ->
  (forall j, get (Sched.states (sched s)) j <> Some Exited) -> Sched.create (sched s) = Done (x, Ok id) ->
  sched_inv x /\ ready_queue x = [id] /\ current x = current (sched s) /\ counters x = counters (sched s) /\
  (forall j, get (Sched.states x) j <> Some Exited) /\ id <> current (sched s) /\
  idle_running x = idle_running (sched s) /\
  exists y, get (SLOTS s) id = Some y /\ stack y = None /\ ctx_rsp (context y) = 0 /\ user y = false.
Proof.
  intros Hp Hc Hq Hno Hcr. pose proof (po_sched _ _ _ _ Hp) as Hinv.
  pose proof (create_spec (sched s) Hinv) as Hspec.
  destruct (position (is_state Unused) (Sched.states (sched s))) as [i|]; [|by rewrite Hcr in Hspec].
  destruct Hspec as (x' & E & Hinv' & Hq' & Hcur & Hi & Hn). rewrite Hcr in E. injection E as <- <-.
  destruct (create_states _ _ _ Hcr) as [Hu Hst]. pose proof (get_in_range _ _ _ Hu) as Hr.
  rewrite Hq in Hq'. split_and!; try done.
  - intros j. rewrite Hst, get_insert_dec by done. case_decide; [done|apply Hno].
  - intros ->. by rewrite (inv_current _ Hinv Hc) in Hu.
  - unfold idle_running. apply bool_decide_ext. by rewrite (si_idle _ Hinv), (si_idle _ Hinv'), Hcur, Hi.
  - destruct (get_lt_some (SLOTS s) id) as [y Hy].
    { rewrite (po_slots _ _ _ _ Hp). by rewrite (si_states _ Hinv) in Hr. }
    destruct (po_unused _ _ _ _ Hp id y Hu Hy) as [Hn1 Hn2]. exists y. split_and!; try done.
    destruct (user y) eqn:Eu; [|done]. destruct (po_user _ _ _ _ Hp id y Hy Eu) as [r Hbad]. congruence.
Qed.

(** The scheduler after a tick has switched from [t], alone until then, to the
    thread [id]: [t] is ready, alone in the queue, and nobody has exited. *)
Lemma exchanged x z id t :
  sched_inv x -> idle_running x = false -> current x = t -> id <> t -> 0 <= id < MAX_THREADS -> 0 <= t < MAX_THREADS ->
  (forall j, get (Sched.states x) j <> Some Exited) -> rotated (set_ticks x (ticks x + 1)) z id [] ->
  get (Sched.states z) t = Some Ready /\ (forall j, get (Sched.states z) j <> Some Exited) /\ ready_queue z = [t] /\
  current z = id /\ current z <> NO_THREAD /\ ticks z = ticks x + 1 /\ switches z = switches x + 1.
Proof.
  intros Hinv Hidle Hc Hne Hid Ht Hno Hro. pose proof (si_states _ Hinv) as Hl.
  rewrite (ro_states _ _ _ _ Hro), (ro_ready _ _ _ _ Hro), (ro_current _ _ _ _ Hro), (ro_ticks _ _ _ _ Hro),
    (ro_switches _ _ _ _ Hro). cbn [set_ticks Sched.states current ticks switches app].
  change (idle_running (set_ticks x (ticks x + 1))) with (idle_running x). rewrite Hidle, Hc. split_and!; try done.
  - rewrite get_insert_ne, get_insert_eq; [done|by rewrite Hl|lia|done].
  - intros j. rewrite get_insert_dec by (by rewrite len_insert, Hl). case_decide; [done|].
    rewrite get_insert_dec by (by rewrite Hl). case_decide; [done|apply Hno].
  - unfold MAX_THREADS, NO_THREAD in *. ulia.
Qed.

End Window.

(** C12 A clock interrupt between the two halves of [create].  With nothing else
    ready to run, a tick that arrives after the scheduler has queued the new
    thread and before its stack exists makes the new thread the running one
    while the processor resumes the creating thread; the scheduler holds that
    thread for ready, stopped in the frame of this tick.  Whatever happens to
    the other slots and to memory until then (the second half of [create]
    included), the next tick stores the creating thread's new context in the
    slot of the new thread and answers the frame of the first tick again, so
    the creating thread is thrown back to it. *)
Theorem creation_window_race {K D : Type} `{StackMemory K} `{PortIO D} boot others scratch ra (s : System K D) ctx c
    x id :
  pool_ok boot others s ctx -> running_in boot s c -> is_u64 ra -> stays_on_stack boot s c scratch ->
  0 <= ticks (sched s) < U64_MAX - 1 -> 0 <= switches (sched s) < U64_MAX - 1 ->
  idle_running (sched s) = false -> ready_queue (sched s) = [] ->
  (forall j, get (Sched.states (sched s)) j <> Some Exited) ->
  Sched.create (sched s) = Done (x, Ok id) ->
  let t := current (sched s) in
  exists s' c', take_interrupt scratch ra (with_sched s x) c Pic.TIMER_VECTOR = Some (s', c') /\ cpu_eq c' c /\
    id <> t /\ current (sched s') = id /\ get (Sched.states (sched s')) t = Some Ready /\
    forall s2 f2 y, sched s2 = sched s' -> len (SLOTS s2) = MAX_THREADS -> get (SLOTS s2) t = get (SLOTS s') t ->
      get (SLOTS s2) id = Some y -> f_vector (irq_frame_at (ram (mem s2)) f2) = Pic.TIMER_VECTOR ->
      exists s3 y', irq_handler s2 f2 = Done (s3, frame_address c 0 (Gdt.rsp0 (segments s))) /\
        current (sched s3) = t /\ get (SLOTS s3) id = Some y' /\ ctx_rsp (context y') = f2.
Proof.
  intros Hp Hrun Hra Hscr Ht Hsw Hidle Hq Hno Hcr t. pose proof Hrun as (Hc & xc & r & Hx & Hr & Hh).
  destruct (half_created boot others s ctx x id Hp Hc Hq Hno Hcr)
    as (Hinv & Hqx & Hcx & Hn & Hnox & Hne & Hid & y & Hy & Hys & Hyr & Hyu).
  unfold counters in Hn. injection Hn as Hn1 Hn2.
  destruct (interrupt_resumes boot others scratch ra s (with_sched s x) ctx c Hp Hrun Hra Hscr eq_refl eq_refl)
    as (m1 & Hfr & Hres).
  set (f := frame_address c 0 (Gdt.rsp0 (segments s))) in *.
  destruct (tick_switches (with_ram (with_sched s x) m1) f id [] xc y)
    as (s' & Eh & Em & Hro & Hinv' & Esl & Eg); cbn [with_ram with_mem with_sched sched SLOTS mem];
    [exact Hinv| |by rewrite Hcx|exact (po_slots _ _ _ _ Hp)|exact Hnox|exact Hqx|by rewrite Hcx|exact Hy| |].
  { unfold counters_ok. rewrite Hn1, Hn2. lia. }
  { by rewrite ram_set_ram, Hfr. }
  cbn [with_ram with_mem with_sched sched SLOTS mem segments xmm] in Em, Esl, Eg, Hro. rewrite Hyr in Eh.
  destruct (Hres s' Eh) as (c' & Et & Hcc); [by rewrite Em, ram_set_ram|].
  pose proof (get_in_range _ _ _ Hx) as Htr. pose proof (get_in_range _ _ _ Hy) as Hir.
  rewrite (po_slots _ _ _ _ Hp) in Htr, Hir.
  destruct (exchanged x (sched s') id t Hinv (eq_trans Hid Hidle) Hcx Hne Hir Htr Hnox Hro)
    as (Hready & Hno2 & Hq2 & Hcur2 & Hnt & Ht2 & Hs2).
  exists (with_ram s' (scratch m1)), c'. cbn [with_ram with_mem sched SLOTS].
  split; [exact Et|]. split; [exact Hcc|]. split; [exact Hne|]. split; [exact Hcur2|]. split; [exact Hready|].
  intros s2 f2 y2 E1 E2 E3 E4 E5.
  assert (Hslot : get (SLOTS s2) t = Some (switched_out xc f (xmm s))).
  { rewrite E3, Esl, Hcx. fold t. apply get_insert_eq. by rewrite (po_slots _ _ _ _ Hp). }
  destruct (tick_switches s2 f2 t [] y2 (switched_out xc f (xmm s)))
    as (s3 & Eh3 & _ & Hro3 & _ & Esl3 & _); rewrite ?E1;
    [exact Hinv'| |exact Hnt|exact E2|exact Hno2|exact Hq2|by rewrite Hcur2|exact Hslot|exact E5|].
  { unfold counters_ok. rewrite Ht2, Hs2, Hn1, Hn2. lia. }
  exists s3, (switched_out y2 f2 (xmm s2)). rewrite Eh3. split; [reflexivity|].
  split; [exact (ro_current _ _ _ _ Hro3)|]. rewrite Esl3, E1, Hcur2.
  split; [|done]. apply get_insert_eq. by rewrite E2.
Qed.

Lemma creation_window_race_witness :
  exists x s' c', Sched.create (sched demo_sys) = Done (x, Ok 1) /\
    take_interrupt id 0x100 (with_sched demo_sys x) boot_cpu Pic.TIMER_VECTOR = Some (s', c') /\
    rip c' = rip boot_cpu /\ current (sched s') = 1 /\ get (Sched.states (sched s')) 0 = Some Ready.
Proof.
  destruct (Sched.create (sched demo_sys)) as [[x r]|] eqn:E; [|vm_compute in E; discriminate E].
  assert (Hr : r = Ok 1) by (vm_compute in E; by injection E). subst r.
  destruct (creation_window_race demo_boot ∅ id 0x100 demo_sys demo_ctx boot_cpu x 1 demo_pool demo_running)
    as (s' & c' & E1 & Hcc & _ & Hcur & Hrd & _).
  - split; discriminate.
  - by intros ? ? ? ? _ _ _.
  - split; [discriminate|reflexivity].
  - split; [discriminate|reflexivity].
  - reflexivity.
  - reflexivity.
  - apply (proj1 (position_absent (sched demo_sys) Exited)). reflexivity.
  - exact E.
  - exists x, s', c'. split; [reflexivity|]. split; [exact E1|]. split; [apply Hcc|]. split; [exact Hcur|exact Hrd].
Defined.
