(* ===== verification/BlockIo.v ===== *)
(** * The block device wrapper (src/bootloader/block_io.rs)

    [UefiBlockIo] over the firmware's block protocol.  The protocol is not part
    of the repository: it is the class [BlockIO], of which nothing is assumed.
    The lemmas say what the wrapper adds to it: it refuses buffers that are not
    whole blocks before it calls the firmware, passes every other request on
    with the identifier of the current medium and hands the answer back, and
    computes the size of the medium with an addition and a multiplication that
    can overflow. *)
From Stdlib Require Import ZArith Znumtheory Lia Bool.
From stdpp Require Import base tactics option list numbers.
From S2P Require Import Prelude.

#[local] Open Scope Z_scope.

(** ** The firmware's protocol *)
Inductive Status : Type := INVALID_PARAMETER | OTHER_STATUS (code : Z).

Record BlockIOMedia : Type := mkMedia { m_media_id : Z; m_last_block : Z; m_block_size : Z }.

(** [protocol.media()], [protocol.read_blocks(media_id, lba, buffer)] (with
    what the buffer holds afterwards) and [protocol.write_blocks]. *)
Class BlockIO (P : Type) : Type := {
  media : P -> BlockIOMedia;
  protocol_read : P -> Z -> Z -> list Z -> list Z * Result unit Status;
  protocol_write : P -> Z -> Z -> list Z -> P * Result unit Status
}.

(** ** The wrapper *)
Section Wrapper.
  Context {P : Type} `{BlockIO P}.

Definition media_id (p : P) : Z := m_media_id (media p).

Definition check_buffer (buffer_len block_size : Z) : Result unit Status :=
  if (block_size =? 0) || negb (is_multiple_of buffer_len block_size) then Err INVALID_PARAMETER else Ok tt.

Definition size (p : P) : exec (Result Z Status) :=
  let! n := add64 (m_last_block (media p)) 1 in
  let! n := mul64 n (m_block_size (media p)) in
  Done (Ok n).

Definition block_size (p : P) : Result Z Status := Ok (m_block_size (media p)).

Definition read_blocks (p : P) (lba : Z) (buffer : list Z) : list Z * Result Z Status :=
  match block_size p with
  | Err e => (buffer, Err e)
  | Ok bs =>
      match check_buffer (len buffer) bs with
      | Err e => (buffer, Err e)
      | Ok _ =>
          let (b, r) := protocol_read p (media_id p) lba buffer in
          match r with
          | Err e => (b, Err e)
          | Ok _ => (b, Ok (len b))
          end
      end
  end.

Definition write_blocks (p : P) (lba : Z) (buffer : list Z) : P * Result Z Status :=
  match block_size p with
  | Err e => (p, Err e)
  | Ok bs =>
      match check_buffer (len buffer) bs with
      | Err e => (p, Err e)
      | Ok _ =>
          let (p, r) := protocol_write p (media_id p) lba buffer in
          match r with
          | Err e => (p, Err e)
          | Ok _ => (p, Ok (len buffer))
          end
      end
  end.

End Wrapper.

(** ** What the wrapper does *)
#[local] Instance divide_decision a b : Decision (a | b) := Zdivide_dec a b.

Lemma check_buffer_spec n bs :
  check_buffer n bs = if decide (bs <> 0 /\ (bs | n)) then Ok tt else Err INVALID_PARAMETER.
Proof.
  unfold check_buffer. destruct (Z.eqb_spec bs 0) as [->|Hbs]; cbn [orb].
  - by rewrite decide_False by naive_solver.
  - destruct (is_multiple_of n bs) eqn:E; cbn [negb].
    + rewrite decide_True; [done|]. split; [done|]. by apply is_multiple_of_spec in E.
    + rewrite decide_False; [done|]. intros [_ Hd]. apply is_multiple_of_spec in Hd; [|done]. congruence.
Qed.

Section Requests.
  Context {P : Type} `{BlockIO P}.

(** A request of whole blocks reaches the medium as it is and is answered with
    the number of bytes or the firmware's error; any other changes nothing. *)
Lemma requests_exact (p : P) lba b :
  let bs := m_block_size (media p) in
  let id := m_media_id (media p) in
  if decide (bs <> 0 /\ (bs | len b)) then
    write_blocks p lba b =
      (let (q, r) := protocol_write p id lba b in (q, match r with Ok _ => Ok (len b) | Err e => Err e end)) /\
    read_blocks p lba b =
      (let (b', r) := protocol_read p id lba b in (b', match r with Ok _ => Ok (len b') | Err e => Err e end))
  else write_blocks p lba b = (p, Err INVALID_PARAMETER) /\ read_blocks p lba b = (b, Err INVALID_PARAMETER).
Proof.
  cbv zeta. unfold write_blocks, read_blocks, block_size, media_id. rewrite check_buffer_spec. case_decide; [|done].
  destruct (protocol_write _ _ _ _) as [q [[]|e]], (protocol_read _ _ _ _) as [b' [[]|e']]; done.
Qed.

(** [size] is the number of bytes of the medium, or the overflow of one of its
    two operations. *)
Lemma size_exact (p : P) :
  0 <= m_last_block (media p) -> 0 <= m_block_size (media p) ->
  let bytes := (m_last_block (media p) + 1) * m_block_size (media p) in
  size p = if decide (m_last_block (media p) < U64_MAX /\ bytes <= U64_MAX) then Done (Ok bytes) else Panic.
Proof.
  intros H1 H2. cbv zeta. unfold size, add64, mul64.
  destruct (Z.leb_spec (m_last_block (media p) + 1) U64_MAX); cbn [exec_bind].
  - destruct (Z.leb_spec ((m_last_block (media p) + 1) * m_block_size (media p)) U64_MAX); cbn [exec_bind].
    + rewrite decide_True; [done|lia].
    + rewrite decide_False; [done|lia].
  - rewrite decide_False; [done|lia].
Qed.

End Requests.

(** ** A medium in memory: 8 blocks of 512 bytes *)
Record RamDisk : Type := mkRamDisk { cells : list Z }.

Definition inside (lba n : Z) : bool := (0 <=? lba) && (lba * 512 + n <=? 8 * 512).

#[global] Instance ram_block_io : BlockIO RamDisk := {
  media _ := mkMedia 7 7 512;
  protocol_read p id lba b :=
    if (id =? 7) && inside lba (len b) then (sub_list (cells p) (lba * 512) (len b), Ok tt)
    else (b, Err INVALID_PARAMETER);
  protocol_write p id lba b :=
    if (id =? 7) && inside lba (len b) then (mkRamDisk (splice (cells p) (lba * 512) b), Ok tt)
    else (p, Err INVALID_PARAMETER)
}.

(** What is written is read back, through the wrapper. *)
Example ram_disk_roundtrip :
  let (q, r) := write_blocks (mkRamDisk (replicate 4096 0)) 2 (replicate 512 0xA5) in
  r = Ok 512 /\ read_blocks q 2 (replicate 512 0) = (replicate 512 0xA5, Ok 512) /\
  read_blocks q 3 (replicate 512 1) = (replicate 512 0, Ok 512) /\
  snd (read_blocks q 3 (replicate 100 1)) = Err INVALID_PARAMETER.
Proof. vm_compute. split_and!; reflexivity. Qed.
