(* ===== verification/UserProgram.v ===== *)
(** * The user service and its library (crates/user, crates/user-lib)

    The program spins, then reports with one system call.  Its machine code is
    the compiler's; what the kernel sees of it is the spin count and the
    registers at [int 0x40], which the library's [syscall] fixes.  The theorem
    joins the call with the kernel: the interrupt records the privilege level
    the processor reports, ends the thread whatever the call number is, and
    resumes the next thread in the context it was stopped in. *)
From Stdlib Require Import ZArith Lia Bool.
From stdpp Require Import base tactics option list numbers gmap sets.
From S2P Require Import Prelude MemoryMap Sched Frame Paging PhysMem Ports Descriptors Interrupts KMemory Threads.

#[local] Open Scope Z_scope.

(** ** The library *)
Module UserLib.
Definition EXIT : Z := 0.
Definition WRITE : Z := 1.
Definition YIELD : Z := 2.
Definition ALIVE : Z := 0xDEAD.

(** The operands of [asm!("int 0x40")]: the registers at the instruction. *)
Definition syscall (g : regs) (number a b c : Z) : regs :=
  set_reg (set_reg (set_reg (set_reg g RAX number) RDI a) RSI b) RDX c.

Definition yield_now (g : regs) : regs := syscall g YIELD 0 0 0.
Definition exit (g : regs) (status : Z) : regs := syscall g EXIT status 0 0.

(** [write] of a slice at [ptr] with [n] bytes. *)
Definition write (g : regs) (ptr n : Z) : regs := syscall g WRITE ptr n 0.
End UserLib.

(** ** The program *)
Module UserMain.
Definition SPIN_ROUNDS : Z := 5_000_000.

(** [while counter < SPIN_ROUNDS]; [None] when [fuel] rounds were not enough. *)
Fixpoint spin (fuel : nat) (counter : Z) : option Z :=
  if counter <? SPIN_ROUNDS then
    match fuel with
    | O => None
    | S fuel => spin fuel (wrap64 (counter + 1))
    end
  else Some counter.

(** The registers at the only system call of [_start]. *)
Definition start (fuel : nat) (g : regs) : option regs :=
  match spin fuel 0 with
  | Some counter => Some (UserLib.syscall g UserLib.ALIVE counter 0 0)
  | None => None
  end.
End UserMain.

(** The loop ends after exactly [SPIN_ROUNDS] rounds. *)
Lemma spin_ends n counter :
  0 <= counter -> counter + Z.of_nat n = UserMain.SPIN_ROUNDS -> UserMain.spin n counter = Some UserMain.SPIN_ROUNDS.
Proof.
  revert counter. induction n as [|n IH]; intros counter H0 Hn; cbn [UserMain.spin].
  - rewrite (proj2 (Z.ltb_ge _ _)) by lia. f_equal. lia.
  - rewrite (proj2 (Z.ltb_lt _ _)) by lia. rewrite wrap64_small; [apply IH; lia|].
    unfold UserMain.SPIN_ROUNDS in *. ulia.
Qed.

Lemma spin_short n counter :
  0 <= counter -> counter + Z.of_nat n < UserMain.SPIN_ROUNDS -> UserMain.spin n counter = None.
Proof.
  revert counter. induction n as [|n IH]; intros counter H0 Hn; cbn [UserMain.spin].
  - by rewrite (proj2 (Z.ltb_lt _ _)) by lia.
  - rewrite (proj2 (Z.ltb_lt _ _)) by lia. rewrite wrap64_small; [apply IH; lia|].
    unfold UserMain.SPIN_ROUNDS in *. ulia.
Qed.

(** ** The call in the kernel *)
Section Call.
  Context {K D : Type} `{StackMemory K} `{PortIO D}.
  Variable boot : PhysRange.
  Variable others : gset Z.

Lemma switch_to_keeps (s s' : System K D) from to f ret :
  switch_to s from to f = Done (s', ret) -> sched s' = sched s /\ service s' = service s /\ lines s' = lines s.
Proof.
  unfold switch_to, set_slot, is_user, stack_top_of. intros Hs. repeat step_exec; done.
Qed.

(** The handler on a system call. *)
Lemma syscall_handler (s : System K D) ctx f next s' ret :
  pool_ok boot others s ctx -> current (sched s) <> NO_THREAD -> counters_ok (sched s) ->
  idle_running (sched s) = false -> successor (sched s) = Some next ->
  f_vector (irq_frame_at (ram (mem s)) f) = Idt.SYSCALL_VECTOR ->
  irq_handler s f = Done (s', ret) ->
  let fr := irq_frame_at (ram (mem s)) f in
  service s' = mkService (SERVICE (service s)) true (f_cs fr) (TICKS_BEFORE (service s)) /\
  (Logging.Info, ServiceReached (f_cs fr) (f_rax fr) (f_rdi fr)) ∈ lines s' /\
  get (Sched.states (sched s')) (current (sched s)) = Some Exited.
Proof.
  intros Hp Hc Hn Hi Hs Hv Hh fr.
  destruct (reap_exited_spec boot others s ctx Hp) as (s1 & E1 & Hp1 & Hk & _).
  destruct (next_kept Idt.EXIT_VECTOR s s1 (po_sched _ _ _ _ Hp) (po_sched _ _ _ _ Hp1) Hk) as (N1 & _ & N3).
  change (successor (sched s1) = successor (sched s)) in N1. rewrite Hs in N1. rewrite Hi in N3.
  pose proof (ke_counters _ _ Hk) as Ec. unfold counters in Ec. injection Ec as Ec1 Ec2.
  destruct (exit_switch (sched s1) next) as (x' & Ex & Est & _);
    [by apply (po_sched _ _ _ _ Hp1)|rewrite Ec2; apply Hn|by rewrite (ke_current _ _ Hk)|done|done|].
  unfold irq_handler in Hh. rewrite E1 in Hh. cbn [exec_bind] in Hh. rewrite (ke_ram _ _ Hk), Hv in Hh.
  change (Idt.SYSCALL_VECTOR mod 256) with Idt.SYSCALL_VECTOR in Hh. unfold decide_vector in Hh.
  cbn [Z.eqb Pos.eqb Pic.TIMER_VECTOR Idt.YIELD_VECTOR Idt.EXIT_VECTOR Idt.SYSCALL_VECTOR] in Hh.
  rewrite (ke_ram _ _ Hk) in Hh. fold fr in Hh. unfold on_syscall, exit_thread in Hh.
  set (s2 := if negb _ then _ else _) in Hh.
  assert (Es2 : sched s2 = sched s1 /\ service s2 = mkService (SERVICE (service s)) true (f_cs fr) (TICKS_BEFORE (service s)) /\
                (Logging.Info, ServiceReached (f_cs fr) (f_rax fr) (f_rdi fr)) ∈ lines s2).
  { unfold s2. rewrite <- (ke_service _ _ Hk). destruct (negb _); cbn; rewrite ?elem_of_app; set_solver. }
  destruct Es2 as (Es & Esv & Eln). rewrite Es, Ex in Hh. cbn [exec_bind] in Hh.
  apply switch_to_keeps in Hh as (-> & -> & ->). cbn [with_sched sched service lines].
  split; [exact Esv|]. split; [exact Eln|]. rewrite Est, (ke_current _ _ Hk).
  destruct (successor_ready (sched s1) next (po_sched _ _ _ _ Hp1)) as [_ Hne];
    [by rewrite (ke_current _ _ Hk)|done|done|].
  rewrite (ke_current _ _ Hk) in Hne. pose proof (inv_current_range _ (po_sched _ _ _ _ Hp) Hc) as Hr.
  assert (Hto : 0 <= next < MAX_THREADS).
  { destruct (successor_ready (sched s1) next (po_sched _ _ _ _ Hp1)) as [Hrd _];
      [by rewrite (ke_current _ _ Hk)|done|done|]. by apply (inv_state_range _ (po_sched _ _ _ _ Hp1) _ _ Hrd). }
  rewrite get_insert_ne by lia. apply get_insert_eq. by rewrite (si_states _ (po_sched _ _ _ _ Hp1)).
Qed.

(** A system call is an interrupt whose handler saw its registers. *)
Lemma take_syscall scratch ra (s : System K D) ctx c next s' c' :
  pool_ok boot others s ctx -> running_in boot s c -> is_u64 ra -> counters_ok (sched s) ->
  idle_running (sched s) = false -> successor (sched s) = Some next ->
  take_interrupt scratch ra s c Idt.SYSCALL_VECTOR = Some (s', c') ->
  service s' = mkService (SERVICE (service s)) true (code_seg c) (TICKS_BEFORE (service s)) /\
  (Logging.Info, ServiceReached (code_seg c) (gpr c RAX) (gpr c RDI)) ∈ lines s' /\
  get (Sched.states (sched s')) (current (sched s)) = Some Exited.
Proof.
  intros Hp (Hc & x & r & Hx & Hr & Hh) Hra Hn Hi Hs Ht.
  destruct (interrupt_entry boot others ra s ctx c Idt.SYSCALL_VECTOR x r Hp Hc Hx Hr Hh Hra)
    as (m1 & _ & _ & Hfr & Hp1 & Hrun); [split; [discriminate|reflexivity]|].
  rewrite (take_interrupt_eq scratch ra s c _ _ m1 Hrun) in Ht.
  destruct (irq_handler (with_ram s m1) (frame_address c 0 (Gdt.rsp0 (segments s)))) as [[s1 ret]|] eqn:Eh; [|discriminate Ht].
  apply (syscall_handler (with_ram s m1) ctx _ next) in Eh;
    [|exact Hp1|exact Hc|exact Hn|exact Hi|exact Hs|cbn [with_ram with_mem mem]; rewrite ram_set_ram, Hfr; reflexivity].
  cbn [with_ram with_mem mem service sched] in Eh. rewrite ram_set_ram, Hfr in Eh.
  destruct (run _ _ _ _) in Ht; try discriminate Ht. injection Ht as <- _. exact Eh.
Qed.

End Call.

(** The processor at the library's [int 0x40]. *)
Definition at_call (c : cpu) (number a b d : Z) : cpu :=
  mkCpu (UserLib.syscall (gpr c) number a b d) (rip c) (code_seg c) (rflags c) (stack_ptr c) (stack_seg c).

Lemma at_call_ok c number a b d :
  cpu_ok c -> is_u64 number -> is_u64 a -> is_u64 b -> is_u64 d -> cpu_ok (at_call c number a b d).
Proof.
  intros (Hg & Hrest) Hn Ha Hb Hd. split; [|exact Hrest].
  intros r. cbn [at_call gpr]. unfold UserLib.syscall, set_reg. repeat case_decide; auto.
Qed.

(** C13 The service's system call.  The program's loop ends after exactly
    [SPIN_ROUNDS] rounds and its call then carries the number [ALIVE] and that
    count.  For a running thread that executes the library's [syscall] with any
    number, the kernel's interrupt path records that the call came and the
    [cs] the processor saved, logs the number and the first argument, ends the
    thread, and resumes the next thread exactly where it had been stopped. *)
Theorem service_call_ends_thread {K D : Type} `{StackMemory K} `{PortIO D} boot others scratch ra (s : System K D) ctx
    c number a b d next :
  (forall g, UserMain.start (Z.to_nat UserMain.SPIN_ROUNDS) g =
     Some (UserLib.syscall g UserLib.ALIVE UserMain.SPIN_ROUNDS 0 0)) /\
  (forall n g, Z.of_nat n < UserMain.SPIN_ROUNDS -> UserMain.start n g = None) /\
  (pool_ok boot others s ctx -> running_in boot s (at_call c number a b d) ->
   interrupt_ok boot s (at_call c number a b d) scratch ra Idt.SYSCALL_VECTOR next ->
   exists s' c', take_interrupt scratch ra s (at_call c number a b d) Idt.SYSCALL_VECTOR = Some (s', c') /\
     REACHED_CPL3 (service s') = true /\ SYSCALL_CS (service s') = code_seg c /\
     (Logging.Info, ServiceReached (code_seg c) number a) ∈ lines s' /\
     get (Sched.states (sched s')) (current (sched s)) = Some Exited /\
     current (sched s') = next /\ next <> current (sched s) /\
     cpu_eq c' (fst (ctx next)) /\ xmm s' = snd (ctx next)).
Proof.
  split; [|split].
  - intros g. unfold UserMain.start. by rewrite spin_ends by (rewrite ?Z2Nat.id; unfold UserMain.SPIN_ROUNDS; lia).
  - intros n g Hn. unfold UserMain.start. by rewrite spin_short by lia.
  - intros Hp Hrun (I1 & I2 & I3 & I4 & I5 & I6). specialize (I4 eq_refl).
    destruct (interrupt_switches boot others scratch ra s ctx _ _ next Hp Hrun I1 I2 I3 (fun _ => I4) I5 I6 (not_elem_of_empty next))
      as (s' & c' & E & Hcur & _ & Hcc & Hx & _ & _).
    change (successor (sched s) = Some next) in I6.
    destruct (successor_ready _ _ (po_sched _ _ _ _ Hp) (proj1 Hrun) I4 I6) as [_ Hne].
    destruct (take_syscall boot others scratch ra s ctx _ next s' c' Hp Hrun I3 I1 I4 I6 E) as (Hs & Hl & He).
    exists s', c'. rewrite Hs. rewrite upd_other in Hcc, Hx by exact Hne.
    split; [exact E|]. split; [reflexivity|]. split; [reflexivity|]. split; [exact Hl|].
    split; [exact He|]. split; [exact Hcur|]. split; [exact Hne|]. split; [exact Hcc|exact Hx].
Qed.

(** The example: a user thread made on the one-stack machine and reached by a
    clock tick. *)
Definition demo_user_run : option (System Shelf Board.board * System Shelf Board.board * cpu) :=
  match create_user demo_sys 0x100000010 0x100204000 with
  | Done (s1, Ok _) =>
      match take_interrupt id 0x100 s1 boot_cpu Pic.TIMER_VECTOR with
      | Some (s2, c2) => Some (s1, s2, c2)
      | None => None
      end
  | _ => None
  end.

Lemma demo_user_reached : exists (s2 : System Shelf Board.board) ctx, pool_ok demo_boot ∅ s2 ctx /\ counters (sched s2) = (1, 1) /\
  current (sched s2) = 1 /\ ready_queue (sched s2) = [0] /\ idle_running (sched s2) = false /\
  running_in demo_boot s2 (at_call (user_start 0x100000010 0x100204000) UserLib.ALIVE UserMain.SPIN_ROUNDS 0 0) /\
  ctx 0 = (boot_cpu, fx_zeroed).
Proof.
  assert (Hv : match demo_user_run with
               | Some (s1, s2, _) => (current (sched s1), ready_queue (sched s1), counters (sched s1),
                   counters (sched s2), current (sched s2), ready_queue (sched s2), idle_running (sched s2), xmm s1)
               | None => (7, [], (0, 0), (0, 0), 0, [], true, [])
               end = (0, [1], (0, 0), (1, 1), 1, [0], false, fx_zeroed)) by (vm_compute; reflexivity).
  unfold demo_user_run in Hv.
  destruct (perform_spec demo_boot ∅ 0 ltac:(split; discriminate) (UserThread 0x100000010 0x100204000) demo_sys
              demo_ctx demo_pool ltac:(split; split; discriminate)) as (s1 & r & E & Hr).
  cbn [perform] in E. rewrite E in Hv. destruct r as [i|]; [|discriminate Hv]. destruct Hr as (st & Hst & Hq).
  pose proof (started_running demo_boot ∅ demo_sys s1 demo_ctx i st _ boot_cpu demo_pool Hst demo_running) as Hrun.
  pose proof Hst as (Hp1 & _).
  destruct (take_interrupt id 0x100 s1 boot_cpu Pic.TIMER_VECTOR) as [[s2 c2]|] eqn:E2; [|discriminate Hv].
  unfold counters in Hv. injection Hv as V1 V2 V3 V4 V5 V6 V7 V8 V9 V10.
  destruct (interrupt_switches demo_boot ∅ id 0x100 s1 _ boot_cpu Pic.TIMER_VECTOR 1 Hp1 Hrun)
    as (s2' & c2' & E2' & _ & _ & Hcc & _ & Hp2 & Hrun2).
  - unfold counters_ok. rewrite V3, V4. repeat split; discriminate.
  - split; [discriminate|reflexivity].
  - split; discriminate.
  - discriminate.
  - by intros ? ? ? ? _ _ _.
  - unfold next_thread. change (is_rotation Pic.TIMER_VECTOR) with true. cbv iota. rewrite V2. reflexivity.
  - apply not_elem_of_empty.
  - rewrite E2 in E2'. injection E2' as <- <-. eexists s2, _. split; [exact Hp2|].
    split; [unfold counters; congruence|]. split; [exact V7|]. split; [exact V8|]. split; [exact V9|].
    rewrite V1. split; [|rewrite upd_same; congruence].
    rewrite V1 in Hcc. rewrite upd_other in Hcc by discriminate.
    assert (Ei : i = 1).
    { rewrite V2 in Hq. cbn [ready_queue sched request_queue] in Hq. by injection Hq. }
    subst i. rewrite upd_same in Hcc. cbn [fst start_context] in Hcc.
    destruct Hrun2 as (Hc2 & y & q & Hy & Hr' & [_ Hh]). split; [exact Hc2|]. exists y, q.
    split; [exact Hy|]. split; [exact Hr'|]. destruct Hcc as (_ & _ & Hcs & _). rewrite Hcs in Hh.
    split; [|exact Hh]. apply at_call_ok; [|split; discriminate..].
    split; [intros ?; split; discriminate|]. repeat split; discriminate.
Qed.

Lemma service_call_ends_thread_witness :
  exists (s s' : System Shelf Board.board) c', 
    take_interrupt id 0x100 s (at_call (user_start 0x100000010 0x100204000) UserLib.ALIVE UserMain.SPIN_ROUNDS 0 0)
      Idt.SYSCALL_VECTOR = Some (s', c') /\
    REACHED_CPL3 (service s') = true /\ SYSCALL_CS (service s') = 0x2B /\
    (Logging.Info, ServiceReached 0x2B 0xDEAD 5_000_000) ∈ lines s' /\ cpu_eq c' boot_cpu.
Proof.
  destruct demo_user_reached as (s & ctx & Hp & Hn & Hc & Hq & Hi & Hrun & Hctx).
  unfold counters in Hn. injection Hn as Hn1 Hn2.
  destruct (proj2 (proj2 (service_call_ends_thread demo_boot ∅ id 0x100 s ctx (user_start 0x100000010 0x100204000)
    UserLib.ALIVE UserMain.SPIN_ROUNDS 0 0 0)) Hp Hrun) as (s' & c' & E & H1 & H2 & H3 & _ & _ & _ & Hcc & _).
  - split; [unfold counters_ok; rewrite Hn1, Hn2; repeat split; discriminate|].
    split; [split; [discriminate|reflexivity]|]. split; [split; discriminate|]. split; [intros _; exact Hi|].
    split; [by intros ? ? ? ? _ _ _|].
    change (successor (sched s) = Some 0). unfold successor. rewrite Hq. reflexivity.
  - exists s, s', c'. split; [exact E|]. split; [exact H1|]. split; [exact H2|]. split; [exact H3|].
    rewrite Hctx in Hcc. exact Hcc.
Defined.
