(* ===== verification/MemCheck.v ===== *)
(** * The memory self-check (crates/kernel/src/memory.rs)

    [heap_self_check] drives the global allocator the way Rust code does,
    through [Vec]: 64 blocks of mixed sizes filled with patterns, half of them
    replaced, everything released, one request that is too large.
    [self_check] adds the frame check of [KMemory].

    The check is a client of the allocator; it is run here against the
    allocator itself.  A block is [place_in] a tiling by first fit and
    released by [free_at]; a simulation carries the contents of the vectors
    along, and what is left is a computation on tilings.  The theorem: on the
    heap that [init_allocators] leaves, the check passes, whatever the heap's
    address, and leaves the heap one free block again, if two frames are free;
    with fewer the frame check reports it. *)
From Stdlib Require Import ZArith Lia Bool String.
From stdpp Require Import base tactics option list numbers gmap sets.
From S2P Require Import Prelude MemoryMap Frame Heap Paging BootInfo PhysMem KMemory.

#[local] Open Scope Z_scope.

(** ** Constants *)
Definition BLOCK_SIZES : list Z := [16; 33; 64; 129; 256; 1025; 4096; 7].
Definition BLOCK_COUNT : Z := 64.
Definition PATTERN_SEED : Z := 0xA5.

(** [index as u8] truncates. *)
Definition pattern (i : Z) : Z := Z.lxor PATTERN_SEED (i mod 256).

(** ** Vectors of the standard library

    A [Vec<u8>] made by [vec!] is a block of exactly its length; a failed
    allocation is [handle_alloc_error], a panic.  Of the two vectors that hold
    the blocks the buffers are allocated and released ([Vec<u8>] and
    [Option<Vec<u8>>] take three words), their elements are lists. *)
Record Vec : Type := mkVec { as_ptr : Z; vec_len : Z }.
Definition SIZE_OF_VEC : Z := 24.

Definition vec_of (k : Kernel) (byte size : Z) : exec (Kernel * Vec) :=
  let! (k, p) := heap_alloc k size 1 in
  if p =? 0 then Panic
  else Done (with_phys k (copy_to (phys k) p (replicate (Z.to_nat size) byte)), mkVec p size).

Definition with_capacity (k : Kernel) (n : Z) : exec (Kernel * Z) :=
  let! (k, p) := heap_alloc k (n * SIZE_OF_VEC) 8 in
  if p =? 0 then Panic else Done (k, p).

Fixpoint drop_vecs (k : Kernel) (l : list Vec) : exec Kernel :=
  match l with
  | [] => Done k
  | v :: l => let! k := heap_dealloc k (as_ptr v) in drop_vecs k l
  end.

(** Dropping a vector drops its elements in order, then its buffer. *)
Definition drop_blocks (k : Kernel) (buffer : Z) (blocks : list (option Vec)) : exec Kernel :=
  let! k := drop_vecs k (omap id blocks) in heap_dealloc k buffer.
Definition drop_replacements (k : Kernel) (buffer : Z) (l : list Vec) : exec Kernel :=
  let! k := drop_vecs k l in heap_dealloc k buffer.

(** ** The steps of [heap_self_check] *)

(** Step 1, [n] rounds from index [i] on. *)
Fixpoint alloc_blocks (n : nat) (i : Z) (k : Kernel) (blocks : list (option Vec)) :
    exec (Kernel * list (option Vec) * Result unit MemoryError) :=
  match n with
  | O => Done (k, blocks, Ok tt)
  | S n =>
      let! size := index BLOCK_SIZES (i mod len BLOCK_SIZES) in
      let! (k, block) := vec_of k (pattern i) size in
      if negb (vec_len block =? size) then
        let! k := heap_dealloc k (as_ptr block) in
        Done (k, blocks, Err (failure 1 "分配到的块长度不符" (vec_len block)))
      else alloc_blocks n (i + 1) k (blocks ++ [Some block])
  end.

(** Step 2. *)
Fixpoint check_others (start stop : Z) (others : list (option Vec)) : exec (Result unit MemoryError) :=
  match others with
  | [] => Done (Ok tt)
  | None :: others => check_others start stop others
  | Some other :: others =>
      let other_start := as_ptr other in
      let! other_end := add64 other_start (vec_len other) in
      if (start <? other_end) && (other_start <? stop)
      then Done (Err (failure 2 "两个同时存活的堆块重叠" (if other_start <=? start then start else other_start)))
      else check_others start stop others
  end.

Fixpoint check_apart (heap_start heap_end : Z) (blocks : list (option Vec)) : exec (Result unit MemoryError) :=
  match blocks with
  | [] => Done (Ok tt)
  | None :: blocks => check_apart heap_start heap_end blocks
  | Some block :: blocks =>
      let start := as_ptr block in
      let! stop := add64 start (vec_len block) in
      if (start <? heap_start) || (heap_end <? stop) then Done (Err (failure 2 "堆块越出堆区间" start))
      else let? _ := check_others start stop blocks in check_apart heap_start heap_end blocks
  end.

(** Steps 3 and 4, reading back. *)
Fixpoint check_bytes (step : Z) (what : string) (addr expected : Z) (bytes : list Z) : Result unit MemoryError :=
  match bytes with
  | [] => Ok tt
  | b :: bytes => if b =? expected then check_bytes step what (addr + 1) expected bytes else Err (failure step what addr)
  end.

Fixpoint check_pattern (step : Z) (what : string) (i : Z) (k : Kernel) (blocks : list (option Vec)) : Result unit MemoryError :=
  match blocks with
  | [] => Ok tt
  | None :: blocks => check_pattern step what (i + 1) k blocks
  | Some block :: blocks =>
      match check_bytes step what (as_ptr block) (pattern i) (read_bytes (phys k) (as_ptr block) (vec_len block)) with
      | Err e => Err e
      | Ok _ => check_pattern step what (i + 1) k blocks
      end
  end.

(** Step 4: every other block is dropped, [n] rounds from [i] on ... *)
Fixpoint free_half (n : nat) (i : Z) (k : Kernel) (blocks : list (option Vec)) : exec (Kernel * list (option Vec)) :=
  match n with
  | O => Done (k, blocks)
  | S n =>
      let! old := index blocks i in
      let! k := (match old with Some v => heap_dealloc k (as_ptr v) | None => Done k end) in
      let! blocks := set_index blocks i None in
      free_half n (i + 2) k blocks
  end.

(** ... and as many of the same sizes are made. *)
Fixpoint alloc_replacements (n : nat) (i : Z) (k : Kernel) (l : list Vec) : exec (Kernel * list Vec) :=
  match n with
  | O => Done (k, l)
  | S n =>
      let! size := index BLOCK_SIZES (i mod len BLOCK_SIZES) in
      let! (k, v) := vec_of k (Z.lxor (pattern i) 0xFF) size in
      alloc_replacements n (i + 2) k (l ++ [v])
  end.

Fixpoint check_survivors (start stop : Z) (blocks : list (option Vec)) : exec (Result unit MemoryError) :=
  match blocks with
  | [] => Done (Ok tt)
  | None :: blocks => check_survivors start stop blocks
  | Some other :: blocks =>
      let! other_end := add64 (as_ptr other) (vec_len other) in
      if (start <? other_end) && (as_ptr other <? stop) then Done (Err (failure 4 "替换块与存活块重叠" start))
      else check_survivors start stop blocks
  end.

Fixpoint check_replacements (heap_start heap_end : Z) (blocks : list (option Vec)) (l : list Vec) :
    exec (Result unit MemoryError) :=
  match l with
  | [] => Done (Ok tt)
  | v :: l =>
      let start := as_ptr v in
      let! stop := add64 start (vec_len v) in
      if (start <? heap_start) || (heap_end <? stop) then Done (Err (failure 4 "替换块越出堆区间" start))
      else let? _ := check_survivors start stop blocks in check_replacements heap_start heap_end blocks l
  end.

(** Step 5, after everything has been dropped.  [Layout::from_size_align]
    refuses a size that exceeds [isize::MAX] when rounded up. *)
Definition check_released (k : Kernel) (n : Z) : exec (Kernel * Result unit MemoryError) :=
  let s := heap_stats k in
  let! whole := sub64 n HEADER_SIZE in
  if negb (hs_blocks s =? 1) || negb (hs_bytes s =? whole) then Done (k, Err (failure 5 "全部释放后堆没有合并回单个空闲块" (hs_bytes s)))
  else
    let! size := mul64 n 2 in
    if ISIZE_MAX - 7 <? size then Done (k, Err (failure 5 "构造过大的分配请求失败" 0))
    else
      let! (k, p) := heap_alloc k size 8 in
      if negb (p =? 0) then let! k := heap_dealloc k p in Done (k, Err (failure 5 "过大的分配请求竟然成功了" p))
      else Done (k, Ok tt).

(** Steps 1 to 4, with what the two vectors own at the end or at an early
    return ([None] while the second one does not exist). *)
Definition check_steps (k : Kernel) (heap_start heap_end : Z) :
    exec (Kernel * list (option Vec) * option (Z * list Vec) * Result unit MemoryError) :=
  let! (k, blocks, r) := alloc_blocks (Z.to_nat BLOCK_COUNT) 0 k [] in
  match r with
  | Err e => Done (k, blocks, None, Err e)
  | Ok _ =>
      let! r := check_apart heap_start heap_end blocks in
      match r with
      | Err e => Done (k, blocks, None, Err e)
      | Ok _ =>
          match check_pattern 3 "堆块内容读回不一致（页帧未映射或已被覆写）" 0 k blocks with
          | Err e => Done (k, blocks, None, Err e)
          | Ok _ =>
              let! (k, blocks) := free_half (Z.to_nat (BLOCK_COUNT / 2)) 0 k blocks in
              let! (k, buffer) := with_capacity k (BLOCK_COUNT / 2) in
              let! (k, l) := alloc_replacements (Z.to_nat (BLOCK_COUNT / 2)) 0 k [] in
              match check_pattern 4 "释放一半后，存活的堆块被破坏" 0 k blocks with
              | Err e => Done (k, blocks, Some (buffer, l), Err e)
              | Ok _ =>
                  let! r := check_replacements heap_start heap_end blocks l in
                  Done (k, blocks, Some (buffer, l), r)
              end
          end
      end
  end.

Definition heap_self_check (k : Kernel) : exec (Kernel * Result unit MemoryError) :=
  let (base, n) := heap_region k in
  if negb (n =? HEAP_SIZE) then Done (k, Err (failure 1 "堆区间长度不是 1 MiB" n))
  else
    let! heap_end := add64 base n in
    let! (k, buffer) := with_capacity k BLOCK_COUNT in
    let! (k, blocks, second, r) := check_steps k base heap_end in
    let! k := (match second with Some (b, l) => drop_replacements k b l | None => Done k end) in
    let! k := drop_blocks k buffer blocks in
    match r with
    | Err e => Done (k, Err e)
    | Ok _ => check_released k n
    end.

(** [memory::self_check]. *)
Definition self_check (aa ba ia : Z) (k : Kernel) (b : BootInfo) : exec (Result unit MemoryError * Kernel) :=
  let! (k, r) := heap_self_check k in
  match r with
  | Err e => Done (Err e, k)
  | Ok _ => frame_self_check aa ba ia k b
  end.

(** ** The allocator on tilings *)

(** First fit: the new tiling and the payload's offset. *)
Fixpoint place_in (o : Z) (bs : tiling) (size align : Z) : option (tiling * Z) :=
  match bs with
  | [] => None
  | (sz, f) :: bs =>
      if f && fits o sz size align then Some (carve o sz (payload_at o align) size ++ bs, payload_at o align)
      else match place_in (o + sz) bs size align with
           | Some (bs', p) => Some ((sz, f) :: bs', p)
           | None => None
           end
  end.

(** The block in use with payload at [p]. *)
Fixpoint split_at (o : Z) (bs : tiling) (p : Z) : option (tiling * Z * tiling) :=
  match bs with
  | [] => None
  | (sz, f) :: bs =>
      if o + HEADER_SIZE =? p then if f then None else Some ([], sz, bs)
      else match split_at (o + sz) bs p with
           | Some (pre, s, post) => Some ((sz, f) :: pre, s, post)
           | None => None
           end
  end.

Definition free_at (bs : tiling) (p : Z) : option tiling :=
  match split_at 0 bs p with Some (pre, sz, post) => Some (release pre sz post) | None => None end.

Lemma place_in_found o pre sz post size align :
  none_fits o pre size align -> fits (o + span pre) sz size align = true ->
  place_in o (pre ++ (sz, true) :: post) size align =
    Some (pre ++ carve (o + span pre) sz (payload_at (o + span pre) align) size ++ post, payload_at (o + span pre) align).
Proof.
  revert o. induction pre as [|[s f] pre IH]; intros o; cbn [none_fits span app place_in].
  - intros _ Hf. rewrite Z.add_0_r in *. by rewrite Hf.
  - intros [H1 H2] Hf. rewrite Z.add_assoc in *. rewrite IH by done.
    destruct f; [by rewrite H1|done].
Qed.

Lemma place_in_none o bs size align : none_fits o bs size align -> place_in o bs size align = None.
Proof.
  revert o. induction bs as [|[s f] bs IH]; intros o; cbn [none_fits place_in]; [done|].
  intros [H1 H2]. rewrite IH by done. destruct f; [by rewrite H1|done].
Qed.

Lemma split_at_spec o bs p pre sz post :
  split_at o bs p = Some (pre, sz, post) -> bs = pre ++ (sz, false) :: post /\ p = o + span pre + HEADER_SIZE.
Proof.
  revert o pre. induction bs as [|[s f] bs IH]; intros o pre; cbn [split_at]; [done|].
  destruct (Z.eqb_spec (o + HEADER_SIZE) p) as [<-|Hne].
  - destruct f; [done|]. intros [= <- <- <-]. cbn. split; [done|lia].
  - destruct (split_at (o + s) bs p) as [[[pre' s'] post']|] eqn:E; [|done]. intros [= <- <- <-].
    destruct (IH _ _ E) as [-> ->]. cbn [app span]. split; [done|lia].
Qed.

(** ** Simulation

    [own] lists what the client holds: offset, length and byte of each vector
    that is filled with one byte. *)
Definition base_of (k : Kernel) : Z := heap_base (KERNEL_HEAP k).
Definition size_of (k : Kernel) : Z := heap_len (KERNEL_HEAP k).

Record sim (k0 k : Kernel) (bs : tiling) (own : list (Z * Z * Z)) : Prop := mkSim {
  sm_ok : heap_ok k bs;
  sm_rest : k = with_heap (with_phys k0 (phys k)) (KERNEL_HEAP k);
  sm_region : heap_region k = heap_region k0;
  sm_outside : forall a, a < base_of k0 \/ base_of k0 + size_of k0 <= a -> phys k a = phys k0 a;
  sm_own : forall o l b, (o, l, b) ∈ own -> 0 < l /\ exists cap, (o, cap) ∈ live 0 bs /\ l <= cap /\
    read_bytes (phys k) (base_of k0 + o) l = replicate (Z.to_nat l) b
}.

Lemma sim_start k bs : heap_ok k bs -> sim k k bs [].
Proof. intros Hok. constructor; try done; [by destruct k|]. intros o l b Hin. by apply elem_of_nil in Hin. Qed.

Lemma sim_base k0 k bs own : sim k0 k bs own -> base_of k = base_of k0 /\ size_of k = size_of k0.
Proof. intros Hs. pose proof (sm_region _ _ _ _ Hs) as E. unfold heap_region in E. injection E as E1 E2. done. Qed.

(** Where the payloads in use lie. *)
Lemma live_bounds k bs o cap :
  heap_ok k bs -> (o, cap) ∈ live 0 bs ->
  HEADER_SIZE <= o /\ 0 <= cap /\ o + cap <= size_of k /\ 0 < base_of k /\ base_of k + size_of k <= U64_MAX.
Proof.
  intros (Hinv & Hb0 & Hn & Hb1) Hin. pose proof (hi_shape _ _ _ Hinv) as Hs.
  destruct (live_range _ _ _ _ _ _ (hs_tiles _ _ _ Hs) Hin) as (H1 & H2 & H3).
  rewrite (hs_span _ _ _ Hs) in H2. pose proof (shape_len _ _ _ Hs) as (Hal & _).
  unfold heap_arena in Hal. rewrite len_read_bytes in Hal by lia. unfold base_of, size_of. lia.
Qed.

(** Payloads in use keep their bytes when the arena keeps them. *)
Lemma keeps_read k l arena bs o cap c :
  heap_ok k bs -> (o, cap) ∈ live 0 bs -> 0 <= c <= cap -> len arena = size_of k ->
  sub_list arena o cap = sub_list (heap_arena k) o cap ->
  read_bytes (phys (with_heap (with_phys k (copy_to (phys k) (base_of k) arena)) (mkHeapState l (base_of k) (size_of k))))
    (base_of k + o) c = read_bytes (phys k) (base_of k + o) c.
Proof.
  intros Hok Hin Hc Hl Hk. destruct (live_bounds _ _ _ _ Hok Hin) as (B1 & B2 & B3 & _).
  unfold HEADER_SIZE in *. apply (f_equal (fun x => sub_list x 0 c)) in Hk. rewrite !sub_list_sub_list in Hk by lia.
  destruct (heap_arena_written k l arena Hl) as (Har & _ & _).
  fold (base_of k) (size_of k) in Har. rewrite <- Har in Hk. unfold heap_arena in Hk.
  cbn [KERNEL_HEAP with_heap heap_base heap_len] in Hk. fold (base_of k) (size_of k) in Hk.
  rewrite !sub_list_read_bytes in Hk by lia. by rewrite Z.add_0_r in Hk.
Qed.

(** The state after the arena has been rewritten. *)
Lemma sim_written k0 k bs own l arena bs' own' :
  sim k0 k bs own -> heap_inv l arena bs' -> len arena = size_of k ->
  (forall o n b, (o, n, b) ∈ own' -> (o, n, b) ∈ own) ->
  (forall o n b cap, (o, n, b) ∈ own' -> (o, cap) ∈ live 0 bs ->
     (o, cap) ∈ live 0 bs' /\ sub_list arena o cap = sub_list (heap_arena k) o cap) ->
  sim k0 (with_heap (with_phys k (copy_to (phys k) (base_of k) arena)) (mkHeapState l (base_of k) (size_of k))) bs' own'.
Proof.
  intros Hs Hinv Hl Hsub Hkeep. pose proof Hs as [Hok Hrest Hreg Hout Hown].
  destruct (sim_base _ _ _ _ Hs) as [Eb En]. pose proof Hok as (_ & Hb0 & Hn & Hb1).
  constructor.
  - by apply heap_ok_written.
  - rewrite Hrest. reflexivity.
  - exact Hreg.
  - intros a Ha. cbn [phys with_heap with_phys]. rewrite copy_to_out by lia. by apply Hout.
  - intros o n b Hin. destruct (Hown _ _ _ (Hsub _ _ _ Hin)) as (Hn0 & cap & Hlive & Hcap & Hb).
    destruct (Hkeep _ _ _ _ Hin Hlive) as [Hlive' Hk]. split; [done|]. exists cap. split_and!; try done.
    rewrite <- Eb, (keeps_read k l arena bs o cap n) by (done || lia). by rewrite Eb.
Qed.

(** Allocation follows first fit on the tiling. *)
Lemma heap_alloc_placed k bs size align bs' o :
  heap_ok k bs -> 0 < size <= ISIZE_MAX -> align = 1 \/ align = 8 -> place_in 0 bs size align = Some (bs', o) ->
  exists l arena cap,
    heap_alloc k size align =
      Done (with_heap (with_phys k (copy_to (phys k) (base_of k) arena)) (mkHeapState l (base_of k) (size_of k)),
            base_of k + o) /\
    heap_inv l arena bs' /\ len arena = size_of k /\ (o, cap) ∈ live 0 bs' /\ size <= cap /\
    forall p c, (p, c) ∈ live 0 bs -> p <> o /\ (p, c) ∈ live 0 bs' /\ sub_list arena p c = sub_list (heap_arena k) p c.
Proof.
  intros Hok Hsz Hal Hp. pose proof Hok as (Hinv & Hb0 & Hn & Hb1).
  assert (Hpow : is_power_of_two align = true /\ align <= MAX_ALIGN) by (by destruct Hal as [-> | ->]).
  destruct (heap_alloc_spec _ _ _ size align Hinv) as [[E Hno]|(l & arena & p & E & (e & He & Hae) & _ & Hd)];
    [unfold is_usize, ISIZE_MAX in *; ulia|destruct Hal as [-> | ->]; split; discriminate| |].
  { destruct Hno as [H0|[H0|[H0|H0]]]; [lia|destruct Hpow; congruence|lia|].
    by rewrite (place_in_none _ _ _ _ H0) in Hp. }
  destruct Hd as (pre & sz & post & Ebs & Hnone & Hfit & -> & Hinv' & Hkeep).
  rewrite Ebs, (place_in_found 0 pre sz post) in Hp by done. rewrite Z.add_0_l in Hp. injection Hp as <- <-.
  assert (Hl : len arena = size_of k) by (rewrite (alloc_len _ _ _ _ _ _ _ E); apply len_read_bytes; unfold size_of; lia).
  pose proof (hi_shape _ _ _ Hinv) as Hs. rewrite Ebs in Hs.
  destruct (shape_split _ _ _ _ _ _ Hs) as (_ & _ & _ & _ & H8 & H8p & _).
  destruct (carve_live pre sz post size align e He Hae H8p ltac:(lia) Hfit H8) as (cap & Hcap & Hlv' & Hlv).
  set (o := payload_at (span pre) align) in *.
  assert (Hin : (o, cap) ∈ live 0 (pre ++ carve (span pre) sz o size ++ post)).
  { rewrite Hlv'. apply elem_of_app. right. by left. }
  exists l, arena, cap. split; [|split; [exact Hinv'|split; [exact Hl|split; [exact Hin|split; [exact Hcap|]]]]].
  - assert (Hok' := heap_ok_written k l arena _ Hinv' Hl Hb0 Hn Hb1).
    destruct (live_bounds _ _ _ _ Hok' Hin) as (B1 & B2 & B3 & _).
    unfold base_of, size_of in *. cbn [KERNEL_HEAP with_heap heap_base heap_len] in *. unfold HEADER_SIZE in *.
    unfold heap_alloc. replace ((heap_len (KERNEL_HEAP k) =? 0) || (heap_base (KERNEL_HEAP k) =? 0)) with false by lia.
    rewrite E. cbn [exec_bind]. rewrite add64_done by lia. reflexivity.
  - intros p c Hpc. split; [|split; [|by apply Hkeep]].
    + intros Epo. destruct (live_apart _ _ _ _ _ _ _ _ (hs_tiles _ _ _ (hi_shape _ _ _ Hinv)) Ebs Hpc) as (_ & Hc0 & Hap).
      destruct (payload_at_spec (span pre) align e He Hae H8p) as (_ & _ & Hlow & _).
      unfold fits in Hfit. apply Z.leb_le in Hfit. fold o in Hfit, Hlow. unfold HEADER_SIZE in *.
      clearbody o. lia.
    + rewrite Ebs, Hlv in Hpc. rewrite Hlv'. apply elem_of_app in Hpc as [?|?]; apply elem_of_app; [by left|].
      right. by right.
Qed.

Lemma sim_alloc k0 k bs own size align bs' o :
  sim k0 k bs own -> 0 < size <= ISIZE_MAX -> align = 1 \/ align = 8 -> place_in 0 bs size align = Some (bs', o) ->
  exists k' cap, heap_alloc k size align = Done (k', base_of k0 + o) /\ base_of k0 + o <> 0 /\ sim k0 k' bs' own /\
    (o, cap) ∈ live 0 bs' /\ size <= cap /\ forall n b, (o, n, b) ∉ own.
Proof.
  intros Hs Hsz Hal Hp. pose proof (sm_ok _ _ _ _ Hs) as Hok. destruct (sim_base _ _ _ _ Hs) as [Eb En].
  destruct (heap_alloc_placed k bs size align bs' o Hok Hsz Hal Hp) as (l & arena & cap & E & Hinv & Hl & Hin & Hcap & Hk).
  assert (Hs' := sim_written k0 k bs own l arena bs' own Hs Hinv Hl ltac:(auto)
           ltac:(intros p n b c _ Hc; by apply Hk)).
  eexists _, cap. rewrite <- Eb. split; [exact E|].
  destruct (live_bounds _ _ _ _ (sm_ok _ _ _ _ Hs') Hin) as (B1 & _ & _ & B4 & _).
  change (base_of k) with (base_of (with_heap (with_phys k (copy_to (phys k) (base_of k) arena))
    (mkHeapState l (base_of k) (size_of k)))) at 1.
  split; [unfold HEADER_SIZE in *; lia|]. split; [exact Hs'|]. split; [done|]. split; [done|].
  intros n b Hown. destruct (sm_own _ _ _ _ Hs _ _ _ Hown) as (_ & c & Hc & _). by apply (Hk o c).
Qed.

Lemma heap_arena_poke k o w :
  0 <= o -> o + len w <= size_of k ->
  heap_arena (with_phys k (copy_to (phys k) (base_of k + o) w)) = splice (heap_arena k) o w.
Proof.
  intros Ho Hw. pose proof (len_nonneg w). unfold heap_arena. cbn [KERNEL_HEAP with_phys phys].
  fold (base_of k) (size_of k). assert (Hl : len (read_bytes (phys k) (base_of k) (size_of k)) = size_of k)
    by (apply len_read_bytes; lia).
  apply list_eq. intros i. rewrite splice_lookup by (rewrite ?Hl; lia).
  destruct (decide (Z.of_nat i < size_of k)) as [Hi|Hi].
  - rewrite read_bytes_lookup by lia. case_decide as D.
    + unfold len in *. destruct (lookup_lt_is_Some_2 w (i - Z.to_nat o)) as [x Hx]; [lia|].
      rewrite Hx. f_equal. apply copy_to_in. apply get_some. split; [lia|].
      replace (Z.to_nat (base_of k + Z.of_nat i - (base_of k + o))) with (i - Z.to_nat o)%nat by lia. exact Hx.
    + rewrite read_bytes_lookup by lia. f_equal. apply copy_to_out. unfold len in *. lia.
  - assert (Hnone : forall m, read_bytes m (base_of k) (size_of k) !! i = None).
    { intros m. apply lookup_ge_None_2. unfold read_bytes. rewrite length_fmap, length_seq. lia. }
    rewrite !Hnone. case_decide; [unfold len in *; lia|done].
Qed.

(** Filling a payload of the client's own. *)
Lemma sim_fill k0 k bs own o cap size byte :
  sim k0 k bs own -> (o, cap) ∈ live 0 bs -> 0 < size <= cap -> is_u8 byte -> (forall n b, (o, n, b) ∉ own) ->
  sim k0 (with_phys k (copy_to (phys k) (base_of k0 + o) (replicate (Z.to_nat size) byte))) bs ((o, size, byte) :: own).
Proof.
  intros Hs Hin Hsz Hby Hnew. pose proof Hs as [Hok Hrest Hreg Hout Hown]. destruct (sim_base _ _ _ _ Hs) as [Eb En].
  destruct (live_bounds _ _ _ _ Hok Hin) as (B1 & B2 & B3 & B4 & B5). unfold HEADER_SIZE in *.
  set (w := replicate (Z.to_nat size) byte).
  assert (Hw : len w = size) by (unfold w; rewrite len_replicate; lia).
  pose proof Hok as (Hinv & Hrest').
  destruct (payloads_isolated _ _ _ o cap o w Hinv Hin) as (_ & _ & Hiso & Hinv');
    [lia|lia|apply Forall_replicate; exact Hby|].
  assert (Har : heap_arena (with_phys k (copy_to (phys k) (base_of k0 + o) w)) = splice (heap_arena k) o w).
  { rewrite <- Eb. apply heap_arena_poke; lia. }
  constructor.
  - split; [|exact Hrest']. by rewrite Har.
  - rewrite Hrest. reflexivity.
  - exact Hreg.
  - intros a Ha. cbn [phys with_phys]. rewrite copy_to_out by lia. by apply Hout.
  - intros p n b Hp. apply elem_of_cons in Hp as [[= -> -> ->]|Hp].
    + split; [lia|]. exists cap. split_and!; [done|lia|]. cbn [phys with_phys].
      pose proof (read_bytes_copy_to (phys k) (base_of k0 + o) w) as Hr. by rewrite Hw in Hr.
    + destruct (Hown _ _ _ Hp) as (Hn0 & c & Hc & Hnc & Hb). split; [done|]. exists c. split_and!; try done.
      rewrite <- Hb. apply read_bytes_ext. cbn [phys with_phys]. apply copy_to_same_on. rewrite Hw.
      destruct (Hiso _ _ Hc) as [[= -> ->]|Hap]; [by apply Hnew in Hp|]. unfold HEADER_SIZE in *. lia.
Qed.

(** Releasing a vector or a buffer. *)
Definition forget (o : Z) (own : list (Z * Z * Z)) : list (Z * Z * Z) :=
  filter (fun e => fst (fst e) <> o) own.

Lemma sim_free k0 k bs own o bs' :
  sim k0 k bs own -> free_at bs o = Some bs' ->
  exists k', heap_dealloc k (base_of k0 + o) = Done k' /\ sim k0 k' bs' (forget o own).
Proof.
  intros Hs Hf. unfold free_at in Hf. destruct (split_at 0 bs o) as [[[pre sz] post]|] eqn:E; [|done].
  injection Hf as <-. apply split_at_spec in E as [Ebs Eo]. rewrite Z.add_0_l in Eo.
  pose proof (sm_ok _ _ _ _ Hs) as Hok. pose proof Hok as (Hinv & Hb0 & Hn & Hb1). destruct (sim_base _ _ _ _ Hs) as [Eb En].
  assert (Hin : (o, sz - HEADER_SIZE) ∈ live 0 bs).
  { rewrite Ebs, live_app, Eo. apply elem_of_app. right. rewrite Z.add_0_l. left. }
  destruct (live_bounds _ _ _ _ Hok Hin) as (B1 & B2 & B3 & B4 & B5).
  assert (Hlt : o < size_of k).
  { pose proof (hi_shape _ _ _ Hinv) as Hsh. rewrite Ebs in Hsh.
    destruct (shape_split _ _ _ _ _ _ Hsh) as (_ & _ & _ & Hlb & _). unfold HEADER_SIZE in *. ulia. }
  rewrite Ebs in Hinv. destruct (dealloc_spec _ _ _ _ _ Hinv) as (l & arena & Ed & Hinv' & Hk). rewrite <- Eo in Ed.
  eexists. split.
  - rewrite <- Eb. unfold heap_dealloc, base_of, size_of in *. unfold HEADER_SIZE in *.
    replace ((heap_len (KERNEL_HEAP k) =? 0) || (heap_base (KERNEL_HEAP k) =? 0) || (heap_base (KERNEL_HEAP k) + o =? 0))
      with false by lia.
    replace (heap_base (KERNEL_HEAP k) + o <? heap_base (KERNEL_HEAP k)) with false by lia.
    rewrite add64_done by lia. cbn [exec_bind].
    replace (heap_base (KERNEL_HEAP k) + heap_len (KERNEL_HEAP k) <=? heap_base (KERNEL_HEAP k) + o) with false by lia.
    rewrite sub64_done by lia. cbn [exec_bind].
    replace (heap_base (KERNEL_HEAP k) + o - heap_base (KERNEL_HEAP k)) with o by lia. rewrite Ed. reflexivity.
  - apply (sim_written k0 k bs own l arena); [done|done| | |].
    + rewrite (dealloc_len _ _ _ _ _ _ Ed). apply len_read_bytes. unfold size_of. lia.
    + intros p n b Hp. by apply list_elem_of_filter in Hp as [_ Hp].
    + intros p n b cap Hp Hc. apply list_elem_of_filter in Hp as [Hne Hp]. cbn [fst] in Hne.
      assert (Ho : (p, cap) ∈ others pre sz post).
      { rewrite Ebs, live_app in Hc. unfold others. rewrite elem_of_app in *. destruct Hc as [Hc|Hc]; [by left|].
        cbn [live] in Hc. rewrite Z.add_0_l in Hc. apply elem_of_cons in Hc as [[= Hp1 _]|Hc]; [|by right].
        exfalso. apply Hne. lia. }
      split; [by rewrite live_release|by apply Hk].
Qed.

(** ** The check on tilings

    A block is an offset and a length; [vec base] puts it where the heap is. *)
Definition vec (base : Z) (b : Z * Z) : Vec := mkVec (base + fst b) (snd b).

(** Making vectors of the given sizes and bytes. *)
Fixpoint abs_vecs (reqs : list (Z * Z)) (bs : tiling) (own : list (Z * Z * Z)) :
    option (tiling * list (Z * Z * Z) * list (Z * Z)) :=
  match reqs with
  | [] => Some (bs, own, [])
  | (size, byte) :: reqs =>
      match place_in 0 bs size 1 with
      | None => None
      | Some (bs, o) =>
          match abs_vecs reqs bs ((o, size, byte) :: own) with
          | Some (bs, own, l) => Some (bs, own, (o, size) :: l)
          | None => None
          end
      end
  end.

Fixpoint abs_frees (l : list Z) (bs : tiling) (own : list (Z * Z * Z)) : option (tiling * list (Z * Z * Z)) :=
  match l with
  | [] => Some (bs, own)
  | o :: l => match free_at bs o with Some bs => abs_frees l bs (forget o own) | None => None end
  end.

Fixpoint abs_half (n : nat) (i : Z) (bs : tiling) (own : list (Z * Z * Z)) (blocks : list (option (Z * Z))) :
    option (tiling * list (Z * Z * Z) * list (option (Z * Z))) :=
  match n with
  | O => Some (bs, own, blocks)
  | S n =>
      match get blocks i with
      | Some (Some (o, _)) =>
          match free_at bs o with
          | Some bs => abs_half n (i + 2) bs (forget o own) (<[Z.to_nat i := None]> blocks)
          | None => None
          end
      | _ => None
      end
  end.

(** The tests of the steps, on offsets. *)
Definition clear_of (a b : Z * Z) : bool := negb ((fst a <? fst b + snd b) && (fst b <? fst a + snd a)).
Definition inside (n : Z) (a : Z * Z) : bool := (0 <=? fst a) && (0 <=? snd a) && (fst a + snd a <=? n).
Fixpoint apart_ok (n : Z) (blocks : list (Z * Z)) : bool :=
  match blocks with
  | [] => true
  | b :: blocks => inside n b && forallb (clear_of b) blocks && apart_ok n blocks
  end.
Fixpoint owned_ok (i : Z) (blocks : list (option (Z * Z))) (own : list (Z * Z * Z)) : bool :=
  match blocks with
  | [] => true
  | None :: blocks => owned_ok (i + 1) blocks own
  | Some (o, l) :: blocks => bool_decide ((o, l, pattern i) ∈ own) && owned_ok (i + 1) blocks own
  end.

(** What round [i] asks for. *)
Definition size_at (i : Z) : Z := nth (Z.to_nat (i mod 8)) BLOCK_SIZES 0.
Fixpoint reqs (f : Z -> Z) (stride : Z) (n : nat) (i : Z) : list (Z * Z) :=
  match n with O => [] | S n => (size_at i, f i) :: reqs f stride n (i + stride) end.
Definition first_reqs : list (Z * Z) := reqs pattern 1 (Z.to_nat BLOCK_COUNT) 0.
Definition second_reqs : list (Z * Z) := reqs (fun i => Z.lxor (pattern i) 0xFF) 2 (Z.to_nat (BLOCK_COUNT / 2)) 0.

Definition abs_check (n : Z) (bs : tiling) : option tiling :=
  match place_in 0 bs (BLOCK_COUNT * SIZE_OF_VEC) 8 with
  | None => None
  | Some (bs, buffer) =>
  match abs_vecs first_reqs bs [] with
  | None => None
  | Some (bs, own, blocks) =>
  if negb (apart_ok n blocks && owned_ok 0 (Some <$> blocks) own) then None else
  match abs_half (Z.to_nat (BLOCK_COUNT / 2)) 0 bs own (Some <$> blocks) with
  | None => None
  | Some (bs, own, half) =>
  match place_in 0 bs (BLOCK_COUNT / 2 * SIZE_OF_VEC) 8 with
  | None => None
  | Some (bs, second) =>
  match abs_vecs second_reqs bs own with
  | None => None
  | Some (bs, own, l) =>
  if negb (owned_ok 0 half own && forallb (inside n) l && forallb (inside n) (omap id half) &&
           forallb (fun v => forallb (clear_of v) (omap id half)) l) then None else
  match abs_frees ((fst <$> l) ++ [second] ++ (fst <$> omap id half) ++ [buffer]) bs own with
  | None => None
  | Some (bs, _) => Some bs
  end end end end end end.

(** The whole check, computed. *)
Lemma abs_check_passes : abs_check HEAP_SIZE [(HEAP_SIZE, true)] = Some [(HEAP_SIZE, true)].
Proof. vm_compute. reflexivity. Qed.

(** ** The loops follow the tilings *)
Definition conc (base : Z) (blocks : list (option (Z * Z))) : list (option Vec) := option_map (vec base) <$> blocks.

Lemma u8_lxor a b : is_u8 a -> is_u8 b -> is_u8 (Z.lxor a b).
Proof.
  unfold is_u8, U8_MAX. intros Ha Hb. assert (0 <= Z.lxor a b) by (apply Z.lxor_nonneg; lia). split; [done|].
  destruct (decide (Z.lxor a b = 0)) as [->|]; [lia|].
  enough (Z.lxor a b < 2 ^ 8) by (change (2 ^ 8) with 256 in *; lia). apply Z.log2_lt_pow2; [lia|].
  assert (Hl : forall x, 0 <= x <= 255 -> Z.log2 x <= 7).
  { intros x Hx. destruct (decide (x = 0)) as [->|]; [done|]. enough (Z.log2 x < 8) by lia.
    apply Z.log2_lt_pow2; lia. }
  pose proof (Z.log2_lxor a b). pose proof (Hl a). pose proof (Hl b). lia.
Qed.

Lemma pattern_u8 i : is_u8 (pattern i).
Proof.
  apply u8_lxor; [split; discriminate|]. pose proof (Z.mod_pos_bound i 256). unfold is_u8, U8_MAX. lia.
Qed.

Lemma size_at_spec i : index BLOCK_SIZES (i mod len BLOCK_SIZES) = Done (size_at i) /\ 0 < size_at i <= 4096.
Proof.
  change (len BLOCK_SIZES) with 8. unfold size_at. pose proof (Z.mod_pos_bound i 8 ltac:(lia)) as Hi.
  generalize dependent (i mod 8). intros j Hj.
  assert (E : j = 0 \/ j = 1 \/ j = 2 \/ j = 3 \/ j = 4 \/ j = 5 \/ j = 6 \/ j = 7) by lia.
  destruct_or!; subst j; (split; [reflexivity|split; [reflexivity|discriminate]]).
Qed.

Section Loops.
  Variable k0 : Kernel.
  Notation base := (base_of k0).

Lemma sim_vec k bs own size byte bs' o :
  sim k0 k bs own -> 0 < size <= 4096 -> is_u8 byte -> place_in 0 bs size 1 = Some (bs', o) ->
  exists k', vec_of k byte size = Done (k', vec base (o, size)) /\ sim k0 k' bs' ((o, size, byte) :: own).
Proof.
  intros Hs Hsz Hby Hp. destruct (sim_alloc k0 k bs own size 1 bs' o) as (k' & cap & E & H0 & Hs' & Hin & Hcap & Hnew);
    [done|unfold ISIZE_MAX; lia|by left|done|].
  unfold vec_of. rewrite E. cbn [exec_bind]. rewrite (proj2 (Z.eqb_neq _ _) H0).
  eexists. split; [reflexivity|]. apply (sim_fill k0 k' bs' own o cap); [done|done|lia|done|done].
Qed.

Lemma sim_capacity k bs own n bs' o :
  sim k0 k bs own -> 0 < n <= 64 -> place_in 0 bs (n * SIZE_OF_VEC) 8 = Some (bs', o) ->
  exists k', with_capacity k n = Done (k', base + o) /\ sim k0 k' bs' own.
Proof.
  intros Hs Hn Hp. destruct (sim_alloc k0 k bs own (n * SIZE_OF_VEC) 8 bs' o) as (k' & cap & E & H0 & Hs' & _);
    [done|unfold SIZE_OF_VEC, ISIZE_MAX; lia|by right|done|].
  unfold with_capacity. rewrite E. cbn [exec_bind]. rewrite (proj2 (Z.eqb_neq _ _) H0). by exists k'.
Qed.

Lemma alloc_blocks_sim n : forall i k bs own blocks bs' own' l,
  sim k0 k bs own -> abs_vecs (reqs pattern 1 n i) bs own = Some (bs', own', l) ->
  exists k', alloc_blocks n i k blocks = Done (k', blocks ++ conc base (Some <$> l), Ok tt) /\ sim k0 k' bs' own'.
Proof.
  induction n as [|n IH]; intros i k bs own blocks bs' own' l Hs; cbn [reqs abs_vecs alloc_blocks].
  - intros [= <- <- <-]. exists k. by rewrite app_nil_r.
  - destruct (size_at_spec i) as [-> Hsz]. cbn [exec_bind].
    destruct (place_in 0 bs (size_at i) 1) as [[bs1 o]|] eqn:Ep; [|done].
    destruct (abs_vecs _ bs1 _) as [[[bs2 own2] l2]|] eqn:Ea; [|done]. intros [= <- <- <-].
    destruct (sim_vec k bs own (size_at i) (pattern i) bs1 o Hs Hsz (pattern_u8 i) Ep) as (k1 & -> & Hs1).
    cbn [exec_bind vec vec_len snd]. rewrite Z.eqb_refl. cbn [negb].
    destruct (IH (i + 1) k1 _ _ (blocks ++ [Some (vec base (o, size_at i))]) _ _ _ Hs1 Ea) as (k2 & E2 & Hs2).
    exists k2. split; [|done]. rewrite E2. by rewrite <- app_assoc.
Qed.

Lemma alloc_replacements_sim n : forall i k bs own vs bs' own' l,
  sim k0 k bs own -> abs_vecs (reqs (fun i => Z.lxor (pattern i) 0xFF) 2 n i) bs own = Some (bs', own', l) ->
  exists k', alloc_replacements n i k vs = Done (k', vs ++ (vec base <$> l)) /\ sim k0 k' bs' own'.
Proof.
  induction n as [|n IH]; intros i k bs own vs bs' own' l Hs; cbn [reqs abs_vecs alloc_replacements].
  - intros [= <- <- <-]. exists k. by rewrite app_nil_r.
  - destruct (size_at_spec i) as [-> Hsz]. cbn [exec_bind].
    destruct (place_in 0 bs (size_at i) 1) as [[bs1 o]|] eqn:Ep; [|done].
    destruct (abs_vecs _ bs1 _) as [[[bs2 own2] l2]|] eqn:Ea; [|done]. intros [= <- <- <-].
    destruct (sim_vec k bs own (size_at i) (Z.lxor (pattern i) 0xFF) bs1 o Hs Hsz) as (k1 & -> & Hs1);
      [apply u8_lxor; [apply pattern_u8|split; discriminate]|done|].
    cbn [exec_bind].
    destruct (IH (i + 2) k1 _ _ (vs ++ [vec base (o, size_at i)]) _ _ _ Hs1 Ea) as (k2 & E2 & Hs2).
    exists k2. split; [|done]. rewrite E2. by rewrite <- app_assoc.
Qed.

Lemma drop_vecs_sim l : forall k bs own bs' own',
  sim k0 k bs own -> abs_frees (fst <$> l) bs own = Some (bs', own') ->
  exists k', drop_vecs k (vec base <$> l) = Done k' /\ sim k0 k' bs' own'.
Proof.
  induction l as [|[o n] l IH]; intros k bs own bs' own' Hs; cbn [fmap list_fmap abs_frees drop_vecs].
  - intros [= <- <-]. by exists k.
  - cbn [fst vec as_ptr]. destruct (free_at bs o) as [bs1|] eqn:E; [|done]. intros Ha.
    destruct (sim_free k0 k bs own o bs1 Hs E) as (k1 & -> & Hs1). cbn [exec_bind]. by apply (IH k1 bs1 (forget o own)).
Qed.

Lemma abs_frees_app l1 l2 bs own :
  abs_frees (l1 ++ l2) bs own =
    match abs_frees l1 bs own with Some (bs, own) => abs_frees l2 bs own | None => None end.
Proof.
  revert bs own. induction l1 as [|o l1 IH]; intros bs own; [done|]. cbn [app abs_frees].
  destruct (free_at bs o); [apply IH|done].
Qed.

Lemma free_half_sim n : forall i k bs own blocks bs' own' blocks',
  sim k0 k bs own -> abs_half n i bs own blocks = Some (bs', own', blocks') ->
  exists k', free_half n i k (conc base blocks) = Done (k', conc base blocks') /\ sim k0 k' bs' own'.
Proof.
  induction n as [|n IH]; intros i k bs own blocks bs' own' blocks' Hs; cbn [abs_half free_half].
  - intros [= <- <- <-]. by exists k.
  - destruct (get blocks i) as [[[o c]|]|] eqn:Eg; try done.
    destruct (free_at bs o) as [bs1|] eqn:Ef; [|done]. intros Ha.
    pose proof Eg as [Hi0 Hi]%get_some. pose proof (get_in_range _ _ _ Eg) as Hr.
    assert (Hg : get (conc base blocks) i = Some (Some (vec base (o, c)))).
    { apply get_some. split; [done|]. unfold conc. by rewrite list_lookup_fmap, Hi. }
    rewrite (proj2 (index_done _ _ _) Hg). cbn [exec_bind vec as_ptr fst].
    destruct (sim_free k0 k bs own o bs1 Hs Ef) as (k1 & -> & Hs1). cbn [exec_bind].
    rewrite set_index_done by (by apply get_in_range in Hg). cbn [exec_bind].
    replace (<[Z.to_nat i := None]> (conc base blocks)) with (conc base (<[Z.to_nat i := None]> blocks))
      by (unfold conc; by rewrite list_fmap_insert).
    by apply (IH (i + 2) k1 bs1 (forget o own)).
Qed.

(** The tests. *)
Lemma check_others_ok n a l :
  inside n a = true -> base + n <= U64_MAX -> forallb (inside n) l = true -> forallb (clear_of a) l = true ->
  check_others (base + fst a) (base + fst a + snd a) (conc base (Some <$> l)) = Done (Ok tt).
Proof.
  intros Ha Hb. unfold inside in *. induction l as [|[o c] l IH]; [done|]. cbn [forallb]. rewrite !andb_true_iff.
  intros [Hi Hl] [Hc Hcl]. cbn [conc fmap list_fmap option_fmap option_map check_others vec as_ptr vec_len fst snd].
  cbn [fst snd] in *. rewrite add64_done by lia. cbn [exec_bind]. unfold clear_of in Hc. cbn [fst snd] in Hc.
  replace ((base + fst a <? base + o + c) && (base + o <? base + fst a + snd a)) with false by lia. by apply IH.
Qed.

Lemma apart_ok_inside n l : apart_ok n l = true -> forallb (inside n) l = true.
Proof. induction l as [|a l IH]; [done|]. cbn [apart_ok forallb]. rewrite !andb_true_iff. naive_solver. Qed.

Lemma check_apart_ok n l :
  base + n <= U64_MAX -> apart_ok n l = true ->
  check_apart base (base + n) (conc base (Some <$> l)) = Done (Ok tt).
Proof.
  intros Hb. induction l as [|a l IH]; [done|]. cbn [apart_ok]. rewrite !andb_true_iff. intros [[Hi Hc] Hl].
  cbn [conc fmap list_fmap option_fmap option_map check_apart vec as_ptr vec_len].
  pose proof (check_others_ok n a l Hi Hb (apart_ok_inside n l Hl) Hc) as Hco. unfold inside in Hi.
  rewrite add64_done by lia. cbn [exec_bind].
  replace ((base + fst a <? base) || (base + n <? base + fst a + snd a)) with false by lia.
  unfold conc in Hco, IH. rewrite Hco. cbn [try_bind exec_bind]. by apply IH.
Qed.

Lemma check_survivors_ok n a blocks :
  inside n a = true -> base + n <= U64_MAX -> forallb (inside n) (omap id blocks) = true ->
  forallb (clear_of a) (omap id blocks) = true ->
  check_survivors (base + fst a) (base + fst a + snd a) (conc base blocks) = Done (Ok tt).
Proof.
  intros Ha Hb. unfold inside in *. induction blocks as [|[[o c]|] l IH]; [done| |exact IH].
  cbn [omap list_omap id forallb]. rewrite !andb_true_iff. intros [Hi Hl] [Hc Hcl].
  cbn [conc fmap list_fmap option_fmap option_map check_survivors vec as_ptr vec_len fst snd].
  cbn [fst snd] in *. rewrite add64_done by lia. cbn [exec_bind]. unfold clear_of in Hc. cbn [fst snd] in Hc.
  replace ((base + fst a <? base + o + c) && (base + o <? base + fst a + snd a)) with false by lia. by apply IH.
Qed.

Lemma check_replacements_ok n blocks l :
  base + n <= U64_MAX -> forallb (inside n) l = true -> forallb (inside n) (omap id blocks) = true ->
  forallb (fun v => forallb (clear_of v) (omap id blocks)) l = true ->
  check_replacements base (base + n) (conc base blocks) (vec base <$> l) = Done (Ok tt).
Proof.
  intros Hb Hl Hi. induction l as [|a l IH]; [done|]. cbn [forallb] in *. rewrite !andb_true_iff in *.
  destruct Hl as [Ha Hl]. intros [Hc Hcl]. cbn [fmap list_fmap check_replacements vec as_ptr vec_len].
  pose proof (check_survivors_ok n a blocks Ha Hb Hi Hc) as Hco. unfold inside in Ha.
  rewrite add64_done by lia. cbn [exec_bind].
  replace ((base + fst a <? base) || (base + n <? base + fst a + snd a)) with false by lia.
  rewrite Hco. cbn [try_bind exec_bind]. by apply IH.
Qed.

Lemma check_bytes_ok step what addr b n : check_bytes step what addr b (replicate n b) = Ok tt.
Proof. revert addr. induction n as [|n IH]; intros addr; [done|]. cbn [replicate check_bytes]. by rewrite Z.eqb_refl. Qed.

Lemma check_pattern_ok k bs own step what blocks : forall i,
  sim k0 k bs own -> owned_ok i blocks own = true -> check_pattern step what i k (conc base blocks) = Ok tt.
Proof.
  induction blocks as [|[[o c]|] l IH]; intros i Hs; cbn [owned_ok]; [done| |by apply IH].
  rewrite andb_true_iff, bool_decide_eq_true. intros [Hin Hl].
  cbn [conc fmap list_fmap option_fmap option_map check_pattern vec as_ptr vec_len fst snd].
  destruct (sm_own _ _ _ _ Hs _ _ _ Hin) as (_ & cap & _ & _ & ->). rewrite check_bytes_ok. by apply IH.
Qed.

End Loops.

(** ** The whole check *)
Lemma check_steps_sim k0 k bs own n bs1 own1 blocks bs2 own2 half bs3 second bs4 own4 l :
  sim k0 k bs own -> base_of k0 + n <= U64_MAX ->
  abs_vecs first_reqs bs own = Some (bs1, own1, blocks) -> apart_ok n blocks = true ->
  owned_ok 0 (Some <$> blocks) own1 = true ->
  abs_half (Z.to_nat (BLOCK_COUNT / 2)) 0 bs1 own1 (Some <$> blocks) = Some (bs2, own2, half) ->
  place_in 0 bs2 (BLOCK_COUNT / 2 * SIZE_OF_VEC) 8 = Some (bs3, second) ->
  abs_vecs second_reqs bs3 own2 = Some (bs4, own4, l) -> owned_ok 0 half own4 = true ->
  forallb (inside n) l = true -> forallb (inside n) (omap id half) = true ->
  forallb (fun v => forallb (clear_of v) (omap id half)) l = true ->
  exists k', check_steps k (base_of k0) (base_of k0 + n) =
      Done (k', conc (base_of k0) half, Some (base_of k0 + second, vec (base_of k0) <$> l), Ok tt) /\
    sim k0 k' bs4 own4.
Proof.
  intros Hs Hb E1 T1 T2 E2 E3 E4 T3 T4 T5 T6. unfold check_steps.
  destruct (alloc_blocks_sim k0 _ _ _ _ _ [] _ _ _ Hs E1) as (k1 & -> & Hs1). cbn [exec_bind app].
  rewrite (check_apart_ok k0 n) by done. cbn [exec_bind]. rewrite (check_pattern_ok k0 k1 _ _ 3 _ _ _ Hs1 T2).
  destruct (free_half_sim k0 _ _ _ _ _ _ _ _ _ Hs1 E2) as (k2 & -> & Hs2). cbn [exec_bind].
  destruct (sim_capacity k0 k2 _ _ (BLOCK_COUNT / 2) _ _ Hs2 ltac:(split; [reflexivity|discriminate]) E3)
    as (k3 & -> & Hs3). cbn [exec_bind].
  destruct (alloc_replacements_sim k0 _ _ _ _ _ [] _ _ _ Hs3 E4) as (k4 & -> & Hs4). cbn [exec_bind app].
  rewrite (check_pattern_ok k0 k4 _ _ 4 _ _ _ Hs4 T3), (check_replacements_ok k0 n) by done.
  by exists k4.
Qed.

Lemma omap_conc base blocks : omap id (conc base blocks) = vec base <$> omap id blocks.
Proof. unfold conc. induction blocks as [|[b|] l IH]; [done|cbn; by f_equal|exact IH]. Qed.

Lemma check_drops_sim k0 k bs own l second half buffer bs' own' :
  sim k0 k bs own ->
  abs_frees ((fst <$> l) ++ [second] ++ (fst <$> omap id half) ++ [buffer]) bs own = Some (bs', own') ->
  exists k' k'', drop_replacements k (base_of k0 + second) (vec (base_of k0) <$> l) = Done k' /\
    drop_blocks k' (base_of k0 + buffer) (conc (base_of k0) half) = Done k'' /\ sim k0 k'' bs' own'.
Proof.
  intros Hs. rewrite abs_frees_app. destruct (abs_frees (fst <$> l) bs own) as [[bs1 own1]|] eqn:E1; [|done].
  cbn [app abs_frees]. destruct (free_at bs1 second) as [bs2|] eqn:E2; [|done].
  rewrite abs_frees_app. destruct (abs_frees (fst <$> omap id half) bs2 (forget second own1)) as [[bs3 own3]|] eqn:E3; [|done].
  cbn [abs_frees]. destruct (free_at bs3 buffer) as [bs4|] eqn:E4; [|done]. intros [= <- <-].
  destruct (drop_vecs_sim k0 l k bs own _ _ Hs E1) as (k1 & D1 & S1).
  destruct (sim_free k0 k1 _ _ _ _ S1 E2) as (k2 & D2 & S2).
  destruct (drop_vecs_sim k0 (omap id half) k2 _ _ _ _ S2 E3) as (k3 & D3 & S3).
  destruct (sim_free k0 k3 _ _ _ _ S3 E4) as (k4 & D4 & S4).
  exists k2, k4. unfold drop_replacements, drop_blocks. rewrite D1, omap_conc, D3. cbn [exec_bind]. by split_and!.
Qed.

Lemma check_released_ok k0 k own :
  sim k0 k [(HEAP_SIZE, true)] own ->
  exists k', check_released k HEAP_SIZE = Done (k', Ok tt) /\ sim k0 k' [(HEAP_SIZE, true)] own.
Proof.
  intros Hs. pose proof (sm_ok _ _ _ _ Hs) as Hok. pose proof Hok as (Hinv & Hb0 & Hn & Hb1).
  assert (Est : heap_stats k = mkHeapStats 1 (HEAP_SIZE - HEADER_SIZE + 0) (Z.max (HEAP_SIZE - HEADER_SIZE) 0)).
  { exact (hi_stats _ _ _ Hinv). }
  unfold check_released. rewrite Est, sub64_done by discriminate. cbn [exec_bind hs_blocks hs_bytes].
  rewrite Z.add_0_r, !Z.eqb_refl. cbn [negb orb]. rewrite mul64_done by discriminate. cbn [exec_bind].
  change (ISIZE_MAX - 7 <? HEAP_SIZE * 2) with false. cbv iota.
  assert (Ea : heap_alloc k (HEAP_SIZE * 2) 8 =
            Done (with_heap (with_phys k (copy_to (phys k) (base_of k) (heap_arena k)))
                    (mkHeapState (heap_list (KERNEL_HEAP k)) (base_of k) (size_of k)), 0)).
  { destruct (heap_alloc_spec _ _ _ (HEAP_SIZE * 2) 8 Hinv) as [[Ea _]|(l & ar & q & _ & _ & _ & Hd)];
      [split; discriminate|split; discriminate| |].
    - unfold heap_alloc, base_of, size_of.
      replace ((heap_len (KERNEL_HEAP k) =? 0) || (heap_base (KERNEL_HEAP k) =? 0)) with false by lia.
      rewrite Ea. reflexivity.
    - exfalso. destruct Hd as (pre & sz & post & Ebs & _ & Hfit & _).
      destruct pre as [|x pre]; [|by destruct pre]. injection Ebs as <- <-. vm_compute in Hfit. discriminate Hfit. }
  rewrite Ea. cbn [exec_bind Z.eqb negb]. eexists. split; [reflexivity|].
  apply (sim_written k0 k [(HEAP_SIZE, true)] own); [done|exact Hinv| |done|done].
  apply len_read_bytes. unfold size_of. lia.
Qed.

Lemma heap_self_check_ok k :
  heap_ok k [(HEAP_SIZE, true)] -> heap_len (KERNEL_HEAP k) = HEAP_SIZE ->
  exists k' own, heap_self_check k = Done (k', Ok tt) /\ sim k k' [(HEAP_SIZE, true)] own.
Proof.
  intros Hok Hn. pose proof abs_check_passes as Habs. unfold abs_check in Habs.
  destruct (place_in 0 [(HEAP_SIZE, true)] (BLOCK_COUNT * SIZE_OF_VEC) 8) as [[bs1 buffer]|] eqn:E1; [|discriminate Habs].
  destruct (abs_vecs first_reqs bs1 []) as [[[bs2 own2] blocks]|] eqn:E2; [|discriminate Habs].
  destruct (apart_ok HEAP_SIZE blocks && owned_ok 0 (Some <$> blocks) own2) eqn:T1; [|discriminate Habs]. cbn [negb] in Habs.
  destruct (abs_half _ 0 bs2 own2 _) as [[[bs3 own3] half]|] eqn:E3; [|discriminate Habs].
  destruct (place_in 0 bs3 _ 8) as [[bs4 second]|] eqn:E4; [|discriminate Habs].
  destruct (abs_vecs second_reqs bs4 own3) as [[[bs5 own5] l]|] eqn:E5; [|discriminate Habs].
  destruct (owned_ok 0 half own5 && _ && _ && _) eqn:T2; [|discriminate Habs]. cbn [negb] in Habs.
  destruct (abs_frees _ bs5 own5) as [[bs6 own6]|] eqn:E6; [|discriminate Habs]. injection Habs as ->.
  apply andb_true_iff in T1 as [T1 T1'], T2 as [T2 T5].
  apply andb_true_iff in T2 as [T2 T4]. apply andb_true_iff in T2 as [T2 T3].
  pose proof Hok as (_ & Hb0 & _ & Hb1). rewrite Hn in Hb1.
  destruct (sim_capacity k k _ [] BLOCK_COUNT _ _ (sim_start k _ Hok) ltac:(split; [reflexivity|discriminate]) E1)
    as (k1 & C1 & S1).
  destruct (check_steps_sim k k1 _ _ HEAP_SIZE _ _ _ _ _ _ _ _ _ _ _ S1 Hb1 E2 T1 T1' E3 E4 E5 T2 T3 T4 T5)
    as (k2 & C2 & S2).
  destruct (check_drops_sim k k2 _ _ _ _ _ _ _ _ S2 E6) as (k3 & k4 & C3 & C4 & S4).
  destruct (check_released_ok k k4 _ S4) as (k5 & C5 & S5).
  exists k5, own6. split; [|exact S5]. unfold heap_self_check, heap_region. rewrite Hn, Z.eqb_refl. cbn [negb].
  rewrite add64_done by lia. cbn [exec_bind]. rewrite C1. cbn [exec_bind]. unfold base_of in *. rewrite C2.
  cbn [exec_bind]. rewrite C3. cbn [exec_bind]. rewrite C4. exact C5.
Qed.

Lemma self_check_ok aa ba ia k b a :
  heap_ok k [(HEAP_SIZE, true)] -> heap_len (KERNEL_HEAP k) = HEAP_SIZE ->
  FRAME_ALLOCATOR k = Some a -> frame_inv a -> records_owned aa ba ia a b ->
  2 <= Frame.free_frames a -> FREE_FRAMES_AFTER_INIT k = Frame.free_frames a + HEAP_SIZE / PAGE_SIZE ->
  exists k1 own a', self_check aa ba ia k b = Done (Ok tt, with_allocator k1 a') /\
    sim k k1 [(HEAP_SIZE, true)] own /\
    frame_inv a' /\ same_config a a' /\ pool a' = pool a /\ free_set a' = free_set a.
Proof.
  intros Hok Hn Ea Hinv Hrec H2 Hb. destruct (heap_self_check_ok k Hok Hn) as (k1 & own & E1 & Hsim).
  pose proof (sm_rest _ _ _ _ Hsim) as Hrest. assert (Ea1 : FRAME_ALLOCATOR k1 = Some a) by (by rewrite Hrest).
  destruct (frame_self_check_eq aa ba ia k1 b a Ea1 Hinv Hrec H2) as (a' & E2 & Hinv' & Hs & Hp & Hf);
    [by rewrite Hrest|].
  exists k1, own, a'. unfold self_check. rewrite E1. cbn [exec_bind]. split; [exact E2|]. by split_and!.
Qed.

(** With fewer than two free frames the frame check reports it. *)
Lemma self_check_few aa ba ia k b a :
  heap_ok k [(HEAP_SIZE, true)] -> heap_len (KERNEL_HEAP k) = HEAP_SIZE ->
  FRAME_ALLOCATOR k = Some a -> frame_inv a -> Frame.free_frames a < 2 ->
  exists k', self_check aa ba ia k b = Done (Err (KMemory.failure 6 NO_FREE_FRAME 0), k').
Proof.
  intros Hok Hn Ea Hinv H2. destruct (heap_self_check_ok k Hok Hn) as (k1 & own & E1 & Hsim).
  unfold self_check. rewrite E1. cbn [exec_bind]. unfold frame_self_check.
  rewrite (sm_rest _ _ _ _ Hsim). cbn [FRAME_ALLOCATOR with_heap with_phys]. rewrite Ea. cbv zeta.
  destruct (alloc_spec a Hinv) as [(i & a1 & -> & Hinv1 & _ & Hi & _ & Hf1 & _)|[-> _]]; cbn [exec_bind];
    [|by eexists].
  destruct (alloc_spec a1 Hinv1) as [(j & a2 & -> & _ & _ & Hj & _)|[-> _]]; cbn [exec_bind]; [|by eexists].
  exfalso. rewrite (fi_count a Hinv) in H2. rewrite Hf1 in Hj. apply elem_of_difference in Hj as [Hj Hne].
  assert (Hs : {[i; j]} ⊆ free_set a) by set_solver. apply subseteq_size in Hs.
  rewrite size_union, !size_singleton in Hs by set_solver. lia.
Qed.

(** C10 The memory self-check.  On a kernel whose heap is one free block of 1 MiB
    at any address, with a sound frame allocator that records the kernel's
    ranges and lost exactly the heap's 256 frames (what [init_allocators]
    leaves), [self_check] does not panic.  With two or more free frames it
    returns [Ok]: no allocation fails, every byte reads back, no two blocks
    overlap; and it leaves the heap one free block, the same frames free and
    lent, no byte outside the heap changed, and the registers and counters
    alone.  With fewer it reports, as step 6, that no frame is free. *)
Theorem memory_self_check_exact aa ba ia k b a :
  heap_ok k [(HEAP_SIZE, true)] -> heap_len (KERNEL_HEAP k) = HEAP_SIZE ->
  FRAME_ALLOCATOR k = Some a -> frame_inv a -> records_owned aa ba ia a b ->
  FREE_FRAMES_AFTER_INIT k = Frame.free_frames a + HEAP_SIZE / PAGE_SIZE ->
  exists r k', self_check aa ba ia k b = Done (r, k') /\
    if decide (2 <= Frame.free_frames a) then
      r = Ok tt /\ heap_ok k' [(HEAP_SIZE, true)] /\ heap_region k' = heap_region k /\
      (exists a', FRAME_ALLOCATOR k' = Some a' /\ frame_inv a' /\ pool a' = pool a /\ free_set a' = free_set a) /\
      kernel_lent k' = kernel_lent k /\
      (forall p, p < base_of k \/ base_of k + size_of k <= p -> phys k' p = phys k p) /\
      cr3 k' = cr3 k /\ FREE_FRAMES_AFTER_INIT k' = FREE_FRAMES_AFTER_INIT k
    else r = Err (KMemory.failure 6 NO_FREE_FRAME 0).
Proof.
  intros Hok Hn Ea Hinv Hrec Hb. case_decide as H2.
  2: { destruct (self_check_few aa ba ia k b a Hok Hn Ea Hinv) as [k' E]; [lia|]. by eexists _, k'. }
  destruct (self_check_ok aa ba ia k b a Hok Hn Ea Hinv Hrec H2 Hb)
    as (k1 & own & a' & E & [Hok1 Hrest Hreg Hout _] & Hinv' & Hs & Hp & Hf).
  exists (Ok tt), (with_allocator k1 a'). split; [exact E|]. split; [reflexivity|]. split; [exact Hok1|].
  split; [exact Hreg|]. split; [exists a'; split; [reflexivity|]; split; [exact Hinv'|]; by split|].
  split; [|split; [exact Hout|by rewrite Hrest]].
  unfold kernel_lent. rewrite Ea. cbn [FRAME_ALLOCATOR with_allocator]. by rewrite (addresses_same a a'), Hp, Hf.
Qed.

Lemma memory_self_check_exact_witness :
  exists k k', heap_region k = (0x500000, HEAP_SIZE) /\
    self_check 0x280000 0x290000 0x3000 k demo_info = Done (Ok tt, k') /\ heap_ok k' [(HEAP_SIZE, true)].
Proof.
  destruct (heap_init_ok (with_allocator (with_free_after_init demo_kernel 272) demo_boot_alloc) 0x500000)
    as (k & _ & Hok & Hreg & Hal & Hfr & _); [apply demo_mem_ok|reflexivity|discriminate|].
  exists k. assert (Hl : heap_len (KERNEL_HEAP k) = HEAP_SIZE) by (unfold heap_region in Hreg; by injection Hreg).
  destruct (memory_self_check_exact 0x280000 0x290000 0x3000 k demo_info demo_boot_alloc Hok Hl Hal)
    as (r & k' & E & Hr).
  - apply demo_boot_alloc_ok.
  - split; [vm_compute; reflexivity|]. apply owned_shape; [apply demo_info_ok|split; discriminate..].
  - rewrite Hfr, (proj2 demo_boot_alloc_ok). reflexivity.
  - rewrite decide_True in Hr by (rewrite (proj2 demo_boot_alloc_ok); discriminate).
    destruct Hr as (-> & Hok' & _). exists k'. split; [exact Hreg|]. split; [exact E|exact Hok'].
Defined.
