(* ===== verification/SelfCheck.v ===== *)
(** * The scheduling self-check (crates/kernel/src/self_check.rs)

    The three concurrent steps of the check as a machine of threads: the boot
    context that creates the workers, waits and judges, and the workers
    themselves, each with its program counter.  One [Run] event executes one
    access to shared memory (or one call that runs with interrupts off) of the
    current thread; a [Tick] event is a clock interrupt, which is held back
    while interrupts are disabled.  Scheduler and locks are those of [Sched]
    and [Lock], so a schedule is any list of events and the machine can be run.

    [thread::create] is two steps: the scheduler queues the new thread, and
    later the thread gets its stack, or, in a [Refused] step, does not because
    the frame allocator has none; in between interrupts are on.  A queued
    thread that has no stack is [Unmade].  When a switch picks such a thread
    the machine is [lost] and the run ends there: what the processor does then
    depends on what its slot holds, and is the subject of [Races].
    The reads that follow a successful wait are one step with it, since only the
    counters they report can still change.  Steps 5 and 6 of [run], which read
    counters, are in [KRun].

    The theorem: under every schedule, up to a switch to an unmade thread, the
    machine neither panics nor hangs on a lock, and the counter protected by the
    lock never loses an update, so step 1 can only fail for want of a thread or
    by running out of time.  Examples show that the verdicts of steps 2 and 4
    depend on where the clock strikes, with schedules that pass and schedules
    that fail. *)
From Stdlib Require Import ZArith Lia Bool String.
From stdpp Require Import base tactics option list numbers gmap sets.
From S2P Require Import Prelude Lock Sched.

#[local] Open Scope Z_scope.

(** ** Constants and statics *)
Definition LOCK_WORKERS : Z := 4.
Definition LOCK_INCREMENTS : Z := 2000.
Definition ROUND_ROBIN_WORKERS : Z := 3.
Definition ROUND_ROBIN_ROUNDS : Z := 10.
Definition PREEMPTION_TICK_BUDGET : Z := 500.
Definition WAIT_BUDGET : Z := 100_000_000.

(** [fetch_add] on an [AtomicUsize]. *)
Definition wrapping_add (a b : Z) : Z := (a + b) mod 2 ^ 64.

(** The addresses of the two locks; only that they differ matters. *)
Definition COUNTER_LOCK : Z := 0x1000.
Definition ROUND_ROBIN_LOCK : Z := 0x1008.

Record Statics : Type := mkStatics {
  COUNTER : Z;
  ROUND_ROBIN : list Z;
  ROUND_ROBIN_INDEX : Z;
  PREEMPTED : bool;
  PREEMPT_TICKS_START : Z;
  PREEMPT_TICKS_END : Z;
  PREEMPT_RESULT : Z;
  FINISHED : Z
}.

Definition set_counter (s : Statics) (v : Z) : Statics :=
  mkStatics v (ROUND_ROBIN s) (ROUND_ROBIN_INDEX s) (PREEMPTED s) (PREEMPT_TICKS_START s) (PREEMPT_TICKS_END s)
            (PREEMPT_RESULT s) (FINISHED s).
Definition set_log (s : Statics) (l : list Z) : Statics :=
  mkStatics (COUNTER s) l (ROUND_ROBIN_INDEX s) (PREEMPTED s) (PREEMPT_TICKS_START s) (PREEMPT_TICKS_END s)
            (PREEMPT_RESULT s) (FINISHED s).
Definition set_log_index (s : Statics) (i : Z) : Statics :=
  mkStatics (COUNTER s) (ROUND_ROBIN s) i (PREEMPTED s) (PREEMPT_TICKS_START s) (PREEMPT_TICKS_END s)
            (PREEMPT_RESULT s) (FINISHED s).
Definition set_preempted (s : Statics) (b : bool) : Statics :=
  mkStatics (COUNTER s) (ROUND_ROBIN s) (ROUND_ROBIN_INDEX s) b (PREEMPT_TICKS_START s) (PREEMPT_TICKS_END s)
            (PREEMPT_RESULT s) (FINISHED s).
Definition set_ticks_start (s : Statics) (t : Z) : Statics :=
  mkStatics (COUNTER s) (ROUND_ROBIN s) (ROUND_ROBIN_INDEX s) (PREEMPTED s) t (PREEMPT_TICKS_END s)
            (PREEMPT_RESULT s) (FINISHED s).
Definition set_ticks_end (s : Statics) (t : Z) : Statics :=
  mkStatics (COUNTER s) (ROUND_ROBIN s) (ROUND_ROBIN_INDEX s) (PREEMPTED s) (PREEMPT_TICKS_START s) t
            (PREEMPT_RESULT s) (FINISHED s).
Definition set_result (s : Statics) (r : Z) : Statics :=
  mkStatics (COUNTER s) (ROUND_ROBIN s) (ROUND_ROBIN_INDEX s) (PREEMPTED s) (PREEMPT_TICKS_START s)
            (PREEMPT_TICKS_END s) r (FINISHED s).
Definition set_finished (s : Statics) (n : Z) : Statics :=
  mkStatics (COUNTER s) (ROUND_ROBIN s) (ROUND_ROBIN_INDEX s) (PREEMPTED s) (PREEMPT_TICKS_START s)
            (PREEMPT_TICKS_END s) (PREEMPT_RESULT s) n.

(** ** Failures *)

(** The texts. *)
Definition LostUpdate : string := "计数器丢失更新（锁未提供互斥）".
Definition WrongOrder : string := "轮转顺序不是严格轮流".
Definition NotPreempted : string := "自旋线程在 tick 预算内没有被抢占（PIT 未生效或抢占被关闭）".
Definition NoTicks : string := "抢占发生但 tick 没有推进".
Definition NoSwitches : string := "没有发生任何上下文切换".

Record Failure : Type := mkFailure { step : Z; what : string; value : Z }.
Definition failure (step : Z) (what : string) (value : Z) : Failure := mkFailure step what value.

(** ** Programs *)

(** The step the boot context is in: 1, 2, and 3 with 4. *)
Inductive phase : Type := MutualExclusion | RoundRobin | Preemption.

(** The functions passed to [thread::create]. *)
Inductive worker : Type := lock_worker | round_robin_worker | preempt_waiter | preempt_setter.

(** Where a thread is.  [rounds] counts the rounds that remain, [g] is the guard
    it holds. *)
Inductive pc : Type :=
| Gone
| IdleMain
| Leaving
| Unmade
| LockLoop (rounds : nat)
| LockHeld (rounds : nat) (g : SpinLockGuard)
| LockRead (rounds : nat) (g : SpinLockGuard) (counter : Z)
| LockWritten (rounds : nat) (g : SpinLockGuard)
| RRLoop (id : Z) (rounds : nat)
| RRHeld (id : Z) (rounds : nat) (g : SpinLockGuard)
| RRIndex (id : Z) (rounds : nat) (g : SpinLockGuard) (i : Z)
| RRWritten (id : Z) (rounds : nat) (g : SpinLockGuard)
| RRYield (id : Z) (rounds : nat)
| WaitStart
| WaitStore (start : Z)
| WaitFlag (start : Z)
| WaitTicks (start : Z)
| WaitEnd (result : Z)
| WaitEndStore (result ticks : Z)
| WaitResult (result : Z)
| SetFlag
| BootCreate (p : phase) (todo : list worker) (made : list Z) (ticks_before : Z)
| BootMake (p : phase) (f : worker) (id : Z) (todo : list worker) (made : list Z) (ticks_before : Z)
| BootPoll (p : phase) (spins : Z) (made : list Z) (ticks_before : Z)
| BootDone (r : Result unit Failure).

Definition entry_of (f : worker) (id : Z) : pc :=
  match f with
  | lock_worker => LockLoop (Z.to_nat LOCK_INCREMENTS)
  | round_robin_worker => RRLoop id (Z.to_nat ROUND_ROBIN_ROUNDS)
  | preempt_waiter => WaitStart
  | preempt_setter => SetFlag
  end.

(** ** The machine

    [saved] holds the interrupt flag of each thread that is not running. *)
Record Machine : Type := mkMachine {
  sch : Scheduler;
  locks : LockState;
  statics : Statics;
  pcs : list pc;
  saved : list bool
}.

Definition with_sch (w : Machine) (x : Scheduler) : Machine := mkMachine x (locks w) (statics w) (pcs w) (saved w).
Definition with_locks (w : Machine) (l : LockState) : Machine := mkMachine (sch w) l (statics w) (pcs w) (saved w).
Definition with_statics (w : Machine) (s : Statics) : Machine := mkMachine (sch w) (locks w) s (pcs w) (saved w).

(** The current thread goes on at [p]. *)
Definition goto (w : Machine) (p : pc) : exec Machine :=
  let! l := set_index (pcs w) (current (sch w)) p in
  Done (mkMachine (sch w) (locks w) (statics w) l (saved w)).

(** [SpinLock::lock]; a lock that is taken would be waited for forever, since
    nothing else runs with interrupts off. *)
Definition acquire (l : LockState) (a : Z) : exec (SpinLockGuard * LockState) :=
  match Lock.lock 1 l a with Some r => Done r | None => Panic end.

(** *** Interrupts *)

(** [reap_exited], as far as the scheduler is concerned. *)
Fixpoint reap (fuel : nat) (x : Scheduler) : exec Scheduler :=
  let! (x, r) := take_reapable x in
  match r with
  | None => Done x
  | Some _ => match fuel with O => Panic | S fuel => reap fuel x end
  end.

(** An interrupt: reap, decide, and resume whoever is current, with the flag
    saved in the frame the exit code pops. *)
Definition interrupt (w : Machine) (decision : Scheduler -> exec Scheduler) : exec Machine :=
  let from := current (sch w) in
  let! x := reap (Z.to_nat MAX_THREADS) (sch w) in
  let! x := decision x in
  let! saved := set_index (saved w) from (IF (locks w)) in
  let! flag := index saved (current x) in
  Done (mkMachine x (mkLocks flag (HELD (locks w)) (locked (locks w))) (statics w) (pcs w) saved).

Definition clock (w : Machine) : exec Machine :=
  if interrupts_enabled (locks w)
  then interrupt w (fun x => let! (x, _) := on_tick x true in Done x)
  else Done w.

(** [thread::yield_now] and [thread::exit] with their guards; after a failed
    exit the thread runs into [unreachable!]. *)
Definition yield_irq (w : Machine) : exec Machine :=
  let! _ := Lock.yield_now (locks w) in
  interrupt w (fun x => let! (x, _) := yield_current x in Done x).
Definition exit_irq (w : Machine) : exec Machine :=
  let! _ := Lock.exit_guard (locks w) in
  interrupt w (fun x => let! (x, r) := exit_current x in match r with Ok _ => Done x | Err _ => Panic end).

(** *** The workers *)
Definition run_lock_worker (w : Machine) (rounds : nat) : exec Machine :=
  match rounds with
  | O => goto (with_statics w (set_finished (statics w) (wrapping_add (FINISHED (statics w)) 1))) Leaving
  | S rounds =>
      let! (g, l) := acquire (locks w) COUNTER_LOCK in
      goto (with_locks w l) (LockHeld rounds g)
  end.

Definition run_round_robin_worker (w : Machine) (id : Z) (rounds : nat) : exec Machine :=
  match rounds with
  | O => goto (with_statics w (set_finished (statics w) (wrapping_add (FINISHED (statics w)) 1))) Leaving
  | S rounds =>
      let! (g, l) := acquire (locks w) ROUND_ROBIN_LOCK in
      goto (with_locks w l) (RRHeld id rounds g)
  end.

(** *** The boot context *)

(** [FINISHED >= n], or [PREEMPT_RESULT != 0]. *)
Definition finished (p : phase) (s : Statics) : bool :=
  match p with
  | MutualExclusion => LOCK_WORKERS <=? FINISHED s
  | RoundRobin => ROUND_ROBIN_WORKERS <=? FINISHED s
  | Preemption => negb (PREEMPT_RESULT s =? 0)
  end.

Definition step_number (p : phase) : Z :=
  match p with MutualExclusion => 1 | RoundRobin => 2 | Preemption => 3 end.

(** The texts of the two failures every step can have. *)
Definition cannot_create (f : worker) : string :=
  match f with
  | lock_worker => "无法创建互斥测试线程"
  | round_robin_worker => "无法创建轮转测试线程"
  | preempt_waiter => "无法创建抢占等待线程"
  | preempt_setter => "无法创建抢占设置线程"
  end.
Definition not_finished (p : phase) : string :=
  match p with
  | MutualExclusion => "互斥测试线程没有全部完成"
  | RoundRobin => "轮转测试线程没有全部完成"
  | Preemption => "抢占测试没有结束"
  end.

(** The value reported when the wait runs out. *)
Definition progress (p : phase) (s : Statics) : Z :=
  match p with Preemption => PREEMPT_RESULT s | _ => FINISHED s end.

(** [for (index, got) in recorded.iter().enumerate()]. *)
Fixpoint check_order (workers : list Z) (i : Z) (recorded : list Z) : exec (Result unit Failure) :=
  match recorded with
  | [] => Done (Ok tt)
  | got :: recorded =>
      let! expected := index workers (i mod ROUND_ROBIN_WORKERS) in
      if negb (got =? expected mod 256)
      then Done (Err (failure 2 WrongOrder (Z.lor (Z.shiftl i 8) got)))
      else check_order workers (i + 1) recorded
  end.

(** What follows a successful wait. *)
Definition verdict (w : Machine) (p : phase) (made : list Z) (ticks_before : Z) :
    exec (Machine * Result unit Failure) :=
  let s := statics w in
  match p with
  | MutualExclusion =>
      let! (g, l) := acquire (locks w) COUNTER_LOCK in
      let value := COUNTER s in
      let w := with_locks w (drop_guard g l) in
      let! expected := mul64 LOCK_WORKERS LOCK_INCREMENTS in
      Done (w, if negb (value =? expected) then Err (failure 1 LostUpdate value) else Ok tt)
  | RoundRobin => let! r := check_order made 0 (ROUND_ROBIN s) in Done (w, r)
  | Preemption =>
      if negb (PREEMPT_RESULT s =? 1) then
        let! d := sub64 (ticks (sch w)) ticks_before in
        Done (w, Err (failure 3 NotPreempted d))
      else
        let! elapsed := sub64 (PREEMPT_TICKS_END s) (PREEMPT_TICKS_START s) in
        Done (w, if elapsed =? 0 then Err (failure 4 NoTicks elapsed)
                 else if switches (sch w) =? 0 then Err (failure 4 NoSwitches 0) else Ok tt)
  end.

(** The next [thread::create]: [sched::create_thread] queues the new thread. *)
Definition run_create (w : Machine) (p : phase) (f : worker) (todo : list worker) (made : list Z) (t : Z) :
    exec Machine :=
  let! (x, r) := Sched.create (sch w) in
  let w := with_sch w x in
  match r with
  | Err _ => goto w (BootDone (Err (failure (step_number p) (cannot_create f) 0)))
  | Ok id =>
      let! l := set_index (pcs w) id Unmade in
      goto (mkMachine (sch w) (locks w) (statics w) l (saved w)) (BootMake p f id todo made t)
  end.

(** [create_with_id]: a stack, [granted] or not, and the initial frame, which
    has the interrupt flag set.  Without a stack the thread stays queued. *)
Definition run_make (w : Machine) (granted : bool) (p : phase) (f : worker) (id : Z) (todo : list worker)
    (made : list Z) (t : Z) : exec Machine :=
  if granted then
    let! l := set_index (pcs w) id (entry_of f id) in
    let! flags := set_index (saved w) id true in
    goto (mkMachine (sch w) (locks w) (statics w) l flags) (BootCreate p todo (made ++ [id]) t)
  else goto w (BootDone (Err (failure (step_number p) (cannot_create f) 0))).

(** One round of [wait_until], with what follows when it ends. *)
Definition run_poll (w : Machine) (p : phase) (spins : Z) (made : list Z) (t : Z) : exec Machine :=
  if finished p (statics w) then let! (w, r) := verdict w p made t in goto w (BootDone r)
  else if WAIT_BUDGET <=? spins
       then goto w (BootDone (Err (failure (step_number p) (not_finished p) (progress p (statics w)))))
       else let! spins := add64 spins 1 in goto w (BootPoll p spins made t).

(** *** One step of the current thread

    [granted] is the frame allocator's answer, should the step ask for a stack. *)
Definition run (granted : bool) (w : Machine) : exec Machine :=
  let s := statics w in
  let! p := index (pcs w) (current (sch w)) in
  match p with
  | Gone | IdleMain | Unmade | BootDone _ => Done w
  | Leaving => let! w := goto w Gone in exit_irq w
  | LockLoop rounds => run_lock_worker w rounds
  | LockHeld rounds g => goto w (LockRead rounds g (COUNTER s))
  | LockRead rounds g v =>
      let! v := add64 v 1 in
      goto (with_statics w (set_counter s v)) (LockWritten rounds g)
  | LockWritten rounds g => goto (with_locks w (drop_guard g (locks w))) (LockLoop rounds)
  | RRLoop id rounds => run_round_robin_worker w id rounds
  | RRHeld id rounds g =>
      let i := ROUND_ROBIN_INDEX s in
      goto (with_statics w (set_log_index s (wrapping_add i 1))) (RRIndex id rounds g i)
  | RRIndex id rounds g i =>
      let! l := set_index (ROUND_ROBIN s) i (id mod 256) in
      goto (with_statics w (set_log s l)) (RRWritten id rounds g)
  | RRWritten id rounds g => goto (with_locks w (drop_guard g (locks w))) (RRYield id rounds)
  | RRYield id rounds => let! w := goto w (RRLoop id rounds) in yield_irq w
  | WaitStart => goto w (WaitStore (ticks (sch w)))
  | WaitStore start => goto (with_statics w (set_ticks_start s start)) (WaitFlag start)
  | WaitFlag start => goto w (if PREEMPTED s then WaitEnd 1 else WaitTicks start)
  | WaitTicks start =>
      let! d := sub64 (ticks (sch w)) start in
      goto w (if PREEMPTION_TICK_BUDGET <=? d then WaitEnd 2 else WaitFlag start)
  | WaitEnd result => goto w (WaitEndStore result (ticks (sch w)))
  | WaitEndStore result t => goto (with_statics w (set_ticks_end s t)) (WaitResult result)
  | WaitResult result => goto (with_statics w (set_result s result)) Leaving
  | SetFlag => goto (with_statics w (set_preempted s true)) Leaving
  | BootCreate ph [] made t => goto w (BootPoll ph 0 made t)
  | BootCreate ph (f :: todo) made t => run_create w ph f todo made t
  | BootMake ph f id todo made t => run_make w granted ph f id todo made t
  | BootPoll ph spins made t => run_poll w ph spins made t
  end.

(** ** Schedules *)
Inductive event : Type := Run | Refused | Tick.

Definition react (w : Machine) (e : event) : exec Machine :=
  match e with Run => run true w | Refused => run false w | Tick => clock w end.

(** The current thread has no stack to run on. *)
Definition lost (w : Machine) : bool :=
  match get (pcs w) (current (sch w)) with Some Unmade => true | _ => false end.

(** A schedule is played to its end, or until the machine is lost. *)
Fixpoint play (es : list event) (w : Machine) : exec Machine :=
  if lost w then Done w else
  match es with
  | [] => Done w
  | e :: es => let! w := react w e in play es w
  end.

(** The beginning of a step: its statics are reset and its workers listed. *)
Definition reset (p : phase) (s : Statics) : Statics :=
  match p with
  | MutualExclusion => set_finished (set_counter s 0) 0
  | RoundRobin =>
      set_finished (set_log_index (set_log s (replicate (Z.to_nat (ROUND_ROBIN_ROUNDS * ROUND_ROBIN_WORKERS)) 0xFF)) 0) 0
  | Preemption => set_finished (set_result (set_preempted s false) 0) 0
  end.

Definition workers_of (p : phase) : list worker :=
  match p with
  | MutualExclusion => replicate (Z.to_nat LOCK_WORKERS) lock_worker
  | RoundRobin => replicate (Z.to_nat ROUND_ROBIN_WORKERS) round_robin_worker
  | Preemption => [preempt_waiter; preempt_setter]
  end.

Definition begin_step (p : phase) (w : Machine) : exec Machine :=
  goto (with_statics w (reset p (statics w))) (BootCreate p (workers_of p) [] (ticks (sch w))).

(** What the boot context has concluded. *)
Definition result_of (w : Machine) : option (Result unit Failure) :=
  match get (pcs w) 0 with Some (BootDone r) => Some r | _ => None end.

(** ** What every schedule keeps *)

(** The lock a thread is inside of, and the guard it must hold. *)
Definition holds (p : pc) : option Z :=
  match p with
  | LockHeld _ _ | LockRead _ _ _ | LockWritten _ _ => Some COUNTER_LOCK
  | RRHeld _ _ _ | RRIndex _ _ _ _ | RRWritten _ _ _ => Some ROUND_ROBIN_LOCK
  | _ => None
  end.

Definition guard_in (p : pc) : option SpinLockGuard :=
  match p with
  | LockHeld _ g | LockRead _ g _ | LockWritten _ g => Some g
  | RRHeld _ _ g | RRIndex _ _ g _ | RRWritten _ _ g => Some g
  | _ => None
  end.

Definition taken (a : Z) : SpinLockGuard := mkGuard a (mkCritical true).
Definition free_locks : LockState := mkLocks true 0 ∅.
Definition locks_at (p : pc) : LockState :=
  match holds p with Some a => mkLocks false 1 {[a]} | None => free_locks end.
Definition guard_ok (p : pc) : Prop := guard_in p = taken <$> holds p.

Lemma acquire_free a : acquire free_locks a = Done (taken a, mkLocks false 1 {[a]}).
Proof.
  unfold acquire, Lock.lock, grab, free_locks. cbn. unfold fetch_add. cbn.
  by rewrite union_empty_r_L.
Qed.

Lemma drop_taken a : drop_guard (taken a) (mkLocks false 1 {[a]}) = free_locks.
Proof. unfold drop_guard, release, fetch_add, store_false, drop_critical, enable_interrupts. cbn. by rewrite difference_diag_L. Qed.

Record base (w : Machine) : Prop := mkBase {
  b_inv : sched_inv (sch w);
  b_pcs : len (pcs w) = MAX_THREADS;
  b_saved : len (saved w) = MAX_THREADS;
  b_flags : forall id b, get (saved w) id = Some b -> b = true;
  b_current : current (sch w) <> NO_THREAD;
  b_idle : idle (sch w) <> NO_THREAD /\ get (pcs w) (idle (sch w)) = Some IdleMain;
  b_dead : forall id, get (Sched.states (sch w)) id = Some Unused \/ get (Sched.states (sch w)) id = Some Exited ->
    get (pcs w) id = Some Gone;
  b_locks : forall p, get (pcs w) (current (sch w)) = Some p -> locks w = locks_at p;
  b_outside : forall id p, id <> current (sch w) -> get (pcs w) id = Some p -> holds p = None;
  b_guard : forall id p, get (pcs w) id = Some p -> guard_ok p
}.

(** The counters are at least [n] events away from the end of their width. *)
Definition room (n : Z) (x : Scheduler) : Prop :=
  0 <= ticks x /\ ticks x + n <= U64_MAX /\ 0 <= switches x /\ switches x + n <= U64_MAX.

Lemma current_range w : base w -> 0 <= current (sch w) < MAX_THREADS.
Proof. intros B. exact (inv_current_range _ (b_inv _ B) (b_current _ B)). Qed.

Lemma current_pc w : base w -> exists p, get (pcs w) (current (sch w)) = Some p.
Proof. intros B. apply get_lt_some. rewrite (b_pcs _ B). by apply current_range. Qed.

Lemma goto_done w p :
  0 <= current (sch w) < len (pcs w) ->
  goto w p = Done (mkMachine (sch w) (locks w) (statics w) (<[Z.to_nat (current (sch w)) := p]> (pcs w)) (saved w)).
Proof. intros Hr. unfold goto. by rewrite set_index_done. Qed.

(** The running thread moves on, with the locks its new place needs. *)
Lemma base_moves w s p q :
  base w -> get (pcs w) (current (sch w)) = Some p -> p <> IdleMain -> guard_ok q ->
  base (mkMachine (sch w) (locks_at q) s (<[Z.to_nat (current (sch w)) := q]> (pcs w)) (saved w)).
Proof.
  intros B Hp Hni Hq. pose proof (current_range w B) as Hr. pose proof B as [B1 B2 B3 B4 B5 [B6 B6'] B7 B8 B9 B10].
  assert (Hget : forall id x, get (<[Z.to_nat (current (sch w)) := q]> (pcs w)) id = Some x ->
            (id = current (sch w) /\ x = q) \/ (id <> current (sch w) /\ get (pcs w) id = Some x)).
  { intros id x. rewrite get_insert_dec by (rewrite B2; done). case_decide; [intros [= <-]; by left|by right]. }
  constructor; cbn [sch locks statics pcs saved]; try done.
  - by rewrite len_insert.
  - split; [done|]. rewrite get_insert_dec by (rewrite B2; done). case_decide as E; [|done].
    exfalso. apply Hni. rewrite <- E, Hp in B6'. by injection B6'.
  - intros id Hid. rewrite get_insert_dec by (rewrite B2; done). case_decide as E; [|by apply B7].
    exfalso. pose proof (inv_current _ B1 B5) as Hrun. rewrite E in Hrun. rewrite Hrun in Hid. by destruct Hid.
  - intros x Hx. destruct (Hget _ _ Hx) as [[_ ->]|[? _]]; done.
  - intros id x Hne Hx. destruct (Hget _ _ Hx) as [[? _]|[_ Hx']]; [done|]. by apply (B9 id).
  - intros id x Hx. destruct (Hget _ _ Hx) as [[_ ->]|[_ Hx']]; [done|]. by apply (B10 id).
Qed.

(** *** Reaping *)
Record reaped (x x' : Scheduler) : Prop := mkReaped {
  re_inv : sched_inv x';
  re_current : current x' = current x;
  re_idle : idle x' = idle x;
  re_queue : ready_queue x' = ready_queue x;
  re_counters : counters x' = counters x;
  re_dead : forall id, get (Sched.states x') id = Some Unused \/ get (Sched.states x') id = Some Exited ->
    get (Sched.states x) id = Some Unused \/ get (Sched.states x) id = Some Exited
}.

Lemma reap_spec fuel x :
  sched_inv x -> (forall j, 0 <= j < MAX_THREADS - Z.of_nat fuel -> get (Sched.states x) j <> Some Exited) ->
  exists x', reap fuel x = Done x' /\ reaped x x'.
Proof.
  revert x. induction fuel as [|fuel IH]; intros x Hinv Hlow; pose proof (take_reapable_spec x Hinv) as Ht;
    destruct (position (is_state Exited) (Sched.states x)) as [id|] eqn:Epos.
  1: { apply position_state in Epos. pose proof (inv_state_range _ Hinv _ _ Epos).
       exfalso. apply (Hlow id); [simpl; lia|done]. }
  1,3: cbn [reap]; rewrite Ht; exists x; split; [done|by constructor].
  destruct Ht as (x1 & Et & Hinv1 & Hst & Hq & Hc & Hi & Hn).
  pose proof Epos as [Hid Hmin]%position_least. pose proof (get_in_range _ _ _ Hid) as Hr.
  destruct (IH x1 Hinv1) as (x2 & E2 & [R1 R2 R3 R4 R5 R6]).
  - intros j Hj. rewrite Hst, get_insert_dec by done. case_decide as E; [done|].
    destruct (decide (j < id)); [by apply Hmin; lia|]. intros Hex.
    destruct (decide (id < MAX_THREADS - Z.of_nat (S fuel))); [by apply (Hlow id); [lia|]|lia].
  - cbn [reap]. rewrite Et. cbn [exec_bind]. exists x2. split; [exact E2|]. constructor; try congruence.
    intros j Hj. apply R6 in Hj. rewrite Hst, get_insert_dec in Hj by done. case_decide as E; [|done].
    subst j. by right.
Qed.

Lemma reap_all x : sched_inv x -> exists x', reap (Z.to_nat MAX_THREADS) x = Done x' /\ reaped x x'.
Proof. intros Hinv. apply reap_spec; [done|]. intros j Hj. unfold MAX_THREADS in Hj. simpl in Hj. lia. Qed.

(** *** Interrupts *)
Lemma interrupt_base w decision x x' :
  base w -> locks w = free_locks -> reap (Z.to_nat MAX_THREADS) (sch w) = Done x -> decision x = Done x' ->
  sched_inv x' -> current x' <> NO_THREAD -> idle x' = idle (sch w) ->
  (forall id, get (Sched.states x') id = Some Unused \/ get (Sched.states x') id = Some Exited ->
     get (pcs w) id = Some Gone) ->
  (forall p, get (pcs w) (current (sch w)) = Some p -> holds p = None) ->
  exists w', interrupt w decision = Done w' /\ base w' /\ sch w' = x' /\ statics w' = statics w /\ pcs w' = pcs w.
Proof.
  intros B Hl Er Ed Hinv Hc Hi Hdead Hcur. pose proof (current_range w B) as Hr.
  pose proof (inv_current_range _ Hinv Hc) as Hr'. pose proof B as [B1 B2 B3 B4 B5 B6 B7 B8 B9 B10].
  assert (Hflag : forall id b, get (<[Z.to_nat (current (sch w)) := true]> (saved w)) id = Some b -> b = true).
  { intros id b. rewrite get_insert_dec by (rewrite B3; done). case_decide; [congruence|apply B4]. }
  destruct (get_lt_some (<[Z.to_nat (current (sch w)) := true]> (saved w)) (current x')) as [b Hb];
    [by rewrite len_insert, B3|].
  assert (Hnone : forall id p, get (pcs w) id = Some p -> holds p = None).
  { intros id p Hp. destruct (decide (id = current (sch w))) as [->|Hne]; [by apply Hcur|by apply (B9 id)]. }
  unfold interrupt. rewrite Er. cbn [exec_bind]. rewrite Ed. cbn [exec_bind]. rewrite Hl. cbn [IF free_locks HELD locked].
  rewrite set_index_done by (by rewrite B3). cbn [exec_bind]. rewrite (proj2 (index_done _ _ _) Hb). cbn [exec_bind].
  rewrite (Hflag _ _ Hb). eexists. split; [reflexivity|].
  split; [|done]. constructor; cbn [sch locks statics pcs saved]; try done.
  - by rewrite len_insert.
  - by rewrite Hi.
  - intros p Hp. unfold locks_at. by rewrite (Hnone _ _ Hp).
  - intros id p _ Hp. by apply (Hnone id).
Qed.

(** A rotation keeps the scheduler's invariant and kills nobody. *)
Lemma rotation_facts x :
  sched_inv x -> 0 <= switches x < U64_MAX -> current x <> NO_THREAD ->
  exists x' d, rotate x = Done (x', d) /\ sched_inv x' /\ current x' <> NO_THREAD /\ idle x' = idle x /\
    ticks x' = ticks x /\ switches x <= switches x' <= switches x + 1 /\
    forall id, get (Sched.states x') id = Some Unused \/ get (Sched.states x') id = Some Exited ->
      get (Sched.states x) id = Some Unused \/ get (Sched.states x) id = Some Exited.
Proof.
  intros Hinv Hsw Hc. destruct (ready_queue x) as [|to rest] eqn:Hq.
  { exists x, Keep. rewrite rotate_keep by auto. split_and!; (done || lia). }
  destruct (rotate_switch x to rest Hinv Hsw Hc Hq) as (x' & E & Hro).
  assert (Hinv' : sched_inv x') by (by apply (rotated_inv x x' to rest)).
  pose proof (inv_current_range _ Hinv Hc) as Hcr. pose proof (si_states _ Hinv) as Hls.
  assert (Hto : 0 <= to < MAX_THREADS) by (apply (inv_queued_range x Hinv); rewrite Hq; by left).
  exists x', (Switch (current x) to). rewrite (ro_current _ _ _ _ Hro), (ro_idle _ _ _ _ Hro), (ro_ticks _ _ _ _ Hro),
    (ro_switches _ _ _ _ Hro), (ro_states _ _ _ _ Hro).
  split_and!; try (done || lia); [intros ->; unfold MAX_THREADS, NO_THREAD in Hto; ulia|].
  intros id. rewrite get_insert_dec by (rewrite len_insert; lia). case_decide; [naive_solver|].
  rewrite get_insert_dec by lia. case_decide; [naive_solver|done].
Qed.

(** The clock and [yield_now] change neither program counters nor statics. *)
Lemma clock_base w n :
  base w -> room (n + 1) (sch w) -> 0 <= n ->
  exists w', clock w = Done w' /\ base w' /\ room n (sch w') /\ ticks (sch w) <= ticks (sch w') /\
    statics w' = statics w /\ pcs w' = pcs w.
Proof.
  intros B (T1 & T2 & S1 & S2) Hn. destruct (current_pc w B) as [p Hp]. pose proof (b_locks _ B p Hp) as Hl.
  unfold clock. rewrite Hl. unfold locks_at. destruct (holds p) as [a|] eqn:Eh; cbn [interrupts_enabled IF free_locks].
  { exists w. split_and!; try done; unfold room; lia. }
  destruct (reap_all (sch w) (b_inv _ B)) as (x & Er & [R1 R2 R3 R4 R5 R6]).
  unfold counters in R5. injection R5 as R5 R5'. pose proof (b_current _ B) as Hc.
  destruct (rotation_facts (set_ticks x (ticks x + 1))) as (x' & d & E & Hinv & Hc' & Hi & Ht & Hs & Hd);
    [by apply set_ticks_inv|cbn; lia|cbn; by rewrite R2|]. cbn [set_ticks ticks switches idle] in *.
  destruct (interrupt_base w (fun x => let! (x, _) := on_tick x true in Done x) x x') as (w' & E' & B' & Ex & Es & Ep);
    try done.
  - unfold locks_at in Hl. by rewrite Eh in Hl.
  - unfold on_tick. rewrite add64_done by lia. cbn [exec_bind negb]. rewrite E. reflexivity.
  - congruence.
  - intros id Hid. apply (b_dead _ B), R6, Hd, Hid.
  - intros q Hq. rewrite Hp in Hq. by injection Hq as <-.
  - exists w'. rewrite Ex. split_and!; try done; unfold room; lia.
Qed.

Lemma yield_base w n :
  base w -> room (n + 1) (sch w) -> 0 <= n -> locks w = free_locks ->
  (forall p, get (pcs w) (current (sch w)) = Some p -> holds p = None) ->
  exists w', yield_irq w = Done w' /\ base w' /\ room n (sch w') /\ statics w' = statics w /\ pcs w' = pcs w.
Proof.
  intros B (T1 & T2 & S1 & S2) Hn Hl Hh. unfold yield_irq. rewrite Hl. cbn [Lock.yield_now held_count HELD free_locks Z.eqb negb exec_bind].
  destruct (reap_all (sch w) (b_inv _ B)) as (x & Er & [R1 R2 R3 R4 R5 R6]).
  unfold counters in R5. injection R5 as R5 R5'. pose proof (b_current _ B) as Hc.
  destruct (rotation_facts x) as (x' & d & E & Hinv & Hc' & Hi & Ht & Hs & Hd); [done|lia|by rewrite R2|].
  destruct (interrupt_base w (fun x => let! (x, _) := yield_current x in Done x) x x') as (w' & E' & B' & Ex & Es & Ep);
    try done.
  - unfold yield_current. by rewrite E.
  - congruence.
  - intros id Hid. apply (b_dead _ B), R6, Hd, Hid.
  - exists w'. rewrite Ex. split_and!; try done; unfold room; lia.
Qed.

(** An exit, with the program counter already [Gone]. *)
Lemma exit_base w n :
  base w -> room (n + 1) (sch w) -> 0 <= n -> locks w = free_locks ->
  get (pcs w) (current (sch w)) = Some Gone ->
  exists w', exit_irq w = Done w' /\ base w' /\ room n (sch w') /\ statics w' = statics w /\ pcs w' = pcs w.
Proof.
  intros B (T1 & T2 & S1 & S2) Hn Hl Hg. unfold exit_irq. rewrite Hl.
  cbn [Lock.exit_guard held_count HELD free_locks Z.eqb negb exec_bind].
  destruct (reap_all (sch w) (b_inv _ B)) as (x & Er & [R1 R2 R3 R4 R5 R6]).
  unfold counters in R5. injection R5 as R5 R5'. pose proof (b_current _ B) as Hc. pose proof (b_idle _ B) as [Hi1 Hi2].
  assert (Hni : idle_running x = false).
  { apply bool_decide_eq_false. rewrite (si_idle _ R1). intros [E _]. rewrite R2, R3 in E.
    rewrite <- E, Hg in Hi2. discriminate Hi2. }
  assert (exists next, successor x = Some next) as [next Hs].
  { unfold successor. destruct (ready_queue x); [|by eexists]. rewrite (proj2 (Z.eqb_neq _ _)) by congruence. by eexists. }
  assert (Hsw : 0 <= switches x < U64_MAX) by lia. assert (Hcx : current x <> NO_THREAD) by congruence.
  destruct (exit_decided x next R1 Hsw Hcx Hni Hs) as (x' & d & E & (Hinv & Hc' & _) & _).
  destruct (exit_frame x x' d next R1 Hsw Hcx Hni Hs E) as (F1 & F2 & F3 & F4).
  destruct (successor_ready x next R1 Hcx Hni Hs) as [Hr Hne].
  pose proof (inv_state_range _ R1 _ _ Hr) as Hnr. pose proof (inv_current_range _ R1 Hcx) as Hcr.
  destruct (interrupt_base w (fun x => let! (x, r) := exit_current x in match r with Ok _ => Done x | Err _ => Panic end) x x')
    as (w' & E' & B' & Ex & Es & Ep); try done.
  - by rewrite E.
  - rewrite Hc'. intros ->. unfold MAX_THREADS, NO_THREAD in Hnr. ulia.
  - congruence.
  - intros id. rewrite F4, get_insert_dec by (rewrite len_insert, (si_states _ R1); done).
    case_decide; [naive_solver|]. rewrite get_insert_dec by (rewrite (si_states _ R1); done).
    case_decide as E2; [intros _; by rewrite <- E2, R2|]. intros Hid. by apply (b_dead _ B), R6.
  - intros p Hp. rewrite Hg in Hp. by injection Hp as <-.
  - exists w'. rewrite Ex. split_and!; try done; unfold room; lia.
Qed.

(** *** Creating *)
Definition dead (x : Scheduler) (id : Z) : Prop :=
  get (Sched.states x) id = Some Unused \/ get (Sched.states x) id = Some Exited.

(** Another thread's program counter is set, by the boot context. *)
Lemma base_child w x id q fl :
  base w -> sched_inv x -> current x = current (sch w) -> idle x = idle (sch w) ->
  (forall j, dead x j -> j <> id /\ dead (sch w) j) ->
  id <> current (sch w) -> id <> idle (sch w) -> 0 <= id < MAX_THREADS -> holds q = None -> guard_ok q ->
  len fl = MAX_THREADS -> (forall j b, get fl j = Some b -> b = true) ->
  base (mkMachine x (locks w) (statics w) (<[Z.to_nat id := q]> (pcs w)) fl).
Proof.
  intros [B1 B2 B3 B4 B5 [B6 B6'] B7 B8 B9 B10] Hinv Hc Hi Hd Hne Hni Hr Hq Hg Hfl Hfb.
  constructor; cbn [sch locks statics pcs saved]; rewrite ?len_insert, ?Hc, ?Hi; try done.
  - split; [done|]. rewrite get_insert_dec by lia. by rewrite decide_False.
  - intros j Hj. destruct (Hd j Hj) as [Hji Hj']. rewrite get_insert_dec by lia. rewrite decide_False by done. by apply B7.
  - intros p. rewrite get_insert_dec by lia. rewrite decide_False by done. apply B8.
  - intros j p Hj. rewrite get_insert_dec by lia. case_decide; [by intros [= <-]|by apply B9].
  - intros j p. rewrite get_insert_dec by lia. case_decide; [by intros [= <-]|apply B10].
Qed.

Lemma create_base w p f todo made t p0 :
  base w -> get (pcs w) (current (sch w)) = Some p0 -> p0 <> IdleMain -> p0 <> Gone -> holds p0 = None ->
  exists w' q l, run_create w p f todo made t = Done w' /\ base w' /\ counters (sch w') = counters (sch w) /\
    current (sch w') = current (sch w) /\ statics w' = statics w /\ pcs w' = <[Z.to_nat (current (sch w)) := q]> l /\
    ((l = pcs w /\ q = BootDone (Err (failure (step_number p) (cannot_create f) 0))) \/
     exists id, id <> current (sch w) /\ get (pcs w) id = Some Gone /\ l = <[Z.to_nat id := Unmade]> (pcs w) /\
       q = BootMake p f id todo made t).
Proof.
  intros B Hp Hni Hng Hh. pose proof (current_range w B) as Hcr. pose proof (b_locks _ B p0 Hp) as Hl.
  unfold locks_at in Hl. rewrite Hh in Hl. unfold run_create.
  pose proof (create_spec (sch w) (b_inv _ B)) as Hs.
  destruct (position (is_state Unused) (Sched.states (sch w))) as [id|] eqn:Epos.
  - destruct Hs as (x & Ec & Hinv & Hq & Hc & Hi & Hn). destruct (create_states _ _ _ Ec) as [Hu Hst].
    rewrite Ec. cbn [exec_bind with_sch pcs saved sch locks statics].
    pose proof (b_dead _ B id (or_introl Hu)) as Hg. pose proof (get_in_range _ _ _ Hu) as Hir.
    rewrite (si_states _ (b_inv _ B)) in Hir.
    assert (Hne : id <> current (sch w)) by (intros ->; rewrite Hp in Hg; by injection Hg).
    rewrite set_index_done by (rewrite (b_pcs _ B); done). cbn [exec_bind].
    assert (B1 : base (mkMachine x (locks w) (statics w) (<[Z.to_nat id := Unmade]> (pcs w)) (saved w))).
    { apply base_child; try done; [| |apply (b_saved _ B)|apply (b_flags _ B)].
      - intros j. unfold dead. rewrite Hst, get_insert_dec by (rewrite (si_states _ (b_inv _ B)); lia).
        case_decide as E; [naive_solver|]. intros Hj. by split; [intros ->|].
      - intros ->. destruct (b_idle _ B) as [_ Hidle]. by rewrite Hidle in Hg. }
    pose proof (base_moves _ (statics w) p0 (BootMake p f id todo made t) B1) as B2.
    cbn [sch locks statics pcs saved] in B2. rewrite Hc in B2.
    rewrite goto_done by (cbn [sch pcs]; by rewrite len_insert, (b_pcs _ B), Hc). cbn [sch locks statics pcs saved]. rewrite Hc.
    eexists _, (BootMake p f id todo made t), (<[Z.to_nat id := Unmade]> (pcs w)).
    split; [reflexivity|]. cbn [sch locks statics pcs saved]. split.
    { rewrite Hl. apply B2; [|done|done]. rewrite get_insert_ne by (try lia; congruence). done. }
    split_and!; try done. right. by exists id.
  - rewrite Hs. cbn [exec_bind]. rewrite goto_done by (cbn [with_sch sch pcs]; by rewrite (b_pcs _ B)). cbn [with_sch sch locks statics pcs saved].
    eexists _, _, (pcs w). split; [reflexivity|]. cbn [sch locks statics pcs saved]. split.
    { rewrite Hl. by apply (base_moves w (statics w) p0 (BootDone _)). }
    split_and!; try done. by left.
Qed.

Lemma make_base w p f id todo made t :
  base w -> get (pcs w) (current (sch w)) = Some (BootMake p f id todo made t) -> get (pcs w) id = Some Unmade ->
  exists w', run_make w true p f id todo made t = Done w' /\ base w' /\ sch w' = sch w /\ statics w' = statics w /\
    pcs w' = <[Z.to_nat (current (sch w)) := BootCreate p todo (made ++ [id]) t]> (<[Z.to_nat id := entry_of f id]> (pcs w)).
Proof.
  intros B Hp Hu. pose proof (current_range w B) as Hcr. pose proof (b_locks _ B _ Hp) as Hl. cbn [locks_at holds] in Hl.
  pose proof (get_in_range _ _ _ Hu) as Hir. rewrite (b_pcs _ B) in Hir.
  assert (Hne : id <> current (sch w)) by (intros ->; by rewrite Hp in Hu).
  unfold run_make. rewrite set_index_done by (by rewrite (b_pcs _ B)). cbn [exec_bind].
  rewrite set_index_done by (by rewrite (b_saved _ B)). cbn [exec_bind].
  assert (B1 : base (mkMachine (sch w) (locks w) (statics w) (<[Z.to_nat id := entry_of f id]> (pcs w))
                       (<[Z.to_nat id := true]> (saved w)))).
  { apply base_child; try done; [apply (b_inv _ B)| | |by destruct f|by destruct f| |].
    - intros j Hj. split; [|done]. intros ->. by rewrite (b_dead _ B id Hj) in Hu.
    - intros ->. destruct (b_idle _ B) as [_ Hidle]. by rewrite Hidle in Hu.
    - by rewrite len_insert, (b_saved _ B).
    - intros j b. rewrite get_insert_dec by (by rewrite (b_saved _ B)). case_decide; [congruence|apply (b_flags _ B)]. }
  pose proof (base_moves _ (statics w) (BootMake p f id todo made t) (BootCreate p todo (made ++ [id]) t) B1) as B2.
  cbn [sch locks statics pcs saved] in B2.
  rewrite goto_done by (cbn [sch pcs]; by rewrite len_insert, (b_pcs _ B)). cbn [sch locks statics pcs saved].
  eexists. split; [reflexivity|]. cbn [sch locks statics pcs saved]. split_and!; try done.
  rewrite Hl. apply B2; [|done|done]. rewrite get_insert_ne by (try lia; congruence). done.
Qed.

(** ** Sums over the threads *)
Definition total (f : pc -> Z) (l : list pc) : Z := foldr (fun p a => f p + a) 0 l.

Lemma total_cons f x l : total f (x :: l) = f x + total f l.
Proof. reflexivity. Qed.

Lemma total_insert f l i p q :
  get l i = Some p -> total f (<[Z.to_nat i := q]> l) = total f l - f p + f q.
Proof.
  intros [_ Hi]%get_some. revert Hi. generalize (Z.to_nat i) as n. clear i. revert p.
  induction l as [|x l IH]; intros p [|n]; cbn; try done.
  - intros [= ->]. change (f q + total f l = f p + total f l - f p + f q). lia.
  - intros Hn. change (f x + total f (<[n := q]> l) = f x + total f l - f p + f q). rewrite (IH p n Hn). lia.
Qed.

Lemma total_le f g l c : (forall p, p ∈ l -> f p <= c * g p) -> total f l <= c * total g l.
Proof.
  induction l as [|x l IH]; intros H; [cbn; lia|]. rewrite !total_cons.
  pose proof (H x ltac:(by left)). pose proof (IH ltac:(intros p Hp; apply H; by right)). lia.
Qed.

Lemma total_nonneg f l : (forall p, 0 <= f p) -> 0 <= total f l.
Proof. intros H. induction l as [|x l IH]; [cbn; lia|]. rewrite total_cons. specialize (H x). lia. Qed.

(** ** Step 1: mutual exclusion *)

(** Increments a worker has still to make, and whether it has yet to finish. *)
Definition owed (p : pc) : Z :=
  match p with
  | LockLoop n | LockWritten n _ => Z.of_nat n
  | LockHeld n _ | LockRead n _ _ => Z.of_nat n + 1
  | _ => 0
  end.
Definition unfinished (p : pc) : Z :=
  match p with LockLoop _ | LockHeld _ _ | LockRead _ _ _ | LockWritten _ _ => 1 | _ => 0 end.

(** What threads there are in this step. *)
Definition expected (id : Z) (p : pc) : Prop :=
  match p with
  | Gone | IdleMain | Leaving | Unmade => True
  | LockLoop _ | LockHeld _ _ | LockRead _ _ _ | LockWritten _ _ => owed p <= LOCK_INCREMENTS
  | BootCreate ph todo _ _ => id = 0 /\ ph = MutualExclusion /\ todo = replicate (length todo) lock_worker
  | BootMake ph f _ todo _ _ =>
      id = 0 /\ ph = MutualExclusion /\ f = lock_worker /\ todo = replicate (length todo) lock_worker
  | BootPoll ph _ _ _ => id = 0 /\ ph = MutualExclusion
  | BootDone r => id = 0 /\
      match r with Err f => what f = cannot_create lock_worker \/ what f = not_finished MutualExclusion | Ok _ => True end
  | _ => False
  end.

(** [c] workers have been made. *)
Definition boot_at (c : Z) (p : pc) : Prop :=
  match p with
  | BootCreate _ todo _ _ => c + len todo = LOCK_WORKERS
  | BootMake _ _ _ todo _ _ => c + 1 + len todo = LOCK_WORKERS
  | BootPoll _ spins _ _ => c = LOCK_WORKERS /\ 0 <= spins <= WAIT_BUDGET
  | _ => True
  end.

(** A thread [id] has no stack only while the boot context is inside
    [thread::create] for it, or after a creation failed. *)
Definition making (boot : pc) (id : Z) : Prop :=
  match boot with
  | BootMake _ _ new _ _ _ => id = new
  | BootDone (Err f) => what f = cannot_create lock_worker
  | _ => False
  end.

Record mutual (s : Statics) (l : list pc) : Prop := mkMutual {
  mu_expected : forall id p, get l id = Some p -> expected id p;
  mu_read : forall id n g v, get l id = Some (LockRead n g v) -> v = COUNTER s;
  mu_count : exists c, 0 <= c <= LOCK_WORKERS /\ 0 <= COUNTER s /\ 0 <= FINISHED s /\
    COUNTER s + total owed l = LOCK_INCREMENTS * c /\ FINISHED s + total unfinished l = c /\
    (forall p, get l 0 = Some p -> boot_at c p);
  mu_unmade : forall b id, get l 0 = Some b -> get l id = Some Unmade -> making b id;
  mu_make : forall ph f id todo made t, get l 0 = Some (BootMake ph f id todo made t) -> get l id = Some Unmade
}.

Definition inside_make (p : pc) : bool := match p with BootMake _ _ _ _ _ _ => true | _ => false end.

Lemma owed_nonneg p : 0 <= owed p.
Proof. destruct p; cbn; lia. Qed.
Lemma unfinished_nonneg p : 0 <= unfinished p.
Proof. destruct p; cbn; lia. Qed.

(** A thread other than the boot context moves from [p] to [q]. *)
Lemma mutual_moves s s' l cur p q :
  mutual s l -> get l cur = Some p -> expected cur q ->
  (forall id x, id <> cur -> get l id = Some x -> holds x = None) ->
  (forall n g v, q = LockRead n g v -> v = COUNTER s') ->
  0 <= COUNTER s' -> 0 <= FINISHED s' ->
  COUNTER s' + owed q = COUNTER s + owed p -> FINISHED s' + unfinished q = FINISHED s + unfinished p ->
  (forall c, boot_at c p -> boot_at c q) ->
  p <> Unmade -> q <> Unmade -> inside_make q = false -> (forall id, making p id -> making q id) ->
  mutual s' (<[Z.to_nat cur := q]> l).
Proof.
  intros [M1 M2 (c & Hc & H0 & Hf0 & H1 & H2 & Hb) M4 M5] Hp Hq Hout Hv Hc0 Hf0' Hco Hfi Hboot Hpu Hqu Hqm Hmk.
  pose proof (get_in_range _ _ _ Hp) as Hr.
  constructor.
  - intros id x. rewrite get_insert_dec by done. case_decide as E; [intros [= <-]; by subst|apply M1].
  - intros id n g v. rewrite get_insert_dec by done. case_decide as E; [intros [= ->]; by eapply Hv|].
    intros Hx. apply Hout in Hx; [done|congruence].
  - exists c. rewrite !(total_insert _ _ _ p) by done. split_and!; try (done || lia).
    intros x. rewrite get_insert_dec by done. case_decide as E; [intros [= <-]; apply Hboot, Hb; by rewrite <- E|apply Hb].
  - intros b id Hb0 Hid. rewrite get_insert_dec in Hid by done. case_decide as Ei; [by injection Hid|].
    rewrite get_insert_dec in Hb0 by done. case_decide as E; [|by apply M4].
    injection Hb0 as <-. apply Hmk, M4; [by rewrite <- E|done].
  - intros ph f id todo made t Hb0. rewrite get_insert_dec in Hb0 by done. case_decide as E; [by injection Hb0 as ->|].
    apply M5 in Hb0. rewrite get_insert_dec by done. case_decide as Ei; [|done]. subst. by rewrite Hb0 in Hp; injection Hp.
Qed.

Definition good (w : Machine) : Prop := base w /\ mutual (statics w) (pcs w).

(** The current thread moves from [p] to [q], locks and statics with it. *)
Lemma good_moves w l s p q :
  good w -> get (pcs w) (current (sch w)) = Some p -> p <> IdleMain -> l = locks_at q -> guard_ok q ->
  expected (current (sch w)) q -> (forall n g v, q = LockRead n g v -> v = COUNTER s) ->
  0 <= COUNTER s -> 0 <= FINISHED s ->
  COUNTER s + owed q = COUNTER (statics w) + owed p -> FINISHED s + unfinished q = FINISHED (statics w) + unfinished p ->
  (forall c, boot_at c p -> boot_at c q) ->
  p <> Unmade -> q <> Unmade -> inside_make q = false -> (forall id, making p id -> making q id) ->
  exists w', goto (mkMachine (sch w) l s (pcs w) (saved w)) q = Done w' /\ good w' /\ sch w' = sch w /\
    locks w' = l /\ get (pcs w') (current (sch w)) = Some q.
Proof.
  intros [B M] Hp Hni -> Hg He Hv Hc Hf H1 H2 Hb Hpu Hqu Hqm Hmk. pose proof (current_range w B) as Hr.
  rewrite goto_done by (cbn [sch pcs]; by rewrite (b_pcs _ B)). cbn [sch locks statics pcs saved].
  eexists. split; [reflexivity|]. cbn [sch locks statics pcs saved].
  split; [split|]; cbn [sch locks statics pcs saved].
  - by apply (base_moves w s p q).
  - apply (mutual_moves (statics w) s (pcs w) _ p q); try done. intros id x. by apply (b_outside _ B).
  - split_and!; try done. apply get_insert_eq. by rewrite (b_pcs _ B).
Qed.

Lemma mutual_bounds s l : mutual s l -> COUNTER s <= 8000 /\ FINISHED s <= 4.
Proof.
  intros [_ _ (c & Hc & _ & _ & H1 & H2 & _) _ _]. pose proof (total_nonneg owed l owed_nonneg).
  pose proof (total_nonneg unfinished l unfinished_nonneg). unfold LOCK_INCREMENTS, LOCK_WORKERS in *. lia.
Qed.

(** The boot context and one other thread move, from [p] and [x] to [q] and
    [y]: what both steps of a creation have in common. *)
Lemma mutual_pair s l id p q x y d :
  mutual s l -> get l 0 = Some p -> id <> 0 -> get l id = Some x -> expected 0 q -> expected id y ->
  (forall n g v, q <> LockRead n g v /\ y <> LockRead n g v) ->
  (forall c, 0 <= c <= LOCK_WORKERS -> boot_at c p -> 0 <= c + d <= LOCK_WORKERS /\ boot_at (c + d) q) ->
  owed q + owed y = owed p + owed x + LOCK_INCREMENTS * d -> unfinished q + unfinished y = unfinished p + unfinished x + d ->
  (forall j, j <> id -> making p j -> making q j) -> (y = Unmade -> making q id) ->
  (forall ph f j todo made t, q = BootMake ph f j todo made t -> j = id /\ y = Unmade) -> q <> Unmade ->
  mutual s (<[Z.to_nat 0 := q]> (<[Z.to_nat id := y]> l)).
Proof.
  intros [M1 M2 (c & Hc & H0 & Hf0 & H1 & H2 & Hb) M4 M5] Hp Hne Hx Hq Hy Hrd Hat Ho Hu Hmk Hmi Hbm Hqu.
  pose proof (get_in_range _ _ _ Hp) as Hr0. pose proof (get_in_range _ _ _ Hx) as Hri.
  set (l1 := <[Z.to_nat id := y]> l).
  assert (Hp1 : get l1 0 = Some p) by (unfold l1; rewrite get_insert_ne by (try lia; congruence); done).
  assert (Hlen : 0 <= 0 < len l1) by (unfold l1; rewrite len_insert; lia).
  assert (Hget : forall j z, get (<[Z.to_nat 0 := q]> l1) j = Some z ->
            (j = 0 /\ z = q) \/ (j = id /\ z = y) \/ (j <> 0 /\ j <> id /\ get l j = Some z)).
  { intros j z. rewrite get_insert_dec by done. case_decide as E; [intros [= <-]; left; by split|].
    unfold l1. rewrite get_insert_dec by done. case_decide as E2; [intros [= <-]; right; left; by split|].
    intros Hz. right; right. split_and!; congruence. }
  constructor.
  - intros j z Hj. destruct (Hget j z Hj) as [[-> ->]|[[-> ->]|(_ & _ & Hz)]]; [done|done|by apply M1].
  - intros j n g v Hj. destruct (Hrd n g v) as [Hr1 Hr2].
    destruct (Hget j _ Hj) as [[_ E]|[[_ E]|(_ & _ & Hz)]]; [congruence|congruence|by apply (M2 j n g)].
  - destruct (Hat c Hc (Hb _ Hp)) as [Hcd Hbq].
    exists (c + d). rewrite !(total_insert _ l1 0 _ _ Hp1). unfold l1. rewrite !(total_insert _ l id _ _ Hx).
    split_and!; try (done || lia). intros z Hz. rewrite get_insert_eq in Hz by done. by injection Hz as <-.
  - intros b j Hb0 Hj. rewrite get_insert_eq in Hb0 by done. injection Hb0 as <-.
    destruct (Hget j _ Hj) as [[_ E]|[[-> E]|(_ & Hji & Hz)]]; [congruence|by apply Hmi|].
    apply Hmk; [done|by apply M4].
  - intros ph f j todo made t Hb0. rewrite get_insert_eq in Hb0 by done. injection Hb0 as Hb0.
    destruct (Hbm _ _ _ _ _ _ Hb0) as [-> ->]. rewrite get_insert_ne by (try lia; congruence).
    unfold l1. apply get_insert_eq. lia.
Qed.

(** The boot context has one more worker queued. *)
Lemma mutual_registers s l id f todo made t :
  mutual s l -> get l 0 = Some (BootCreate MutualExclusion (f :: todo) made t) -> id <> 0 -> get l id = Some Gone ->
  mutual s (<[Z.to_nat 0 := BootMake MutualExclusion f id todo made t]> (<[Z.to_nat id := Unmade]> l)).
Proof.
  intros M Hp Hne Hid. destruct (mu_expected _ _ M _ _ Hp) as (_ & _ & Htodo). cbn [length replicate] in Htodo.
  injection Htodo as -> Htodo.
  apply (mutual_pair s l id _ _ Gone Unmade 0 M Hp Hne Hid); try done; cbn [owed unfinished boot_at]; try lia.
  - intros c Hc. rewrite len_cons. pose proof (len_nonneg todo). lia.
  - intros ph f j todo' made' t' E. by injection E.
Qed.

(** And makes it ready to run. *)
Lemma mutual_creates s l id f todo made t :
  mutual s l -> get l 0 = Some (BootMake MutualExclusion f id todo made t) ->
  id <> 0 /\ get l id = Some Unmade /\
  mutual s (<[Z.to_nat 0 := BootCreate MutualExclusion todo (made ++ [id]) t]> (<[Z.to_nat id := entry_of f id]> l)).
Proof.
  intros M Hp. destruct (mu_expected _ _ M _ _ Hp) as (_ & _ & -> & Htodo). pose proof (mu_make _ _ M _ _ _ _ _ _ Hp) as Hid.
  assert (Hne : id <> 0) by (intros ->; by rewrite Hp in Hid). split_and!; try done.
  apply (mutual_pair s l id _ _ Unmade (entry_of lock_worker id) 1 M Hp Hne Hid); try done.
  - intros c Hc. cbn [boot_at]. pose proof (len_nonneg todo). lia.
Qed.

Lemma mutual_finished s l : mutual s l -> (exists ph spins made t, get l 0 = Some (BootPoll ph spins made t)) ->
  LOCK_WORKERS <= FINISHED s -> COUNTER s = LOCK_WORKERS * LOCK_INCREMENTS.
Proof.
  intros [M1 _ (c & Hc & _ & _ & H1 & H2 & Hb) _ _] (ph & sp & md & t & Hp) Hf.
  pose proof (total_nonneg owed l owed_nonneg). pose proof (total_nonneg unfinished l unfinished_nonneg).
  destruct (Hb _ Hp) as [-> _].
  assert (Hle : total owed l <= LOCK_INCREMENTS * total unfinished l).
  { apply total_le. intros p [i Hi]%list_elem_of_lookup.
    assert (Hg : get l (Z.of_nat i) = Some p) by (apply get_some; rewrite Nat2Z.id; split; [lia|done]).
    pose proof (M1 _ _ Hg) as He. destruct p; cbn in *; unfold LOCK_INCREMENTS in *; lia. }
  unfold LOCK_WORKERS, LOCK_INCREMENTS in *. lia.
Qed.

(** *** The boot context *)
Lemma poll_good w n ph spins made t :
  good w -> room n (sch w) -> get (pcs w) (current (sch w)) = Some (BootPoll ph spins made t) ->
  exists w', run_poll w ph spins made t = Done w' /\ good w' /\ room n (sch w').
Proof.
  intros [B M] Hr Hp. pose proof (b_locks _ B _ Hp) as Hl. cbn [locks_at holds] in Hl.
  destruct (mu_expected _ _ M _ _ Hp) as [Hcur ->]. pose proof (mu_count _ _ M) as (c & _ & Hc0 & Hf0 & _ & _ & Hb).
  rewrite Hcur in Hp. destruct (Hb _ Hp) as [_ Hsp]. rewrite <- Hcur in Hp.
  assert (Hgo : forall q, q <> IdleMain -> holds q = None -> guard_in q = None -> owed q = 0 -> unfinished q = 0 ->
            expected (current (sch w)) q -> (forall n g v, q = LockRead n g v -> v = COUNTER (statics w)) ->
            (forall c, boot_at c (BootPoll MutualExclusion spins made t) -> boot_at c q) ->
            q <> Unmade -> inside_make q = false ->
            exists w', goto w q = Done w' /\ good w' /\ room n (sch w')).
  { intros q _ Hh Hg Ho Hu He Hv Hbq Hqu Hqm.
    destruct (good_moves w free_locks (statics w) _ q (conj B M) Hp) as (w' & E & Hw & Es & _); try done.
    - unfold locks_at. by rewrite Hh.
    - unfold guard_ok. by rewrite Hh.
    - by rewrite Ho.
    - by rewrite Hu.
    - exists w'. rewrite Es. split_and!; try done. rewrite <- E. f_equal. destruct w. cbn in *. by rewrite Hl. }
  unfold run_poll. cbn [finished]. destruct (Z.leb_spec LOCK_WORKERS (FINISHED (statics w))) as [Hfin|].
  - cbn [verdict]. rewrite Hl, acquire_free. cbn [exec_bind].
    rewrite (mutual_finished _ _ M); [|rewrite Hcur in Hp; eauto 6|done].
    rewrite drop_taken. change (mul64 LOCK_WORKERS LOCK_INCREMENTS) with (Done (LOCK_WORKERS * LOCK_INCREMENTS)).
    cbn [exec_bind]. rewrite Z.eqb_refl. cbn [negb].
    replace (with_locks w free_locks) with w by (destruct w; cbn in *; by rewrite Hl).
    by apply (Hgo (BootDone (Ok tt))).
  - destruct (Z.leb_spec WAIT_BUDGET spins).
    + apply Hgo; try done. cbn. split; [done|]. by right.
    + rewrite add64_done by (unfold WAIT_BUDGET in *; ulia). cbn [exec_bind]. apply Hgo; try done.
      cbn [boot_at]. intros c' [-> _]. split; [done|lia].
Qed.

Lemma create_good w n ph f todo made t :
  good w -> room n (sch w) -> get (pcs w) (current (sch w)) = Some (BootCreate ph (f :: todo) made t) ->
  exists w', run_create w ph f todo made t = Done w' /\ good w' /\ room n (sch w').
Proof.
  intros [B M] Hr Hp. destruct (mu_expected _ _ M _ _ Hp) as (Hcur & -> & Htodo). cbn [length replicate] in Htodo.
  destruct (create_base w MutualExclusion f todo made t _ B Hp) as (w' & q & l & E & B' & Hn & Hc & Es & Ep & Hcase); try done.
  exists w'. split; [exact E|]. unfold counters in Hn. injection Hn as Hn1 Hn2. unfold room in *. rewrite Hn1, Hn2.
  split; [|done]. split; [exact B'|]. rewrite Es, Ep. destruct Hcase as [[-> ->]|(id & Hne & Hid & -> & ->)].
  - pose proof (mu_count _ _ M) as (c & _ & Hc0 & Hf0 & _). injection Htodo as -> Htodo.
    apply (mutual_moves (statics w) (statics w) (pcs w) _ (BootCreate MutualExclusion (lock_worker :: todo) made t)); try done.
    + split; [done|]. by left.
    + intros j x. by apply (b_outside _ B).
  - rewrite Hcur in *. by apply mutual_registers.
Qed.

Lemma make_good w n granted ph f id todo made t :
  good w -> room n (sch w) -> get (pcs w) (current (sch w)) = Some (BootMake ph f id todo made t) ->
  exists w', run_make w granted ph f id todo made t = Done w' /\ good w' /\ room n (sch w').
Proof.
  intros [B M] Hr Hp. destruct (mu_expected _ _ M _ _ Hp) as (Hcur & -> & -> & _). destruct granted.
  - pose proof Hp as Hp0. rewrite Hcur in Hp0.
    destruct (mutual_creates _ _ _ _ _ _ _ M Hp0) as (Hne & Hid & M').
    destruct (make_base w MutualExclusion lock_worker id todo made t B Hp Hid) as (w' & E & B' & Ex & Es & Ep).
    exists w'. split; [exact E|]. rewrite Ex. split; [|exact Hr]. split; [exact B'|]. rewrite Es, Ep, Hcur. exact M'.
  - pose proof (b_locks _ B _ Hp) as Hl. cbn [locks_at holds] in Hl. pose proof (mu_count _ _ M) as (c & _ & Hc0 & Hf0 & _).
    destruct (good_moves w (locks w) (statics w) _ (BootDone (Err (failure 1 (cannot_create lock_worker) 0)))
                (conj B M) Hp) as (w' & E & Hw' & Es & _); try done; [by split; [|left]|].
    exists w'. rewrite Es. split; [|done]. rewrite <- E. by destruct w.
Qed.

(** *** The workers *)
Lemma lock_worker_good w n left :
  good w -> room n (sch w) -> get (pcs w) (current (sch w)) = Some (LockLoop left) ->
  exists w', run_lock_worker w left = Done w' /\ good w' /\ room n (sch w').
Proof.
  intros Hw Hr Hp. pose proof Hw as [B M]. pose proof (b_locks _ B _ Hp) as Hl. cbn [locks_at holds] in Hl.
  pose proof (mu_count _ _ M) as (c & _ & Hc0 & Hf0 & _). destruct (mutual_bounds _ _ M) as [_ Hf4].
  pose proof (mu_expected _ _ M _ _ Hp) as He. destruct left as [|left]; cbn [run_lock_worker].
  - destruct (good_moves w (locks w) (set_finished (statics w) (FINISHED (statics w) + 1)) _ Leaving Hw Hp)
      as (w' & E & Hw' & Es & _); try done; cbn; try lia.
    exists w'. rewrite Es. split; [|done]. rewrite <- E. unfold wrapping_add. by rewrite Z.mod_small by lia.
  - rewrite Hl, acquire_free. cbn [exec_bind].
    destruct (good_moves w (mkLocks false 1 {[COUNTER_LOCK]}) (statics w) _ (LockHeld left (taken COUNTER_LOCK)) Hw Hp)
      as (w' & E & Hw' & Es & _); try done; cbn in *; try lia.
    exists w'. rewrite Es. by split_and!.
Qed.

Lemma lock_held_good w n granted p :
  good w -> room n (sch w) -> get (pcs w) (current (sch w)) = Some p -> holds p = Some COUNTER_LOCK ->
  exists w', run granted w = Done w' /\ good w' /\ room n (sch w').
Proof.
  intros Hw Hr Hp Hh. pose proof Hw as [B M]. pose proof (b_locks _ B _ Hp) as Hl. unfold locks_at in Hl. rewrite Hh in Hl.
  pose proof (mu_count _ _ M) as (c & _ & Hc0 & Hf0 & _). destruct (mutual_bounds _ _ M) as [Hc8 _].
  pose proof (mu_expected _ _ M _ _ Hp) as He. pose proof (b_guard _ B _ _ Hp) as Hg. unfold guard_ok in Hg. rewrite Hh in Hg.
  unfold run. rewrite (proj2 (index_done _ _ _) Hp). cbn [exec_bind].
  destruct p as [| | | | |left g|left g v|left g| | | | | | | | | | | | | | | | |]; try done; cbn [guard_in fmap option_fmap option_map] in Hg;
    injection Hg as ->; cbn [expected owed] in He.
  - destruct (good_moves w (locks w) (statics w) _ (LockRead left (taken COUNTER_LOCK) (COUNTER (statics w))) Hw Hp)
      as (w' & E & Hw' & Es & _); try done; [by intros ??? [= _ _ ->]|].
    exists w'. rewrite Es. split; [|done]. rewrite <- E. by destruct w.
  - rewrite (mu_read _ _ M _ _ _ _ Hp), add64_done by ulia. cbn [exec_bind].
    destruct (good_moves w (locks w) (set_counter (statics w) (COUNTER (statics w) + 1)) _
                (LockWritten left (taken COUNTER_LOCK)) Hw Hp) as (w' & E & Hw' & Es & _); try done; cbn in *; try lia.
    exists w'. rewrite Es. by split_and!.
  - destruct (good_moves w free_locks (statics w) _ (LockLoop left) Hw Hp) as (w' & E & Hw' & Es & _); try done.
    exists w'. rewrite Es. split; [|done]. rewrite <- E. unfold with_locks. by rewrite Hl, drop_taken.
Qed.

Lemma leaving_good w n :
  good w -> room (n + 1) (sch w) -> 0 <= n -> get (pcs w) (current (sch w)) = Some Leaving ->
  exists w', (let! w := goto w Gone in exit_irq w) = Done w' /\ good w' /\ room n (sch w').
Proof.
  intros Hw Hr Hn Hp. pose proof Hw as [B M]. pose proof (b_locks _ B _ Hp) as Hl. cbn [locks_at holds] in Hl.
  pose proof (mu_count _ _ M) as (c & _ & Hc0 & Hf0 & _).
  destruct (good_moves w (locks w) (statics w) _ Gone Hw Hp) as (w1 & E & [B1 M1] & Es & El & Eg); try done.
  replace (goto w Gone) with (Done w1) by (rewrite <- E; by destruct w). cbn [exec_bind].
  destruct (exit_base w1 n B1) as (w2 & E2 & B2 & Hr2 & Es2 & Ep2);
    [by rewrite Es|done|by rewrite El|by rewrite Es|].
  exists w2. split; [exact E2|]. split; [|exact Hr2]. split; [exact B2|]. by rewrite Es2, Ep2.
Qed.

(** *** One event *)
Lemma room_less n x : room (n + 1) x -> 0 <= n -> room n x.
Proof. unfold room. lia. Qed.

Lemma run_good w n granted :
  good w -> room (n + 1) (sch w) -> 0 <= n -> lost w = false ->
  exists w', run granted w = Done w' /\ good w' /\ room n (sch w').
Proof.
  intros Hw Hr Hn Hlost. pose proof Hw as [B M]. destruct (current_pc w B) as [p Hp]. pose proof (room_less n _ Hr Hn) as Hr'.
  pose proof (mu_expected _ _ M _ _ Hp) as He. unfold lost in Hlost. rewrite Hp in Hlost.
  destruct (decide (holds p = Some COUNTER_LOCK)) as [Hh|Hh]; [by apply (lock_held_good w n granted p)|].
  unfold run. rewrite (proj2 (index_done _ _ _) Hp). cbn [exec_bind].
  destruct p as [| | | |left|left g|left g v|left g| | | | | | | | | | | | | |ph [|f todo] made t|ph f id todo made t|ph spins made t|r];
    try done; try (by exists w).
  - by apply leaving_good.
  - by apply lock_worker_good.
  - destruct He as (Hcur & -> & _). pose proof (b_locks _ B _ Hp) as Hl. cbn [locks_at holds] in Hl.
    pose proof (mu_count _ _ M) as (c & _ & Hc0 & Hf0 & _).
    destruct (good_moves w (locks w) (statics w) _ (BootPoll MutualExclusion 0 made t) Hw Hp) as (w' & E & Hw' & Es & _); try done.
    + intros c'. cbn [boot_at]. change (len []) with 0. unfold WAIT_BUDGET. lia.
    + exists w'. rewrite Es. split; [|done]. rewrite <- E. by destruct w.
  - by apply create_good.
  - by apply make_good.
  - by apply poll_good.
Qed.

Lemma react_good w e n :
  good w -> room (n + 1) (sch w) -> 0 <= n -> lost w = false ->
  exists w', react w e = Done w' /\ good w' /\ room n (sch w').
Proof.
  intros Hw Hr Hn Hlost. destruct e; cbn [react]; [by apply run_good|by apply run_good|]. pose proof Hw as [B M].
  destruct (clock_base w n B Hr Hn) as (w1 & E & B1 & Hr1 & _ & Es & Ep).
  exists w1. split; [done|]. split; [|done]. split; [done|]. by rewrite Es, Ep.
Qed.

Lemma play_good es : forall w, good w -> room (len es) (sch w) -> exists w', play es w = Done w' /\ good w'.
Proof.
  induction es as [|e es IH]; intros w Hw Hr; cbn [play]; destruct (lost w) eqn:Hl; try (by exists w).
  rewrite len_cons, Z.add_comm in Hr. pose proof (len_nonneg es) as Hn.
  destruct (react_good w e (len es) Hw Hr Hn Hl) as (w1 & -> & Hw1 & Hr1). cbn [exec_bind]. by apply IH.
Qed.

(** ** Where a step starts

    Nothing runs but the boot context; threads of earlier steps may still be
    on their way out. *)
Record calm (w : Machine) : Prop := mkCalm {
  ca_inv : sched_inv (sch w);
  ca_lens : len (pcs w) = MAX_THREADS /\ len (saved w) = MAX_THREADS;
  ca_flags : forall id b, get (saved w) id = Some b -> b = true;
  ca_current : current (sch w) = 0;
  ca_idle : idle (sch w) <> NO_THREAD /\ get (pcs w) (idle (sch w)) = Some IdleMain;
  ca_dead : forall id, get (Sched.states (sch w)) id = Some Unused \/ get (Sched.states (sch w)) id = Some Exited ->
    get (pcs w) id = Some Gone;
  ca_locks : locks w = free_locks;
  ca_boot : exists r, get (pcs w) 0 = Some (BootDone r);
  ca_others : forall id p, id <> 0 -> get (pcs w) id = Some p -> p = Gone \/ p = IdleMain \/ p = Leaving
}.

Lemma calm_base w : calm w -> base w.
Proof.
  intros [C1 [C2 C2'] C3 C4 C5 C6 C7 [r C8] C9]. constructor; try done.
  - rewrite C4. discriminate.
  - rewrite C4. intros p Hp. rewrite C8 in Hp. by injection Hp as <-.
  - rewrite C4. intros id p Hne Hp. by destruct (C9 id p Hne Hp) as [->|[->| ->]].
  - intros id p Hp. destruct (decide (id = 0)) as [->|Hne]; [rewrite C8 in Hp; by injection Hp as <-|].
    by destruct (C9 id p Hne Hp) as [->|[->| ->]].
Qed.

Lemma calm_total w f x :
  calm w -> (forall r, f (BootDone r) = 0) -> f Gone = 0 -> f IdleMain = 0 -> f Leaving = 0 -> f x = 0 ->
  total f (<[Z.to_nat 0 := x]> (pcs w)) = 0.
Proof.
  intros [_ _ _ _ _ _ _ [r C8] C9] H1 H2 H3 H4 H5. rewrite (total_insert f _ 0 _ _ C8), H1, H5.
  enough (total f (pcs w) = 0) by lia.
  assert (Hz : forall p, p ∈ pcs w -> f p = 0).
  { intros p [i Hi]%list_elem_of_lookup.
    assert (Hg : get (pcs w) (Z.of_nat i) = Some p) by (apply get_some; rewrite Nat2Z.id; split; [lia|done]).
    destruct (decide (Z.of_nat i = 0)) as [E|Hne].
    - rewrite E, C8 in Hg. by injection Hg as <-.
    - by destruct (C9 _ _ Hne Hg) as [->|[->| ->]]. }
  revert Hz. generalize (pcs w) as l. induction l as [|y l IH]; intros Hz; [done|].
  rewrite total_cons, (Hz y) by (by left). rewrite IH; [done|]. intros p Hp. apply Hz. by right.
Qed.

Lemma begin_good w :
  calm w -> exists w0, begin_step MutualExclusion w = Done w0 /\ good w0 /\ sch w0 = sch w.
Proof.
  intros C. pose proof (calm_base w C) as B. pose proof (current_range w B) as Hr. pose proof C as [_ _ _ C4 _ _ C7 [r C8] C9].
  unfold begin_step. rewrite goto_done by (cbn; by rewrite (b_pcs _ B)). cbn [with_statics sch locks statics pcs saved].
  eexists. split; [reflexivity|]. split; [|done]. split; cbn [sch locks statics pcs saved].
  - rewrite C7. apply (base_moves w (reset MutualExclusion (statics w)) (BootDone r)
      (BootCreate MutualExclusion (workers_of MutualExclusion) [] (ticks (sch w))) B); [by rewrite C4|done|done].
  - rewrite C4. rewrite C4 in Hr.
    constructor.
    + intros id p. rewrite get_insert_dec by (by rewrite (b_pcs _ B)). case_decide as E; [intros [= <-]; by subst|].
      intros Hp. by destruct (C9 id p ltac:(congruence) Hp) as [->|[->| ->]].
    + intros id n g v. rewrite get_insert_dec by (by rewrite (b_pcs _ B)). case_decide as E; [done|].
      intros Hp. by destruct (C9 id _ ltac:(congruence) Hp) as [?|[?|?]].
    + exists 0. rewrite !(calm_total w) by done. cbn. split_and!; try done.
      intros p. rewrite get_insert_eq by (by rewrite (b_pcs _ B)). intros [= <-]. reflexivity.
    + intros b id _. rewrite get_insert_dec by (by rewrite (b_pcs _ B)). case_decide as E; [done|].
      intros Hp. by destruct (C9 id _ ltac:(congruence) Hp) as [?|[?|?]].
    + intros ph f id todo made t. by rewrite get_insert_eq by (by rewrite (b_pcs _ B)).
Qed.

(** ** Claims *)

(** The machine as [run] finds it: the boot context and the idle thread. *)
Definition check_sched : Scheduler :=
  match register_idle_any boot_only with Done (x, _) => x | Panic => boot_only end.
Definition check_machine : Machine :=
  mkMachine check_sched free_locks (mkStatics 0 (replicate 30 0) 0 false 0 0 0 0)
    ([BootDone (Ok tt); IdleMain] ++ replicate 14 Gone) (replicate 16 true).

Lemma check_machine_calm : calm check_machine.
Proof.
  assert (Hpc : forall id p, get (pcs check_machine) id = Some p ->
            (id = 0 /\ p = BootDone (Ok tt)) \/ (id = 1 /\ p = IdleMain) \/ (2 <= id /\ p = Gone)).
  { intros id p Hp. pose proof (get_in_range _ _ _ Hp) as Hr. apply get_some in Hp as [_ Hp].
    change (len (pcs check_machine)) with 16 in Hr.
    destruct (decide (id = 0)) as [->|]; [left; by injection Hp|].
    destruct (decide (id = 1)) as [->|]; [right; left; by injection Hp|]. right; right. split; [lia|].
    cbn [pcs check_machine] in Hp. rewrite lookup_app_r in Hp by (cbn; lia). by apply lookup_replicate in Hp as [-> _]. }
  constructor; try done.
  - apply (reachable_counters (0 + 1 + 1)); [|ulia].
    apply (reach_call (0 + 1) boot_only CRegisterIdleAny); [|done|reflexivity].
    apply (reach_call 0 new (CRegisterBoot 0)); [apply reach_new|by split|reflexivity].
  - intros id b [_ Hb]%get_some. by apply lookup_replicate in Hb as [-> _].
  - intros id Hid. assert (Hr : 0 <= id < 16).
    { destruct Hid as [H|H]; apply get_in_range in H; exact H. }
    destruct (get_lt_some (pcs check_machine) id) as [p Hp]; [exact Hr|]. rewrite Hp. f_equal.
    destruct (Hpc id p Hp) as [[-> ->]|[[-> ->]|[_ ->]]]; [|by vm_compute in Hid; destruct Hid|done].
    by vm_compute in Hid; destruct Hid.
  - by exists (Ok tt).
  - intros id p Hne Hp. destruct (Hpc id p Hp) as [[? _]|[[_ ->]|[_ ->]]]; [done|auto|auto].
Qed.

(** C9 Step 1 under every schedule, up to a switch to a thread that has no
    stack.  From any machine in which only the boot context is at work,
    whatever the clock does, whether or not the frame allocator has a stack for
    each worker, and for any number of steps: nothing panics and no lock is
    waited for; the counter is exactly the number of increments the workers
    made so far have completed; a lock is held only by the running thread and
    only with interrupts off; and when the boot context concludes, it has found
    the counter exact, or could not create a worker, or ran out of time: a lost
    update is not reported, because there is none.  The run ends early only
    when the scheduler chooses a thread that was queued and has no stack, and
    then the boot context is inside [thread::create] for that thread or has
    just failed to give it a stack. *)
Theorem mutual_exclusion_check w es :
  calm w -> room (len es) (sch w) ->
  exists w0 w', begin_step MutualExclusion w = Done w0 /\ play es w0 = Done w' /\
    (exists made, 0 <= made <= LOCK_WORKERS /\
       COUNTER (statics w') = LOCK_INCREMENTS * made - total owed (pcs w') /\ COUNTER (statics w') <= 8000) /\
    (forall id p a, get (pcs w') id = Some p -> holds p = Some a ->
       id = current (sch w') /\ locks w' = mkLocks false 1 {[a]}) /\
    match result_of w' with
    | Some (Ok _) | None => True
    | Some (Err f) => what f = cannot_create lock_worker \/ what f = not_finished MutualExclusion
    end /\
    (lost w' = true -> exists boot, get (pcs w') 0 = Some boot /\ making boot (current (sch w'))).
Proof.
  intros Hc Hr. destruct (begin_good w Hc) as (w0 & E0 & Hw0 & Es). exists w0. rewrite <- Es in Hr.
  destruct (play_good es w0 Hw0 Hr) as (w' & E & [B M]). exists w'. split; [exact E0|]. split; [exact E|].
  split_and!.
  - destruct (mutual_bounds _ _ M) as [H8 _]. destruct (mu_count _ _ M) as (c & Hc0 & _ & _ & H1 & _).
    exists c. split; [done|]. split; [lia|done].
  - intros id p a Hp Hh. destruct (decide (id = current (sch w'))) as [->|Hne].
    + split; [done|]. rewrite (b_locks _ B _ Hp). unfold locks_at. by rewrite Hh.
    + by rewrite (b_outside _ B id p Hne Hp) in Hh.
  - unfold result_of. destruct (get (pcs w') 0) as [p|] eqn:Ep; [|done]. destruct p; try done.
    destruct (mu_expected _ _ M _ _ Ep) as [_ Hf]. by destruct r.
  - unfold lost. destruct (get (pcs w') (current (sch w'))) as [[]|] eqn:Ep; try done. intros _.
    destruct (get_lt_some (pcs w') 0) as [boot Hb]; [rewrite (b_pcs _ B); by vm_compute|].
    exists boot. split; [done|]. by apply (mu_unmade _ _ M).
Qed.

(** Schedules to run the machine on. *)
Definition runs (n : nat) : list event := replicate n Run.
Fixpoint times (n : nat) (l : list event) : list event := match n with O => [] | S n => l ++ times n l end.
Definition outcome (p : phase) (es : list event) : option (Result unit Failure) :=
  match begin_step p check_machine with
  | Done w => match play es w with Done w => result_of w | Panic => None end
  | Panic => None
  end.

Lemma mutual_exclusion_check_witness :
  exists w0 w', begin_step MutualExclusion check_machine = Done w0 /\
    play (runs 9 ++ times 60 (Tick :: runs 7)) w0 = Done w' /\ lost w' = false /\ COUNTER (statics w') = 100 /\
    COUNTER (statics w') <= 8000.
Proof.
  destruct (mutual_exclusion_check check_machine (runs 9 ++ times 60 (Tick :: runs 7)) check_machine_calm)
    as (w0 & w' & E0 & E & (c & _ & _ & H8) & _).
  - vm_compute. repeat split; discriminate.
  - exists w0, w'. split; [exact E0|]. split; [exact E|]. vm_compute in E0. injection E0 as <-.
    vm_compute in E. injection E as <-. split; [reflexivity|]. split; [reflexivity|exact H8].
Defined.

(** A tick inside [thread::create], or one after a creation that got no stack,
    chooses a thread that cannot run. *)
Example creation_window_lost :
  (let! w := begin_step MutualExclusion check_machine in
   let! w := play [Run; Tick] w in Done (lost w, current (sch w), result_of w)) = Done (true, 2, None) /\
  (let! w := begin_step MutualExclusion check_machine in
   let! w := play [Run; Refused; Tick] w in Done (lost w, current (sch w), result_of w)) =
    Done (true, 2, Some (Err (failure 1 (cannot_create lock_worker) 0))).
Proof. vm_compute. split; reflexivity. Qed.

(** The verdicts of steps 2 and 4 depend on where the clock strikes.  When
    every tick finds the boot context waiting, step 2 records the strict
    rotation it expects and step 4 sees time pass.  But a tick that separates a
    worker's entry from its [yield_now], or one that lets the first worker run
    before the others exist, makes step 2 report a wrong order; and a tick that
    finds the waiting thread before it has read the clock makes step 4 report
    that no time passed: a correct kernel can fail its own check. *)
Example self_check_depends_on_the_clock :
  outcome RoundRobin (runs 7 ++ times 10 (Tick :: runs 15) ++ Tick :: runs 7) = Some (Ok tt) /\
  outcome RoundRobin (runs 7 ++ Tick :: runs 4 ++ times 12 (Tick :: runs 16) ++ times 40 (Tick :: runs 2)) =
    Some (Err (failure 2 WrongOrder 0x303)) /\
  outcome RoundRobin (runs 2 ++ Tick :: runs 10 ++ times 12 (Tick :: runs 15) ++ times 40 (Tick :: runs 2)) =
    Some (Err (failure 2 WrongOrder 0x102)) /\
  outcome Preemption (runs 5 ++ Tick :: runs 10 ++ Tick :: runs 5 ++ Tick :: runs 20 ++ Tick :: runs 2) = Some (Ok tt) /\
  outcome Preemption (runs 5 ++ [Tick; Tick] ++ runs 2 ++ Tick :: runs 20) = Some (Err (failure 4 NoTicks 0)).
Proof. vm_compute. split_and!; reflexivity. Qed.
