(* ===== verification/KMain.v ===== *)
(** * The kernel's main sequence (crates/kernel/src/main.rs)

    [kernel_main] composes the components: it brings up the serial port and the
    IDT, judges [BootInfo], switches to its own page tables, starts and checks
    the allocators, installs the interrupt stacks, GDT, TSS, IDT, controllers
    and scheduler, then opens interrupts, checks that the clock runs, makes the
    idle thread, runs the scheduling self-check and the user service, and
    reports one value through [finish].

    The state is that of [Threads] on the kernel's memory, with the IDT, the
    lock state, [EXIT_PORT] and the lines passed to the logger.  A step that
    calls [finish] ends the sequence: [Halt] carries the value reported and the
    state in which the processor stops.

    This file is the first part, which runs with interrupts off and is a plain
    function; [KRun] is the rest.  The theorem joins the components: either the
    kernel stops with a value that tells the cause, or it reaches the point
    where interrupts are enabled in a state from which the theorems about
    threads and the user service start. *)
From Stdlib Require Import ZArith Lia Bool String.
From stdpp Require Import base tactics option list numbers gmap sets fin_sets.
From S2P Require Import Prelude MemoryMap Sched Frame Heap Paging BootInfo PhysMem Ports Descriptors Interrupts Lock KMemory Threads UserInit MemCheck SelfCheck.

#[local] Open Scope Z_scope.

(** The lines of [main.rs], with the values they print. *)
Inductive Line : Type :=
| IdtInstalled
| KernelAlive
| BootInfoRejected (e : BootInfoError)
| BootInfoWord (offset word : Z)
| BootInfoHeader (version size magic : Z)
| MagicRepaired (times : Z)
| NoMemoryMap
| UnusualStride (stride : Z)
| MapSummary (entries stride version : Z)
| KernelRange (first last : Z)
| StackRange (first last : Z)
| NoRsdp
| RsdpAt (address : Z)
| MemoryInitFailed (e : MemoryError)
| TablesMapped (pages blocks mib : Z)
| TablesRoot (limit used root : Z)
| BootInfoStillReadable
| FramesReady (managed mib free : Z)
| HeapReady (first last kib frames : Z)
| MemoryCheckFailed (e : MemoryError)
| HeapChecked (bytes blocks : Z)
| NoIstStacks
| GdtFailed (e : string)
| GdtLoaded (cs ss tss ist1 ist2 : Z)
| NoFxsave
| PicReady (divisor hz : Z)
| SchedInitFailed (e : SchedError)
| SchedReady (threads hz : Z)
| ClockSilent
| ClockRuns (ticks decisions : Z)
| IstCanaryDestroyed
| ProbeNotReturned (e : FreeError)
| NoProbe
| FramesNotRestored (before after : Z)
| LocksHeld (n : Z)
| IdleFailed (e : CreateError)
| IdleCreated (id : Z)
| SchedCheckFailed (f : Failure)
| SchedChecked (ticks switches live : Z)
| UserInitFailed (e : User.InitError)
| ServiceMissing (live : Z) (cpl3 : bool)
| ServiceWithoutTicks
| Rsp0NotSet
| ServiceChecked (cs elapsed rsp0 : Z)
| InterruptsClosed
| AllChecked
| DebugExitDisabled
| ExitCode (code port value : Z)
| KernelPanic.

Record Main (D : Type) : Type := mkMain {
  sys : System Kernel D;
  idt : Idt.Idt;
  idtr : Idt.Idtr;
  flags : LockState;
  EXIT_PORT : Z;
  console : list (Logging.Level * Line)
}.
Arguments mkMain {D}.
Arguments sys {D}.
Arguments idt {D}.
Arguments idtr {D}.
Arguments flags {D}.
Arguments EXIT_PORT {D}.
Arguments console {D}.

(** Going on with a value, or the report of [finish] and the state it leaves. *)
Inductive flow (D A : Type) : Type :=
| Next (a : A)
| Halt (value : Z) (m : Main D).
Arguments Next {D A}.
Arguments Halt {D A}.

Definition flow_bind {D A B : Type} (r : exec (flow D A)) (k : A -> exec (flow D B)) : exec (flow D B) :=
  exec_bind r (fun r => match r with Next a => k a | Halt v m => Done (Halt v m) end).

Notation "'let>' x ':=' r 'in' k" := (flow_bind r (fun x => k))
  (at level 200, x pattern, r at level 100, k at level 200, right associativity).

Section Main.
  Context {D : Type} `{PortIO D}.

(** The addresses of the page table arena, the frame bitmap and [BootInfo]; the
    entry stubs and the address of the IDT; [idle_main] and the trampoline. *)
  Variables aa ba ia : Z.
  Variable stub : Z -> Z.
  Variables idt_address idle_main trampoline : Z.

Definition with_sys (m : Main D) (s : System Kernel D) : Main D :=
  mkMain s (idt m) (idtr m) (flags m) (EXIT_PORT m) (console m).
Definition with_kernel (m : Main D) (k : Kernel) : Main D := with_sys m (with_mem (sys m) k).
Definition with_flags (m : Main D) (l : LockState) : Main D :=
  mkMain (sys m) (idt m) (idtr m) l (EXIT_PORT m) (console m).
Definition say (m : Main D) (level : Logging.Level) (line : Line) : Main D :=
  mkMain (sys m) (idt m) (idtr m) (flags m) (EXIT_PORT m) (console m ++ [(level, line)]).
Definition kinfo (m : Main D) (line : Line) : Main D := say m Logging.Info line.
Definition kwarn (m : Main D) (line : Line) : Main D := say m Logging.Warn line.
Definition kerror (m : Main D) (line : Line) : Main D := say m Logging.Error line.

(** [finish]: interrupts stay off, since the guard lives until the halt. *)
Definition finish {A : Type} (m : Main D) (value : Z) : flow D A :=
  let (_, l) := critical (flags m) in
  let m := with_flags m l in
  let port := EXIT_PORT m in
  let m := (if port =? 0 then kinfo m DebugExitDisabled
            else
              let m := kinfo m (ExitCode (qemu_exit_code value) port value) in
              with_sys m (with_ports (sys m) (outb (ports (sys m)) (port mod 2 ^ 16) value))) in
  Halt value m.

(** [kerror!] followed by [finish]. *)
Definition fail {A : Type} (m : Main D) (line : Line) (value : Z) : exec (flow D A) :=
  Done (finish (kerror m line) value).

(** The panic handler. *)
Definition panic (m : Main D) : exec (flow D unit) := fail m KernelPanic EXIT_VALUE_KERNEL_FAULT.

(** [idt::install()]. *)
Definition install_idt (m : Main D) : exec (Main D) :=
  let! (t, r) := Idt.install stub idt_address (Gdt.cs (segments (sys m))) (idt m) in
  Done (mkMain (sys m) t r (flags m) (EXIT_PORT m) (console m)).

(** ** Before interrupts *)

(** Serial port, exit port and IDT. *)
Definition start (m : Main D) (b : BootInfo) : exec (Main D) :=
  let m := with_sys m (with_ports (sys m) (Serial.init (ports (sys m)))) in
  let m := mkMain (sys m) (idt m) (idtr m) (flags m) (bi_exit_port b) (console m) in
  let! m := install_idt m in
  Done (kinfo (kinfo m IdtInstalled) KernelAlive).

(** The four words printed when [BootInfo] is rejected. *)
Fixpoint dump_words (n : nat) (i : Z) (m : Main D) : exec (Main D) :=
  match n with
  | O => Done m
  | S n =>
      let! a := add64 ia (i * 8) in
      dump_words n (i + 1) (kerror m (BootInfoWord (i * 8) (read64 (phys (mem (sys m))) a)))
  end.

(** 1 to 4: the structure, the memory map, the ranges and the ACPI root. *)
Definition check_boot_info (m : Main D) (b : BootInfo) : exec (flow D (Main D)) :=
  match BootInfo.validate b with
  | Err e =>
      let! m := dump_words 4 0 (kerror m (BootInfoRejected e)) in
      Done (finish m EXIT_VALUE_KERNEL_FAILURE)
  | Ok _ =>
      let m := kinfo m (BootInfoHeader (bi_version b) (bi_size b) (magic b)) in
      let repairs := read64 (phys (mem (sys m))) (ia + 120) in
      let m := if negb (repairs =? 0) then kwarn m (MagicRepaired repairs) else m in
      if negb (has_memory_map b) then fail m NoMemoryMap EXIT_VALUE_KERNEL_FAILURE
      else
        let m := if negb (mmap_desc_size b =? 40) then kwarn m (UnusualStride (mmap_desc_size b)) else m in
        let m := kinfo m (MapSummary (mmap_len b) (mmap_desc_size b) (mmap_desc_ver b)) in
        let! kernel_end := add64 (kernel_base b) (kernel_size b) in
        let m := kinfo m (KernelRange (kernel_base b) kernel_end) in
        let! stack_start := sub64 (stack_top b) (stack_size b) in
        let m := kinfo m (StackRange stack_start (stack_top b)) in
        if rsdp b =? 0 then fail m NoRsdp EXIT_VALUE_KERNEL_FAILURE
        else Done (Next (kinfo m (RsdpAt (rsdp b))))
  end.

(** 5: the kernel's own page tables. *)
Definition install_tables (m : Main D) (b : BootInfo) : exec (flow D (PageTables * Main D)) :=
  let! (r, k) := install aa ia (mem (sys m)) b in
  let m := with_kernel m k in
  match r with
  | Err e => fail m (MemoryInitFailed e) EXIT_VALUE_KERNEL_MEMORY_FAILURE
  | Ok tables =>
      let m := kinfo m (TablesMapped (pt_pages tables) (blocks tables) (Z.shiftr (mapped_bytes tables) 20)) in
      let m := kinfo m (TablesRoot (pt_limit tables) (tables_used tables) (pml4_phys tables)) in
      Done (Next (tables, kinfo m BootInfoStillReadable))
  end.

(** 6: page frames and heap. *)
Definition start_allocators (m : Main D) (b : BootInfo) (tables : PageTables) : exec (flow D (Main D)) :=
  let! (r, k) := init_allocators aa ba ia (mem (sys m)) b (pt_limit tables) in
  let m := with_kernel m k in
  match r with
  | Err e => fail m (MemoryInitFailed e) EXIT_VALUE_KERNEL_MEMORY_FAILURE
  | Ok layout =>
      let managed := fs_managed (layout_frames layout) in
      let! bytes := mul64 managed 4096 in
      let m := kinfo m (FramesReady managed (bytes / (1024 * 1024)) (fs_free (layout_frames layout))) in
      let (base, n) := layout_heap layout in
      let! heap_end := add64 base n in
      Done (Next (kinfo m (HeapReady base heap_end (n / 1024) (n / 4096))))
  end.

(** 7: the memory self-check. *)
Definition check_memory (m : Main D) (b : BootInfo) : exec (flow D (Main D)) :=
  let! (r, k) := self_check aa ba ia (mem (sys m)) b in
  let m := with_kernel m k in
  match r with
  | Err e => fail m (MemoryCheckFailed e) EXIT_VALUE_KERNEL_MEMORY_FAILURE
  | Ok _ =>
      let stats := heap_stats (mem (sys m)) in
      Done (Next (kinfo m (HeapChecked (hs_bytes stats) (hs_blocks stats))))
  end.

Definition init_memory (m : Main D) (b : BootInfo) : exec (flow D (Main D)) :=
  let> (tables, m) := install_tables m b in
  let> m := start_allocators m b tables in
  check_memory m b.

(** 8: the interrupt stacks, the descriptor tables, the controllers and the
    scheduler. *)
Definition install_stacks (m : Main D) : exec (flow D (PhysRange * Main D)) :=
  let! (k, r) := alloc_frames (mem (sys m)) 2 in
  let m := with_kernel m k in
  match r with
  | None => fail m NoIstStacks EXIT_VALUE_KERNEL_SCHED_FAILURE
  | Some ist =>
      let! ist_df_top := add64 (range_start ist) 4096 in
      let! ist_nmi_top := add64 (range_start ist) 8192 in
      let memory := write64 (phys (mem (sys m))) (range_start ist) STACK_CANARY in
      let memory := write64 memory (range_start ist + 4096) STACK_CANARY in
      let m := with_kernel m (with_phys (mem (sys m)) memory) in
      let! (r, g) := Gdt.install (segments (sys m)) ist_df_top ist_nmi_top in
      let m := with_sys m (with_segments (sys m) g) in
      match r with
      | Err e => fail m (GdtFailed e) EXIT_VALUE_KERNEL_SCHED_FAILURE
      | Ok _ =>
          let! top1 := Gdt.ist_top g Gdt.IST_DOUBLE_FAULT in
          let! top2 := Gdt.ist_top g Gdt.IST_NMI in
          Done (Next (ist, kinfo m (GdtLoaded (Gdt.cs g) (Gdt.ss g) (Gdt.tss_address g) top1 top2)))
      end
  end.

Definition start_clock (m : Main D) : exec (flow D (Main D)) :=
  let! m := install_idt m in
  if negb (cr4_osfxsr (mem (sys m))) then fail m NoFxsave EXIT_VALUE_KERNEL_SCHED_FAILURE
  else
    let! (divisor, d) := Pic.init (ports (sys m)) in
    let m := kinfo (with_sys m (with_ports (sys m) d)) (PicReady divisor Pic.TIMER_HZ) in
    let! (x, r) := register_boot (sched (sys m)) 0 in
    let m := with_sys m (with_sched (sys m) x) in
    match r with
    | Err e => fail m (SchedInitFailed e) EXIT_VALUE_KERNEL_SCHED_FAILURE
    | Ok _ => Done (Next (kinfo m (SchedReady 1 Pic.TIMER_HZ)))
    end.

Definition init_interrupts (m : Main D) : exec (flow D (PhysRange * Main D)) :=
  let> (ist, m) := install_stacks m in
  let> m := start_clock m in
  Done (Next (ist, m)).

(** [kernel_main] up to [enable_interrupts]. *)
Definition kernel_boot (m : Main D) (b : BootInfo) : exec (flow D (PhysRange * Main D)) :=
  let! m := start m b in
  let> m := check_boot_info m b in
  let> m := init_memory m b in
  init_interrupts m.

End Main.

(** ** What the memory steps leave *)
Lemma install_shape aa ia k b t k' :
  install aa ia k b = Done (Ok t, k') ->
  exists map arena, boot_info_memory_map (phys k) b = Done (Ok map) /\
    build aa (read_bytes (phys k) aa ARENA_BYTES) map M2 = Done (arena, Ok t) /\
    k' = write_cr3 (with_phys k (copy_to (phys k) aa arena)) (pml4_phys t).
Proof.
  unfold install. destruct (check_cpu_mode k); [|done]. case_match; [done|].
  destruct (boot_info_memory_map (phys k) b) as [[map|e]|]; cbn [exec_bind]; [|done..].
  destruct (build aa _ map M2) as [[arena [t'|e]]|] eqn:Eb; cbn [exec_bind]; [|done..].
  case_match; [|done]. case_match; [|done]. intros [= <- <-]. by exists map, arena.
Qed.

Lemma init_allocators_shape aa ba ia k b lim layout k' :
  mem_ok (phys k) -> init_allocators aa ba ia k b lim = Done (Ok layout, k') ->
  exists n a h arena, len arena = HEAP_SIZE /\ heap_region k' = layout_heap layout /\
    k' = with_heap (with_phys (with_allocator (with_free_after_init k n) a)
                      (copy_to (phys k) (fst (layout_heap layout)) arena)) h.
Proof.
  intros Hm. unfold init_allocators.
  destruct (boot_info_memory_map (phys k) b) as [[map|e]|]; cbn [exec_bind]; [|done..].
  destruct (Frame.init _ _ _ _) as [[a|e]|]; cbn [exec_bind]; [|done..].
  unfold alloc_frames. cbn [FRAME_ALLOCATOR with_allocator].
  destruct (alloc_contiguous a (HEAP_SIZE / PAGE_SIZE)) as [[a' [region|]]|]; cbn [exec_bind]; [|done..].
  unfold heap_init. cbn [phys with_allocator with_free_after_init].
  pose proof (init_spec (read_bytes (phys k) (range_start region) HEAP_SIZE) (mem_ok_read _ _ _ Hm)) as Hi.
  rewrite len_read_bytes in Hi by done. specialize (Hi ltac:(discriminate)).
  change (round_down HEAP_SIZE <? MIN_BLOCK) with false in Hi. destruct Hi as (h & arena & -> & _ & Hl).
  cbn [exec_bind]. destruct (frames_free _) as [n|]; cbn [exec_bind]; [|done]. intros [= <- <-].
  eexists _, a', _, arena. split; [exact Hl|]. split; reflexivity.
Qed.

(** Bytes of whole pages are apart from whatever each of the pages is apart from. *)
Lemma pages_avoid r a n x :
  0 <= range_start r -> (PAGE_SIZE | range_start r) -> (PAGE_SIZE | range_len r) ->
  (forall p, p ∈ range_pages r -> p + PAGE_SIZE <= a \/ a + n <= p) ->
  range_start r <= x < range_start r + range_len r -> ~ a <= x < a + n.
Proof.
  intros H0 [s Es] [c Ec] Hp Hx. pose proof (Z.div_mod (x - range_start r) PAGE_SIZE ltac:(done)) as Hd.
  pose proof (Z.mod_pos_bound (x - range_start r) PAGE_SIZE ltac:(done)) as Hm.
  set (q := (x - range_start r) / PAGE_SIZE) in *.
  assert (Hq : 0 <= q < c) by (unfold PAGE_SIZE in *; lia).
  destruct (Hp (range_start r + q * PAGE_SIZE)); [|unfold PAGE_SIZE in *; lia..].
  unfold range_pages, range_frames. apply list_elem_of_fmap. exists (Z.to_nat q).
  rewrite Ec, Z.div_mul by done. rewrite elem_of_seq, Z2Nat.id by lia. split; [done|lia].
Qed.

Lemma heap_ok_same k k' bs :
  heap_ok k bs -> KERNEL_HEAP k' = KERNEL_HEAP k ->
  same_on (heap_base (KERNEL_HEAP k)) (heap_len (KERNEL_HEAP k)) (phys k') (phys k) -> heap_ok k' bs.
Proof.
  intros Hok E Hs. unfold heap_ok, heap_arena in *. rewrite E. by rewrite (read_bytes_ext _ _ _ _ Hs).
Qed.

Section Boot.
  Context {D : Type} `{PortIO D}.
  Context (aa ba ia : Z) (stub : Z -> Z) (idt_address : Z).

(** The stack the boot loader made. *)
Definition boot_stack (b : BootInfo) : PhysRange := mkRange (stack_top b - stack_size b) (stack_size b).

(** The statics before [kernel_main] and while it has not started a thread. *)
Record untouched (port : Z) (m : Main D) : Prop := mkUntouched {
  un_sched : sched (sys m) = Sched.new;
  un_slots : SLOTS (sys m) = replicate 16 new_slot;
  un_ist : length (Gdt.ist (Gdt.tss (segments (sys m)))) = 7%nat;
  un_idt : len (idt m) = 256;
  un_flags : flags m = mkLocks false 0 ∅;
  un_port : EXIT_PORT m = port
}.

(** What the boot loader leaves: a [BootInfo] as [install] and
    [init_allocators] need it when it is accepted, the stack and the memory map
    apart from the page table arena, ranges that do not wrap around. *)
Record boot_input (m : Main D) (b : BootInfo) : Prop := mkBootInput {
  bo_fresh : untouched (EXIT_PORT m) m;
  bo_install : BootInfo.validate b = Ok tt -> install_input aa ia (mem (sys m)) b;
  bo_addresses : is_u64 aa /\ is_u64 ba /\ is_u64 ia /\ ia + 32 <= U64_MAX;
  bo_regions : forall map, boot_info_memory_map (phys (mem (sys m))) b = Done (Ok map) ->
    Forall Frame.page_aligned (region_list map) /\ ForallOrdPairs region_apart (region_list map);
  bo_bitmap : bytes_ok (FRAME_BITMAP (mem (sys m))) /\ len (FRAME_BITMAP (mem (sys m))) = FRAME_BITMAP_BYTES;
  bo_kernel : kernel_base b + kernel_size b <= U64_MAX;
  bo_stack : 0 < stack_size b /\ stack_size b + 8 <= stack_top b /\ stack_top b <= U64_MAX;
  bo_map_apart : mmap_ptr b + mmap_len b * mmap_desc_size b <= aa \/ aa + ARENA_BYTES <= mmap_ptr b;
  bo_stack_apart : apart (boot_stack b) (mkRange aa ARENA_BYTES);
  bo_user : is_u64 (user_vaddr b) /\ is_u64 (user_entry b) /\ 0 <= user_phys b /\ 0 <= user_size b /\
            user_vaddr b + user_size b <= U64_MAX /\ user_phys b + user_size b <= 2 ^ 52
}.

(** The kernel has stopped after the report of [v]: interrupts are off, [line]
    was logged, and the exit port, if there is one, was written once. *)
Definition stopped (port v : Z) (line : Line) (m : Main D) : Prop :=
  IF (flags m) = false /\ (Logging.Error, line) ∈ console m /\
  exists m0, mem (sys m) = mem (sys m0) /\
    ports (sys m) = (if port =? 0 then ports (sys m0) else outb (ports (sys m0)) (port mod 2 ^ 16) v).

Lemma finish_stopped {A : Type} (m : Main D) port v line :
  EXIT_PORT m = port -> (Logging.Error, line) ∈ console m ->
  exists m', finish (A := A) m v = Halt v m' /\ stopped port v line m'.
Proof.
  intros Hp Hl. unfold finish. destruct (critical (flags m)) as [g l] eqn:Ec.
  assert (Hif : IF l = false).
  { unfold critical, enter in Ec. injection Ec as _ <-. unfold interrupts_enabled. by destruct (IF (flags m)) eqn:E. }
  eexists. split; [reflexivity|]. unfold stopped. cbn [EXIT_PORT with_flags]. rewrite Hp.
  destruct (port =? 0); (split; [exact Hif|]; split; [cbn; apply elem_of_app; by left|]; exists m; done).
Qed.

(** [kerror!] and [finish]. *)
Lemma fail_stopped {A : Type} (m : Main D) port v line :
  EXIT_PORT m = port -> exists m', fail (A := A) m line v = Done (Halt v m') /\ stopped port v line m'.
Proof.
  intros Hp. destruct (finish_stopped (A := A) (kerror m line) port v line Hp) as (m' & E & Hs).
  - cbn. apply elem_of_app. right. by left.
  - exists m'. split; [|exact Hs]. unfold fail. by rewrite E.
Qed.

Lemma install_idt_done (m : Main D) :
  len (idt m) = 256 ->
  exists t r, install_idt stub idt_address m = Done (mkMain (sys m) t r (flags m) (EXIT_PORT m) (console m)) /\
    len t = 256 /\
    forall v, installed v = true -> get t v = Some (gate_for stub (Gdt.cs (segments (sys m))) v).
Proof.
  intros Hl. destruct (idt_install_eq stub idt_address (Gdt.cs (segments (sys m))) (idt m) Hl) as (t & E & Hl' & Hg).
  unfold install_idt. rewrite E. cbn [exec_bind]. eexists t, _. split; [reflexivity|]. split; [done|].
  intros v Hv. by rewrite Hg, Hv.
Qed.

Definition with_console (m : Main D) (c : list (Logging.Level * Line)) : Main D :=
  mkMain (sys m) (idt m) (idtr m) (flags m) (EXIT_PORT m) c.

(** *** Steps 1 to 4 *)
Lemma start_done (m : Main D) b :
  untouched (EXIT_PORT m) m ->
  exists m', start stub idt_address m b = Done m' /\ untouched (bi_exit_port b) m' /\ mem (sys m') = mem (sys m).
Proof.
  intros [U1 U2 U3 U4 U5 U6]. unfold start. cbv zeta.
  match goal with |- context [install_idt _ _ ?x] => destruct (install_idt_done x U4) as (t & r & -> & Ht & _) end.
  cbn [exec_bind]. eexists. split; [reflexivity|]. split; [|done]. constructor; try done.
Qed.

Lemma dump_words_done n : forall i (m : Main D),
  0 <= ia -> ia + (i + Z.of_nat n) * 8 <= U64_MAX ->
  exists c, dump_words ia n i m = Done (with_console m (console m ++ c)).
Proof.
  induction n as [|n IH]; intros i m H0 Hb; cbn [dump_words].
  - exists []. rewrite app_nil_r. by destruct m.
  - rewrite add64_done by lia. cbn [exec_bind].
    destruct (IH (i + 1) (kerror m (BootInfoWord (i * 8) (read64 (phys (mem (sys m))) (ia + i * 8))))) as [c E];
      [done|lia|].
    rewrite E. eexists (_ :: c). unfold with_console, kerror, say. cbn. by rewrite <- app_assoc.
Qed.

(** The reasons to reject [BootInfo]. *)
Definition rejects (b : BootInfo) (line : Line) : Prop :=
  match line with
  | BootInfoRejected e => BootInfo.validate b = Err e
  | NoMemoryMap => has_memory_map b = false
  | NoRsdp => rsdp b = 0
  | _ => False
  end.

Lemma check_boot_info_cases (m : Main D) b port :
  EXIT_PORT m = port -> is_u64 ia -> ia + 32 <= U64_MAX -> kernel_base b + kernel_size b <= U64_MAX ->
  stack_size b <= stack_top b ->
  (exists m' line, check_boot_info ia m b = Done (Halt EXIT_VALUE_KERNEL_FAILURE m') /\
     stopped port EXIT_VALUE_KERNEL_FAILURE line m' /\ rejects b line) \/
  (exists c, check_boot_info ia m b = Done (Next (with_console m c)) /\
     BootInfo.validate b = Ok tt /\ has_memory_map b = true /\ rsdp b <> 0).
Proof.
  intros Hp [Hi0 _] Hi Hk Hs. unfold check_boot_info. destruct (BootInfo.validate b) as [[]|e] eqn:Ev.
  2: { left. destruct (dump_words_done 4 0 (kerror m (BootInfoRejected e)) Hi0 ltac:(lia)) as [c ->]. cbn [exec_bind].
       match goal with |- context [finish ?x _] =>
         destruct (finish_stopped (A := Main D) x port EXIT_VALUE_KERNEL_FAILURE (BootInfoRejected e)) as (m' & E & Hst)
       end; [done| |].
       - cbn. rewrite !elem_of_app. left. right. by left.
       - rewrite E. by exists m', (BootInfoRejected e). }
  cbv zeta. destruct (has_memory_map b) eqn:Em; cbn [negb].
  2: { left. match goal with |- context [fail ?x _ _] =>
         destruct (fail_stopped (A := Main D) x port EXIT_VALUE_KERNEL_FAILURE NoMemoryMap) as (m' & -> & Hst) end.
       - by case_match.
       - by exists m', NoMemoryMap. }
  rewrite add64_done by done. cbn [exec_bind]. rewrite sub64_done by done. cbn [exec_bind].
  destruct (Z.eqb_spec (rsdp b) 0) as [Er|Er].
  - left. match goal with |- context [fail ?x _ _] =>
      destruct (fail_stopped (A := Main D) x port EXIT_VALUE_KERNEL_FAILURE NoRsdp) as (m' & -> & Hst) end.
    + by repeat case_match.
    + by exists m', NoRsdp.
  - right. match goal with |- context [Done (Next ?x) = _] => exists (console x) end.
    split; [|done]. unfold with_console. by repeat case_match.
Qed.

(** *** Steps 5 to 7 *)

(** The memory map is read the same from memory that differs elsewhere. *)
Lemma map_read_same m m' b :
  same_on (mmap_ptr b) (mmap_len b * mmap_desc_size b) m' m -> boot_info_memory_map m' b = boot_info_memory_map m b.
Proof.
  intros Hs. unfold boot_info_memory_map, buffer_len, checked_mul.
  destruct (mmap_desc_size b <? DESCRIPTOR_MIN_SIZE); [done|]. case_match; [|done].
  case_match; simplify_eq. by rewrite (read_bytes_ext _ _ _ _ Hs).
Qed.

(** The new tables, and what the allocators are then called with. *)
Lemma tables_installed k b t k' :
  install_input aa ia k b -> is_u64 aa -> is_u64 ba -> is_u64 ia ->
  bytes_ok (FRAME_BITMAP k) -> len (FRAME_BITMAP k) = FRAME_BITMAP_BYTES ->
  (forall map, boot_info_memory_map (phys k) b = Done (Ok map) ->
     Forall Frame.page_aligned (region_list map) /\ ForallOrdPairs region_apart (region_list map)) ->
  mmap_ptr b + mmap_len b * mmap_desc_size b <= aa \/ aa + ARENA_BYTES <= mmap_ptr b ->
  install aa ia k b = Done (Ok t, k') ->
  exists map, build_input aa (read_bytes (phys k) aa ARENA_BYTES) map M2 /\
    build aa (read_bytes (phys k) aa ARENA_BYTES) map M2 = Done (read_bytes (phys k') aa ARENA_BYTES, Ok t) /\
    cr3 k' = aa /\ cr4 k' = cr4 k /\ is_u64 (pt_limit t) /\ allocators_input aa ba ia k' b map.
Proof.
  intros [I1 I2 I3 _ _ _ _] Haa Hba Hia Hbt Hbl Hreg Hmap E.
  destruct (install_shape _ _ _ _ _ _ E) as (map & arena & Hp & Hbuild & ->).
  pose proof (install_build_input aa k b I1 I2 I3 map Hp) as Hin. exists map.
  destruct (build_ok_facts _ _ _ _ _ _ Hin Hbuild) as (_ & Hroot & _ & _ & Hlim & _ & _ & (top & Htop & Et) & Hent).
  pose proof (ea_bytes _ _ _ Hent) as Hok. pose proof (ea_len _ _ _ Hent) as Hl. rewrite len_read_bytes in Hl by done.
  cbn [phys write_cr3 with_phys cr3 cr4]. rewrite <- Hl, read_bytes_copy_to. rewrite Hl.
  split; [exact Hin|]. split; [exact Hbuild|]. split; [exact Hroot|]. split; [done|]. split.
  { destruct Htop as [(r & Hr & _ & Ee) _]. destruct Hin as (_ & _ & _ & Hm & _).
    pose proof (map_ok_regions_bounded map Hm) as Hbd. rewrite Forall_forall in Hbd. specialize (Hbd r Hr).
    cbn [M2 max_identity_bytes] in *. unfold end_of, MAX_IDENTITY_BYTES, PAGE_SIZE in *. ulia. }
  destruct (Hreg map Hp) as [Hal Hap]. constructor; try done.
  - by apply copy_to_ok.
  - cbn [phys write_cr3 with_phys]. rewrite <- Hp. apply map_read_same, copy_to_same_on. rewrite Hl. lia.
Qed.

(** Memory as the kernel runs on it: the tables of [build], the frames, the
    heap in pages of its own, and no page of the allocator in the kernel's own
    memory. *)
Record memory_up (b : BootInfo) (arena0 : list Z) (map : MemoryMap) (t : PageTables) (heap : PhysRange) (k : Kernel) :
    Prop := mkMemoryUp {
  mu_build : build aa arena0 map M2 = Done (read_bytes (phys k) aa ARENA_BYTES, Ok t);
  mu_cr3 : cr3 k = aa;
  mu_frames : kernel_frames_ok k;
  mu_pages : forall p start n, p ∈ kernel_lent k ∪ kernel_spare k -> In (start, n) (kernel_memory aa ba ia b) ->
    n = 0 \/ p + PAGE_SIZE <= start \/ start + n <= p;
  mu_heap : heap_ok k [(HEAP_SIZE, true)];
  mu_region : heap_region k = (range_start heap, HEAP_SIZE) /\ range_len heap = HEAP_SIZE /\
    (PAGE_SIZE | range_start heap);
  mu_heap_pages : list_to_set (range_pages heap) ⊆ kernel_lent k
}.

Lemma arena_in_kernel_memory b : In (aa, ARENA_BYTES) (kernel_memory aa ba ia b).
Proof. do 4 right. by left. Qed.

(** Writes to allocator pages do not reach the tables. *)
Lemma arena_kept b r k m :
  (forall p, p ∈ range_pages r -> p ∈ kernel_lent k ∪ kernel_spare k) ->
  (forall p start n, p ∈ kernel_lent k ∪ kernel_spare k -> In (start, n) (kernel_memory aa ba ia b) ->
     n = 0 \/ p + PAGE_SIZE <= start \/ start + n <= p) ->
  0 <= range_start r -> (PAGE_SIZE | range_start r) -> (PAGE_SIZE | range_len r) ->
  (forall x, x < range_start r \/ range_start r + range_len r <= x -> m x = phys k x) ->
  read_bytes m aa ARENA_BYTES = read_bytes (phys k) aa ARENA_BYTES.
Proof.
  intros Hin Hpages H0 H1 H2 Hm. apply read_bytes_ext. intros x Hx. apply Hm.
  destruct (decide (range_start r <= x < range_start r + range_len r)) as [Hr|]; [exfalso|lia].
  apply (pages_avoid r aa ARENA_BYTES x); [done..| |done|done].
  intros p Hp. destruct (Hpages p aa ARENA_BYTES (Hin p Hp) (arena_in_kernel_memory b)) as [E|]; [discriminate E|done].
Qed.

(** The allocators as [init_allocators] leaves them, before anything is taken
    but the heap. *)
Record allocators_fresh (b : BootInfo) (heap : PhysRange) (a : FrameAllocator) (k : Kernel) : Prop := mkFresh {
  af_alloc : FRAME_ALLOCATOR k = Some a;
  af_inv : frame_inv a;
  af_managed : managed_ok a;
  af_owned : records_owned aa ba ia a b;
  af_lent : kernel_lent k = list_to_set (range_pages heap);
  af_count : FREE_FRAMES_AFTER_INIT k = Frame.free_frames a + HEAP_SIZE / PAGE_SIZE
}.

Lemma allocators_started k b arena0 map t :
  allocators_input aa ba ia k b map -> is_u64 (pt_limit t) ->
  build aa arena0 map M2 = Done (read_bytes (phys k) aa ARENA_BYTES, Ok t) -> cr3 k = aa ->
  exists r k', init_allocators aa ba ia k b (pt_limit t) = Done (r, k') /\
    match r with
    | Err _ => True
    | Ok layout => exists heap a, memory_up b arena0 map t heap k' /\ allocators_fresh b heap a k' /\
        cr4 k' = cr4 k /\ layout_frames layout = mkFrameStats (frames a) (Frame.free_frames a) /\
        layout_heap layout = (range_start heap, HEAP_SIZE)
    end.
Proof.
  intros [Hm Hb (Haa & Hba & Hia) Hp Hal Hap [Hbt Hbl]] Hlim Hbuild Hcr.
  destruct (init_allocators_outcome aa ba ia k b map Hm Hb Haa Hba Hia Hp Hal Hap Hbt Hbl _ Hlim)
    as (r & k' & E & Hr). exists r, k'. split; [exact E|]. destruct r as [layout|e]; [|done].
  destruct Hr as (a & heap & Ea & Hinv & Hman & Hrec & Huse & Hlent & Hlen & Hreg & Hok & Hcnt & El).
  exists heap, a. destruct (init_allocators_shape aa ba ia k b _ layout k' Hm E) as (n & a1 & h & bytes & Hl & _ & Ek).
  assert (Hpages : forall p start n, p ∈ kernel_lent k' ∪ kernel_spare k' -> In (start, n) (kernel_memory aa ba ia b) ->
            n = 0 \/ p + PAGE_SIZE <= start \/ start + n <= p).
  { intros p start c. by apply (owned_pages_apart aa ba ia b map (pt_limit t) k' a). }
  assert (Hin : range_start heap ∈ range_pages heap).
  { unfold range_pages, range_frames. rewrite Hlen. change (Z.to_nat (HEAP_SIZE / PAGE_SIZE)) with 256%nat.
    apply list_elem_of_fmap. exists O. split; [lia|]. apply elem_of_seq. lia. }
  assert (Haddr : exists i, range_start heap = frame_addr a i /\ i ∈ pool a).
  { apply (elem_of_list_to_set (C := gset Z)) in Hin. rewrite <- Hlent in Hin. unfold kernel_lent in Hin.
    rewrite Ea in Hin. apply elem_addresses in Hin as (i & Ei & Hi). exists i. split; [done|set_solver]. }
  destruct Haddr as (i & Ei & Hi). destruct (Huse i Hi) as (Hdiv & Hlo & _). rewrite <- Ei in Hdiv, Hlo.
  cbn [managed_start config_new] in Hlo. unfold MIN_FREE_ADDR in Hlo.
  rewrite El in Ek |- *. cbn [layout_heap layout_frames fst] in *.
  assert (Hphys : phys k' = copy_to (phys k) (range_start heap) bytes) by (by rewrite Ek).
  split; [|split; [by constructor|split; [by rewrite Ek|done]]].
  constructor; try done.
  - rewrite Hbuild. do 2 f_equal. symmetry. rewrite Hphys.
    transitivity (read_bytes (phys (with_phys k' (phys k))) aa ARENA_BYTES); [|done].
    apply (arena_kept b heap); [|exact Hpages|lia|done|by rewrite Hlen; exists 256|].
    + intros p Hpp. apply elem_of_union_l. change (kernel_lent _) with (kernel_lent k'). rewrite Hlent.
      by apply elem_of_list_to_set.
    + intros x Hx. apply copy_to_out. rewrite Hl. rewrite Hlen in Hx. lia.
  - by rewrite Ek.
  - by exists a.
  - by rewrite Hlent.
Qed.

(** The memory self-check on it. *)
Lemma memory_checked b arena0 map t heap a k :
  memory_up b arena0 map t heap k -> allocators_fresh b heap a k ->
  exists r k', self_check aa ba ia k b = Done (r, k') /\
    match r with
    | Err e => e = KMemory.failure 6 NO_FREE_FRAME 0
    | Ok _ => memory_up b arena0 map t heap k' /\ kernel_lent k' = kernel_lent k /\ cr4 k' = cr4 k
    end.
Proof.
  intros [M1 M2' M3 M4 M5 (M6 & M6' & M6'') M7] [A1 A2 A3 A4 A5 A6].
  assert (Hbase : heap_base (KERNEL_HEAP k) = range_start heap) by (unfold heap_region in M6; by injection M6).
  assert (Hlen : heap_len (KERNEL_HEAP k) = HEAP_SIZE) by (unfold heap_region in M6; by injection M6).
  destruct (Z.lt_ge_cases (Frame.free_frames a) 2) as [H2|H2].
  { destruct (self_check_few aa ba ia k b a M5 Hlen A1 A2 H2) as [k' E]. by exists (Err (KMemory.failure 6 NO_FREE_FRAME 0)), k'. }
  destruct (self_check_ok aa ba ia k b a M5 Hlen A1 A2 A4 H2 A6) as (k1 & own & a' & E & Hsim & Hinv & Hs & Hp & Hf).
  exists (Ok tt), (with_allocator k1 a'). split; [exact E|].
  assert (El : kernel_lent (with_allocator k1 a') = kernel_lent k).
  { unfold kernel_lent. rewrite A1. cbn [FRAME_ALLOCATOR with_allocator]. by rewrite (addresses_same a a'), Hp, Hf. }
  assert (Esp : kernel_spare (with_allocator k1 a') = kernel_spare k).
  { unfold kernel_spare. rewrite A1. cbn [FRAME_ALLOCATOR with_allocator]. by rewrite (addresses_same a a'), Hf. }
  destruct Hsim as [Hok1 Hrest Hreg Hout _]. unfold base_of, size_of in Hout. rewrite Hbase, Hlen in Hout.
  split; [|split; [exact El|by rewrite Hrest]]. constructor; rewrite ?El, ?Esp; try done.
  - rewrite M1. do 2 f_equal. symmetry. cbn [phys with_allocator].
    apply (arena_kept b heap); [|exact M4| |done|by rewrite M6'; exists 256|].
    + intros p Hpp. apply elem_of_union_l, M7. by apply elem_of_list_to_set.
    + destruct M5 as (_ & Hb0 & _). lia.
    + intros x Hx. apply Hout. rewrite M6' in Hx. lia.
  - cbn [cr3 with_allocator]. by rewrite Hrest.
  - exists a'. split_and!; try done. by apply (managed_same a).
  - cbn [with_allocator]. change (heap_region (with_allocator k1 a')) with (heap_region k1). by rewrite Hreg.
Qed.

(** *** Step 8 *)

(** Writes inside pages taken from the allocator leave tables and heap alone. *)
Lemma memory_up_taken b arena0 map t heap k k1 ist m :
  memory_up b arena0 map t heap k -> kernel_frames_ok k1 -> cr3 k1 = cr3 k -> KERNEL_HEAP k1 = KERNEL_HEAP k ->
  list_to_set (range_pages ist) ⊆ kernel_spare k ->
  kernel_spare k1 = kernel_spare k ∖ list_to_set (range_pages ist) ->
  kernel_lent k1 = kernel_lent k ∪ list_to_set (range_pages ist) ->
  0 <= range_start ist -> (PAGE_SIZE | range_start ist) -> (PAGE_SIZE | range_len ist) ->
  (forall x, x < range_start ist \/ range_start ist + range_len ist <= x -> m x = phys k x) ->
  memory_up b arena0 map t heap (with_phys k1 m).
Proof.
  intros [M1 M2' M3 M4 M5 (M6 & M6' & M6'') M7] Hok Hcr Hh Hsub Hsp Hl H0 Hd1 Hd2 Hm.
  assert (Hbase : heap_base (KERNEL_HEAP k) = range_start heap) by (unfold heap_region in M6; by injection M6).
  assert (Hlen : heap_len (KERNEL_HEAP k) = HEAP_SIZE) by (unfold heap_region in M6; by injection M6).
  constructor.
  - rewrite M1. do 2 f_equal. symmetry. apply (arena_kept b ist); [|exact M4|done..].
    intros p Hp. apply elem_of_union_r, Hsub. by apply elem_of_list_to_set.
  - cbn [cr3 with_phys]. congruence.
  - exact Hok.
  - intros p start n. change (kernel_lent (with_phys k1 m)) with (kernel_lent k1).
    change (kernel_spare (with_phys k1 m)) with (kernel_spare k1). rewrite Hl, Hsp. intros Hp. apply M4. set_solver.
  - apply (heap_ok_same k); [done|done|]. intros x Hx. apply Hm.
    destruct (decide (range_start ist <= x < range_start ist + range_len ist)) as [Hr|]; [exfalso|lia].
    rewrite Hbase, Hlen in Hx.
    apply (pages_avoid ist (range_start heap) HEAP_SIZE x); [done..| |done|done].
    intros p Hp. destruct (decide (p + PAGE_SIZE <= range_start heap \/ range_start heap + HEAP_SIZE <= p)) as [|Hn];
      [done|exfalso].
    assert (Hps : p ∈ kernel_spare k) by (apply Hsub; by apply elem_of_list_to_set).
    apply (kernel_lent_spare k M3 p); [|done]. apply M7, elem_of_list_to_set.
    destruct Hd1 as [s Es]. destruct M6'' as [h Eh]. unfold range_pages in Hp. apply list_elem_of_fmap in Hp as (i & -> & _).
    unfold range_pages, range_frames. rewrite M6'. change (Z.to_nat (HEAP_SIZE / PAGE_SIZE)) with 256%nat.
    apply list_elem_of_fmap. exists (Z.to_nat (s + Z.of_nat i - h)). rewrite elem_of_seq.
    unfold HEAP_SIZE, PAGE_SIZE in *. split; lia.
  - unfold heap_region. cbn [KERNEL_HEAP with_phys]. rewrite Hh. by split_and!.
  - change (kernel_lent (with_phys k1 m)) with (kernel_lent k1). rewrite Hl. set_solver.
Qed.

(** The interrupt stacks and the descriptor tables. *)
Lemma stacks_installed (m : Main D) b arena0 map t heap port :
  memory_up b arena0 map t heap (mem (sys m)) -> untouched port m ->
  (exists m', install_stacks m = Done (Halt EXIT_VALUE_KERNEL_SCHED_FAILURE m') /\
     stopped port EXIT_VALUE_KERNEL_SCHED_FAILURE NoIstStacks m' /\
     exists k, alloc_frames (mem (sys m)) 2 = Done (k, None)) \/
  (exists ist m', install_stacks m = Done (Next (ist, m')) /\ untouched port m' /\
     memory_up b arena0 map t heap (mem (sys m')) /\ range_len ist = 2 * PAGE_SIZE /\ (PAGE_SIZE | range_start ist) /\
     kernel_lent (mem (sys m')) = kernel_lent (mem (sys m)) ∪ list_to_set (range_pages ist) /\
     read64 (phys (mem (sys m'))) (range_start ist) = STACK_CANARY /\
     read64 (phys (mem (sys m'))) (range_start ist + 4096) = STACK_CANARY /\
     Gdt.ist_top (segments (sys m')) Gdt.IST_DOUBLE_FAULT = Done (range_start ist + 4096) /\
     Gdt.ist_top (segments (sys m')) Gdt.IST_NMI = Done (range_start ist + 8192) /\
     Gdt.cs (segments (sys m')) = Gdt.KERNEL_CODE /\ cr4 (mem (sys m')) = cr4 (mem (sys m))).
Proof.
  intros Hmu [U1 U2 U3 U4 U5 U6]. unfold install_stacks.
  destruct (alloc_frames_law (mem (sys m)) 2 (mu_frames _ _ _ _ _ _ Hmu)) as
    [(ist & k1 & E & Hok & Hlen & Hd & Hlo & Hhi & Hsub & Hsp & Hl)|(k1 & E & _)]; [lia|right|left].
  2: { rewrite E. cbn [exec_bind]. match goal with |- context [fail (A := ?A) ?x ?y ?z] =>
         destruct (fail_stopped (A := A) x port z y U6) as (m' & -> & Hst) end. exists m'. split_and!; [done..|by exists k1]. }
  assert (Hk1 : phys k1 = phys (mem (sys m)) /\ cr3 k1 = cr3 (mem (sys m)) /\ cr4 k1 = cr4 (mem (sys m)) /\
            KERNEL_HEAP k1 = KERNEL_HEAP (mem (sys m))).
  { unfold alloc_frames in E. repeat step_exec. done. }
  destruct Hk1 as (P1 & P2 & P3 & P4).
  rewrite E. cbn [exec_bind]. unfold MIN_FREE_ADDR, MAX_IDENTITY_BYTES, PAGE_SIZE in *.
  rewrite !add64_done by ulia. cbn [exec_bind]. cbv zeta.
  match goal with |- context [Gdt.install ?x ?y ?z] => destruct (gdt_install_eq x y z U3) as
    (g & Eg & _ & Hist & _ & _ & _ & _ & _ & Hcs & _) end.
  rewrite Eg. cbn [exec_bind]. cbn [segments sys with_kernel with_sys with_mem] in Hist.
  assert (Htops : Gdt.ist_top g Gdt.IST_DOUBLE_FAULT = Done (range_start ist + 4096) /\
            Gdt.ist_top g Gdt.IST_NMI = Done (range_start ist + 8192) /\ length (Gdt.ist (Gdt.tss g)) = 7%nat).
  { unfold Gdt.ist_top. rewrite Hist. destruct (Gdt.ist (Gdt.tss (segments (sys m)))) as
      [|? [|? [|? [|? [|? [|? [|? [|]]]]]]]]; by try discriminate U3. }
  destruct Htops as (T1 & T2 & T3). rewrite T1, T2. cbn [exec_bind].
  eexists ist, _. split; [reflexivity|].
  cbn [sys mem segments kinfo say with_sys with_segments with_kernel with_mem phys with_phys console cr4].
  split; [by constructor|]. split.
  { apply (memory_up_taken b arena0 map t heap (mem (sys m)) k1 ist); try done; [lia|by rewrite Hlen; exists 2|].
    intros x Hx. rewrite <- P1, !write64_out by lia. done. }
  split; [done|]. split; [exact Hd|]. split; [exact Hl|]. split; [|split; [|done]].
  - rewrite read64_write64_ne by lia. by apply read64_write64.
  - by apply read64_write64.
Qed.

(** Controllers and scheduler. *)
Lemma pic_init_done (d : D) : exists d', Pic.init d = Done (11932, d').
Proof.
  unfold Pic.init. destruct (Pic.init_pit (Pic.remap d) Pic.TIMER_HZ) as [[v d1]|] eqn:E; [|discriminate E].
  assert (v = 11932) as -> by (by injection E). cbn [exec_bind]. unfold Pic.unmask.
  change (Pic.TIMER_IRQ <? 8) with true. cbv iota. destruct (inb d1 Pic.PIC1_DATA) as [v d']. by eexists.
Qed.

Lemma clock_started (m : Main D) port :
  untouched port m ->
  (exists m', start_clock stub idt_address m = Done (Halt EXIT_VALUE_KERNEL_SCHED_FAILURE m') /\
     stopped port EXIT_VALUE_KERNEL_SCHED_FAILURE NoFxsave m' /\ cr4_osfxsr (mem (sys m)) = false) \/
  (exists m', start_clock stub idt_address m = Done (Next m') /\ cr4_osfxsr (mem (sys m)) = true /\
     mem (sys m') = mem (sys m) /\ segments (sys m') = segments (sys m) /\
     sched (sys m') = boot_only /\ SLOTS (sys m') = replicate 16 new_slot /\
     flags m' = mkLocks false 0 ∅ /\ EXIT_PORT m' = port /\
     (forall v, installed v = true -> get (idt m') v = Some (gate_for stub (Gdt.cs (segments (sys m))) v)) /\
     Pic.init (ports (sys m)) = Done (11932, ports (sys m'))).
Proof.
  intros [U1 U2 U3 U4 U5 U6]. unfold start_clock.
  destruct (install_idt_done m U4) as (tb & r & -> & _ & Hg). cbn [exec_bind sys].
  destruct (cr4_osfxsr (mem (sys m))) eqn:Ec; cbn [negb].
  2: { left. match goal with |- context [fail ?x ?y ?z] =>
         destruct (fail_stopped (A := Main D) x port z y U6) as (m' & E & Hs) end. by exists m'. }
  right. destruct (pic_init_done (ports (sys m))) as [d' Ed]. rewrite Ed. cbn [exec_bind]. cbv zeta.
  cbn [sys kinfo say with_sys with_ports sched]. rewrite U1.
  change (register_boot Sched.new 0) with (Done (boot_only, Ok tt) : exec (Scheduler * Result unit SchedError)).
  cbn [exec_bind]. eexists. split; [reflexivity|].
  cbn [sys kinfo say with_sys with_ports with_sched mem segments sched SLOTS flags EXIT_PORT idt ports]. by split_and!.
Qed.

(** *** The sequence *)

(** The reports of the first part. *)
Definition boot_failure (m : Main D) (b : BootInfo) (v : Z) (line : Line) : Prop :=
  (v = EXIT_VALUE_KERNEL_FAILURE /\ rejects b line) \/
  (v = EXIT_VALUE_KERNEL_MEMORY_FAILURE /\
     ((exists e, line = MemoryInitFailed e) \/ line = MemoryCheckFailed (KMemory.failure 6 NO_FREE_FRAME 0))) \/
  (v = EXIT_VALUE_KERNEL_SCHED_FAILURE /\
     (line = NoIstStacks \/ (line = NoFxsave /\ cr4_osfxsr (mem (sys m)) = false))).

(** The kernel with interrupts about to be enabled. *)
Record booted (b : BootInfo) (arena0 : list Z) (map : MemoryMap) (t : PageTables) (heap ist : PhysRange) (m : Main D) :
    Prop := mkBooted {
  bt_service : forall ctx, service_input (boot_stack b) (kernel_lent (mem (sys m))) aa (sys m) ctx b arena0 map t;
  bt_tables : cr3 (mem (sys m)) = aa /\ forall va, 0 <= va < 2 ^ 48 -> kernel_view aa (sys m) map t va;
  bt_lent : kernel_lent (mem (sys m)) = list_to_set (range_pages heap) ∪ list_to_set (range_pages ist);
  bt_heap : heap_ok (mem (sys m)) [(HEAP_SIZE, true)] /\ heap_region (mem (sys m)) = (range_start heap, HEAP_SIZE);
  bt_ist : range_len ist = 2 * PAGE_SIZE /\ (PAGE_SIZE | range_start ist) /\
    read64 (phys (mem (sys m))) (range_start ist) = STACK_CANARY /\
    read64 (phys (mem (sys m))) (range_start ist + 4096) = STACK_CANARY /\
    Gdt.ist_top (segments (sys m)) Gdt.IST_DOUBLE_FAULT = Done (range_start ist + 4096) /\
    Gdt.ist_top (segments (sys m)) Gdt.IST_NMI = Done (range_start ist + 8192);
  bt_idt : forall v, installed v = true -> get (idt m) v = Some (gate_for stub Gdt.KERNEL_CODE v);
  bt_clock : exists d, Pic.init d = Done (11932, ports (sys m));
  bt_sched : sched (sys m) = boot_only /\ SLOTS (sys m) = replicate 16 new_slot;
  bt_flags : flags m = mkLocks false 0 ∅ /\ EXIT_PORT m = bi_exit_port b
}.

Lemma stack_in_kernel_memory b :
  stack_size b <= stack_top b -> In (stack_top b - stack_size b, stack_size b) (kernel_memory aa ba ia b).
Proof. intros Hs. right. left. unfold saturating_sub. f_equal. lia. Qed.

(** What the memory steps leave is what [user::init] and the threads need. *)
Lemma service_ready b arena0 map t heap (s : System Kernel D) ctx :
  memory_up b arena0 map t heap (mem s) -> build_input aa arena0 map M2 -> len arena0 = ARENA_BYTES ->
  sched s = boot_only -> SLOTS s = replicate 16 new_slot ->
  0 < stack_size b /\ stack_size b + 8 <= stack_top b /\ stack_top b <= U64_MAX ->
  apart (boot_stack b) (mkRange aa ARENA_BYTES) ->
  is_u64 (user_vaddr b) /\ is_u64 (user_entry b) /\ 0 <= user_phys b /\ 0 <= user_size b /\
    user_vaddr b + user_size b <= U64_MAX /\ user_phys b + user_size b <= 2 ^ 52 ->
  service_input (boot_stack b) (kernel_lent (mem s)) aa s ctx b arena0 map t.
Proof.
  intros [M1 M2' M3 M4 M5 M6 M7] Hin Hlen Es El (Hs1 & Hs2 & Hs3) Hap Hu. constructor; try done.
  - change (kernel_lent (mem s)) with (lent (mem s)). apply (boot_pool s (boot_stack b) ctx Es El); [exact M3|unfold boot_stack, top_of; cbn [range_start range_len]; lia..|].
    intros p Hp. destruct (M4 p _ _ (elem_of_union_r _ _ _ Hp) (stack_in_kernel_memory b ltac:(lia)));
      unfold boot_stack, top_of; cbn [range_start range_len]; lia.
  - intros p Hp. destruct (M4 p aa ARENA_BYTES Hp (arena_in_kernel_memory b)) as [E|E]; [discriminate E|exact E].
Qed.

Lemma view_ready b arena0 map t heap (s : System Kernel D) va :
  memory_up b arena0 map t heap (mem s) -> build_input aa arena0 map M2 -> 0 <= va < 2 ^ 48 ->
  kernel_view aa s map t va.
Proof.
  intros [M1 _ _ _ _ _ _] Hin Hva. destruct (build_ok_facts _ _ _ _ _ _ Hin M1) as (_ & Hroot & _).
  pose proof (build_walk _ _ _ _ _ _ va Hin M1 Hva) as Hw. rewrite Hroot in Hw. exact Hw.
Qed.

(** Steps 5 to 7 in a row, from memory [k]. *)
Definition memory_outcome (k : Kernel) (b : BootInfo) (port : Z) (r : flow D (Main D)) : Prop :=
  match r with
  | Halt v m' => v = EXIT_VALUE_KERNEL_MEMORY_FAILURE /\ exists line, stopped port v line m' /\
      ((exists e, line = MemoryInitFailed e) \/ line = MemoryCheckFailed (KMemory.failure 6 NO_FREE_FRAME 0))
  | Next m' => untouched port m' /\ cr4 (mem (sys m')) = cr4 k /\
      exists arena0 map t heap, build_input aa arena0 map M2 /\ len arena0 = ARENA_BYTES /\
        memory_up b arena0 map t heap (mem (sys m')) /\
        kernel_lent (mem (sys m')) = list_to_set (range_pages heap)
  end.

Lemma memory_started (m : Main D) b port :
  untouched port m -> install_input aa ia (mem (sys m)) b -> is_u64 aa -> is_u64 ba -> is_u64 ia ->
  bytes_ok (FRAME_BITMAP (mem (sys m))) /\ len (FRAME_BITMAP (mem (sys m))) = FRAME_BITMAP_BYTES ->
  (forall map, boot_info_memory_map (phys (mem (sys m))) b = Done (Ok map) ->
     Forall Frame.page_aligned (region_list map) /\ ForallOrdPairs region_apart (region_list map)) ->
  mmap_ptr b + mmap_len b * mmap_desc_size b <= aa \/ aa + ARENA_BYTES <= mmap_ptr b ->
  exists r, init_memory aa ba ia m b = Done r /\ memory_outcome (mem (sys m)) b port r.
Proof.
  intros [U1 U2 U3 U4 U5 U6] Hii Haa Hba Hia [Hbt Hbl] Hreg Hmap. unfold init_memory, memory_outcome, flow_bind, install_tables.
  assert (Hi : exists r k', install aa ia (mem (sys m)) b = Done (r, k')).
  { destruct Hii as [I1 I2 I3 I4 I5 I6 I7].
    destruct (install_outcome aa ia _ b I1 I2 I3 I4 I5 I6 I7) as (r & k' & E & _). by exists r, k'. }
  destruct Hi as ([t|e] & k1 & E1); rewrite E1; cbn [exec_bind].
  2: { destruct (fail_stopped (A := PageTables * Main D) (with_kernel m k1) port EXIT_VALUE_KERNEL_MEMORY_FAILURE
         (MemoryInitFailed e) U6) as (m' & -> & Hst). cbn [exec_bind]. eexists. split; [reflexivity|].
       split; [done|]. exists (MemoryInitFailed e). split; [exact Hst|]. left. by exists e. }
  destruct (tables_installed _ b t k1 Hii Haa Hba Hia Hbt Hbl Hreg Hmap E1) as (map & Hin & Hb & Hc3 & Hc4 & Hl & Hai).
  unfold start_allocators. cbn [sys kinfo say with_kernel with_sys with_mem mem].
  destruct (allocators_started k1 b _ map t Hai Hl Hb Hc3) as ([layout|e] & k2 & E2 & Hr); rewrite E2; cbn [exec_bind].
  2: { match goal with |- context [fail (A := ?A) ?x ?y ?z] =>
         destruct (fail_stopped (A := A) x port z y U6) as (m' & -> & Hst) end. cbn [exec_bind].
       eexists. split; [reflexivity|]. split; [done|]. exists (MemoryInitFailed e). split; [exact Hst|]. left. by exists e. }
  destruct Hr as (heap & a & Hmu & Haf & Hc4' & Hfr & Hlh). rewrite Hfr, Hlh. cbn [fs_managed fs_free].
  pose proof (af_managed _ _ _ _ Haf) as [Hm1 Hm2]. pose proof (fi_shape a (af_inv _ _ _ _ Haf)) as Hs.
  pose proof (fs_first a Hs). pose proof (mu_heap _ _ _ _ _ _ Hmu) as (_ & Hb0 & _ & Hb1).
  destruct (mu_region _ _ _ _ _ _ Hmu) as (Hrg & _). unfold heap_region in Hrg. injection Hrg as Hr1 Hr2.
  rewrite mul64_done by (unfold MAX_IDENTITY_BYTES, MIN_FREE_ADDR, PAGE_SIZE in *; ulia). cbn [exec_bind].
  rewrite add64_done by lia. cbn [exec_bind]. unfold check_memory.
  cbn [sys kinfo say with_kernel with_sys with_mem mem].
  destruct (memory_checked b _ map t heap a k2 Hmu Haf) as ([[]|e] & k3 & E3 & Hr); rewrite E3; cbn [exec_bind].
  - eexists. split; [reflexivity|]. destruct Hr as (Hmu3 & Hl3 & Hc3').
    cbn [sys kinfo say with_kernel with_sys with_mem mem]. split; [by constructor|]. split; [congruence|].
    eexists _, map, t, heap. split; [exact Hin|]. split; [by apply len_read_bytes|]. split; [exact Hmu3|].
    rewrite Hl3. apply (af_lent _ _ _ _ Haf).
  - match goal with |- context [fail (A := ?A) ?x ?y ?z] =>
      destruct (fail_stopped (A := A) x port z y U6) as (m' & -> & Hst) end.
    eexists. split; [reflexivity|]. split; [done|]. exists (MemoryCheckFailed e). split; [exact Hst|]. right. by rewrite Hr.
Qed.

(** Step 8 in a row. *)
Lemma interrupts_ready (m : Main D) b arena0 map t heap :
  untouched (bi_exit_port b) m -> memory_up b arena0 map t heap (mem (sys m)) ->
  build_input aa arena0 map M2 -> len arena0 = ARENA_BYTES ->
  kernel_lent (mem (sys m)) = list_to_set (range_pages heap) ->
  0 < stack_size b /\ stack_size b + 8 <= stack_top b /\ stack_top b <= U64_MAX ->
  apart (boot_stack b) (mkRange aa ARENA_BYTES) ->
  is_u64 (user_vaddr b) /\ is_u64 (user_entry b) /\ 0 <= user_phys b /\ 0 <= user_size b /\
    user_vaddr b + user_size b <= U64_MAX /\ user_phys b + user_size b <= 2 ^ 52 ->
  exists r, init_interrupts stub idt_address m = Done r /\
    match r with
    | Halt v m' => v = EXIT_VALUE_KERNEL_SCHED_FAILURE /\ exists line, stopped (bi_exit_port b) v line m' /\
        ((line = NoIstStacks /\ exists k, alloc_frames (mem (sys m)) 2 = Done (k, None)) \/
         (line = NoFxsave /\ cr4_osfxsr (mem (sys m)) = false))
    | Next (ist, m') => booted b arena0 map t heap ist m'
    end.
Proof.
  intros Hu Hmu Hin Hla Hlent Hs Hap Hus. unfold init_interrupts.
  destruct (stacks_installed m b arena0 map t heap _ Hmu Hu)
    as [(m' & -> & Hst & Hno)|(ist & m4 & -> & Hu4 & Hmu4 & Hil & Hid & Hl4 & C1 & C2 & T1 & T2 & Hcs & Hc4)];
    cbn [flow_bind exec_bind].
  { eexists. split; [reflexivity|]. split; [done|]. exists NoIstStacks. split; [exact Hst|]. by left. }
  destruct (clock_started m4 _ Hu4)
    as [(m' & -> & Hst & Hf)|(m5 & -> & _ & E1 & E2 & E3 & E4 & E5 & E6 & E7 & E8)]; cbn [flow_bind exec_bind].
  { eexists. split; [reflexivity|]. split; [done|]. exists NoFxsave. split; [exact Hst|]. right. split; [done|].
    unfold cr4_osfxsr in *. by rewrite <- Hc4. }
  eexists. split; [reflexivity|]. rewrite <- E1 in Hmu4. constructor; rewrite ?E2; try done.
  - intros ctx. by apply (service_ready b arena0 map t heap).
  - split; [by apply (mu_cr3 _ _ _ _ _ _ Hmu4)|]. intros va Hva. by apply (view_ready b arena0 map t heap).
  - by rewrite E1, Hl4, Hlent.
  - split; [apply (mu_heap _ _ _ _ _ _ Hmu4)|apply (mu_region _ _ _ _ _ _ Hmu4)].
  - by rewrite E1.
  - intros v Hvv. by rewrite (E7 v Hvv), Hcs.
  - by exists (ports (sys m4)).
Qed.

Lemma kernel_boot_outcome (m : Main D) b :
  boot_input m b ->
  exists r, kernel_boot aa ba ia stub idt_address m b = Done r /\
    match r with
    | Halt v m' => exists line, stopped (bi_exit_port b) v line m' /\ boot_failure m b v line
    | Next (ist, m') => BootInfo.validate b = Ok tt /\ has_memory_map b = true /\ rsdp b <> 0 /\
        exists arena0 map t heap, booted b arena0 map t heap ist m'
    end.
Proof.
  intros [B1 B2 (B3 & B4 & B5 & B6) B7 B8 B9 B10 B11 B12 B13]. unfold kernel_boot.
  destruct (start_done m b B1) as (m1 & -> & Hu1 & Hm1). cbn [exec_bind]. set (port := bi_exit_port b) in *.
  destruct (check_boot_info_cases m1 b port (un_port _ _ Hu1) B5 B6 B9 ltac:(lia))
    as [(m' & line & -> & Hst & Hrej)|(c & -> & Hv & Hmm & Hrs)]; cbn [flow_bind exec_bind].
  { eexists. split; [reflexivity|]. exists line. split; [exact Hst|]. left. by split. }
  assert (Hu2 : untouched port (with_console m1 c)) by (destruct Hu1; by constructor).
  assert (Hstart : exists r, init_memory aa ba ia (with_console m1 c) b = Done r /\ memory_outcome (mem (sys m)) b port r).
  { rewrite <- Hm1 in *. apply (memory_started (with_console m1 c) b port Hu2); auto. }
  destruct Hstart as ([m3|v m'] & -> & Hr); cbn [flow_bind exec_bind].
  2: { eexists. split; [reflexivity|]. destruct Hr as (-> & line & Hst & Hl). exists line. split; [exact Hst|].
       right. left. by split. }
  destruct Hr as (Hu3 & Hc3 & arena0 & map & t & heap & Hin & Hla & Hmu & Hlent).
  destruct (interrupts_ready m3 b arena0 map t heap Hu3 Hmu Hin Hla Hlent B10 B12 B13) as ([[ist m4]|v m'] & -> & Hr).
  - eexists. split; [reflexivity|]. split_and!; [done..|]. by exists arena0, map, t, heap.
  - eexists. split; [reflexivity|]. destruct Hr as (-> & line & Hst & Hl). exists line. split; [exact Hst|].
    right. right. split; [done|]. destruct Hl as [[-> _]|[-> Hf]]; [by left|right]. split; [done|].
    unfold cr4_osfxsr in *. by rewrite <- Hc3.
Qed.

End Boot.

(** C1 The first part of [kernel_main] as a whole.  From what the boot loader
    leaves it never panics.  Either it stops with interrupts off after one
    report: the value for a broken handoff exactly when [BootInfo] is rejected,
    has no memory map or no ACPI root; the value for memory when tables or
    allocators cannot be made or fewer than two frames are left; the value for
    the scheduler when the interrupt stacks or the processor's [fxsave] are
    missing.  Or it is ready to enable interrupts: the kernel runs on its own
    identity tables, the heap is one free block, exactly its pages and the two
    interrupt stacks are lent and none of them or of the free ones is kernel
    memory, both canaries are in place, each IDT gate leads to its stub, the
    timer is programmed, and the boot thread alone forms a thread pool in which
    every further thread theorem and [user::init] apply. *)
Theorem kernel_boot_prepares {D : Type} `{PortIO D} aa ba ia stub idt_address (m : Main D) b :
  boot_input aa ba ia m b ->
  exists r, kernel_boot aa ba ia stub idt_address m b = Done r /\
    match r with
    | Halt v m' => exists line, stopped (bi_exit_port b) v line m' /\ boot_failure m b v line
    | Next (ist, m') => BootInfo.validate b = Ok tt /\ has_memory_map b = true /\ rsdp b <> 0 /\
        exists arena0 map t heap, booted aa stub b arena0 map t heap ist m'
    end.
Proof. apply kernel_boot_outcome. Qed.

(** The example machine of [KMemory] before the kernel runs. *)
Definition demo_main : Main Board.board :=
  mkMain (mkSystem demo_kernel Sched.new (replicate 16 new_slot) 0 demo_segments fx_zeroed Board.wild []
            (mkService USIZE_MAX false 0 0)) Idt.IDT (Idt.mkIdtr 0 0) (mkLocks false 0 ∅) 0 [].

Lemma demo_boot_input : boot_input 0x280000 0x290000 0x3000 demo_main demo_info.
Proof.
  constructor.
  - by constructor.
  - intros _. apply demo_install_input.
  - split_and!; split || idtac; discriminate.
  - intros map Hp. cbn [demo_main sys mem] in Hp. change (phys demo_kernel) with demo_phys in Hp.
    rewrite demo_parse in Hp. injection Hp as <-. split; apply demo_allocators_input.
  - apply demo_allocators_input.
  - discriminate.
  - by split_and!.
  - left. discriminate.
  - right. vm_compute. discriminate.
  - split_and!; split || idtac; discriminate.
Qed.

Lemma kernel_boot_prepares_witness :
  boot_input 0x280000 0x290000 0x3000 demo_main demo_info /\
  exists r, kernel_boot 0x280000 0x290000 0x3000 (fun v => 0x200000 + 16 * v) 0x210000 demo_main demo_info = Done r.
Proof.
  split; [apply demo_boot_input|].
  destruct (kernel_boot_prepares 0x280000 0x290000 0x3000 (fun v => 0x200000 + 16 * v) 0x210000 demo_main demo_info
              demo_boot_input) as (r & E & _). exists r. exact E.
Defined.
