(* ===== verification/KRun.v ===== *)
(** * The kernel's main sequence with interrupts on (main.rs, self_check.rs)

    From [enable_interrupts] on the clock interrupts the boot thread and other
    threads run between any two of its accesses to shared state.  What they do
    there is a parameter, [others], on a state of their own and the kernel's;
    [meanwhile] stands before each access, also inside the creation of a thread,
    between its registration and its stack, and between the parts of
    [user::init].  The three concurrent steps of [self_check::run], modelled in
    [SelfCheck], are a parameter too; its steps 5 and 6, which read counters,
    are here.

    The theorem: as long as interrupts and threads keep the invariant of
    [Threads] and leave the page tables alone, the sequence always comes to one
    report.  A report of failure names what the machine shows at that moment;
    success means that every check of the sequence passed.  Nothing is assumed
    of the canaries, the counter of held locks, the number of free frames, the
    clock or the service: these are what the checks look at. *)
From Stdlib Require Import ZArith Lia Bool String.
From stdpp Require Import base tactics option list numbers gmap sets fin_sets.
From S2P Require Import Prelude MemoryMap Sched Frame Heap Paging UserMap BootInfo PhysMem Ports Descriptors Interrupts Lock KMemory Threads UserInit SelfCheck KMain.

#[local] Open Scope Z_scope.

Section Run.
  Context {D : Type} `{PortIO D} {O : Type}.

(** The arena, [idle_main], the trampoline; the interference; the steps of
    [SelfCheck]. *)
  Variables aa idle_main trampoline : Z.
  Variable others : O -> Main D -> O * Main D.
  Variable steps : O -> Main D -> O * Main D * Result unit Failure.

Definition world : Type := (O * Main D)%type.
Definition meanwhile (w : world) : world := others (fst w) (snd w).
Definition put (w : world) (m : Main D) : world := (fst w, m).
Definition kernel_of (w : world) : Kernel := mem (sys (snd w)).
Definition stats_of (w : world) : SchedStats := Sched.stats (sched (sys (snd w))).

(** ** 9: the clock, the interrupt stacks, a probe frame, the locks *)
Definition await_clock (w : world) : exec (flow D world) :=
  let w := put w (with_flags (snd w) (enable_interrupts (flags (snd w)))) in
  let (r, w) := wait_for_ticks (fun w => let w := meanwhile w in (st_ticks (stats_of w), w)) 3 w in
  match r with
  | None => fail (snd w) ClockSilent EXIT_VALUE_KERNEL_SCHED_FAILURE
  | Some t =>
      let w := meanwhile w in
      Done (Next (put w (kinfo (snd w) (ClockRuns t (st_switches (stats_of w))))))
  end.

Definition canary_at (w : world) (a : Z) : bool := read64 (phys (kernel_of w)) a =? STACK_CANARY.

Definition check_canaries (ist : PhysRange) (w : world) : exec (flow D world) :=
  let w := meanwhile w in
  let (ok, w) := (if canary_at w (range_start ist)
                  then let w := meanwhile w in (canary_at w (range_start ist + 4096), w)
                  else (false, w)) in
  if negb ok then fail (snd w) IstCanaryDestroyed EXIT_VALUE_KERNEL_SCHED_FAILURE else Done (Next w).

Definition probe_frames (w : world) : exec (flow D world) :=
  let w := meanwhile w in
  let! before := frames_free (kernel_of w) in
  let w := meanwhile w in
  let! (k, r) := alloc_frames (kernel_of w) 1 in
  let w := put w (with_kernel (snd w) k) in
  match r with
  | None => fail (snd w) NoProbe EXIT_VALUE_KERNEL_SCHED_FAILURE
  | Some probe =>
      let w := meanwhile w in
      let! (k, r) := free_frames (kernel_of w) probe in
      let w := put w (with_kernel (snd w) k) in
      match r with
      | Err e => fail (snd w) (ProbeNotReturned e) EXIT_VALUE_KERNEL_SCHED_FAILURE
      | Ok _ =>
          let w := meanwhile w in
          let! after := frames_free (kernel_of w) in
          if negb (after =? before)
          then
            let w := meanwhile w in
            let! after := frames_free (kernel_of w) in
            fail (snd w) (FramesNotRestored before after) EXIT_VALUE_KERNEL_SCHED_FAILURE
          else Done (Next w)
      end
  end.

Definition check_locks (w : world) : exec (flow D world) :=
  let w := meanwhile w in
  if negb (held_count (flags (snd w)) =? 0)
  then let w := meanwhile w in fail (snd w) (LocksHeld (held_count (flags (snd w)))) EXIT_VALUE_KERNEL_SCHED_FAILURE
  else Done (Next w).

(** ** 10: the idle thread and the scheduling self-check *)

(** The creation of a thread: interrupts are on between the scheduler's part
    and the rest, which works on frames and a slot of its own. *)
Definition create_thread (q : request) (w : world) : exec (world * Result Z CreateError) :=
  let w := meanwhile w in
  let! (x, r) := request_slot q (sched (sys (snd w))) in
  let w := put w (with_sys (snd w) (with_sched (sys (snd w)) x)) in
  match r with
  | Err _ => Done (w, Err NoFreeSlot)
  | Ok id =>
      let w := meanwhile w in
      let! (s, r) := complete trampoline q (sys (snd w)) id in
      Done (put w (with_sys (snd w) s), r)
  end.

Definition start_idle (w : world) : exec (flow D world) :=
  let! (w, r) := create_thread (IdleThread idle_main) w in
  match r with
  | Err e => fail (snd w) (IdleFailed e) EXIT_VALUE_KERNEL_SCHED_FAILURE
  | Ok id => Done (Next (put w (kinfo (snd w) (IdleCreated id))))
  end.

(** A test of [run]: a failure reads its value again. *)
Definition demand (w : world) (test : world -> bool) (f : world -> Failure) (k : world -> exec (world * Result unit Failure)) :
    exec (world * Result unit Failure) :=
  let w := meanwhile w in
  if test w then k w else let w := meanwhile w in Done (w, Err (f w)).

Definition has_state (w : world) (id : Z) (st : ThreadState) : bool :=
  match Sched.state (sched (sys (snd w))) id with Ok x => bool_decide (x = st) | Err _ => false end.

(** Step 6: the counter of held locks around one lock. *)
Definition check_held (w : world) : exec (world * Result unit Failure) :=
  let held w := held_count (flags (snd w)) in
  demand w (fun w => held w =? 0) (fun w => failure 6 "自检结束时仍持有锁" (held w)) (fun w =>
  let w := meanwhile w in
  let! (g, l) := acquire (flags (snd w)) ROUND_ROBIN_LOCK in
  let w := put w (with_flags (snd w) l) in
  let counted := held w =? 1 in
  let w := put w (with_flags (snd w) (drop_guard g (flags (snd w)))) in
  if negb counted then let w := meanwhile w in Done (w, Err (failure 6 "取锁后 held_count 应为 1" (held w)))
  else demand w (fun w => held w =? 0) (fun w => failure 6 "放锁后 held_count 应回到 0" (held w)) (fun w => Done (w, Ok tt))).

(** Step 5 and what follows it. *)
Definition check_settled (frames_before : Z) (w : world) : exec (world * Result unit Failure) :=
  let (ok, w) := wait_until (fun w => let w := meanwhile w in (st_live (stats_of w) =? 2, w)) SelfCheck.WAIT_BUDGET w in
  if negb ok then let w := meanwhile w in Done (w, Err (failure 5 "仍在等待线程退出/回收" (st_live (stats_of w))))
  else
    demand w (fun w => st_ready (stats_of w) =? 0) (fun w => failure 5 "就绪队列应为空" (st_ready (stats_of w))) (fun w =>
    demand w (fun w => has_state w 0 Running) (fun _ => failure 5 "引导上下文不在运行状态" 0) (fun w =>
    let w := meanwhile w in
    let id := idle (sched (sys (snd w))) in
    demand w (fun w => has_state w id Ready) (fun _ => failure 5 "空闲线程不在就绪状态" id) (fun w =>
    demand w (fun w => CANARY_FAILURES (sys (snd w)) =? 0)
      (fun w => failure 5 "有线程栈金丝雀被破坏" (CANARY_FAILURES (sys (snd w)))) (fun w =>
    let w := meanwhile w in
    let! after := frames_free (kernel_of w) in
    if negb (after =? frames_before)
    then let w := meanwhile w in
         let! after := frames_free (kernel_of w) in Done (w, Err (failure 5 "页帧数没有回到预期值（线程栈泄漏？）" after))
    else check_held w)))).

Definition self_check_run (w : world) : exec (world * Result unit Failure) :=
  let w := meanwhile w in
  let! frames_before := frames_free (kernel_of w) in
  let '(o, m, r) := steps (fst w) (snd w) in
  match r with
  | Err f => Done ((o, m), Err f)
  | Ok _ => check_settled frames_before (o, m)
  end.

Definition check_scheduler (w : world) : exec (flow D world) :=
  let! (w, r) := self_check_run w in
  match r with
  | Err f => fail (snd w) (SchedCheckFailed f) EXIT_VALUE_KERNEL_SCHED_FAILURE
  | Ok _ =>
      let w := meanwhile w in
      let x := stats_of w in
      Done (Next (put w (kinfo (snd w) (SchedChecked (st_ticks x) (st_switches x) (st_live x)))))
  end.

(** ** 11: the user service, and the end *)
Definition WAIT_BUDGET : Z := 100_000_000.

Definition service_done (w : world) : bool * world :=
  let w := meanwhile w in
  if User.reached_cpl3 (sys (snd w)) then let w := meanwhile w in (st_live (stats_of w) =? 2, w) else (false, w).

(** [user::init] with what happens between its accesses. *)
Definition map_service (w : world) (b : BootInfo) (st : PhysRange) : exec (world * Result Mapped MapError) :=
  let s := sys (snd w) in
  let '(arena, pml4_offset, first_free) := page_arena aa (mem s) in
  let! (arena, r) := map_user_region aa arena pml4_offset first_free (User.mappings b st) in
  Done (put w (with_sys (snd w) (with_ram s (copy_to (ram (mem s)) aa arena))), r).

Definition with_log (w : world) (line : Message) : world :=
  put w (with_sys (snd w) (log (sys (snd w)) Logging.Info line)).

Definition start_service (w : world) (b : BootInfo) : exec (world * Result Z User.InitError) :=
  let w := meanwhile w in
  let w := put w (with_sys (snd w) (User.with_ticks_before (sys (snd w)) (st_ticks (stats_of w)))) in
  let! (w, r) := create_thread (UserThread (user_entry b) (User.USER_STACK_VA + 4096 * User.USER_STACK_PAGES)) w in
  match r with
  | Err e => Done (w, Err (User.Thread e))
  | Ok id =>
      let w := meanwhile w in
      let w := put w (with_sys (snd w) (User.with_service_id (sys (snd w)) id)) in
      Done (with_log w (ServiceStarted id), Ok id)
  end.

Definition user_init (w : world) (b : BootInfo) : exec (world * Result Z User.InitError) :=
  if negb (has_user_image b) then Done (w, Err User.NoUserImage) else
  let w := meanwhile w in
  let! (k, r) := alloc_frames (kernel_of w) User.USER_STACK_PAGES in
  let w := put w (with_kernel (snd w) k) in
  match r with
  | None => Done (w, Err User.NoStack)
  | Some st =>
      let w := meanwhile w in
      let! (w, r) := map_service w b st in
      match r with
      | Err e => Done (w, Err (User.Map e))
      | Ok mapped =>
          let w := with_log w (ServiceMapped (user_phys b) (user_vaddr b) (user_size b / 4096) User.USER_STACK_VA
                                 (user_entry b) (um_tables_used mapped)) in
          start_service w b
      end
  end.

Definition run_service (w : world) (b : BootInfo) : exec (flow D world) :=
  let! (w, r) := user_init w b in
  match r with
  | Err e => fail (snd w) (UserInitFailed e) EXIT_VALUE_USER_FAILURE
  | Ok _ =>
      let (ok, w) := wait_until service_done WAIT_BUDGET w in
      if negb ok
      then let w := meanwhile w in
           let live := st_live (stats_of w) in
           let w := meanwhile w in
           fail (snd w) (ServiceMissing live (User.reached_cpl3 (sys (snd w)))) EXIT_VALUE_USER_FAILURE
      else Done (Next w)
  end.

Definition conclude (w : world) : exec (flow D Empty_set) :=
  let w := meanwhile w in
  let elapsed := User.elapsed_ticks (sys (snd w)) in
  if elapsed =? 0 then fail (snd w) ServiceWithoutTicks EXIT_VALUE_USER_FAILURE
  else
    let w := meanwhile w in
    let rsp0 := Gdt.rsp0 (segments (sys (snd w))) in
    if rsp0 =? 0 then fail (snd w) Rsp0NotSet EXIT_VALUE_USER_FAILURE
    else
      let w := meanwhile w in
      let m := kinfo (snd w) (ServiceChecked (User.syscall_cs (sys (snd w))) elapsed rsp0) in
      let (_, l) := critical (flags m) in
      let m := kinfo (kinfo (with_flags m l) InterruptsClosed) AllChecked in
      Done (finish m EXIT_VALUE_KERNEL_OK).

(** [kernel_main] from [enable_interrupts] on; it does not return. *)
Definition kernel_run (ist : PhysRange) (w : world) (b : BootInfo) : exec (flow D Empty_set) :=
  let> w := await_clock w in
  let> w := check_canaries ist w in
  let> w := probe_frames w in
  let> w := check_locks w in
  let> w := start_idle w in
  let> w := check_scheduler w in
  let> w := run_service w b in
  conclude w.

(** The whole of [kernel_main]. *)
Definition kernel_main (ba ia : Z) (stub : Z -> Z) (idt_address : Z) (o : O) (m : Main D) (b : BootInfo) :
    exec (flow D Empty_set) :=
  let> (ist, m) := kernel_boot aa ba ia stub idt_address m b in
  kernel_run ist (o, m) b.

End Run.

(** ** Counting frames *)
Lemma size_addresses a (X : gset Z) : base.size (addresses a X) = base.size X.
Proof.
  induction X as [|i X Hi IH] using set_ind_L.
  - done.
  - rewrite addresses_union, !size_union.
    + rewrite IH. f_equal. replace (addresses a {[i]}) with ({[frame_addr a i]} : gset Z); [by rewrite !size_singleton|].
      apply set_eq. intros p. rewrite elem_addresses. set_solver.
    + set_solver.
    + intros p Hp Hq. apply elem_addresses in Hp as (j & -> & ->%elem_of_singleton), Hq as (j' & E%frame_addr_inj & Hj').
      by subst j'.
Qed.

Lemma frames_free_eq k : kernel_frames_ok k -> frames_free k = Done (Z.of_nat (base.size (kernel_spare k))).
Proof.
  intros (a & Ea & Hinv & _). unfold frames_free, kernel_spare. rewrite Ea, size_addresses, <- (fi_count a Hinv). done.
Qed.

(** ** Waiting keeps what each round keeps *)
Lemma wait_until_keeps {S : Type} (P : S -> Prop) (poll : S -> bool * S) budget s :
  P s -> (forall s, P s -> P (snd (poll s))) -> P (snd (wait_until poll budget s)).
Proof.
  intros Hs Hp. unfold wait_until. generalize (Z.to_nat budget) as n. intros n. revert s Hs.
  induction n as [|n IH]; intros s Hs; cbn [wait_loop]; specialize (Hp s Hs); destruct (poll s) as [[] s1]; try done.
  by apply IH.
Qed.

Lemma wait_for_ticks_keeps {S : Type} (P : S -> Prop) (read : S -> Z * S) wanted s :
  P s -> (forall s, P s -> P (snd (read s))) -> P (snd (wait_for_ticks read wanted s)).
Proof.
  intros Hs Hp. unfold wait_for_ticks. generalize (Z.to_nat SPIN_BUDGET) as n. intros n. revert s Hs.
  induction n as [|n IH]; intros s Hs; cbn [ticks_loop]; specialize (Hp s Hs); destruct (read s) as [v s1];
    destruct (wanted <=? v); try done.
  by apply IH.
Qed.

(** ** Frames that come back *)
Lemma pool_return {D : Type} `{PortIO D} boot oth (s : System Kernel D) ctx (k : Kernel) (P : gset Z) :
  pool_ok boot (oth ∪ P) s ctx -> P ## oth -> kernel_frames_ok k ->
  (forall p, p ∈ P -> p + PAGE_SIZE <= range_start boot \/ top_of boot <= p) ->
  kernel_spare k = kernel_spare (mem s) ∪ P -> kernel_lent k = kernel_lent (mem s) ∖ P -> phys k = phys (mem s) ->
  pool_ok boot oth (with_mem s k) ctx.
Proof.
  intros [P1 P2 P3 P4 P5 P6 P7 P8 P9 P10 P11 P12 P13] Hd Hok Hb Hsp Hl Hram.
  constructor; cbn [with_mem mem sched SLOTS segments]; try done.
  - intros p Hp. change (spare k) with (kernel_spare k) in Hp. rewrite Hsp in Hp.
    apply elem_of_union in Hp as [Hp|Hp]; [by apply P5|by apply Hb].
  - intros p. change (lent k) with (kernel_lent k). rewrite Hl, elem_of_difference.
    change (kernel_lent (mem s)) with (lent (mem s)). rewrite (P6 p). split.
    + intros [[[Ho|Hp]%elem_of_union|Hst] Hn]; [by left|done|by right].
    + intros [Ho|(id & x & r & Hx & Hr & Hin)].
      * split; [left; set_solver|set_solver].
      * split; [right; by exists id, x, r|]. destruct (P7 id x r Hx Hr) as (_ & _ & _ & Hn).
        specialize (Hn p Hin). set_solver.
  - intros id x r Hx Hr. destruct (P7 id x r Hx Hr) as (S1 & S2 & S3 & S4). split_and!; try done.
    intros p Hin. specialize (S4 p Hin). set_solver.
  - intros id x Hid Hx. change (ram k) with (phys k). rewrite Hram. by apply P12.
Qed.

(** Without interference these are the functions of [Threads] and [UserInit]. *)
Section Quiet.
  Context {D : Type} `{PortIO D} {O : Type} (aa trampoline : Z).

Definition nobody (o : O) (m : Main D) : O * Main D := (o, m).

Lemma create_thread_quiet q (w : @world D O) :
  create_thread trampoline nobody q w =
    let! (s, r) := perform trampoline q (sys (snd w)) in Done (put w (with_sys (snd w) s), r).
Proof.
  destruct w as [o m]. rewrite perform_in_two_halves. unfold create_thread, meanwhile, nobody, put. cbn [fst snd].
  destruct (request_slot q (sched (sys m))) as [[x [id|e]]|]; done.
Qed.

Lemma user_init_quiet (w : @world D O) b :
  user_init aa trampoline nobody w b =
    let! (s, r) := User.init aa (sys (snd w)) b in Done (put w (with_sys (snd w) s), r).
Proof.
  destruct w as [o m]. unfold user_init, User.init, start_service, map_service. destruct (has_user_image b); [|by destruct m].
  cbn [negb]. unfold meanwhile at 1, nobody, kernel_of. cbn [fst snd].
  destruct (alloc_frames (mem (sys m)) User.USER_STACK_PAGES) as [[k [st|]]|]; try done. cbn [exec_bind].
  unfold put, meanwhile, nobody. cbn [fst snd sys with_kernel with_sys mem with_mem].
  destruct (page_arena aa k) as [[arena p] f].
  destruct (map_user_region aa arena p f (User.mappings b st)) as [[arena2 [mp|e]]|]; try done. cbn [exec_bind].
  rewrite create_thread_quiet. cbn [snd with_log put sys with_sys fst perform].
  match goal with |- exec_bind (exec_bind ?x _) _ = exec_bind (exec_bind ?y _) _ => change y with x; destruct x as [[s [id|e]]|] end; done.
Qed.

End Quiet.

(** ** What the reports mean *)
Section Reports.
  Context {D : Type} `{PortIO D} {O : Type}.
  Context (aa idle_main trampoline : Z).
  Context (others : O -> Main D -> O * Main D) (steps : O -> Main D -> O * Main D * Result unit Failure).
  Context (b : BootInfo) (ist : PhysRange).
  #[local] Notation world := (@world D O).

(** Relations between worlds, one after the other; [sees P]: the boot thread
    looks, possibly several times, until it finds [P]. *)
Definition comp (R S : world -> world -> Prop) : world -> world -> Prop := fun w w' => exists v, R w v /\ S v w'.
#[local] Infix "⨟" := comp (at level 60, right associativity).

Definition waits (w w' : world) : Prop := exists n, w' = Nat.iter n (meanwhile others) w.
Definition sees (P : world -> Prop) (w w' : world) : Prop := waits w w' /\ P w'.
Definition says (line : world -> Line) (w w' : world) : Prop := w' = put w (kinfo (snd w) (line w)).
Definition does (f : Main D -> Main D) (w w' : world) : Prop := w' = put w (f (snd w)).

Definition spare_count (m : Main D) : Z := Z.of_nat (base.size (kernel_spare (mem (sys m)))).
Definition held (w : world) : Z := held_count (flags (snd w)).

(** A thread was registered, and later got its stack and first frame. *)
Definition created (q : request) (id : Z) : world -> world -> Prop :=
  (fun w w' => exists v x, waits w v /\ request_slot q (sched (sys (snd v))) = Done (x, Ok id) /\
     does (fun m => with_sys m (with_sched (sys m) x)) v w') ⨟
  (fun w w' => exists v s, waits w v /\ complete trampoline q (sys (snd v)) id = Done (s, Ok id) /\
     does (fun m => with_sys m s) v w').

(** The checks of [main.rs], passed. *)
Definition clock_passed (w w' : world) : Prop :=
  exists v, waits (put w (with_flags (snd w) (enable_interrupts (flags (snd w))))) v /\ 3 <= st_ticks (stats_of v) /\
    (waits ⨟ says (fun w => ClockRuns (st_ticks (stats_of v)) (st_switches (stats_of w)))) v w'.

Definition canaries_passed : world -> world -> Prop :=
  sees (fun w => canary_at w (range_start ist) = true) ⨟ sees (fun w => canary_at w (range_start ist + 4096) = true).

Definition probe_passed (w w' : world) : Prop :=
  exists v v1 k r v2 k2, waits w v /\ waits v v1 /\ alloc_frames (kernel_of v1) 1 = Done (k, Some r) /\
    waits (put v1 (with_kernel (snd v1) k)) v2 /\ free_frames (kernel_of v2) r = Done (k2, Ok tt) /\
    waits (put v2 (with_kernel (snd v2) k2)) w' /\ spare_count (snd w') = spare_count (snd v).

Definition idle_passed (w w' : world) : Prop :=
  exists id, (created (IdleThread idle_main) id ⨟ says (fun _ => IdleCreated id)) w w'.

(** Steps 5 and 6 of [self_check::run]: with [n] frames free before it. *)
Definition settled_passed (n : Z) : world -> world -> Prop :=
  sees (fun w => st_live (stats_of w) = 2) ⨟ sees (fun w => st_ready (stats_of w) = 0) ⨟
  sees (fun w => has_state w 0 Running = true) ⨟
  (fun w w' => exists v, waits w v /\ sees (fun w => has_state w (idle (sched (sys (snd v)))) Ready = true) v w') ⨟
  sees (fun w => CANARY_FAILURES (sys (snd w)) = 0) ⨟ sees (fun w => spare_count (snd w) = n) ⨟
  sees (fun w => held w = 0) ⨟
  (fun w w' => exists v g l, waits w v /\ acquire (flags (snd v)) ROUND_ROBIN_LOCK = Done (g, l) /\ held_count l = 1 /\
     does (fun m => with_flags m (drop_guard g l)) v w') ⨟
  sees (fun w => held w = 0).

Definition scheduler_passed (w w' : world) : Prop :=
  exists v o m u, waits w v /\ steps (fst v) (snd v) = (o, m, Ok tt) /\ settled_passed (spare_count (snd v)) (o, m) u /\
    (waits ⨟ says (fun w => let x := stats_of w in SchedChecked (st_ticks x) (st_switches x) (st_live x))) u w'.

(** The service was started, has made its call, and no thread is left but the
    boot thread and idle. *)
Definition service_passed : world -> world -> Prop :=
  (fun w w' => exists id, user_init aa trampoline others w b = Done (w', Ok id)) ⨟
  sees (fun w => User.reached_cpl3 (sys (snd w)) = true) ⨟ sees (fun w => st_live (stats_of w) = 2).

(** The end: the last lines, the exit code, interrupts off. *)
Definition success_reported (w : world) (m' : Main D) : Prop :=
  exists w1 w2 w3 last, waits w w1 /\ waits w1 w2 /\ waits w2 w3 /\
    User.elapsed_ticks (sys (snd w1)) <> 0 /\ Gdt.rsp0 (segments (sys (snd w2))) <> 0 /\
    console m' = console (snd w3) ++
      [(Logging.Info, ServiceChecked (User.syscall_cs (sys (snd w3))) (User.elapsed_ticks (sys (snd w1)))
                        (Gdt.rsp0 (segments (sys (snd w2)))));
       (Logging.Info, InterruptsClosed); (Logging.Info, AllChecked); (Logging.Info, last)] /\
    IF (flags m') = false /\
    ports (sys m') = (if bi_exit_port b =? 0 then ports (sys (snd w3))
                      else outb (ports (sys (snd w3))) (bi_exit_port b mod 2 ^ 16) EXIT_VALUE_KERNEL_OK).

Definition succeeded (w : world) (m' : Main D) : Prop :=
  exists w', (clock_passed ⨟ canaries_passed ⨟ probe_passed ⨟ sees (fun w => held w = 0) ⨟ idle_passed ⨟
              scheduler_passed ⨟ service_passed) w w' /\ success_reported w' m'.

(** A failed check: what the machine shows when it is reported. *)
Definition no_frames (m : Main D) (n : Z) : Prop := exists k, alloc_frames (mem (sys m)) n = Done (k, None).
Definition all_used (m : Main D) : Prop := forall id, get (Sched.states (sched (sys m))) id <> Some Unused.

Definition creation_failure (e : CreateError) (m : Main D) : Prop :=
  match e with NoFreeSlot => all_used m | NoStack => no_frames m THREAD_STACK_PAGES end.

Definition settled_failure (f : Failure) (m : Main D) : Prop :=
  let x := Sched.stats (sched (sys m)) in
  let held := held_count (flags m) in
  f = failure 5 "仍在等待线程退出/回收" (st_live x) \/ f = failure 5 "就绪队列应为空" (st_ready x) \/
  f = failure 5 "引导上下文不在运行状态" 0 \/ (exists id, f = failure 5 "空闲线程不在就绪状态" id) \/
  f = failure 5 "有线程栈金丝雀被破坏" (CANARY_FAILURES (sys m)) \/
  f = failure 5 "页帧数没有回到预期值（线程栈泄漏？）" (spare_count m) \/
  f = failure 6 "自检结束时仍持有锁" held \/ f = failure 6 "取锁后 held_count 应为 1" held \/
  f = failure 6 "放锁后 held_count 应回到 0" held.

Definition init_failure (e : User.InitError) (m : Main D) : Prop :=
  match e with
  | User.NoUserImage => has_user_image b = false
  | User.NoStack => no_frames m User.USER_STACK_PAGES
  | User.Map e => exists st, mapping_answer b st = Err e
  | User.Thread e => creation_failure e m
  end.

Definition run_failure (v : Z) (line : Line) (m : Main D) : Prop :=
  match line with
  | ClockSilent => v = EXIT_VALUE_KERNEL_SCHED_FAILURE /\ st_ticks (Sched.stats (sched (sys m))) < 3
  | IstCanaryDestroyed => v = EXIT_VALUE_KERNEL_SCHED_FAILURE /\
      (read64 (phys (mem (sys m))) (range_start ist) <> STACK_CANARY \/
       read64 (phys (mem (sys m))) (range_start ist + 4096) <> STACK_CANARY)
  | NoProbe => v = EXIT_VALUE_KERNEL_SCHED_FAILURE /\ no_frames m 1
  | FramesNotRestored before after => v = EXIT_VALUE_KERNEL_SCHED_FAILURE /\ after = spare_count m
  | LocksHeld n => v = EXIT_VALUE_KERNEL_SCHED_FAILURE /\ n = held_count (flags m)
  | IdleFailed e => v = EXIT_VALUE_KERNEL_SCHED_FAILURE /\
      (creation_failure e m \/ (e = NoFreeSlot /\ idle (sched (sys m)) <> NO_THREAD))
  | SchedCheckFailed f => v = EXIT_VALUE_KERNEL_SCHED_FAILURE /\
      ((exists o m0 w, steps o m0 = (w, Err f)) \/ settled_failure f m)
  | UserInitFailed e => v = EXIT_VALUE_USER_FAILURE /\ init_failure e m
  | ServiceMissing live cpl3 => v = EXIT_VALUE_USER_FAILURE /\ cpl3 = User.reached_cpl3 (sys m)
  | ServiceWithoutTicks => v = EXIT_VALUE_USER_FAILURE /\ User.elapsed_ticks (sys m) = 0
  | Rsp0NotSet => v = EXIT_VALUE_USER_FAILURE /\ Gdt.rsp0 (segments (sys m)) = 0
  | _ => False
  end.

(** How the sequence, or a part of it, ends. *)
Definition reports_failure (v : Z) (m' : Main D) : Prop :=
  exists line, stopped (bi_exit_port b) v line m' /\ run_failure v line m'.

End Reports.

(** ** The invariant of the boot thread *)
Section Steady.
  Context {D : Type} `{PortIO D} {O : Type}.
  Context (aa idle_main trampoline : Z).
  Context (others : O -> Main D -> O * Main D) (steps : O -> Main D -> O * Main D * Result unit Failure).
  Context (b : BootInfo) (arena0 : list Z) (map : MemoryMap) (t : PageTables) (ist : PhysRange).

(** Between two accesses of the boot thread: the invariant of [Threads], with
    [oth] the pages lent to others than threads and [un] the threads that wait
    for their stack; no such page in the page tables; the lock of the
    self-check is free; the exit port is the one of [BootInfo]. *)
Record calm (un oth : gset Z) (m : Main D) : Prop := mkCalm {
  cm_pool : exists ctx, pool_with (boot_stack b) oth un (sys m) ctx;
  cm_pages : forall p, p ∈ lent (mem (sys m)) ∪ spare (mem (sys m)) -> p + PAGE_SIZE <= aa \/ aa + ARENA_BYTES <= p;
  cm_lock : ROUND_ROBIN_LOCK ∉ locked (flags m);
  cm_port : EXIT_PORT m = bi_exit_port b
}.

Definition calm_w (un oth : gset Z) (w : @world D O) : Prop := calm un oth (snd w).

(** What interrupts and other threads keep: the invariant, also while a thread
    waits for its stack, and the page tables.  The steps of the self-check
    keep them when they succeed. *)
Record fair : Prop := mkFair {
  fair_calm : forall o m un oth, calm un oth m -> calm un oth (snd (others o m));
  fair_arena : forall o m un oth, calm un oth m -> arena_of aa (sys (snd (others o m))) = arena_of aa (sys m);
  fair_steps : forall o m oth, calm ∅ oth m ->
    match steps o m with
    | (_, m', Ok _) => calm ∅ oth m' /\ arena_of aa (sys m') = arena_of aa (sys m)
    | (_, m', Err _) => EXIT_PORT m' = bi_exit_port b
    end
}.

(** What does not change: the tables that [install] built, [BootInfo], the
    boot stack. *)
Record fixed (arena : list Z) : Prop := mkFixed {
  fx_input : build_input aa arena0 map M2;
  fx_len : len arena0 = ARENA_BYTES;
  fx_build : build aa arena0 map M2 = Done (arena, Ok t);
  fx_boot : apart (boot_stack b) (mkRange aa ARENA_BYTES);
  fx_info : is_u64 (user_vaddr b) /\ is_u64 (user_entry b) /\ 0 <= user_phys b /\ 0 <= user_size b /\
            user_vaddr b + user_size b <= U64_MAX /\ user_phys b + user_size b <= 2 ^ 52
}.

  Context (Hfair : fair) (arena : list Z) (Hfixed : fixed arena).
  Context (Htr : is_u64 trampoline) (Hidle : is_u64 idle_main).

  #[local] Notation port := (bi_exit_port b).
  #[local] Notation SCHED := EXIT_VALUE_KERNEL_SCHED_FAILURE.
  #[local] Notation USER := EXIT_VALUE_USER_FAILURE.
  #[local] Notation meanwhile := (meanwhile others).
  #[local] Notation waits := (waits others).
  #[local] Notation world := (@world D O).
  #[local] Notation failed_with := (run_failure steps b ist).
  #[local] Notation reports := (reports_failure steps b ist).

(** Before the service is mapped the arena holds the tables of [install]. *)
Definition steady (oth : gset Z) (w : world) : Prop := calm_w ∅ oth w /\ arena_of aa (sys (snd w)) = arena.

Lemma waits_here w : waits w w.
Proof. by exists 0%nat. Qed.

Lemma waits_meanwhile w w' : waits (meanwhile w) w' -> waits w w'.
Proof. intros [n ->]. exists (S n). by rewrite Nat.iter_succ_r. Qed.

Lemma waits_once w : waits w (meanwhile w).
Proof. apply waits_meanwhile, waits_here. Qed.

Lemma waits_trans w1 w2 w3 : waits w1 w2 -> waits w2 w3 -> waits w1 w3.
Proof. intros [n ->] [k ->]. exists (k + n)%nat. by rewrite Nat.iter_add. Qed.

(** Polling is looking again and again. *)
Lemma wait_until_sees (poll : world -> bool * world) budget w w' :
  (forall w, waits w (snd (poll w))) -> wait_until poll budget w = (true, w') ->
  exists v, waits w v /\ poll v = (true, w').
Proof.
  intros Hp. unfold wait_until. generalize (Z.to_nat budget) as n. intros n. revert w.
  induction n as [|n IH]; intros w; cbn [wait_loop]; pose proof (Hp w) as Hw; destruct (poll w) as [[] w1] eqn:E;
    cbn [snd] in Hw; intros Ew; simplify_eq.
  - exists w. by split; [apply waits_here|].
  - exists w. by split; [apply waits_here|].
  - destruct (IH w1 Ew) as (v & Hv & Ev). exists v. split; [by apply (waits_trans w w1)|done].
Qed.

Lemma wait_for_ticks_sees wanted w r w' :
  wait_for_ticks (fun w => let w := meanwhile w in (st_ticks (stats_of w), w)) wanted w = (r, w') ->
  waits w w' /\ match r with
                | Some v => v = st_ticks (stats_of w') /\ wanted <= v
                | None => st_ticks (stats_of w') < wanted
                end.
Proof.
  unfold wait_for_ticks. generalize (Z.to_nat SPIN_BUDGET) as n. intros n. revert w.
  induction n as [|n IH]; intros w; cbn [ticks_loop]; destruct (Z.leb_spec wanted (st_ticks (stats_of (meanwhile w))));
    intros E; simplify_eq; try (split; [apply waits_once|done]).
  destruct (IH _ E) as [Hw Hr]. split; [by apply waits_meanwhile|exact Hr].
Qed.

Lemma calm_meanwhile un oth w : calm_w un oth w -> calm_w un oth (meanwhile w).
Proof. apply (fair_calm Hfair). Qed.

Lemma steady_meanwhile oth w : steady oth w -> steady oth (meanwhile w).
Proof.
  intros [Hc Ha]. split; [by apply calm_meanwhile|]. rewrite <- Ha. by apply (fair_arena Hfair _ _ ∅ oth).
Qed.

Lemma calm_say un oth w line : calm_w un oth w -> calm_w un oth (put w (kinfo (snd w) line)).
Proof. intros []. by constructor. Qed.

Lemma steady_say oth w line : steady oth w -> steady oth (put w (kinfo (snd w) line)).
Proof. intros [Hc Ha]. split; [by apply calm_say|exact Ha]. Qed.

Lemma calm_frames un oth w : calm_w un oth w -> kernel_frames_ok (kernel_of w).
Proof. intros [[ctx Hp] _ _ _]. exact (po_source _ _ _ _ Hp). Qed.

Lemma calm_count un oth w : calm_w un oth w -> frames_free (kernel_of w) = Done (spare_count (snd w)).
Proof. intros Hc. apply frames_free_eq. by apply (calm_frames un oth). Qed.

(** A report of failure tells what the machine shows. *)
Lemma fail_reports {A : Type} (m : Main D) v line :
  EXIT_PORT m = port -> failed_with v line m ->
  exists m', fail (A := A) m line v = Done (Halt v m') /\ reports v m'.
Proof.
  intros Hp Hf. destruct (fail_stopped (A := A) m port v line Hp) as (m' & E & Hst). exists m'. split; [exact E|].
  exists line. split; [exact Hst|]. clear Hst. unfold fail, finish in E.
  destruct (critical (flags (kerror m line))) as [g l] eqn:Ec.
  assert (Hh : HELD l = HELD (flags m)).
  { unfold critical, enter in Ec. injection Ec as _ <-. by destruct (interrupts_enabled _). }
  assert (Hsame : (exists d, sys m' = with_ports (sys m) d) /\ flags m' = l).
  { injection E as <-. destruct (EXIT_PORT _ =? 0); cbn [sys kinfo say with_flags with_sys flags kerror].
    - split; [|done]. exists (ports (sys m)). by destruct (sys m).
    - split; [by eexists|done]. }
  destruct Hsame as [[d Hs] Hl]. unfold run_failure, init_failure, creation_failure, settled_failure, no_frames, all_used,
    spare_count, held_count in *. rewrite Hs, Hl, Hh. exact Hf.
Qed.

(** *** Step 9 *)
Lemma await_clock_cases oth w :
  steady oth (put w (with_flags (snd w) (enable_interrupts (flags (snd w))))) ->
  (exists v m', await_clock others w = Done (Halt v m') /\ reports v m') \/
  (exists w', await_clock others w = Done (Next w') /\ clock_passed others w w' /\ steady oth w').
Proof.
  intros Hs. unfold await_clock, clock_passed. set (w0 := put w _) in *.
  set (read := fun w : world => _).
  pose proof (wait_for_ticks_keeps (steady oth) read 3 w0 Hs (fun w Hw => steady_meanwhile oth w Hw)) as Hk.
  destruct (wait_for_ticks read 3 w0) as [r w1] eqn:E. cbn [snd] in Hk.
  apply wait_for_ticks_sees in E as [Hw Hr]. destruct r as [v|].
  - destruct Hr as [-> Hv]. right. eexists. split; [reflexivity|]. split; [|by apply steady_say, steady_meanwhile].
    exists w1. split; [exact Hw|]. split; [exact Hv|]. eexists. split; [apply waits_once|reflexivity].
  - left. exists SCHED. apply (fail_reports (A := world)); [apply Hk|by split].
Qed.

Lemma check_canaries_cases oth w :
  steady oth w ->
  (exists v m', check_canaries others ist w = Done (Halt v m') /\ reports v m') \/
  (exists w', check_canaries others ist w = Done (Next w') /\ canaries_passed others ist w w' /\ steady oth w').
Proof.
  intros Hs. apply steady_meanwhile in Hs. pose proof (waits_once w) as Hw. unfold check_canaries, canaries_passed.
  set (w1 := meanwhile w) in *. destruct (canary_at w1 (range_start ist)) eqn:E1.
  2: { left. exists SCHED. apply (fail_reports (A := world)); [apply Hs|split; [done|left]]. by apply Z.eqb_neq. }
  apply steady_meanwhile in Hs. pose proof (waits_once w1) as Hw2.
  set (w2 := meanwhile w1) in *. destruct (canary_at w2 (range_start ist + 4096)) eqn:E2; cbn [negb].
  2: { left. exists SCHED. apply (fail_reports (A := world)); [apply Hs|split; [done|right]]. by apply Z.eqb_neq. }
  right. exists w2. split; [done|]. split; [|exact Hs]. by exists w1.
Qed.

Lemma check_locks_cases oth w :
  steady oth w ->
  (exists v m', check_locks others w = Done (Halt v m') /\ reports v m') \/
  (exists w', check_locks others w = Done (Next w') /\ sees others (fun w => held w = 0) w w' /\ steady oth w').
Proof.
  intros Hs. apply steady_meanwhile in Hs. pose proof (waits_once w) as Hw. unfold check_locks, sees, held.
  set (w1 := meanwhile w) in *. destruct (Z.eqb_spec (held_count (flags (snd w1))) 0); cbn [negb].
  - right. by exists w1.
  - left. apply steady_meanwhile in Hs. exists SCHED. by apply (fail_reports (A := world)); [apply Hs|].
Qed.

(** Frames taken by the boot thread and given back. *)
Lemma steady_lend oth w k P :
  steady oth w -> kernel_frames_ok k -> P ⊆ kernel_spare (kernel_of w) ->
  kernel_spare k = kernel_spare (kernel_of w) ∖ P -> kernel_lent k = kernel_lent (kernel_of w) ∪ P ->
  phys k = phys (kernel_of w) -> steady (oth ∪ P) (put w (with_kernel (snd w) k)).
Proof.
  intros [[[ctx Hp] Hpg Hlk Hpt] Ha] Hok Hsub Hsp Hl Hph. unfold kernel_of in *. split.
  - constructor; try done; [exists ctx; by apply pool_lend|].
    intros p. cbn [sys snd put with_kernel with_sys with_mem mem]. intros Hin. apply Hpg. revert Hin.
    change (lent k) with (kernel_lent k). change (spare k) with (kernel_spare k). rewrite Hl, Hsp.
    change (lent (mem (sys (snd w)))) with (kernel_lent (mem (sys (snd w)))).
    change (spare (mem (sys (snd w)))) with (kernel_spare (mem (sys (snd w)))). set_solver.
  - rewrite <- Ha. unfold arena_of. cbn [snd put sys with_kernel with_sys with_mem mem]. by rewrite Hph.
Qed.

Lemma steady_return oth w k P :
  steady (oth ∪ P) w -> P ## oth -> kernel_frames_ok k ->
  (forall p, p ∈ P -> p + PAGE_SIZE <= range_start (boot_stack b) \/ top_of (boot_stack b) <= p) ->
  P ⊆ kernel_lent (kernel_of w) ->
  kernel_spare k = kernel_spare (kernel_of w) ∪ P -> kernel_lent k = kernel_lent (kernel_of w) ∖ P ->
  phys k = phys (kernel_of w) -> steady oth (put w (with_kernel (snd w) k)).
Proof.
  intros [[[ctx Hp] Hpg Hlk Hpt] Ha] Hd Hok Hb Hsub Hsp Hl Hph. unfold kernel_of in *. split.
  - constructor; try done; [exists ctx; by apply (pool_return _ _ (sys (snd w)) ctx k P)|].
    intros p. cbn [sys snd put with_kernel with_sys with_mem mem]. intros Hin. apply Hpg. revert Hin.
    change (lent k) with (kernel_lent k). change (spare k) with (kernel_spare k). rewrite Hl, Hsp.
    change (lent (mem (sys (snd w)))) with (kernel_lent (mem (sys (snd w)))).
    change (spare (mem (sys (snd w)))) with (kernel_spare (mem (sys (snd w)))). set_solver.
  - rewrite <- Ha. unfold arena_of. cbn [snd put sys with_kernel with_sys with_mem mem]. by rewrite Hph.
Qed.

(** Taking and returning frames changes nothing but the allocator. *)
Lemma alloc_frames_phys k n k' r : alloc_frames k n = Done (k', r) -> phys k' = phys k.
Proof. intros E. unfold alloc_frames in E. repeat step_exec. done. Qed.

Lemma free_frames_phys k p k' r : free_frames k p = Done (k', r) -> phys k' = phys k.
Proof. intros E. unfold free_frames in E. repeat step_exec. done. Qed.

(** A refusal leaves the allocator as it was. *)
Lemma alloc_frames_refused k n k' :
  kernel_frames_ok k -> 0 < n <= 1024 -> alloc_frames k n = Done (k', None) -> k' = k.
Proof.
  intros (a & Ea & Hinv & _) Hn. unfold alloc_frames. rewrite Ea.
  destruct (alloc_contiguous_spec a n Hinv) as [(s & a' & -> & _)|[-> _]]; [ulia|done|]. cbn [exec_bind].
  intros [= <-]. unfold with_allocator. rewrite <- Ea. by destruct k.
Qed.

Lemma refused_no_frames (w : world) k n :
  kernel_frames_ok (kernel_of w) -> 0 < n <= 1024 -> alloc_frames (kernel_of w) n = Done (k, None) ->
  no_frames (snd (put w (with_kernel (snd w) k))) n.
Proof. intros Hok Hn E. pose proof (alloc_frames_refused _ _ _ Hok Hn E) as ->. exists (kernel_of w). exact E. Qed.

Lemma probe_frames_cases oth w :
  steady oth w ->
  (exists v m', probe_frames others w = Done (Halt v m') /\ reports v m') \/
  (exists w', probe_frames others w = Done (Next w') /\ probe_passed others w w' /\ steady oth w').
Proof.
  intros Hs. apply steady_meanwhile in Hs as Hs1. unfold probe_frames. set (w1 := meanwhile w) in *.
  rewrite (calm_count ∅ oth w1 (proj1 Hs1)). cbn [exec_bind].
  apply steady_meanwhile in Hs1 as Hs2. set (w2 := meanwhile w1) in *.
  pose proof (calm_frames ∅ oth w2 (proj1 Hs2)) as Hok2.
  destruct (alloc_frames_law (kernel_of w2) 1 Hok2) as
    [(r & k & E & Hok & Hlen & Hd & Hlo & Hhi & Hsub & Hsp & Hl)|(k & E & _)]; [lia| |]; rewrite E; cbn [exec_bind].
  2: { left. exists SCHED. apply (fail_reports (A := world)); [apply Hs2|]. split; [done|].
       apply (refused_no_frames w2 k 1 Hok2); [lia|exact E]. }
  set (P := list_to_set (range_pages r)) in *. set (w3 := put w2 (with_kernel (snd w2) k)).
  assert (Hs3 : steady (oth ∪ P) w3) by (apply steady_lend; try done; by apply (alloc_frames_phys _ _ _ _ E)).
  apply steady_meanwhile in Hs3 as Hs4. set (w4 := meanwhile w3) in *.
  pose proof (proj1 Hs2) as [[ctx Hpool] _ _ _].
  assert (Hdis : P ## oth).
  { intros p Hp Ho. apply (lent_spare _ (po_source _ _ _ _ Hpool) p); [|by apply Hsub].
    apply (po_lent _ _ _ _ Hpool). by left. }
  assert (Hbt : forall p, p ∈ P -> p + PAGE_SIZE <= range_start (boot_stack b) \/ top_of (boot_stack b) <= p).
  { intros p Hp. apply (po_spare _ _ _ _ Hpool). by apply Hsub. }
  assert (Hin4 : P ⊆ kernel_lent (kernel_of w4)).
  { intros p Hp. destruct (proj1 Hs4) as [[ctx4 Hp4] _ _ _]. apply (po_lent _ _ _ _ Hp4). left. set_solver. }
  destruct (free_frames_law (kernel_of w4) r (calm_frames _ _ _ (proj1 Hs4))) as (k5 & E5 & Hok5 & Hsp5 & Hl5);
    [unfold MIN_FREE_ADDR in Hlo; lia|done|by rewrite Hlen; exists 1|rewrite Hlen; unfold PAGE_SIZE; lia|done|done|].
  rewrite E5. cbn [exec_bind]. set (w5 := put w4 (with_kernel (snd w4) k5)).
  assert (Hs5 : steady oth w5).
  { apply (steady_return oth w4 k5 P); try done. by apply (free_frames_phys _ _ _ _ E5). }
  apply steady_meanwhile in Hs5 as Hs6. set (w6 := meanwhile w5) in *.
  rewrite (calm_count ∅ oth w6 (proj1 Hs6)). cbn [exec_bind].
  destruct (Z.eqb_spec (spare_count (snd w6)) (spare_count (snd w1))) as [Eq|Hne]; cbn [negb].
  - right. exists w6. split; [done|]. split; [|exact Hs6]. exists w1, w2, k, r, w4, k5.
    repeat split; try done; apply waits_once.
  - left. apply steady_meanwhile in Hs6 as Hs7. rewrite (calm_count ∅ oth _ (proj1 Hs7)). cbn [exec_bind].
    exists SCHED. by apply (fail_reports (A := world)); [apply Hs7|].
Qed.

(** *** Step 10 *)
Lemma one_unmade (id : Z) : id ∈ ({[id]} ∪ ∅ : gset Z) /\ ({[id]} ∪ ∅ : gset Z) ∖ {[id]} = ∅.
Proof. set_solver. Qed.

(** A stack off the arena, its first frame written: the page tables stay. *)
Lemma placed_steady oth (w : world) un ctx q id st k W e u :
  pool_with (boot_stack b) oth un (sys (snd w)) ctx -> un ∖ {[id]} = ∅ -> id ∈ un -> calm_w un oth w ->
  stack_shape st -> kernel_frames_ok k ->
  list_to_set (range_pages st) ⊆ kernel_spare (kernel_of w) ->
  kernel_spare k = kernel_spare (kernel_of w) ∖ list_to_set (range_pages st) ->
  kernel_lent k = kernel_lent (kernel_of w) ∪ list_to_set (range_pages st) -> phys k = phys (kernel_of w) ->
  (forall m a n, a + n <= start_frame st \/ start_frame st + size_of_IrqFrame <= a -> same_on a n (W m) m) ->
  (forall m, irq_frame_at (W m) (start_frame st) = frame_of (start_context trampoline q id st) Idt.YIELD_VECTOR) ->
  at_home st u (start_context trampoline q id st) ->
  let w' := put w (with_sys (snd w) (placed (sys (snd w)) k (sched (sys (snd w))) W id e u st)) in
  calm_w ∅ oth w' /\ arena_of aa (sys (snd w')) = arena_of aa (sys (snd w)).
Proof.
  intros Hp Hun Hid [_ Hpg Hlk Hpt] T1 T2 T3 T4 T5 T6 T7 T8 T9 w'. unfold kernel_of in *.
  pose proof (place_filled (boot_stack b) oth (sys (snd w)) k ctx W id e u st _ Hp Hid T1 T3 T2 T4 T5 T6 T7 T8 T9) as Hp'.
  rewrite Hun in Hp'. split.
  - constructor; [by eexists| |done|done]. intros p Hin. apply Hpg. revert Hin.
    cbn [w' snd put sys with_sys placed with_slots with_ram with_mem with_sched mem].
    change (lent (set_ram k _)) with (kernel_lent k). change (spare (set_ram k _)) with (kernel_spare k). rewrite T4, T5.
    change (lent (mem (sys (snd w)))) with (kernel_lent (mem (sys (snd w)))).
    change (spare (mem (sys (snd w)))) with (kernel_spare (mem (sys (snd w)))). set_solver.
  - assert (Hst : apart st (mkRange aa ARENA_BYTES)).
    { apply stack_apart_boot; [done|done|]. intros p Hin. apply Hpg, elem_of_union. right. apply T3.
      by apply elem_of_list_to_set. }
    unfold apart, top_of in Hst. cbn [range_start range_len] in Hst.
    apply read_bytes_ext. cbn [w' snd put sys with_sys placed with_slots with_ram with_mem with_sched mem].
    change (phys (set_ram k ?x)) with x. change (ram k) with (phys k). rewrite T6.
    apply (proj1 (placed_memory _ W st T1 T7)). unfold top_of. lia.
Qed.

(** Creating a thread: it is made, or nothing was free. *)
Lemma create_thread_cases oth q (w : world) :
  calm_w ∅ oth w -> request_ok q ->
  exists w' r, create_thread trampoline others q w = Done (w', r) /\ EXIT_PORT (snd w') = port /\
    match r with
    | Ok id => created trampoline others q id w w' /\ calm_w ∅ oth w' /\
        arena_of aa (sys (snd w')) = arena_of aa (sys (snd w))
    | Err e => creation_failure e (snd w') \/
        (e = NoFreeSlot /\ idle (sched (sys (snd w'))) <> NO_THREAD /\ exists z, q = IdleThread z)
    end.
Proof.
  intros Hs Hq. pose proof (calm_meanwhile ∅ oth w Hs) as Hs1. unfold create_thread.
  pose proof (fair_arena Hfair (fst w) (snd w) ∅ oth Hs) as Ha1. change (others (fst w) (snd w)) with (meanwhile w) in Ha1.
  pose proof (waits_once w) as Hw1. set (w1 := meanwhile w) in *.
  pose proof Hs1 as [[ctx Hp] Hpg Hlk Hpt].
  destruct (request_slot_spec q (sched (sys (snd w1))) (po_sched _ _ _ _ Hp)) as
    [(x & id & E & I1 & I2 & I3 & I4 & _)|(e & E & Hfull)]; rewrite E; cbn [exec_bind].
  2: { eexists _, _. split; [reflexivity|]. split; [exact Hpt|]. destruct Hfull as [Hf|[Hi Hz]]; [left; exact Hf|right].
       by split_and!. }
  set (w2 := put w1 _).
  pose proof (pool_register (boot_stack b) oth (sys (snd w1)) ctx id x Hp I3 I1 I4 I2) as Hp2.
  assert (Hs2 : calm_w ({[id]} ∪ ∅) oth w2) by (constructor; [by exists ctx|done..]).
  pose proof (calm_meanwhile _ oth w2 Hs2) as Hs3. pose proof (waits_once w2) as Hw3.
  pose proof (fair_arena Hfair (fst w2) (snd w2) _ oth Hs2) as Ha3.
  change (others (fst w2) (snd w2)) with (meanwhile w2) in Ha3. set (w3 := meanwhile w2) in *.
  pose proof Hs3 as [[ctx3 Hp3] Hpg3 Hlk3 Hpt3]. pose proof (one_unmade id) as [Hid Hun].
  destruct (complete_spec (boot_stack b) oth trampoline Htr q (sys (snd w3)) ctx3 id Hp3 Hid Hq) as
    [(st & k & W & z & u & E3 & T1 & T2 & T3 & T4 & T5 & T6 & T7 & T8 & T9)|(k & E3 & T1 & T2 & T3 & T4)];
    rewrite E3; cbn [exec_bind].
  - destruct (placed_steady oth w3 ({[id]} ∪ ∅) ctx3 q id st k W z u Hp3 Hun Hid Hs3 T1 T2 T3 T4 T5 T6 T7 T8 T9) as [C1 C2].
    eexists _, _. split; [reflexivity|]. split; [apply C1|]. split; [|split; [exact C1|]].
    + exists w2. split; [exists w1, x; split; [exact Hw1|split; [exact E|reflexivity]]|].
      eexists w3, _. split; [exact Hw3|split; [exact E3|reflexivity]].
    + rewrite C2, Ha3. exact Ha1.
  - eexists _, _. split; [reflexivity|]. split; [exact Hpt3|]. left.
    assert (Et : alloc_frames (kernel_of w3) THREAD_STACK_PAGES = Done (k, None)).
    { clear - E3. unfold kernel_of. destruct q; cbn [complete] in E3; try unfold create_with_id in E3;
        change (take_frames (mem (sys (snd w3)))) with (alloc_frames (mem (sys (snd w3)))) in E3;
        destruct (alloc_frames (mem (sys (snd w3))) THREAD_STACK_PAGES) as [[k' [r|]]|]; cbn [exec_bind] in E3;
        repeat (step_exec || case_match); simplify_eq; done. }
    apply (refused_no_frames w3 k _ (calm_frames _ _ _ Hs3)); [by split|exact Et].
Qed.

Lemma start_idle_cases oth w :
  steady oth w ->
  (exists v m', start_idle idle_main trampoline others w = Done (Halt v m') /\ reports v m') \/
  (exists w', start_idle idle_main trampoline others w = Done (Next w') /\
     idle_passed idle_main trampoline others w w' /\ steady oth w').
Proof.
  intros [Hc Ha]. unfold start_idle.
  destruct (create_thread_cases oth (IdleThread idle_main) w Hc Hidle) as (w' & [id|e] & -> & Hpt & Hr); cbn [exec_bind].
  - destruct Hr as (Hcr & Hc' & Ha'). right. eexists. split; [reflexivity|]. split.
    + exists id, w'. split; [exact Hcr|reflexivity].
    + apply steady_say. split; [exact Hc'|by rewrite Ha'].
  - left. exists SCHED. apply (fail_reports (A := world)); [exact Hpt|]. split; [done|].
    destruct Hr as [Hr|(He & Hi & _)]; [by left|by right].
Qed.

(** A computation of the self-check comes to a result: success with [Q], or
    the failure of a check. *)
Definition outcome (oth : gset Z) (Q : world -> Prop) (r : exec (world * Result unit Failure)) : Prop :=
  exists w r', r = Done (w, r') /\
    match r' with
    | Ok _ => steady oth w /\ Q w
    | Err f => EXIT_PORT (snd w) = port /\ settled_failure f (snd w)
    end.

Lemma outcome_mono oth (Q Q' : world -> Prop) r :
  (forall w, Q w -> Q' w) -> outcome oth Q r -> outcome oth Q' r.
Proof. intros HQ (w & [] & E & Hr); eexists w, _; (split; [exact E|]); [|exact Hr]. split; [apply Hr|apply HQ, Hr]. Qed.

#[local] Infix "⨟" := comp (at level 60, right associativity).

Lemma demand_outcome oth (P : world -> Prop) (R : world -> world -> Prop) w test f k :
  steady oth w -> (forall v, test v = true -> P v) -> (forall v, settled_failure (f v) (snd v)) ->
  (forall v, steady oth v -> outcome oth (R v) (k v)) ->
  outcome oth ((sees others P ⨟ R) w) (demand others w test f k).
Proof.
  intros Hs HP Hf Hk. apply steady_meanwhile in Hs as Hs1. unfold demand. pose proof (waits_once w) as Hw.
  set (w1 := meanwhile w) in *. destruct (test w1) eqn:Et.
  - apply (outcome_mono oth (R w1)); [|by apply Hk]. intros w' HR. exists w1. split; [by split; [|apply HP]|exact HR].
  - apply steady_meanwhile in Hs1 as Hs2. eexists _, _. split; [reflexivity|]. split; [apply Hs2|apply Hf].
Qed.

Lemma acquire_not_locked l a :
  a ∉ locked l -> acquire l a =
    Done (mkGuard a (mkCritical (IF l)), mkLocks false ((HELD l + 1) mod 2 ^ 64) ({[a]} ∪ locked l)).
Proof.
  intros Ha. unfold acquire, Lock.lock, enter, grab, spin, swap_true, interrupts_enabled, disable_interrupts.
  destruct (IF l) eqn:Ei; cbn [locked IF HELD]; rewrite bool_decide_eq_false_2 by done; [reflexivity|].
  unfold fetch_add. cbn [IF HELD locked]. by rewrite Ei.
Qed.

Lemma check_held_outcome oth w :
  steady oth w ->
  outcome oth
    ((sees others (fun w => held w = 0) ⨟
      (fun w w' => exists v g l, waits w v /\ acquire (flags (snd v)) ROUND_ROBIN_LOCK = Done (g, l) /\
         held_count l = 1 /\ does (fun m => with_flags m (drop_guard g l)) v w') ⨟
      sees others (fun w => held w = 0)) w)
    (check_held others w).
Proof.
  intros Hs. unfold check_held. apply demand_outcome; [done|intros v; apply Z.eqb_eq|unfold settled_failure; tauto|].
  clear w Hs. intros w Hs. apply steady_meanwhile in Hs as Hs1. pose proof (waits_once w) as Hw.
  set (w1 := meanwhile w) in *. pose proof (acquire_not_locked _ _ (cm_lock _ _ _ (proj1 Hs1))) as Ea. rewrite Ea.
  set (g := mkGuard _ _) in *. set (l := mkLocks _ _ _) in *. cbn [exec_bind]. cbv zeta.
  cbn [snd put flags with_flags].
  set (w2 := put (put w1 _) _).
  assert (Hs2 : steady oth w2).
  { destruct Hs1 as [[A1 A2 A3 A4] A5]. split; [constructor; try done|exact A5].
    cbn [w2 snd put flags with_flags]. unfold drop_guard, drop_critical, release, store_false. destruct (restore _);
      cbn [locked enable_interrupts]; intros [_ Hn]%elem_of_difference; by apply Hn, elem_of_singleton. }
  destruct (Z.eqb_spec (held_count l) 1) as [El|Hne]; cbn [negb].
  - apply (outcome_mono oth ((sees others (fun w => held w = 0) ⨟ eq) w2)).
    + intros w' (v & Hv & <-). exists w2. split; [|exact Hv]. exists w1, g, l. by split_and!.
    + apply demand_outcome; [done|intros v; apply Z.eqb_eq|unfold settled_failure; tauto|].
      intros v Hv. eexists v, _. split; [reflexivity|by split].
  - apply steady_meanwhile in Hs2 as Hs3. eexists _, _. split; [reflexivity|]. split; [apply Hs3|].
    unfold settled_failure. tauto.
Qed.

Lemma check_settled_outcome oth n (w : world) :
  steady oth w -> outcome oth (settled_passed others n w) (check_settled others n w).
Proof.
  intros Hs. unfold check_settled, settled_passed. set (poll := fun w : world => let w := meanwhile w in (_ =? 2, w)).
  pose proof (wait_until_keeps (steady oth) poll SelfCheck.WAIT_BUDGET w Hs (fun w Hw => steady_meanwhile oth w Hw)) as Hk.
  destruct (wait_until poll SelfCheck.WAIT_BUDGET w) as [[] w1] eqn:E; cbn [snd negb] in *.
  2: { apply steady_meanwhile in Hk as Hk1. eexists _, _. split; [reflexivity|]. split; [apply Hk1|].
       unfold settled_failure. tauto. }
  destruct (wait_until_sees poll _ _ _ waits_once E) as (v & Hv & Ev). injection Ev as El <-.
  match goal with |- outcome _ (comp _ ?R _) _ => set (rest := R) end. apply (outcome_mono oth (rest (meanwhile v))).
  { intros w' Hw'. exists (meanwhile v). split; [|exact Hw']. split; [|by apply Z.eqb_eq].
    apply (waits_trans w v); [done|apply waits_once]. }
  unfold rest. clear rest. revert Hk. generalize (meanwhile v). clear v E El Hv Hs w. intros w Hs.
  apply demand_outcome; [done|intros v; apply Z.eqb_eq|unfold settled_failure; tauto|]. clear w Hs. intros w Hs.
  apply demand_outcome; [done|done|unfold settled_failure; tauto|]. clear w Hs. intros w Hs.
  apply steady_meanwhile in Hs as Hs1. pose proof (waits_once w) as Hw. set (w1 := meanwhile w) in *.
  set (id := idle _). match goal with |- outcome _ (comp _ ?R _) _ => set (rest := R) end.
  apply (outcome_mono oth ((sees others (fun w => has_state w id Ready = true) ⨟ rest) w1)).
  { intros w' (v & Hv & Hr). exists v. split; [by exists w1|exact Hr]. }
  apply demand_outcome; [done|done|unfold settled_failure; eauto 10|]. clear w w1 Hs Hs1 Hw id. intros w Hs. unfold rest.
  apply demand_outcome; [done|intros v; apply Z.eqb_eq|unfold settled_failure; tauto|]. clear w Hs rest. intros w Hs.
  apply steady_meanwhile in Hs as Hs1. pose proof (waits_once w) as Hw. set (w1 := meanwhile w) in *.
  rewrite (calm_count ∅ oth w1 (proj1 Hs1)). cbn [exec_bind].
  destruct (Z.eqb_spec (spare_count (snd w1)) n) as [En|Hne]; cbn [negb].
  - eapply outcome_mono; [|by apply (check_held_outcome oth w1)]. intros w' Hr. exists w1. split; [by split|exact Hr].
  - apply steady_meanwhile in Hs1 as Hs2. rewrite (calm_count ∅ oth _ (proj1 Hs2)). cbn [exec_bind].
    eexists _, _. split; [reflexivity|]. split; [apply Hs2|]. unfold settled_failure. tauto.
Qed.

Lemma check_scheduler_cases oth w :
  steady oth w ->
  (exists v m', check_scheduler others steps w = Done (Halt v m') /\ reports v m') \/
  (exists w', check_scheduler others steps w = Done (Next w') /\ scheduler_passed others steps w w' /\ steady oth w').
Proof.
  intros Hs. unfold check_scheduler, self_check_run, scheduler_passed. apply steady_meanwhile in Hs as Hs1.
  pose proof (waits_once w) as Hw. set (w1 := meanwhile w) in *.
  rewrite (calm_count ∅ oth w1 (proj1 Hs1)). cbn [exec_bind].
  pose proof (fair_steps Hfair (fst w1) (snd w1) oth (proj1 Hs1)) as Hst.
  destruct (steps (fst w1) (snd w1)) as [[o m] [[]|f]] eqn:Es.
  - destruct Hst as [Hc Ha]. assert (Hs2 : steady oth (o, m)) by (split; [exact Hc|etransitivity; [exact Ha|apply Hs1]]).
    destruct (check_settled_outcome oth (spare_count (snd w1)) (o, m) Hs2) as (w2 & [[]|f] & -> & Hr); cbn [exec_bind].
    + destruct Hr as [Hs3 Hr]. right. eexists. split; [reflexivity|]. split; [|by apply steady_say, steady_meanwhile].
      exists w1, o, m, w2. split; [exact Hw|]. split; [exact Es|]. split; [exact Hr|].
      exists (meanwhile w2). split; [apply waits_once|reflexivity].
    + left. exists SCHED. apply (fail_reports (A := world)); [apply Hr|]. split; [done|]. right. apply Hr.
  - cbn [exec_bind]. left. exists SCHED. apply (fail_reports (A := world)); [exact Hst|]. split; [done|]. left. by eexists _, _, _.
Qed.

(** *** Step 11 *)

(** The user stack is lent and the tables are rewritten. *)
Lemma map_service_cases oth w st :
  steady oth w -> stack_shape st ->
  exists w', map_service aa w b st = Done (w', mapping_answer b st) /\ calm_w ∅ oth w'.
Proof.
  intros [[[ctx Hp] Hpg Hlk Hpt] Ha] Hst. destruct Hfixed as [F1 F2 F3 F4 F5].
  assert (Hin : service_input (boot_stack b) oth aa (sys (snd w)) ctx b arena0 map t).
  { constructor; try done. by rewrite Ha. }
  destruct (mapped_views _ _ _ _ _ _ _ _ _ st (mem (sys (snd w))) Hin Hst eq_refl) as (arena2 & E & Hl & _).
  unfold map_service, page_arena. rewrite E. cbn [exec_bind]. eexists. split; [reflexivity|].
  constructor; try done. exists ctx. cbn [snd put sys with_sys].
  apply (pool_write _ _ (sys (snd w)) ctx aa ARENA_BYTES); [done|done| |done|].
  - intros p Hin'. apply Hpg, elem_of_union. by left.
  - intros a n Han. apply copy_to_same_on. by rewrite Hl.
Qed.

Lemma calm_service un oth (w : world) v :
  calm_w un oth w -> calm_w un oth (put w (with_sys (snd w) (with_service (sys (snd w)) v))).
Proof. intros [[ctx []] H2 H3 H4]. constructor; try done. exists ctx. by constructor. Qed.

Lemma calm_log un oth (w : world) line : calm_w un oth w -> calm_w un oth (with_log w line).
Proof. intros [[ctx []] H2 H3 H4]. constructor; try done. exists ctx. by constructor. Qed.

Lemma start_service_cases oth w :
  calm_w ∅ oth w ->
  exists w' r, start_service trampoline others w b = Done (w', r) /\ EXIT_PORT (snd w') = port /\
    match r with Ok _ => calm_w ∅ oth w' | Err e => init_failure b e (snd w') end.
Proof.
  intros Hc. unfold start_service. apply calm_meanwhile in Hc as Hc1. set (w1 := meanwhile w) in *.
  match goal with |- context [create_thread _ _ ?q ?w] =>
    destruct (create_thread_cases oth q w) as (w2 & [id|e] & -> & Hpt & Hr) end;
    [exact (calm_service ∅ oth w1 _ Hc1)|split; [apply (fx_info _ Hfixed)|split; discriminate]| |]; cbn [exec_bind].
  - destruct Hr as (_ & Hc2 & _). apply calm_meanwhile in Hc2 as Hc3. eexists _, _. split; [reflexivity|].
    set (w3 := meanwhile w2) in *.
    split; [exact (cm_port _ _ _ Hc3)|]. apply calm_log. exact (calm_service ∅ oth w3 _ Hc3).
  - eexists _, _. split; [reflexivity|]. split; [exact Hpt|]. destruct Hr as [Hr|(_ & _ & z & Hz)]; [exact Hr|discriminate Hz].
Qed.

Lemma user_init_meanwhile oth w :
  steady oth w ->
  exists w' r, user_init aa trampoline others w b = Done (w', r) /\ EXIT_PORT (snd w') = port /\
    match r with Ok _ => exists oth', calm_w ∅ oth' w' | Err e => init_failure b e (snd w') end.
Proof.
  intros Hs. unfold user_init. destruct (has_user_image b) eqn:Hu; cbn [negb].
  2: { eexists w, _. split; [reflexivity|]. split; [apply Hs|exact Hu]. }
  apply steady_meanwhile in Hs as Hs1. set (w1 := meanwhile w) in *.
  destruct (take_user_stack (sys (snd w1)) (calm_frames ∅ oth w1 (proj1 Hs1))) as
    [(st & k & E & T1 & T2 & T3 & T4 & T5 & T6)|(k & E & _)]; unfold kernel_of; rewrite E; cbn [exec_bind].
  2: { eexists _, _. split; [reflexivity|]. split; [apply Hs1|].
       apply (refused_no_frames w1 k _ (calm_frames ∅ oth w1 (proj1 Hs1))); [by split|exact E]. }
  pose proof (steady_lend oth w1 k (list_to_set (range_pages st)) Hs1 T2 T3 T4 T5 T6) as Hs2.
  apply steady_meanwhile in Hs2 as Hs3. set (w3 := meanwhile (put w1 _)) in *.
  destruct (map_service_cases _ w3 st Hs3 T1) as (w4 & -> & Hc4). cbn [exec_bind].
  destruct (mapping_answer b st) as [mp|e] eqn:Em.
  - destruct (start_service_cases _ _ (calm_log ∅ _ w4 (ServiceMapped (user_phys b) (user_vaddr b) (user_size b / 4096)
                User.USER_STACK_VA (user_entry b) (um_tables_used mp)) Hc4)) as (w' & r & -> & Hpt & Hr).
    eexists _, _. split; [reflexivity|]. split; [exact Hpt|]. destruct r; [by eexists|exact Hr].
  - eexists _, _. split; [reflexivity|]. split; [exact (cm_port _ _ _ Hc4)|]. by exists st.
Qed.

Lemma calm_later un oth w w' : calm_w un oth w -> waits w w' -> calm_w un oth w'.
Proof. intros Hc [n ->]. induction n as [|n IH]; [exact Hc|]. by apply calm_meanwhile. Qed.

Lemma service_done_waits w : waits w (snd (service_done others w)).
Proof.
  unfold service_done. destruct (User.reached_cpl3 _); cbn [snd]; [|apply waits_once].
  apply (waits_trans _ (meanwhile w)); apply waits_once.
Qed.

Lemma run_service_cases oth w :
  steady oth w ->
  (exists v m', run_service aa trampoline others w b = Done (Halt v m') /\ reports v m') \/
  (exists w' oth', run_service aa trampoline others w b = Done (Next w') /\
     service_passed aa trampoline others b w w' /\ calm_w ∅ oth' w').
Proof.
  intros Hs. unfold run_service, service_passed.
  destruct (user_init_meanwhile oth w Hs) as (w1 & [id|e] & E & Hpt & Hr); rewrite E; cbn [exec_bind].
  2: { left. exists USER. by apply (fail_reports (A := world)). }
  destruct Hr as [oth' Hc].
  assert (Hk : forall w', waits w1 w' -> calm_w ∅ oth' w') by (intros w'; by apply calm_later).
  pose proof (wait_until_keeps (waits w1) (service_done others) WAIT_BUDGET w1 (waits_here w1)
                (fun v Hv => waits_trans w1 v _ Hv (service_done_waits v))) as Hw.
  destruct (wait_until (service_done others) WAIT_BUDGET w1) as [[] w2] eqn:Ew; cbn [snd negb] in *.
  - right. exists w2, oth'. split; [done|]. split; [|by apply Hk].
    destruct (wait_until_sees _ _ _ _ service_done_waits Ew) as (v & Hv & Ev). unfold service_done in Ev.
    destruct (User.reached_cpl3 (sys (snd (meanwhile v)))) eqn:Er; [|discriminate Ev]. injection Ev as El <-.
    exists w1. split; [by exists id|]. exists (meanwhile v). split.
    + split; [|exact Er]. apply (waits_trans _ v); [exact Hv|apply waits_once].
    + split; [apply waits_once|by apply Z.eqb_eq].
  - left. exists USER. apply (fail_reports (A := world)); [|by split].
    apply (cm_port ∅ oth'), Hk. apply (waits_trans _ w2); [exact Hw|]. do 2 apply waits_meanwhile. apply waits_here.
Qed.

Lemma conclude_cases oth w :
  calm_w ∅ oth w ->
  (exists v m', conclude others w = Done (Halt v m') /\ reports v m') \/
  (exists m', conclude others w = Done (Halt EXIT_VALUE_KERNEL_OK m') /\ success_reported others b w m').
Proof.
  intros Hc. unfold conclude. apply calm_meanwhile in Hc as Hc1. pose proof (waits_once w) as Hw1. set (w1 := meanwhile w) in *.
  destruct (Z.eqb_spec (User.elapsed_ticks (sys (snd w1))) 0) as [|He].
  { left. exists USER. by apply (fail_reports (A := Empty_set)); [apply Hc1|]. }
  apply calm_meanwhile in Hc1 as Hc2. pose proof (waits_once w1) as Hw2. set (w2 := meanwhile w1) in *.
  destruct (Z.eqb_spec (Gdt.rsp0 (segments (sys (snd w2)))) 0) as [|Hr].
  { left. exists USER. by apply (fail_reports (A := Empty_set)); [apply Hc2|]. }
  apply calm_meanwhile in Hc2 as Hc3. pose proof (waits_once w2) as Hw3. set (w3 := meanwhile w2) in *.
  right. set (line := ServiceChecked _ _ _). destruct (critical (flags (kinfo (snd w3) line))) as [g l] eqn:Ec.
  unfold finish.
  match goal with |- context [critical ?x] => destruct (critical x) as [g' l'] eqn:Ec' end.
  assert (Hif : IF l' = false).
  { unfold critical, enter in Ec'. injection Ec' as _ <-. unfold interrupts_enabled.
    by match goal with |- IF (if ?x then _ else _) = _ => destruct x eqn:? end. }
  eexists. split; [reflexivity|]. exists w1, w2, w3. cbn [EXIT_PORT with_flags kinfo say]. rewrite (cm_port _ _ _ Hc3).
  destruct (port =? 0); eexists;
    (split; [exact Hw1|]; split; [exact Hw2|]; split; [exact Hw3|]; split; [exact He|]; split; [exact Hr|]; split;
      [cbn [console with_flags kinfo say with_sys]; rewrite <- !app_assoc; reflexivity|by split]).
Qed.

(** *** The sequence *)
Lemma kernel_run_outcome oth w :
  steady oth (put w (with_flags (snd w) (enable_interrupts (flags (snd w))))) ->
  exists v m', kernel_run aa idle_main trampoline others steps ist w b = Done (Halt v m') /\
    ((v = EXIT_VALUE_KERNEL_OK /\ succeeded aa idle_main trampoline others steps b ist w m') \/ reports v m').
Proof.
  intros Hs. unfold kernel_run, succeeded.
  destruct (await_clock_cases oth w Hs) as [(v & m' & -> & Hr)|(w1 & -> & R1 & H1)]; cbn [flow_bind exec_bind]; [by eauto|].
  destruct (check_canaries_cases oth w1 H1) as [(v & m' & -> & Hr)|(w2 & -> & R2 & H2)]; cbn [flow_bind exec_bind]; [by eauto|].
  destruct (probe_frames_cases oth w2 H2) as [(v & m' & -> & Hr)|(w3 & -> & R3 & H3)]; cbn [flow_bind exec_bind]; [by eauto|].
  destruct (check_locks_cases oth w3 H3) as [(v & m' & -> & Hr)|(w4 & -> & R4 & H4)]; cbn [flow_bind exec_bind]; [by eauto|].
  destruct (start_idle_cases oth w4 H4) as [(v & m' & -> & Hr)|(w5 & -> & R5 & H5)]; cbn [flow_bind exec_bind]; [by eauto|].
  destruct (check_scheduler_cases oth w5 H5) as [(v & m' & -> & Hr)|(w6 & -> & R6 & H6)]; cbn [flow_bind exec_bind]; [by eauto|].
  destruct (run_service_cases oth w6 H6) as [(v & m' & -> & Hr)|(w7 & oth' & -> & R7 & H7)]; cbn [flow_bind exec_bind]; [by eauto|].
  destruct (conclude_cases oth' w7 H7) as [(v & m' & -> & Hr)|(m' & -> & R8)]; [by eauto|].
  exists EXIT_VALUE_KERNEL_OK, m'. split; [done|]. left. split; [done|]. exists w7. split; [|exact R8].
  exists w1. split; [exact R1|]. exists w2. split; [exact R2|]. exists w3. split; [exact R3|]. exists w4. split; [exact R4|].
  exists w5. split; [exact R5|]. exists w6. by split.
Qed.

End Steady.

(** What the first part leaves, once interrupts are enabled. *)
Lemma booted_steady {D O : Type} `{PortIO D} aa stub b arena0 map t heap ist (o : O) (m : Main D) :
  booted aa stub b arena0 map t heap ist m ->
  steady aa b (arena_of aa (sys m)) (kernel_lent (mem (sys m))) (o, with_flags m (enable_interrupts (flags m))) /\
  fixed aa b arena0 map t (arena_of aa (sys m)).
Proof.
  intros [T1 _ _ _ _ _ _ _ [T10 T11]]. destruct (T1 (fun _ => (boot_cpu, fx_zeroed))) as [V1 V2 V3 V4 V5 V6 V7].
  split; [|by constructor]. split; [|done]. constructor; try done; [by eexists|].
  cbn [snd flags with_flags]. rewrite T10. cbn [locked enable_interrupts]. apply not_elem_of_empty.
Qed.

(** C14 [kernel_main] with interrupts on.  From the state the first part leaves,
    and whatever interrupts and other threads do between the boot thread's
    accesses as long as they keep the thread pool's invariant ([fair]: in
    particular they do not run a thread that has no stack yet) and leave the
    page tables alone, the sequence never panics and always comes to exactly one
    report with interrupts off.  A failure line is reported with the exit code
    of its group and names what the machine shows then: a clock below three
    ticks, a canary that is gone, no frame for the probe, the free frames or
    held locks it counts, no slot or no stack for the idle thread, the failed
    step of the self-check with its value, the reason [user::init] gives, a
    service that has not made its call, a clock that stood still, an empty
    [rsp0].  The report of success comes only after every check has passed: the
    clock, both canaries, the frame count around the probe, no lock held, the
    idle thread, the six steps of the self-check, the service started, its call
    seen from level 3 and then only two threads left, ticks during its life and
    an [rsp0]; its last line shows those values.  The probe frame is always
    given back. *)
Theorem kernel_run_reports {D O : Type} `{PortIO D} aa stub idle_main trampoline
    (others : O -> Main D -> O * Main D) (steps : O -> Main D -> O * Main D * Result unit Failure)
    b arena0 map t heap ist o m :
  booted aa stub b arena0 map t heap ist m -> fair aa others steps b ->
  is_u64 trampoline -> is_u64 idle_main ->
  exists v m', kernel_run aa idle_main trampoline others steps ist (o, m) b = Done (Halt v m') /\
    ((v = EXIT_VALUE_KERNEL_OK /\ succeeded aa idle_main trampoline others steps b ist (o, m) m') \/
     reports_failure steps b ist v m').
Proof.
  intros Hb Hf Htr Hid. destruct (booted_steady aa stub b arena0 map t heap ist o m Hb) as [Hs Hfix].
  exact (kernel_run_outcome aa idle_main trampoline others steps b arena0 map t ist Hf _ Hfix Htr Hid _ (o, m) Hs).
Qed.

(** ** An example: the machine of [KMemory] on which only the clock runs *)
Definition tick_on (n : nat) (m : Main Board.board) : nat * Main Board.board :=
  (S n, with_sys m (with_sched (sys m) (set_ticks (sched (sys m)) (ticks (sched (sys m)) + 1)))).
Definition no_steps (n : nat) (m : Main Board.board) : nat * Main Board.board * Result unit Failure := (n, m, Ok tt).

Lemma tick_fair aa b : fair aa tick_on no_steps b.
Proof.
  constructor; [|done|done].
  intros o m un oth [[ctx []] S2 S3 S4]. constructor; try done. exists ctx. constructor; try done. by apply set_ticks_inv.
Qed.

(** 320 frames from 5 MiB on; the heap takes the first 256. *)
Definition run_config : Config := mkConfig 0x500000 0x640000.
Definition run_owned : list ReservedRange := owned_ranges 0x280000 0x290000 0x3000 demo_info.
Definition run_alloc : FrameAllocator :=
  match Frame.init (replicate 80 0) demo_boot_map run_owned run_config with
  | Done (Ok a) => a
  | _ => blank (replicate 80 0) run_owned run_config
  end.
Definition run_heap : PhysRange := mkRange 0x500000 HEAP_SIZE.
Definition run_alloc1 : FrameAllocator :=
  match alloc_contiguous run_alloc 256 with Done (a, _) => a | Panic => run_alloc end.

#[local] Opaque run_alloc run_alloc1.

Lemma run_alloc_ok : frame_inv run_alloc /\ pool run_alloc = free_set run_alloc.
Proof.
  destruct (init_ok (replicate 80 0) demo_boot_map run_owned run_config) as (a & _ & E & Hinv & _ & Hp & _).
  - by apply bytes_ok_b.
  - split; vm_compute; split; discriminate.
  - apply (boot_info_map_ok demo_phys demo_info); [apply demo_mem_ok|apply demo_info_ok|apply demo_parse].
  - rewrite demo_boot_regions. apply Forall_singleton. by exists 0.
  - rewrite demo_boot_regions. constructor; constructor.
  - reflexivity.
  - assert (Ea : run_alloc = a).
    { with_strategy transparent [run_alloc] unfold run_alloc. rewrite E. destruct (Frame.free_frames a =? 0); [|done]. exfalso.
      revert E. vm_compute. discriminate. }
    rewrite Ea. exact (conj Hinv Hp).
Qed.

Lemma run_heap_taken : alloc_contiguous run_alloc 256 = Done (run_alloc1, Some run_heap).
Proof. vm_compute. reflexivity. Qed.

Lemma run_stacks_left k : alloc_contiguous run_alloc1 2 <> Done (k, None).
Proof. vm_compute. discriminate. Qed.

Lemma run_bounds : first_frame run_alloc = 1280 /\ frames run_alloc = 320.
Proof. vm_compute. by split. Qed.

(** The kernel's memory with the heap's frames taken. *)
Lemma run_taken a a1 :
  frame_inv a -> pool a = free_set a -> first_frame a = 1280 -> frames a = 320 ->
  alloc_contiguous a 256 = Done (a1, Some run_heap) ->
  let k := with_allocator demo_kernel a1 in
  kernel_frames_ok k /\ kernel_lent k = list_to_set (range_pages run_heap) /\
  forall p, p ∈ kernel_lent k ∪ kernel_spare k -> 0x500000 <= p < 0x640000.
Proof.
  intros Hinv Hpool Hf Hn Ha k. set (k0 := with_allocator demo_kernel a).
  assert (Hok0 : kernel_frames_ok k0).
  { exists a. split; [reflexivity|]. split; [exact Hinv|]. unfold managed_ok. rewrite Hf, Hn. split; discriminate. }
  assert (Hpg : forall p, p ∈ kernel_spare k0 -> 0x500000 <= p < 0x640000).
  { unfold kernel_spare, k0. cbn [FRAME_ALLOCATOR with_allocator]. intros p Hp.
    apply elem_addresses in Hp as (i & -> & Hi). rewrite <- Hpool in Hi. apply elem_pool in Hi as [Hi _].
    rewrite Hn in Hi. unfold frame_addr, PAGE_SIZE. rewrite Hf. lia. }
  assert (Hl0 : kernel_lent k0 = ∅).
  { unfold kernel_lent, k0. cbn [FRAME_ALLOCATOR with_allocator]. rewrite Hpool. apply set_eq. intros p.
    rewrite elem_addresses. set_solver. }
  assert (E : alloc_frames k0 256 = Done (k, Some run_heap)).
  { unfold alloc_frames, k0. cbn [FRAME_ALLOCATOR with_allocator]. rewrite Ha. reflexivity. }
  destruct (alloc_frames_law k0 256 Hok0 ltac:(lia)) as
    [(r & k1 & E1 & Hok & _ & _ & _ & _ & Hsub & Hsp & Hl)|(k1 & E1 & _)]; rewrite E in E1; [|discriminate E1].
  injection E1 as <- <-. split; [exact Hok|]. rewrite Hl0, (left_id_L ∅ (∪)) in Hl. split; [exact Hl|].
  intros p Hp. apply Hpg. rewrite Hl, Hsp in Hp. apply elem_of_union in Hp as [Hp|Hp]; [exact (Hsub p Hp)|].
  apply elem_of_difference in Hp as [Hp _]. exact Hp.
Qed.

(** None of these pages is the kernel's. *)
Lemma run_outside p start n :
  0x500000 <= p < 0x640000 -> In (start, n) (kernel_memory 0x280000 0x290000 0x3000 demo_info) ->
  n = 0 \/ p + PAGE_SIZE <= start \/ start + n <= p.
Proof.
  intros Hp Hown. right. right.
  assert (Hall : Forall (fun x => fst x + snd x <= 0x500000) (kernel_memory 0x280000 0x290000 0x3000 demo_info)).
  { repeat constructor; vm_compute; discriminate. }
  rewrite List.Forall_forall in Hall. specialize (Hall _ Hown). cbn [fst snd] in Hall. lia.
Qed.

Lemma heap_init_cr4 k base n k' : heap_init k base n = Done k' -> cr4 k' = cr4 k.
Proof. unfold heap_init. intros ([l ar] & _ & E)%exec_bind_done. by injection E as <-. Qed.

(** The heap initialised, the tables in the arena, [CR3] on them. *)
Lemma run_memory a1 :
  let k0 := with_allocator demo_kernel a1 in
  kernel_frames_ok k0 -> kernel_lent k0 = list_to_set (range_pages run_heap) ->
  (forall p, p ∈ kernel_lent k0 ∪ kernel_spare k0 -> 0x500000 <= p < 0x640000) ->
  exists k t, memory_up 0x280000 0x290000 0x3000 demo_info demo_arena0 demo_boot_map t run_heap k /\
    kernel_lent k = list_to_set (range_pages run_heap) /\ FRAME_ALLOCATOR k = Some a1 /\ cr4_osfxsr k = true.
Proof.
  intros k0 Hok Hlent Hpg. destruct demo_build as [Hin (arena & t & Hb & Hl)].
  destruct (heap_init_ok (with_allocator demo_kernel a1) 0x500000) as (k1 & E1 & Hheap & Hreg & Hal & _ & _);
    [apply demo_mem_ok|reflexivity|discriminate|].
  assert (Hrest : cr4 k1 = cr4 demo_kernel) by exact (heap_init_cr4 _ _ _ _ E1).
  set (k := write_cr3 (with_phys k1 (copy_to (phys k1) 0x280000 arena)) 0x280000).
  assert (Hal' : FRAME_ALLOCATOR k = Some a1) by exact Hal.
  assert (El : kernel_lent k = kernel_lent k0) by (unfold kernel_lent; rewrite Hal'; reflexivity).
  assert (Es : kernel_spare k = kernel_spare k0) by (unfold kernel_spare; rewrite Hal'; reflexivity).
  exists k, t. split; [|split; [rewrite El; exact Hlent|split; [exact Hal'|]]].
  2: { unfold cr4_osfxsr. change (cr4 k) with (cr4 k1). rewrite Hrest. reflexivity. }
  constructor.
  - rewrite Hb. do 2 f_equal. rewrite <- Hl. symmetry. apply read_bytes_copy_to.
  - reflexivity.
  - destruct Hok as (a & Ea & H1 & H2). exists a. split; [|by split]. rewrite Hal'. exact Ea.
  - intros p start n Hp Hown. rewrite El, Es in Hp. exact (run_outside p start n (Hpg p Hp) Hown).
  - apply (heap_ok_same k1); [exact Hheap|reflexivity|]. unfold heap_region in Hreg. injection Hreg as -> ->.
    apply copy_to_same_on. rewrite Hl. right. discriminate.
  - split; [exact Hreg|]. split; [reflexivity|by exists 1280].
  - rewrite El, Hlent. intros p Hp. exact Hp.
Qed.

Lemma kernel_run_reports_witness :
  exists b ist m v m', kernel_run (O := nat) 0x280000 0x202000 0x201000 tick_on no_steps ist (O, m) b = Done (Halt v m') /\
    ((v = EXIT_VALUE_KERNEL_OK /\ succeeded 0x280000 0x202000 0x201000 tick_on no_steps b ist (O, m) m') \/
     reports_failure no_steps b ist v m').
Proof.
  destruct run_alloc_ok as [Hinv Hpool]. destruct run_bounds as [Hfi Hnf].
  destruct (run_taken run_alloc run_alloc1 Hinv Hpool Hfi Hnf run_heap_taken) as (Hok & Hlt & Hpg).
  destruct (run_memory run_alloc1 Hok Hlt Hpg) as (k & t & Hmu & Hl & Ha & Hc).
  set (m := with_kernel demo_main k).
  destruct (interrupts_ready 0x280000 0x290000 0x3000 (fun v => 0x200000 + 16 * v) 0x210000
              (mkMain (sys m) (idt m) (idtr m) (flags m) 0xF4 (console m)) demo_info demo_arena0 demo_boot_map t run_heap)
    as ([[ist m1]|v m1] & E & Hr).
  - by constructor.
  - exact Hmu.
  - apply demo_build.
  - by apply len_read_bytes.
  - exact Hl.
  - by split_and!.
  - right. vm_compute. discriminate.
  - split_and!; split || idtac; discriminate.
  - destruct (kernel_run_reports 0x280000 (fun v => 0x200000 + 16 * v) 0x202000 0x201000 tick_on no_steps demo_info
                demo_arena0 demo_boot_map t run_heap ist O m1 Hr (tick_fair _ _)) as (v & m' & H);
      [split; discriminate..|]. exists demo_info, ist, m1, v, m'. exact H.
  - exfalso. destruct Hr as (_ & line & _ & [[_ [k' Ek]]|[_ Hf]]).
    + unfold alloc_frames in Ek. cbn [mem sys m with_kernel with_sys with_mem] in Ek. rewrite Ha in Ek.
      apply exec_bind_done in Ek as ([a' [r|]] & Ea & Ek); [discriminate Ek|]. exact (run_stacks_left a' Ea).
    + cbn [mem sys m with_kernel with_sys with_mem] in Hf. rewrite Hc in Hf. discriminate Hf.
Defined.
