(* ===== verification/Messages.v ===== *)
(** * What the kernel prints

    Every [Display] implementation of the repository, the arguments of every
    log call of the boot sequence, the interrupt handler and the exception
    handler, and the formatting they rely on ([{}], [{:X}], [{:016X}], [{:02X}]).
    As in Rust, [format_args!] is a list of pieces, literals and arguments, that
    is written out.

    The theorem: the bytes on the console identify the log.  Two logs, of any
    length, that print the same bytes are the same list of lines with the same
    levels, errors and numbers.  It is proved by reflection: a table with the
    shape of every line, a test on two shapes that excludes that they ever print
    the same bytes, and the kernel's evaluation of the test on the table.

    [log_all] sends the lines one after the other.  [logging::log] takes no lock
    and leaves interrupts alone, so a line that the interrupt handler logs can
    come between two bytes of a line of [kernel_main]; logs here are those in
    which that does not happen. *)
From Stdlib Require Import ZArith Lia Bool String Ascii.
From stdpp Require Import base tactics option list numbers.
From S2P Require Import Prelude MemoryMap Sched Frame Heap KernelImage Paging UserMap BootInfo Loader Ports Descriptors Interrupts Lock KMemory Threads UserInit SelfCheck KMain.

#[local] Open Scope Z_scope.

(** ** Formatting *)

(** A piece of a format: a literal, [{}] of a number, [{:X}], [{:0wX}], and
    [{}] of a string. *)
Inductive piece : Type :=
| Lit (s : string)
| Dec (n : Z)
| Hex (n : Z)
| Hex0 (width : nat) (n : Z)
| Text (s : string).

Definition digit (d : Z) : Z := if d <? 10 then 48 + d else 55 + d.

(** The digits of [n], the last one first found; one unit of fuel per digit. *)
Fixpoint digits (fuel : nat) (base n : Z) (acc : list Z) : list Z :=
  match fuel with
  | O => acc
  | S fuel =>
      let acc := digit (n mod base) :: acc in
      if n / base =? 0 then acc else digits fuel base (n / base) acc
  end.

(** A [u64] has at most 20 decimal and 16 hexadecimal digits. *)
Definition dec (n : Z) : list Z := digits 20 10 n [].
Definition hex (n : Z) : list Z := digits 16 16 n [].
Definition pad (width : nat) (l : list Z) : list Z := replicate (width - length l) 48 ++ l.

Definition piece_bytes (p : piece) : list Z :=
  match p with
  | Lit s | Text s => Logging.bytes_of s
  | Dec n => dec n
  | Hex n => hex n
  | Hex0 width n => pad width (hex n)
  end.

Definition write_fmt (f : list piece) : list Z := List.concat (piece_bytes <$> f).

(** [core::fmt::Display]. *)
Class Display (A : Type) : Type := display : A -> list piece.

(** ** The errors *)
#[export] Instance display_boot_info_error : Display BootInfoError := fun e =>
  match e with
  | WrongMagic found =>
      [Lit "BootInfo magic 不匹配（得到 0x"; Hex0 16 found; Lit "，期望 0x"; Hex0 16 BOOT_INFO_MAGIC; Lit "）"]
  | UnsupportedVersion found supported =>
      [Lit "BootInfo 版本不受支持（得到 "; Dec found; Lit "，支持 "; Dec supported; Lit "）"]
  | BootInfo.TooSmall size expected =>
      [Lit "BootInfo 过小（得到 "; Dec size; Lit " 字节，至少需要 "; Dec expected; Lit " 字节）"]
  end.

#[export] Instance display_image_error : Display ImageError := fun e =>
  match e with
  | KernelImage.TooSmall n => [Lit "镜像过小（"; Dec n; Lit " 字节），不足以容纳 ELF 头"]
  | NotElf => [Lit "缺少 ELF magic"]
  | NotElf64 => [Lit "不是 64 位 ELF"]
  | NotLittleEndian => [Lit "不是小端序 ELF"]
  | NotExecutable e_type =>
      [Lit "e_type = "; Dec e_type; Lit "，期望 ET_EXEC("; Dec ET_EXEC; Lit ")（PIE/ET_DYN 需要重定位，不支持）"]
  | UnsupportedMachine machine => [Lit "e_machine = "; Dec machine; Lit "，期望 x86-64("; Dec EM_X86_64; Lit ")"]
  end.

#[export] Instance display_segment_error : Display SegmentError := fun e =>
  match e with
  | BadProgramHeaders => [Lit "Program Header 表越界或不完整"]
  | FileszLargerThanMemsz => [Lit "p_filesz 大于 p_memsz"]
  | DataOutOfBounds => [Lit "段数据超出文件长度"]
  | KernelImage.AddressOverflow => [Lit "段地址范围溢出"]
  | EmptySegment => [Lit "段长度为 0"]
  | OverlappingSegments => [Lit "两个段的区间重叠"]
  | EntryNotExecutable => [Lit "入口点不在任何可执行段内"]
  end.

#[export] Instance display_free_list_error : Display FreeListError := fun e =>
  match e with
  | OutOfArena offset => [Lit "堆偏移 0x"; Hex offset; Lit " 不在堆区间内或未对齐"]
  | Heap.AlreadyFree offset => [Lit "堆偏移 0x"; Hex offset; Lit " 重复释放"]
  | NotAllocated offset => [Lit "堆偏移 0x"; Hex offset; Lit " 之前没有已分配的块头"]
  | Corrupted offset => [Lit "堆元数据在偏移 0x"; Hex offset; Lit " 处已损坏"]
  end.

#[export] Instance display_build_error : Display BuildError := fun e =>
  match e with
  | ArenaMisaligned address => [Lit "页表竞技场 0x"; Hex address; Lit " 未按 "; Dec MemoryMap.PAGE_SIZE; Lit " 字节对齐"]
  | Paging.ArenaTooSmall needed got =>
      [Lit "页表竞技场过小：需要 "; Dec needed; Lit " 字节，实际 "; Dec got; Lit " 字节"]
  | NoUsableRam => [Lit "内存图中没有可用的 RAM 区域"]
  | ConfigTooLarge max_identity_bytes supported =>
      [Lit "映射上限 "; Dec max_identity_bytes; Lit " 字节超出本实现支持的 "; Dec supported; Lit " 字节"]
  | FineGrainedTooLarge fine_grained_bytes supported =>
      [Lit "细粒度区间 "; Dec fine_grained_bytes; Lit " 字节超出本实现支持的 "; Dec supported; Lit " 字节"]
  end.

#[export] Instance display_map_error : Display MemoryMap.MapError := fun e =>
  match e with
  | Empty => [Lit "内存图为空（0 条描述符）"]
  | StrideTooSmall stride => [Lit "内存描述符步长 "; Dec stride; Lit " 小于标准长度 "; Dec DESCRIPTOR_MIN_SIZE]
  | TooShort needed got => [Lit "内存图缓冲区过小：需要 "; Dec needed; Lit " 字节，实际 "; Dec got; Lit " 字节"]
  | TooLarge entries stride => [Lit "内存图过大："; Dec entries; Lit " 条 × "; Dec stride; Lit " 字节超出地址空间"]
  | MemoryMap.AddressOverflow index => [Lit "第 "; Dec index; Lit " 条内存描述符的结束地址溢出"]
  end.

#[export] Instance display_frame_init_error : Display Frame.InitError := fun e =>
  match e with
  | BitmapTooSmall needed got => [Lit "页帧位图过小：需要 "; Dec needed; Lit " 字节，实际 "; Dec got; Lit " 字节"]
  | TooManyReservedRanges count =>
      [Lit "保留区间过多："; Dec count; Lit " 个，上限 "; Dec MAX_RESERVED_RANGES; Lit " 个"]
  | EmptyRange managed_start limit => [Lit "受管理的物理区间非法：0x"; Hex managed_start; Lit "..0x"; Hex limit]
  | NoUsableMemory => [Lit "没有任何可发放的 EfiConventionalMemory 页帧"]
  end.

#[export] Instance display_free_error : Display FreeError := fun e =>
  match e with
  | NotManaged address => [Lit "页帧 0x"; Hex address; Lit " 不在受管理区间内"]
  | Frame.AlreadyFree address => [Lit "页帧 0x"; Hex address; Lit " 重复释放"]
  | Reserved_ address => [Lit "页帧 0x"; Hex address; Lit " 位于保留区间内，不可释放"]
  end.

#[export] Instance display_user_map_error : Display UserMap.MapError := fun e =>
  match e with
  | UserMap.ArenaTooSmall needed got =>
      [Lit "用户页表竞技场过小：需要 "; Dec needed; Lit " 页，实际 "; Dec got; Lit " 页"]
  | BelowUserBase vaddr => [Lit "用户映射的虚拟地址 0x"; Hex vaddr; Lit " 低于 USER_BASE（0x"; Hex USER_BASE; Lit "）"]
  | NotPageAligned value => [Lit "地址/长度 0x"; Hex value; Lit " 未按 4 KiB 对齐或为零"]
  | OutOfRange vaddr_end =>
      [Lit "用户映射结束地址 0x"; Hex vaddr_end; Lit " 超出本实现支持的范围（USER_BASE + 1 GiB）"]
  | AlreadyMapped => [Lit "该用户区已经映射过（M4a 只支持一次调用）"]
  end.

#[export] Instance display_sched_error : Display SchedError := fun e =>
  match e with
  | Sched.NoFreeSlot => [Lit "线程表已满（"; Dec MAX_THREADS; Lit " 项）"]
  | InvalidId id => [Lit "非法线程号 "; Dec id]
  | NoCurrentThread => [Lit "尚未登记引导上下文"]
  | IdleAlreadyRegistered => [Lit "空闲线程已经登记过"]
  | NothingToRun => [Lit "没有任何可运行的线程（也没有空闲线程）"]
  end.

#[export] Instance display_create_error : Display CreateError := fun e =>
  match e with
  | Threads.NoFreeSlot => [Lit "线程表已满"]
  | Threads.NoStack => [Lit "无法为线程栈分配 "; Dec THREAD_STACK_PAGES; Lit " 个连续页帧"]
  end.

#[export] Instance display_failure : Display Failure := fun f =>
  [Lit "调度自检第 "; Dec (step f); Lit " 步失败："; Text (what f); Lit "（相关值 0x"; Hex (value f); Lit "）"].

#[export] Instance display_user_init_error : Display User.InitError := fun e =>
  match e with
  | User.NoUserImage => [Lit "BootInfo 里没有可运行的用户镜像（v1 字段不全）"]
  | User.NoStack => [Lit "无法为用户栈分配 "; Dec User.USER_STACK_PAGES; Lit " 个连续页帧"]
  | User.Map err => Lit "用户区映射失败：" :: display err
  | User.Thread err => Lit "无法创建用户线程：" :: display err
  end.

#[export] Instance display_cpu_mode_problem : Display CpuModeProblem := fun e =>
  match e with
  | PagingOff => [Lit "分页未开启（CR0.PG = 0）"]
  | PaeOff => [Lit "未启用 PAE（CR4.PAE = 0）"]
  | FiveLevelPaging => [Lit "处于五级分页（CR4.LA57 = 1），本实现只支持四级"]
  | NotInLongMode => [Lit "未处于长模式（EFER.LMA = 0）"]
  | PcideEnabled => [Lit "已启用 PCID（CR4.PCIDE = 1），写入裸 CR3 会破坏地址"]
  end.

#[export] Instance display_memory_error : Display MemoryError := fun e =>
  match e with
  | UnexpectedCpuMode detail => Lit "CPU 分页模式不符合预期：" :: display detail
  | ArenaOutsideKernel arena =>
      [Lit "页表竞技场 0x"; Hex arena; Lit " 不在内核镜像区间内（内核未按链接地址加载？）"]
  | MapFailed err => Lit "内存图不可用：" :: display err
  | BuildFailed err => Lit "页表构建失败：" :: display err
  | BootInfoLostAfterSwitch => [Lit "切换 CR3 后 BootInfo 不再可读：恒等映射没有覆盖交接结构"]
  | Frames err => Lit "页帧分配器初始化失败：" :: display err
  | HeapRegionUnavailable frames =>
      [Lit "找不到 "; Dec frames; Lit " 个连续空闲页帧作为内核堆（"; Dec (frames * MemoryMap.PAGE_SIZE / 1024); Lit " KiB）"]
  | KMemory.SelfCheck step what address =>
      [Lit "内存自检第 "; Dec step; Lit " 步失败："; Text what; Lit "（地址 0x"; Hex address; Lit "）"]
  end.

(** The loader's errors print through the firmware library's own, which are
    arguments here. *)
Definition display_load_error {E FE : Type} (efi : E -> string) (fs : FE -> string) (io_error : FE -> option E)
    (e : LoadError E FE) : list piece :=
  match e with
  | Efi err => [Text (efi err)]
  | Fs err =>
      match io_error err with
      | Some io => [Lit "读取文件失败: "; Text (efi io)]
      | None => [Lit "文件系统错误: "; Text (fs err)]
      end
  | Image err => display err
  | Segment_ err => display err
  | TooManyPages pages => [Lit "内核镜像覆盖的独立页数过多（"; Dec pages; Lit " > 上限）"]
  end.

(** ** The lines *)

(** [kernel_main] and [finish] (main.rs), [log_ready] (sched.rs).  The panic
    message is the standard library's, an argument. *)
Definition main_line (info : string) (l : Line) : list piece :=
  match l with
  | IdtInstalled => [Lit "IDT 已安装（32 个异常向量）"]
  | KernelAlive => [Lit "ParanukOS kernel alive (Milestone 2)"]
  | BootInfoRejected err => Lit "self-check FAILED: " :: display err
  | BootInfoWord offset word => [Lit "  bootinfo+"; Dec offset; Lit " = 0x"; Hex0 16 word]
  | BootInfoHeader version size magic =>
      [Lit "BootInfo v"; Dec version; Lit " size="; Dec size; Lit " magic=0x"; Hex0 16 magic]
  | MagicRepaired repairs =>
      [Lit "引导器在跳转前修复了 "; Dec repairs; Lit " 次 BootInfo.magic（偶发改写再次出现，见 §6.2）"]
  | NoMemoryMap => [Lit "self-check FAILED: 内存图不可用（mmap_ptr/len/desc_size 不完整）"]
  | UnusualStride stride =>
      [Lit "内存描述符步长是 "; Dec stride; Lit " 字节（标准为 40），按 BootInfo 给出的步长处理"]
  | MapSummary entries stride version =>
      [Lit "memory map: "; Dec entries; Lit " 项, desc_size="; Dec stride; Lit ", desc_ver="; Dec version]
  | KernelRange first last => [Lit "kernel range: 0x"; Hex first; Lit "..0x"; Hex last]
  | StackRange first last => [Lit "stack: 0x"; Hex first; Lit "..0x"; Hex last]
  | NoRsdp => [Lit "self-check FAILED: 未找到 ACPI RSDP"]
  | RsdpAt rsdp => [Lit "rsdp=0x"; Hex rsdp]
  | MemoryInitFailed err => Lit "memory init FAILED: " :: display err
  | TablesMapped pages blocks mib =>
      [Lit "paging: 恒等映射 "; Dec pages; Lit " 个 4 KiB 页 + "; Dec blocks; Lit " 个 2 MiB 大块（"; Dec mib;
       Lit " MiB，不含空洞）"]
  | TablesRoot limit used root =>
      [Lit "paging: 上限 0x"; Hex limit; Lit "，页表 "; Dec used; Lit " 页，CR3=0x"; Hex root]
  | BootInfoStillReadable => [Lit "paging: 切换 CR3 后 BootInfo 仍可读（恒等映射覆盖了交接结构）"]
  | FramesReady managed mib free =>
      [Lit "frames: 管理 "; Dec managed; Lit " 帧（"; Dec mib; Lit " MiB），堆取走后空闲 "; Dec free; Lit " 帧"]
  | HeapReady first last kib frames =>
      [Lit "heap: 0x"; Hex first; Lit "..0x"; Hex last; Lit "（"; Dec kib; Lit " KiB，占用 "; Dec frames;
       Lit " 个连续页帧）"]
  | MemoryCheckFailed err => Lit "memory self-check FAILED: " :: display err
  | HeapChecked bytes blocks =>
      [Lit "heap: 自检 OK（全部释放后空闲 "; Dec bytes; Lit " 字节 / "; Dec blocks; Lit " 个块）"]
  | NoIstStacks => [Lit "sched init FAILED: 无法为 IST 栈分配 2 个页帧"]
  | GdtFailed err => [Lit "gdt init FAILED: "; Text err]
  | GdtLoaded cs ss tss ist1 ist2 =>
      [Lit "gdt: GDT/TSS 已装载（CS=0x"; Hex cs; Lit " SS=0x"; Hex ss; Lit "，TSS=0x"; Hex tss; Lit "，IST1=0x";
       Hex ist1; Lit "，IST2=0x"; Hex ist2; Lit "）"]
  | NoFxsave => [Lit "sched init FAILED: CR4.OSFXSR = 0，fxsave/fxrstor 不可用"]
  | PicReady divisor hz =>
      [Lit "pic: 8259 已重映射到 0x20..0x2F，PIT 分频 "; Dec divisor; Lit "（"; Dec hz; Lit " Hz），只放行 IRQ0"]
  | SchedInitFailed err => Lit "sched init FAILED: " :: display err
  | SchedReady threads hz => [Lit "sched: "; Dec threads; Lit " 个线程就绪，PIT "; Dec hz; Lit " Hz，GDT/TSS 已装载"]
  | ClockSilent => [Lit "sched self-check FAILED: 等待 3 次时钟中断超时（PIT 或 IRQ0 未生效）"]
  | ClockRuns ticks decisions =>
      [Lit "timer: 观察到 "; Dec ticks; Lit " 次 tick（"; Dec decisions; Lit " 次调度决策）"]
  | IstCanaryDestroyed => [Lit "sched self-check FAILED: IST 栈金丝雀被破坏（栈溢出）"]
  | ProbeNotReturned err => Lit "sched self-check FAILED: 归还探测页帧失败（" :: display err ++ [Lit "）"]
  | NoProbe => [Lit "sched self-check FAILED: 无法分配探测页帧"]
  | FramesNotRestored before after =>
      [Lit "sched self-check FAILED: 页帧分配/释放往返没有回到原值（"; Dec before; Lit " -> "; Dec after; Lit "）"]
  | LocksHeld n => [Lit "sched self-check FAILED: 报告时仍持有 "; Dec n; Lit " 把锁"]
  | IdleFailed err => Lit "sched init FAILED: " :: display err
  | IdleCreated id => [Lit "sched: 空闲线程 = 线程 "; Dec id; Lit "；开始六步调度自检"]
  | SchedCheckFailed err => Lit "sched self-check FAILED: " :: display err
  | SchedChecked ticks switches live =>
      [Lit "sched: 自检 OK（tick "; Dec ticks; Lit ", 切换 "; Dec switches; Lit ", 存活线程 "; Dec live; Lit "）"]
  | UserInitFailed err => Lit "user init FAILED: " :: display err
  | ServiceMissing live cpl3 =>
      [Lit "user self-check FAILED: 服务没有运行到 CPL 3 或没有被回收（live="; Dec live; Lit ", cpl3=";
       Lit (if cpl3 then "true" else "false"); Lit "）"]
  | ServiceWithoutTicks => [Lit "user self-check FAILED: 服务运行期间时钟没有推进（无法证明它被抢占过）"]
  | Rsp0NotSet => [Lit "user self-check FAILED: TSS.rsp0 没有被设置（用户态中断会压到旧栈上）"]
  | ServiceChecked cs elapsed rsp0 =>
      [Lit "user: 自检 OK（cs=0x"; Hex cs; Lit "，运行期间 "; Dec elapsed; Lit " 次 tick，rsp0=0x"; Hex rsp0; Lit "）"]
  | InterruptsClosed => [Lit "timer: 中断已按退出协议关闭"]
  | AllChecked => [Lit "self-check OK"]
  | DebugExitDisabled => [Lit "未启用调试退出，进入 hlt 停机"]
  | ExitCode code port value =>
      [Lit "退出码 "; Dec code; Lit " (isa-debug-exit 端口 0x"; Hex port; Lit " <- 0x"; Hex0 2 value; Lit ")"]
  | KernelPanic => [Lit "PANIC: "; Text info]
  end.

(** The interrupt handler (sched.rs), the system call and [init] (user.rs). *)
Definition thread_line (l : Message) : list piece :=
  match l with
  | CanaryDestroyed id => [Lit "线程 "; Dec id; Lit " 的栈金丝雀被破坏：栈溢出（M3 不设保护页）"]
  | ExitFailed err => Lit "线程退出失败：" :: display err
  | SpuriousIrq7 => [Lit "收到伪 IRQ7（未在服务寄存器里）：未发送 EOI，避免误清真实中断"]
  | UnexpectedIrq7 => [Lit "意外的 IRQ7：已 EOI"]
  | UnexpectedVector vector irq =>
      [Lit "未预期的中断向量 0x"; Hex0 2 vector; Lit "（IRQ"; Dec irq; Lit "）：已屏蔽并 EOI"]
  | ServiceReached cs rax rdi =>
      [Lit "user: 服务确实运行在 CPL 3（cs=0x"; Hex cs; Lit "，调用号 0x"; Hex rax; Lit "，自旋计数 "; Dec rdi;
       Lit "），M4a 到此结束该线程"]
  | SyscallFromCpl cpl => [Lit "系统调用竟然来自 CPL "; Dec cpl; Lit "——0x40 门的 DPL 配置有问题"]
  | ServiceMapped paddr va pages stack entry tables =>
      [Lit "user: 镜像 0x"; Hex paddr; Lit "→0x"; Hex va; Lit "（"; Dec pages; Lit " 页，U/S=1），栈 0x"; Hex stack;
       Lit "，入口 0x"; Hex entry; Lit "，页表 "; Dec tables; Lit " 页"]
  | ServiceStarted id => [Lit "user: 服务线程 = 线程 "; Dec id; Lit "，等待它运行到 CPL 3"]
  end.

(** The exception handler (idt.rs). *)
Definition EXCEPTION_NAMES : list string :=
  ["#DE 除零"; "#DB 调试"; "NMI 不可屏蔽中断"; "#BP 断点"; "#OF 溢出"; "#BR 越界"; "#UD 非法指令"; "#NM 设备不可用";
   "#DF 双重故障"; "保留(9)"; "#TS 无效 TSS"; "#NP 段不存在"; "#SS 栈段错误"; "#GP 通用保护"; "#PF 页错误"; "保留(15)";
   "#MF x87 浮点"; "#AC 对齐检查"; "#MC 机器检查"; "#XM SIMD 浮点"; "#VE 虚拟化异常"; "#CP 控制流保护"; "保留(22)";
   "保留(23)"; "保留(24)"; "保留(25)"; "保留(26)"; "保留(27)"; "#HV 虚拟化注入"; "#VC SEV 异常"; "#SX 安全异常";
   "保留(31)"]%string.

Definition exception_name (vector : Z) : string :=
  match get EXCEPTION_NAMES vector with Some name => name | None => "未知向量" end.

Definition stack_name (k : StackKind) : string :=
  match k with Ist1Stack => "IST1 栈（#DF）" | Ist2Stack => "IST2 栈（NMI）" | CurrentStack => "当前栈（非 IST）" end.

Inductive FaultLine : Type :=
| UnhandledException (name : string) (vector : Z)
| FaultState (error_code rip cs rflags : Z)
| FaultStack (rsp ss : Z)
| RunningOn (stack : string)
| PageFaultAt (cr2 : Z)
| UserFault.

Definition fault_line (l : FaultLine) : list piece :=
  match l with
  | UnhandledException name vector => [Lit "未处理的 CPU 异常: "; Text name; Lit " (vector "; Dec vector; Lit ")"]
  | FaultState error_code rip cs rflags =>
      [Lit "  error_code=0x"; Hex error_code; Lit " rip=0x"; Hex rip; Lit " cs=0x"; Hex cs; Lit " rflags=0x"; Hex rflags]
  | FaultStack rsp ss => [Lit "  rsp=0x"; Hex rsp; Lit " ss=0x"; Hex ss]
  | RunningOn stack => [Lit "  实际运行栈："; Text stack]
  | PageFaultAt cr2 => [Lit "  cr2=0x"; Hex cr2; Lit " (触发页错误的地址)"]
  | UserFault => [Lit "服务在 CPL 3 上发生异常（用户态故障，不是内核崩溃）"]
  end.

(** What [exception_handler] prints, for the stack pointer [rsp] and the fault
    address [cr2] it reads. *)
Definition exception_report (g : Gdt.machine) (rsp cr2 : Z) (frame : ExceptionFrame) : exec (list FaultLine) :=
  let! stack := current_stack_kind g rsp in
  Done ([UnhandledException (exception_name (ex_vector frame)) (ex_vector frame);
         FaultState (ex_error_code frame) (ex_rip frame) (ex_cs frame) (ex_rflags frame);
         FaultStack (ex_rsp frame) (ex_ss frame);
         RunningOn (stack_name stack)] ++
        (if ex_vector frame =? 14 then [PageFaultAt cr2] else []) ++
        (if is_user_fault frame then [UserFault] else [])).

(** ** The console *)

(** A log call, from whichever part of the kernel. *)
Inductive Entry : Type :=
| OfMain (level : Logging.Level) (l : Line)
| OfThreads (level : Logging.Level) (l : Message)
| OfFault (l : FaultLine).

Definition entry_level (e : Entry) : Logging.Level :=
  match e with OfMain level _ | OfThreads level _ => level | OfFault _ => Logging.Error end.
Definition entry_args (info : string) (e : Entry) : list piece :=
  match e with OfMain _ l => main_line info l | OfThreads _ l => thread_line l | OfFault l => fault_line l end.

(** The bytes [logging::log] sends for it, and those of a whole log. *)
Definition entry_bytes (info : string) (e : Entry) : list Z :=
  Logging.bytes_of "[kernel] " ++ Logging.tag (entry_level e) ++ write_fmt (entry_args info e) ++ [10].
Definition transcript (info : string) (es : list Entry) : list Z := List.concat (entry_bytes info <$> es).

Section Log.
  Context {D : Type} `{!PortIO D}.

(** [logging::log] for each entry, one after the other. *)
Fixpoint log_all (info : string) (fuel : nat) (d : D) (es : list Entry) : option D :=
  match es with
  | [] => Some d
  | e :: es =>
      let* d := Logging.log fuel d (entry_level e) (write_fmt (entry_args info e)) else None in
      log_all info fuel d es
  end.
End Log.

(** ** Numbers are read back *)
Definition undigit (c : Z) : Z := if c <? 58 then c - 48 else c - 55.
Definition number (base : Z) (l : list Z) : Z := fold_left (fun acc c => acc * base + undigit c) l 0.

(** The bytes 0-9 and A-F. *)
Definition is_digit (c : Z) : bool := ((48 <=? c) && (c <=? 57)) || ((65 <=? c) && (c <=? 70)).

Lemma undigit_digit d : 0 <= d < 16 -> undigit (digit d) = d.
Proof. unfold digit, undigit. intros H. destruct (Z.ltb_spec d 10), (Z.ltb_spec (48 + d) 58), (Z.ltb_spec (55 + d) 58); lia. Qed.

Lemma is_digit_digit d : 0 <= d < 16 -> is_digit (digit d) = true.
Proof. unfold is_digit, digit. intros H. destruct (Z.ltb_spec d 10); lia. Qed.

(** The fuel is enough: the digits of a number below [base ^ fuel] give it back
    in front of anything already there. *)
Lemma digits_spec fuel base n acc :
  2 <= base <= 16 -> 0 <= n < base ^ Z.of_nat fuel -> (0 < fuel)%nat ->
  exists l, digits fuel base n acc = l ++ acc /\ l <> [] /\ Forall (fun c => is_digit c = true) l /\ number base l = n.
Proof.
  intros Hb. revert n acc. induction fuel as [|fuel IH]; intros n acc Hn Hf; [lia|].
  cbn [digits]. pose proof (Z.mod_pos_bound n base ltac:(lia)) as Hm.
  pose proof (Z.div_mod n base ltac:(lia)) as Hdm. destruct (Z.eqb_spec (n / base) 0) as [E|E].
  - exists [digit (n mod base)]. split; [done|]. split; [done|].
    split; [constructor; [apply is_digit_digit; lia|constructor]|].
    unfold number. cbn [fold_left]. rewrite undigit_digit by lia. lia.
  - rewrite Nat2Z.inj_succ, Z.pow_succ_r in Hn by lia.
    assert (Hq : 0 <= n / base < base ^ Z.of_nat fuel)
      by (split; [apply Z.div_pos; lia|apply Z.div_lt_upper_bound; lia]).
    destruct fuel as [|fuel]; [cbn in Hq; lia|].
    destruct (IH (n / base) (digit (n mod base) :: acc) Hq ltac:(lia)) as (l & -> & Hl & Hd & Hv).
    exists (l ++ [digit (n mod base)]). rewrite <- app_assoc. split; [done|]. split; [by destruct l|]. split.
    + apply List.Forall_app. split; [done|]. constructor; [apply is_digit_digit; lia|constructor].
    + unfold number in *. rewrite fold_left_app, Hv. cbn [fold_left]. rewrite undigit_digit by lia. lia.
Qed.

Lemma number_pad w l : number 16 (pad w l) = number 16 l.
Proof.
  unfold pad, number. rewrite fold_left_app. f_equal. induction (w - length l)%nat as [|n IH]; [done|].
  cbn [replicate fold_left]. exact IH.
Qed.

(** ** Shapes *)

(** What a text is made of: bytes that are fixed, the digits of a number, and a
    string. *)
Inductive item : Type :=
| IByte (c : Z)
| INum (l : list Z)
| IText (l : list Z).

Definition items (p : piece) : list item :=
  match p with
  | Lit s => IByte <$> Logging.bytes_of s
  | Text s => [IText (Logging.bytes_of s)]
  | p => [INum (piece_bytes p)]
  end.

Definition flat (i : item) : list Z := match i with IByte c => [c] | INum l | IText l => l end.

(** The shape forgets the numbers and the strings. *)
Inductive token : Type := TByte (c : Z) | TNum | TText.
#[export] Instance token_eq_dec : EqDecision token.
Proof. solve_decision. Defined.

Definition token_of (i : item) : token := match i with IByte c => TByte c | INum _ => TNum | IText _ => TText end.

Definition item_ok (i : item) : Prop :=
  match i with INum l => l <> [] /\ Forall (fun c => is_digit c = true) l | _ => True end.

(** Each number is followed by a byte that is no digit. *)
Fixpoint separated (t : list token) : bool :=
  match t with
  | [] => true
  | TNum :: t => match t with TByte c :: _ => negb (is_digit c) | _ => false end && separated t
  | _ :: t => separated t
  end.

(** No two texts of these shapes can be equal. *)
Fixpoint clash (t1 t2 : list token) : bool :=
  match t1, t2 with
  | TByte a :: t1, TByte b :: t2 => if a =? b then clash t1 t2 else true
  | TNum :: t1, TNum :: t2 => clash t1 t2
  | TNum :: _, TByte b :: _ | TByte b :: _, TNum :: _ => negb (is_digit b)
  | [], TByte _ :: _ | TByte _ :: _, [] => true
  | _, _ => false
  end.

Definition text (l : list item) : list Z := List.concat (flat <$> l).

Lemma text_app l1 l2 : text (l1 ++ l2) = text l1 ++ text l2.
Proof. unfold text. by rewrite fmap_app, concat_app. Qed.

Lemma text_cons i l : text (i :: l) = flat i ++ text l.
Proof. done. Qed.

Lemma text_bytes l : text (IByte <$> l) = l.
Proof. induction l as [|c l IH]; [done|]. rewrite fmap_cons, text_cons, IH. done. Qed.

Lemma write_fmt_text f : write_fmt f = text (List.concat (items <$> f)).
Proof.
  unfold write_fmt. induction f as [|p f IH]; [done|]. rewrite !fmap_cons. cbn [List.concat]. rewrite text_app, <- IH.
  f_equal. destruct p; cbn [items piece_bytes]; rewrite ?text_bytes, ?text_cons; cbn [flat]; try done;
    unfold text; cbn [fmap list_fmap List.concat]; by rewrite app_nil_r.
Qed.

(** Two runs of bytes of one kind, each ended by a byte of another, are the
    same. *)
Lemma runs_then (p : Z -> bool) l1 l2 c1 c2 r1 r2 :
  Forall (fun c => p c = true) l1 -> Forall (fun c => p c = true) l2 ->
  p c1 = false -> p c2 = false -> l1 ++ c1 :: r1 = l2 ++ c2 :: r2 -> l1 = l2 /\ c1 :: r1 = c2 :: r2.
Proof.
  intros H1 H2 Hc1 Hc2. revert l2 H2. induction H1 as [|x l1 Hx _ IH]; intros l2 H2 E.
  - destruct H2 as [|y l2 Hy _]; [done|]. cbn in E. injection E as -> _. congruence.
  - destruct H2 as [|y l2 Hy H2]; cbn in E; injection E as -> E; [congruence|].
    destruct (IH l2 H2 E) as [-> ?]. done.
Qed.

(** What follows a number in a separated shape. *)
Lemma separated_num l d :
  separated (token_of <$> INum d :: l) = true ->
  separated (token_of <$> l) = true /\ exists c r, is_digit c = false /\ l = IByte c :: r.
Proof.
  cbn [fmap list_fmap token_of separated]. intros [Hs Hl]%andb_true_iff. split; [done|].
  destruct l as [|[c| |] r]; cbn in Hs; try done. exists c, r. by rewrite negb_true_iff in Hs.
Qed.

(** *** Different shapes *)
Lemma clash_sound l1 l2 :
  Forall item_ok l1 -> Forall item_ok l2 -> separated (token_of <$> l1) = true -> separated (token_of <$> l2) = true ->
  text l1 = text l2 -> clash (token_of <$> l1) (token_of <$> l2) = false.
Proof.
  intros H1. revert l2. induction H1 as [|i1 l1 Hi1 H1 IH]; intros l2 H2 S1 S2 E.
  - destruct H2 as [|[c|d|s] l2 Hi2 _]; done.
  - destruct H2 as [|i2 l2 Hi2 H2]; [by destruct i1|]. rewrite !text_cons in E.
    destruct i1 as [c1|d1|s1], i2 as [c2|d2|s2]; try done.
    + cbn [flat] in E. injection E as -> E. cbn [fmap list_fmap token_of clash]. rewrite Z.eqb_refl. by apply IH.
    + destruct Hi2 as [Hne Hd]. destruct Hd as [|c d2 Hc _]; [done|]. injection E as -> _.
      cbn [fmap list_fmap token_of clash]. by rewrite Hc.
    + destruct Hi1 as [Hne Hd]. destruct Hd as [|c d1 Hc _]; [done|]. injection E as -> _.
      cbn [fmap list_fmap token_of clash]. by rewrite Hc.
    + destruct (separated_num _ _ S1) as (S1' & c1 & r1 & Hc1 & ->), (separated_num _ _ S2) as (S2' & c2 & r2 & Hc2 & ->).
      destruct (runs_then is_digit d1 d2 c1 c2 (text r1) (text r2) (proj2 Hi1) (proj2 Hi2) Hc1 Hc2 E) as [_ E'].
      by apply (IH (IByte c2 :: r2) H2 S1' S2').
Qed.

(** *** Equal shapes *)

(** No string; read from the left. *)
Definition no_text (t : list token) : bool := forallb (fun x => negb (bool_decide (x = TText))) t.

Lemma recover_prefix l1 l2 r1 r2 :
  Forall item_ok l1 -> Forall item_ok l2 -> token_of <$> l1 = token_of <$> l2 ->
  separated (token_of <$> l1) = true -> no_text (token_of <$> l1) = true ->
  text l1 ++ r1 = text l2 ++ r2 -> l1 = l2 /\ r1 = r2.
Proof.
  intros H1. revert l2. induction H1 as [|i1 l1 Hi1 H1 IH]; intros l2 H2 Et Hs Hn E.
  - by destruct l2.
  - destruct H2 as [|i2 l2 Hi2 H2]; [done|]. rewrite !fmap_cons in Et. injection Et as Ei Et.
    rewrite !text_cons, <- !app_assoc in E. destruct i1 as [c1|d1|s1], i2 as [c2|d2|s2]; try done.
    + cbn [flat] in E. injection E as -> E. destruct (IH l2 H2 Et Hs Hn E) as [-> ->]. done.
    + assert (Hs2 : separated (token_of <$> INum d2 :: l2) = true) by (rewrite fmap_cons, <- Et; exact Hs).
      destruct (separated_num _ _ Hs) as (Hs' & c1 & t1 & Hc1 & ->), (separated_num _ _ Hs2) as (_ & c2 & t2 & Hc2 & ->).
      destruct (runs_then is_digit d1 d2 c1 c2 (text t1 ++ r1) (text t2 ++ r2) (proj2 Hi1) (proj2 Hi2) Hc1 Hc2 E) as [-> E'].
      destruct (IH (IByte c2 :: t2) H2 Et Hs' Hn E') as [-> ->]. done.
Qed.

(** The same read backwards. *)
Definition mirror (i : item) : item :=
  match i with IByte c => IByte c | INum l => INum (rev l) | IText l => IText (rev l) end.
Definition mirrored (l : list item) : list item := rev (mirror <$> l).

Lemma mirror_twice i : mirror (mirror i) = i.
Proof. destruct i; cbn; by rewrite ?rev_involutive. Qed.

Lemma mirrored_inj l1 l2 : mirrored l1 = mirrored l2 -> l1 = l2.
Proof.
  unfold mirrored. intros E. apply (f_equal (@rev item)) in E. rewrite !rev_involutive in E.
  apply (f_equal (fmap mirror)) in E. rewrite <- !list_fmap_compose in E.
  assert (Hid : forall l : list item, (mirror ∘ mirror) <$> l = l).
  { induction l as [|i l IH]; [done|]. rewrite fmap_cons, IH. unfold compose. by rewrite mirror_twice. }
  by rewrite !Hid in E.
Qed.

Lemma text_mirrored l : text (mirrored l) = rev (text l).
Proof.
  unfold mirrored. induction l as [|i l IH]; [done|]. rewrite fmap_cons. cbn [rev]. rewrite text_app, IH, (text_cons i l), rev_app_distr.
  f_equal. destruct i; unfold text; cbn; by rewrite ?app_nil_r.
Qed.

Lemma tokens_mirrored l : token_of <$> mirrored l = rev (token_of <$> l).
Proof.
  unfold mirrored. induction l as [|i l IH]; [done|]. rewrite !fmap_cons. cbn [rev]. rewrite fmap_app, IH. by destruct i.
Qed.

Lemma mirrored_ok l : Forall item_ok l -> Forall item_ok (mirrored l).
Proof.
  intros H. unfold mirrored. apply List.Forall_rev. induction H as [|i l Hi _ IH]; [constructor|]. rewrite fmap_cons.
  constructor; [|exact IH]. destruct i as [c|d|s]; try done. destruct Hi as [Hn Hd]. split; [|by apply List.Forall_rev].
  intros Hr. apply Hn. by rewrite <- (rev_involutive d), Hr.
Qed.

(** A shape that gives everything back: at most one string, what precedes it
    read forwards and what follows it read backwards. *)
Fixpoint readable (before t : list token) : bool :=
  match t with
  | [] => separated (rev before)
  | TText :: t => separated (rev before) && separated (rev t) && no_text t
  | x :: t => readable (x :: before) t
  end.

Lemma readable_split before t :
  readable before t = true -> no_text before = true ->
  (no_text t = true /\ separated (rev before ++ t) = true) \/
  exists u v, t = u ++ TText :: v /\ no_text u = true /\ separated (rev before ++ u) = true /\
    separated (rev v) = true /\ no_text v = true.
Proof.
  revert before. induction t as [|x t IH]; intros before Hr Hb.
  - left. by rewrite app_nil_r.
  - destruct (decide (x = TText)) as [->|Hx].
    + cbn [readable] in Hr. apply andb_true_iff in Hr as [[H1 H2]%andb_true_iff H3]. right.
      exists [], t. rewrite app_nil_r. by split_and!.
    + assert (Hx' : readable (x :: before) t = true) by (by destruct x).
      assert (Hxn : negb (bool_decide (x = TText)) = true) by (by rewrite bool_decide_false).
      destruct (IH (x :: before) Hx') as [[Hn Hs]|(u & v & -> & Hn & Hs & Hv)]; cbn [no_text forallb].
      { fold (no_text before). by rewrite Hxn. }
      * left. fold (no_text t). rewrite Hxn, Hn. cbn [rev] in Hs. by rewrite <- app_assoc in Hs.
      * right. exists (x :: u), v. cbn [rev] in Hs. rewrite <- app_assoc in Hs. split; [done|].
        cbn [no_text forallb]. fold (no_text u). by rewrite Hxn, Hn.
Qed.

Lemma recover l1 l2 :
  Forall item_ok l1 -> Forall item_ok l2 -> token_of <$> l1 = token_of <$> l2 ->
  readable [] (token_of <$> l1) = true -> text l1 = text l2 -> l1 = l2.
Proof.
  intros H1 H2 Et Hr E. destruct (readable_split [] _ Hr eq_refl) as [[Hn Hs]|(u & v & Eu & Hn & Hs & Hv & Hnv)].
  - apply (recover_prefix l1 l2 [] []); try done. by rewrite !app_nil_r.
  - assert (Hsplit : forall l, token_of <$> l = u ++ TText :: v ->
      exists a s b, l = a ++ IText s :: b /\ token_of <$> a = u /\ token_of <$> b = v).
    { intros l Hl. apply fmap_app_inv in Hl as (a & b & Ha & Hb & ->). destruct b as [|i b]; [done|].
      rewrite fmap_cons in Hb. injection Hb as Hi Hb. destruct i; try done. eauto 10. }
    destruct (Hsplit l1 Eu) as (a1 & s1 & b1 & -> & Ea1 & Eb1).
    destruct (Hsplit l2 ltac:(by rewrite <- Et)) as (a2 & s2 & b2 & -> & Ea2 & Eb2).
    apply List.Forall_app in H1 as [Ha1 Hb1], H2 as [Ha2 Hb2]. inversion Hb1; inversion Hb2; subst.
    rewrite !text_app, !text_cons in E.
    destruct (recover_prefix a1 a2 _ _ Ha1 Ha2 (eq_sym Ea2) Hs Hn E) as [-> E1]. cbn [flat] in E1.
    apply (f_equal (@rev Z)) in E1. rewrite !rev_app_distr, <- !text_mirrored in E1.
    destruct (recover_prefix (mirrored b1) (mirrored b2) (rev s1) (rev s2)) as [Eb Es].
    + by apply mirrored_ok.
    + by apply mirrored_ok.
    + rewrite !tokens_mirrored. congruence.
    + by rewrite tokens_mirrored.
    + rewrite tokens_mirrored. unfold no_text in *. rewrite forallb_forall in *. intros x Hx. apply in_rev in Hx. by apply Hnv.
    + exact E1.
    + apply mirrored_inj in Eb as ->. apply (f_equal (@rev Z)) in Es. rewrite !rev_involutive in Es. by rewrite Es.
Qed.

(** *** From items back to pieces *)
Definition newline_free (l : list Z) : bool := forallb (fun c => negb (c =? 10)) l.

(** Numbers are [u64] and strings have one line. *)
Definition piece_ok (p : piece) : Prop :=
  match p with
  | Lit _ => True
  | Dec n | Hex n | Hex0 _ n => is_u64 n
  | Text s => newline_free (Logging.bytes_of s) = true
  end.

(** A piece without its argument. *)
Definition erase (p : piece) : piece :=
  match p with
  | Lit s => Lit s
  | Dec _ => Dec 0
  | Hex _ => Hex 0
  | Hex0 w _ => Hex0 w 0
  | Text _ => Text ""
  end.

Lemma dec_spec n :
  is_u64 n -> dec n <> [] /\ Forall (fun c => is_digit c = true) (dec n) /\ number 10 (dec n) = n.
Proof.
  intros [H0 H1]. unfold dec. destruct (digits_spec 20 10 n []) as (l & -> & Hl); [lia| |lia|by rewrite app_nil_r].
  split; [done|]. change (10 ^ Z.of_nat 20) with 100000000000000000000. unfold U64_MAX in H1. lia.
Qed.

Lemma hex_spec n :
  is_u64 n -> hex n <> [] /\ Forall (fun c => is_digit c = true) (hex n) /\ number 16 (hex n) = n.
Proof.
  intros [H0 H1]. unfold hex. destruct (digits_spec 16 16 n []) as (l & -> & Hl); [lia| |lia|by rewrite app_nil_r].
  split; [done|]. change (16 ^ Z.of_nat 16) with 18446744073709551616. unfold U64_MAX in H1. lia.
Qed.

Lemma items_ok p : piece_ok p -> Forall item_ok (items p).
Proof.
  destruct p as [s|n|n|w n|s]; cbn [items piece_ok piece_bytes]; intros Hp.
  - apply List.Forall_forall. intros i (c & <- & _)%in_map_iff. done.
  - repeat constructor; apply dec_spec; done.
  - repeat constructor; apply hex_spec; done.
  - destruct (hex_spec n Hp) as (Hn & Hd & _). repeat constructor.
    + unfold pad. intros [_ ?]%app_nil. done.
    + apply List.Forall_app. split; [|done]. clear. induction (w - length (hex n))%nat; cbn; by constructor.
  - repeat constructor.
Qed.

Lemma bytes_of_inj s1 s2 : Logging.bytes_of s1 = Logging.bytes_of s2 -> s1 = s2.
Proof.
  unfold Logging.bytes_of. intros E. rewrite <- (string_of_list_ascii_of_string s1), <- (string_of_list_ascii_of_string s2).
  f_equal. revert E. generalize (list_ascii_of_string s1) (list_ascii_of_string s2). intros l1.
  induction l1 as [|a l1 IH]; intros [|b l2] E; try done. rewrite !fmap_cons in E. injection E as Ea E.
  f_equal; [|by apply IH]. rewrite <- (ascii_N_embedding a), <- (ascii_N_embedding b). f_equal. lia.
Qed.

Lemma items_inj p1 p2 : piece_ok p1 -> piece_ok p2 -> erase p1 = erase p2 -> items p1 = items p2 -> p1 = p2.
Proof.
  destruct p1 as [|n|n|w n|], p2 as [|n'|n'|w' n'|]; cbn [erase items piece_ok piece_bytes]; intros H1 H2 Er E; try done.
  - injection E as E. apply (f_equal (number 10)) in E.
    rewrite (proj2 (proj2 (dec_spec n H1))), (proj2 (proj2 (dec_spec n' H2))) in E. by subst.
  - injection E as E. apply (f_equal (number 16)) in E.
    rewrite (proj2 (proj2 (hex_spec n H1))), (proj2 (proj2 (hex_spec n' H2))) in E. by subst.
  - injection Er as ->. injection E as E. apply (f_equal (number 16)) in E.
    rewrite !number_pad, (proj2 (proj2 (hex_spec n H1))), (proj2 (proj2 (hex_spec n' H2))) in E. by subst.
  - injection E as E. by apply bytes_of_inj in E as ->.
Qed.

Lemma items_length p1 p2 : erase p1 = erase p2 -> length (items p1) = length (items p2).
Proof. destruct p1, p2; cbn [erase]; intros E; try discriminate E; try done. by injection E as ->. Qed.

Lemma pieces_inj f1 f2 :
  Forall piece_ok f1 -> Forall piece_ok f2 -> erase <$> f1 = erase <$> f2 ->
  List.concat (items <$> f1) = List.concat (items <$> f2) -> f1 = f2.
Proof.
  intros H1. revert f2. induction H1 as [|p1 f1 Hp1 _ IH]; intros f2 H2 Er E; [by destruct f2|].
  destruct H2 as [|p2 f2 Hp2 H2]; [done|]. rewrite !fmap_cons in Er. injection Er as Ep Er.
  rewrite !fmap_cons in E. cbn [List.concat] in E. apply app_inj_1 in E as [Ei E]; [|by apply items_length].
  f_equal; [by apply items_inj|by apply IH].
Qed.

Lemma erase_tokens f1 f2 :
  erase <$> f1 = erase <$> f2 ->
  token_of <$> List.concat (items <$> f1) = token_of <$> List.concat (items <$> f2).
Proof.
  revert f2. induction f1 as [|p1 f1 IH]; intros [|p2 f2] Er; try done. rewrite !fmap_cons in Er.
  injection Er as Ep Er. rewrite !fmap_cons. cbn [List.concat]. rewrite !fmap_app. f_equal; [|by apply IH].
  destruct p1, p2; cbn [erase] in Ep; try discriminate Ep; try done. by injection Ep as ->.
Qed.

(** ** The table of lines *)

(** [blank] replaces every number by 0 and every string by the empty one; the
    lists hold the blank values. *)
Definition blank_boot_info (e : BootInfoError) : BootInfoError :=
  match e with
  | WrongMagic _ => WrongMagic 0
  | UnsupportedVersion _ _ => UnsupportedVersion 0 0
  | BootInfo.TooSmall _ _ => BootInfo.TooSmall 0 0
  end.
Definition blank_map (e : MemoryMap.MapError) : MemoryMap.MapError :=
  match e with
  | Empty => Empty
  | StrideTooSmall _ => StrideTooSmall 0
  | TooShort _ _ => TooShort 0 0
  | TooLarge _ _ => TooLarge 0 0
  | MemoryMap.AddressOverflow _ => MemoryMap.AddressOverflow 0
  end.
Definition blank_build (e : BuildError) : BuildError :=
  match e with
  | ArenaMisaligned _ => ArenaMisaligned 0
  | Paging.ArenaTooSmall _ _ => Paging.ArenaTooSmall 0 0
  | NoUsableRam => NoUsableRam
  | ConfigTooLarge _ _ => ConfigTooLarge 0 0
  | FineGrainedTooLarge _ _ => FineGrainedTooLarge 0 0
  end.
Definition blank_frames (e : Frame.InitError) : Frame.InitError :=
  match e with
  | BitmapTooSmall _ _ => BitmapTooSmall 0 0
  | TooManyReservedRanges _ => TooManyReservedRanges 0
  | EmptyRange _ _ => EmptyRange 0 0
  | NoUsableMemory => NoUsableMemory
  end.
Definition blank_memory (e : MemoryError) : MemoryError :=
  match e with
  | UnexpectedCpuMode d => UnexpectedCpuMode d
  | ArenaOutsideKernel _ => ArenaOutsideKernel 0
  | MapFailed e => MapFailed (blank_map e)
  | BuildFailed e => BuildFailed (blank_build e)
  | BootInfoLostAfterSwitch => BootInfoLostAfterSwitch
  | Frames e => Frames (blank_frames e)
  | HeapRegionUnavailable _ => HeapRegionUnavailable 0
  | KMemory.SelfCheck _ _ _ => KMemory.SelfCheck 0 "" 0
  end.
Definition blank_free (e : FreeError) : FreeError :=
  match e with
  | NotManaged _ => NotManaged 0
  | Frame.AlreadyFree _ => Frame.AlreadyFree 0
  | Reserved_ _ => Reserved_ 0
  end.
Definition blank_sched (e : SchedError) : SchedError := match e with InvalidId _ => InvalidId 0 | e => e end.
Definition blank_user_map (e : UserMap.MapError) : UserMap.MapError :=
  match e with
  | UserMap.ArenaTooSmall _ _ => UserMap.ArenaTooSmall 0 0
  | BelowUserBase _ => BelowUserBase 0
  | NotPageAligned _ => NotPageAligned 0
  | OutOfRange _ => OutOfRange 0
  | AlreadyMapped => AlreadyMapped
  end.
Definition blank_user (e : User.InitError) : User.InitError :=
  match e with User.Map e => User.Map (blank_user_map e) | e => e end.

Definition blank_line (l : Line) : Line :=
  match l with
  | BootInfoRejected e => BootInfoRejected (blank_boot_info e)
  | BootInfoWord _ _ => BootInfoWord 0 0
  | BootInfoHeader _ _ _ => BootInfoHeader 0 0 0
  | MagicRepaired _ => MagicRepaired 0
  | UnusualStride _ => UnusualStride 0
  | MapSummary _ _ _ => MapSummary 0 0 0
  | KernelRange _ _ => KernelRange 0 0
  | StackRange _ _ => StackRange 0 0
  | RsdpAt _ => RsdpAt 0
  | MemoryInitFailed e => MemoryInitFailed (blank_memory e)
  | TablesMapped _ _ _ => TablesMapped 0 0 0
  | TablesRoot _ _ _ => TablesRoot 0 0 0
  | FramesReady _ _ _ => FramesReady 0 0 0
  | HeapReady _ _ _ _ => HeapReady 0 0 0 0
  | MemoryCheckFailed e => MemoryCheckFailed (blank_memory e)
  | HeapChecked _ _ => HeapChecked 0 0
  | GdtFailed _ => GdtFailed ""
  | GdtLoaded _ _ _ _ _ => GdtLoaded 0 0 0 0 0
  | PicReady _ _ => PicReady 0 0
  | SchedInitFailed e => SchedInitFailed (blank_sched e)
  | SchedReady _ _ => SchedReady 0 0
  | ClockRuns _ _ => ClockRuns 0 0
  | ProbeNotReturned e => ProbeNotReturned (blank_free e)
  | FramesNotRestored _ _ => FramesNotRestored 0 0
  | LocksHeld _ => LocksHeld 0
  | IdleCreated _ => IdleCreated 0
  | SchedCheckFailed _ => SchedCheckFailed (mkFailure 0 "" 0)
  | SchedChecked _ _ _ => SchedChecked 0 0 0
  | UserInitFailed e => UserInitFailed (blank_user e)
  | ServiceMissing _ b => ServiceMissing 0 b
  | ServiceChecked _ _ _ => ServiceChecked 0 0 0
  | ExitCode _ _ _ => ExitCode 0 0 0
  | l => l
  end.
Definition blank_message (l : Message) : Message :=
  match l with
  | CanaryDestroyed _ => CanaryDestroyed 0
  | ExitFailed e => ExitFailed (blank_sched e)
  | UnexpectedVector _ _ => UnexpectedVector 0 0
  | ServiceReached _ _ _ => ServiceReached 0 0 0
  | SyscallFromCpl _ => SyscallFromCpl 0
  | ServiceMapped _ _ _ _ _ _ => ServiceMapped 0 0 0 0 0 0
  | ServiceStarted _ => ServiceStarted 0
  | l => l
  end.
Definition blank_fault (l : FaultLine) : FaultLine :=
  match l with
  | UnhandledException _ _ => UnhandledException "" 0
  | FaultState _ _ _ _ => FaultState 0 0 0 0
  | FaultStack _ _ => FaultStack 0 0
  | RunningOn _ => RunningOn ""
  | PageFaultAt _ => PageFaultAt 0
  | UserFault => UserFault
  end.
Definition blank (e : Entry) : Entry :=
  match e with
  | OfMain level l => OfMain level (blank_line l)
  | OfThreads level l => OfThreads level (blank_message l)
  | OfFault l => OfFault (blank_fault l)
  end.

Definition memory_errors : list MemoryError :=
  (UnexpectedCpuMode <$> [PagingOff; PaeOff; FiveLevelPaging; NotInLongMode; PcideEnabled]) ++
  (MapFailed <$> [Empty; StrideTooSmall 0; TooShort 0 0; TooLarge 0 0; MemoryMap.AddressOverflow 0]) ++
  (BuildFailed <$> [ArenaMisaligned 0; Paging.ArenaTooSmall 0 0; NoUsableRam; ConfigTooLarge 0 0;
                    FineGrainedTooLarge 0 0]) ++
  (Frames <$> [BitmapTooSmall 0 0; TooManyReservedRanges 0; EmptyRange 0 0; NoUsableMemory]) ++
  [ArenaOutsideKernel 0; BootInfoLostAfterSwitch; HeapRegionUnavailable 0; KMemory.SelfCheck 0 "" 0].
Definition sched_errors : list SchedError :=
  [Sched.NoFreeSlot; InvalidId 0; NoCurrentThread; IdleAlreadyRegistered; NothingToRun].
Definition create_errors : list CreateError := [Threads.NoFreeSlot; Threads.NoStack].
Definition user_errors : list User.InitError :=
  (User.Map <$> [UserMap.ArenaTooSmall 0 0; BelowUserBase 0; NotPageAligned 0; OutOfRange 0; AlreadyMapped]) ++
  (User.Thread <$> create_errors) ++ [User.NoUserImage; User.NoStack].

Definition blank_lines : list Line :=
  (MemoryInitFailed <$> memory_errors) ++ (MemoryCheckFailed <$> memory_errors) ++
  (SchedInitFailed <$> sched_errors) ++ (IdleFailed <$> create_errors) ++ (UserInitFailed <$> user_errors) ++
  (BootInfoRejected <$> [WrongMagic 0; UnsupportedVersion 0 0; BootInfo.TooSmall 0 0]) ++
  (ProbeNotReturned <$> [NotManaged 0; Frame.AlreadyFree 0; Reserved_ 0]) ++
  (ServiceMissing 0 <$> [true; false]) ++
  [IdtInstalled; KernelAlive; BootInfoWord 0 0; BootInfoHeader 0 0 0; MagicRepaired 0; NoMemoryMap; UnusualStride 0;
   MapSummary 0 0 0; KernelRange 0 0; StackRange 0 0; NoRsdp; RsdpAt 0; TablesMapped 0 0 0; TablesRoot 0 0 0;
   BootInfoStillReadable; FramesReady 0 0 0; HeapReady 0 0 0 0; HeapChecked 0 0; NoIstStacks; GdtFailed "";
   GdtLoaded 0 0 0 0 0; NoFxsave; PicReady 0 0; SchedReady 0 0; ClockSilent; ClockRuns 0 0; IstCanaryDestroyed;
   NoProbe; FramesNotRestored 0 0; LocksHeld 0; IdleCreated 0; SchedCheckFailed (mkFailure 0 "" 0);
   SchedChecked 0 0 0; ServiceWithoutTicks; Rsp0NotSet; ServiceChecked 0 0 0; InterruptsClosed; AllChecked;
   DebugExitDisabled; ExitCode 0 0 0; KernelPanic].
Definition blank_messages : list Message :=
  (ExitFailed <$> sched_errors) ++
  [CanaryDestroyed 0; SpuriousIrq7; UnexpectedIrq7; UnexpectedVector 0 0; ServiceReached 0 0 0; SyscallFromCpl 0;
   ServiceMapped 0 0 0 0 0 0; ServiceStarted 0].
Definition blank_faults : list FaultLine :=
  [UnhandledException "" 0; FaultState 0 0 0 0; FaultStack 0 0; RunningOn ""; PageFaultAt 0; UserFault].
Definition levels : list Logging.Level := [Logging.Info; Logging.Warn; Logging.Error].
Definition table : list Entry :=
  (level ← levels; (OfMain level <$> blank_lines) ++ (OfThreads level <$> blank_messages)) ++ (OfFault <$> blank_faults).

(** [Text ""] stands for the panic message in a shape. *)
Definition body (info : string) (e : Entry) : list item :=
  (IByte <$> Logging.bytes_of "[kernel] " ++ Logging.tag (entry_level e)) ++ List.concat (items <$> entry_args info e).
Definition shape (e : Entry) : list token := token_of <$> body "" e ++ [IByte 10].

Fixpoint all_clash (l : list (list token)) : bool :=
  match l with
  | [] => true
  | t :: l => forallb (fun u => clash t u && clash u t) l && all_clash l
  end.

Definition shape_ok (t : list token) : bool := separated t && readable [] t.
Definition one_line (t : list token) : bool := forallb (fun x => negb (bool_decide (x = TByte 10))) t.

(** The evaluation. *)
Lemma table_clash : all_clash (shape <$> table) = true.
Proof. vm_compute. reflexivity. Qed.
Lemma table_shapes : forallb (fun e => shape_ok (shape e)) table = true.
Proof. vm_compute. reflexivity. Qed.
Lemma table_one_line : forallb (fun e => one_line (token_of <$> body "" e)) table = true.
Proof. vm_compute. reflexivity. Qed.

Ltac listed := vm_compute; repeat (first [left; reflexivity | right]).

Lemma blank_memory_listed e : In (blank_memory e) memory_errors.
Proof. destruct e as [[]| |[]|[]| |[]| |]; listed. Qed.
Lemma blank_sched_listed e : In (blank_sched e) sched_errors.
Proof. destruct e; listed. Qed.
Lemma create_listed e : In e create_errors.
Proof. destruct e; listed. Qed.
Lemma blank_user_listed e : In (blank_user e) user_errors.
Proof. destruct e as [| |[]|[]]; listed. Qed.

Lemma in_fmap {A B : Type} (f : A -> B) x l : In x l -> In (f x) (f <$> l).
Proof. apply in_map. Qed.

Lemma blank_line_listed l : In (blank_line l) blank_lines.
Proof.
  unfold blank_lines. destruct l; cbn [blank_line]; rewrite !in_app_iff;
    eauto 20 using in_fmap, blank_memory_listed, blank_sched_listed, create_listed, blank_user_listed;
    do 5 right.
  all: try (do 3 right; cbn; tauto).
  - left. destruct e; listed.
  - right. left. destruct e; listed.
  - do 2 right. left. destruct cpl3; listed.
Qed.

Lemma blank_listed e : In (blank e) table.
Proof.
  unfold table. apply in_app_iff. destruct e as [level l|level l|l]; [left|left|right]; cbn [blank].
  - apply list_elem_of_In, list_elem_of_bind. exists level. split; [|apply list_elem_of_In; destruct level; cbn; tauto].
    apply list_elem_of_In, in_app_iff. left. apply in_fmap, blank_line_listed.
  - apply list_elem_of_In, list_elem_of_bind. exists level. split; [|apply list_elem_of_In; destruct level; cbn; tauto].
    apply list_elem_of_In, in_app_iff. right. apply in_fmap. destruct l as [|e| | | | | | |]; cbn [blank_message];
      unfold blank_messages; rewrite in_app_iff; try (right; cbn; tauto). left. apply in_fmap, blank_sched_listed.
  - apply in_fmap. destruct l; listed.
Qed.

(** A blank line is the line with its arguments erased. *)
Lemma erase_blank info e : erase <$> entry_args info (blank e) = erase <$> entry_args info e.
Proof.
  destruct e as [level l|level l|l].
  - destruct l; try reflexivity; destruct e; try reflexivity; destruct e; reflexivity.
  - destruct l; try reflexivity; destruct e; reflexivity.
  - destruct l; reflexivity.
Qed.

Lemma erase_info info e : erase <$> entry_args info e = erase <$> entry_args "" e.
Proof. destruct e as [level l|level l|l]; [destruct l|..]; reflexivity. Qed.

Lemma body_shape info e : token_of <$> body info e = token_of <$> body "" (blank e).
Proof.
  unfold body. rewrite !fmap_app. f_equal; [by destruct e|].
  apply erase_tokens. by rewrite erase_blank, erase_info.
Qed.

Lemma entry_shape info e : token_of <$> body info e ++ [IByte 10] = shape (blank e).
Proof. unfold shape. rewrite !fmap_app. by rewrite body_shape. Qed.

Lemma entry_text info e : text (body info e ++ [IByte 10]) = entry_bytes info e.
Proof.
  unfold body, entry_bytes. rewrite !text_app, text_bytes, <- write_fmt_text. change (text [IByte 10]) with [10].
  by rewrite <- !app_assoc.
Qed.

Lemma all_clash_pairs l x y :
  all_clash (shape <$> l) = true -> In x l -> In y l -> x = y \/ clash (shape x) (shape y) = true.
Proof.
  induction l as [|z l IH]; intros Hc Hx Hy; [done|]. rewrite fmap_cons in Hc. cbn [all_clash] in Hc.
  apply andb_true_iff in Hc as [Hz Hc]. rewrite forallb_forall in Hz.
  assert (Hone : forall u, In u l -> clash (shape z) (shape u) = true /\ clash (shape u) (shape z) = true).
  { intros u Hu. apply andb_true_iff, Hz. by apply in_map. }
  destruct Hx as [->|Hx], Hy as [->|Hy]; [by left|right; by apply Hone|right; by apply Hone|by apply IH].
Qed.

(** ** From the pieces back to the line *)
Lemma display_inj_sched e1 e2 : blank_sched e1 = blank_sched e2 -> display e1 = display e2 -> e1 = e2.
Proof. destruct e1, e2; cbn; congruence. Qed.

Lemma display_inj_memory e1 e2 : blank_memory e1 = blank_memory e2 -> display e1 = display e2 -> e1 = e2.
Proof.
  destruct e1 as [d1|n1|m1|b1| |f1|h1|s1 w1 a1], e2 as [d2|n2|m2|b2| |f2|h2|s2 w2 a2]; cbn [blank_memory]; intros Eb E;
    try discriminate Eb; try (cbn in E; congruence).
  - injection Eb as Eb. injection E as E. destruct m1, m2; cbn in *; congruence.
  - injection Eb as Eb. injection E as E. destruct b1, b2; cbn in *; congruence.
  - injection Eb as Eb. injection E as E. destruct f1, f2; cbn in *; congruence.
Qed.

Lemma display_inj_user e1 e2 : blank_user e1 = blank_user e2 -> display e1 = display e2 -> e1 = e2.
Proof.
  destruct e1 as [| |m1|t1], e2 as [| |m2|t2]; cbn [blank_user]; intros Eb E; try discriminate Eb; try done.
  injection Eb as Eb. injection E as E. destruct m1, m2; cbn in *; congruence.
Qed.

Lemma main_line_inj info l1 l2 : blank_line l1 = blank_line l2 -> main_line info l1 = main_line info l2 -> l1 = l2.
Proof.
  intros Eb E. destruct l1; destruct l2; try discriminate Eb; try reflexivity; cbn [blank_line] in Eb;
    try (cbn in E; congruence); cbn [main_line] in E; f_equal.
  - injection Eb as Eb. injection E as E. destruct e, e0; cbn in *; congruence.
  - apply display_inj_memory; congruence.
  - apply display_inj_memory; congruence.
  - apply display_inj_sched; congruence.
  - injection Eb as Eb. injection E as E. apply app_inj_2 in E as [E _]; [|done]. destruct e, e0; cbn in *; congruence.
  - unfold display, display_failure in E. destruct f, f0. cbn in E. congruence.
  - apply display_inj_user; congruence.
Qed.

Lemma entry_args_inj info e1 e2 : blank e1 = blank e2 -> entry_args info e1 = entry_args info e2 -> e1 = e2.
Proof.
  destruct e1 as [v1 l1|v1 l1|l1], e2 as [v2 l2|v2 l2|l2]; cbn [blank entry_args]; intros Eb E; try discriminate Eb.
  - injection Eb as -> Eb. f_equal. by eapply main_line_inj.
  - injection Eb as -> Eb. f_equal. destruct l1, l2; try discriminate Eb; try (cbn in E; congruence).
    f_equal. cbn in Eb, E. apply display_inj_sched; congruence.
  - injection Eb as Eb. f_equal. destruct l1, l2; cbn in *; congruence.
Qed.

(** ** The theorem *)

(** Every number of the line is a [u64] and every string has one line. *)
Definition entry_ok (info : string) (e : Entry) : Prop := Forall piece_ok (entry_args info e).

Lemma body_ok info e : entry_ok info e -> Forall item_ok (body info e).
Proof.
  intros He. apply List.Forall_app. split; [apply List.Forall_forall; intros i (c & <- & _)%in_map_iff; done|].
  apply List.Forall_concat, List.Forall_map. eapply List.Forall_impl; [|exact He]. apply items_ok.
Qed.

Lemma in_table {p : Entry -> bool} e : forallb p table = true -> p (blank e) = true.
Proof. intros H. rewrite forallb_forall in H. apply H, blank_listed. Qed.

Lemma entry_bytes_inj info e1 e2 :
  entry_ok info e1 -> entry_ok info e2 -> entry_bytes info e1 = entry_bytes info e2 -> e1 = e2.
Proof.
  intros H1 H2 E. rewrite <- !entry_text in E.
  assert (Hok : forall e, entry_ok info e -> Forall item_ok (body info e ++ [IByte 10])).
  { intros e He. apply List.Forall_app. split; [by apply body_ok|by repeat constructor]. }
  pose proof (in_table e1 table_shapes) as S1. pose proof (in_table e2 table_shapes) as S2. cbn beta in S1, S2.
  apply andb_true_iff in S1 as [S1 R1], S2 as [S2 _]. rewrite <- (entry_shape info) in S1, S2, R1.
  destruct (all_clash_pairs table (blank e1) (blank e2) table_clash (blank_listed e1) (blank_listed e2)) as [Eb|Hc].
  - apply (recover _ _ (Hok e1 H1) (Hok e2 H2)) in E; [|by rewrite !entry_shape, Eb|done].
    apply app_inj_2 in E as [E _]; [|done]. unfold body in E.
    assert (El : entry_level e1 = entry_level e2) by (destruct e1, e2; cbn [blank] in Eb; cbn [entry_level]; congruence).
    rewrite El in E. apply app_inv_head in E. apply (entry_args_inj info); [done|].
    apply pieces_inj; [done|done| |done]. by rewrite <- (erase_blank info e1), <- (erase_blank info e2), Eb.
  - rewrite <- !(entry_shape info) in Hc. by rewrite (clash_sound _ _ (Hok e1 H1) (Hok e2 H2) S1 S2 E) in Hc.
Qed.

(** A line ends at its only line feed. *)
Lemma digit_not_newline c : is_digit c = true -> negb (c =? 10) = true.
Proof. unfold is_digit. lia. Qed.

Lemma text_one_line l :
  Forall item_ok l -> Forall (fun i => match i with IText s => newline_free s = true | _ => True end) l ->
  one_line (token_of <$> l) = true -> Forall (fun c => negb (c =? 10) = true) (text l).
Proof.
  intros H1 H2 H3. induction H1 as [|i l Hi _ IH]; [constructor|]. rewrite fmap_cons in H3. cbn [one_line forallb] in H3.
  apply andb_true_iff in H3 as [H3 H4]. inversion H2 as [|? ? Ht H2']; subst. rewrite text_cons. apply List.Forall_app.
  split; [|by apply IH]. destruct i as [c|d|s]; cbn [flat].
  - constructor; [|constructor]. destruct (Z.eqb_spec c 10) as [->|]; [|done]. cbn in H3. by rewrite bool_decide_true in H3.
  - eapply List.Forall_impl; [|apply Hi]. apply digit_not_newline.
  - apply List.Forall_forall. unfold newline_free in Ht. by rewrite forallb_forall in Ht.
Qed.

Lemma entry_one_line info e : entry_ok info e -> Forall (fun c => negb (c =? 10) = true) (text (body info e)).
Proof.
  intros He. apply text_one_line; [by apply body_ok| |].
  - apply List.Forall_app. split; [apply List.Forall_forall; intros i (c & <- & _)%in_map_iff; done|].
    apply List.Forall_concat, List.Forall_map. eapply List.Forall_impl; [|exact He]. intros [s|n|n|w n|s] Hp; cbn [items];
      try (by repeat constructor). apply List.Forall_forall. intros i (c & <- & _)%in_map_iff. done.
  - rewrite body_shape. apply (in_table e table_one_line).
Qed.

Lemma transcript_inj info es1 es2 :
  Forall (entry_ok info) es1 -> Forall (entry_ok info) es2 ->
  transcript info es1 = transcript info es2 -> es1 = es2.
Proof.
  unfold transcript. intros H1. revert es2. induction H1 as [|e1 es1 He1 _ IH]; intros es2 H2 E.
  - destruct H2; [done|]. discriminate E.
  - destruct H2 as [|e2 es2 He2 H2]; [discriminate E|]. rewrite !fmap_cons in E. cbn [List.concat] in E.
    rewrite <- !entry_text, !text_app, <- !app_assoc in E.
    destruct (runs_then (fun c => negb (c =? 10)) _ _ 10 10 _ _ (entry_one_line _ _ He1) (entry_one_line _ _ He2)
                eq_refl eq_refl E) as [Eb Er].
    f_equal; [|apply IH; [done|congruence]]. apply (entry_bytes_inj info); [done|done|].
    rewrite <- !entry_text, !text_app. by rewrite Eb.
Qed.

(** The carriage returns the serial driver adds can be removed again. *)
Lemma wire_head l c r : wire l = c :: r -> c <> 10.
Proof. destruct l as [|b l]; [done|]. unfold wire. cbn. destruct (Z.eqb_spec b 10); cbn; congruence. Qed.

Lemma wire_inj l1 l2 : wire l1 = wire l2 -> l1 = l2.
Proof.
  assert (Hc : forall b l, wire (b :: l) = (if b =? 10 then [13; 10] else [b]) ++ wire l) by done.
  revert l2. induction l1 as [|b1 l1 IH]; intros [|b2 l2] E; rewrite ?Hc in E.
  - done.
  - by destruct (b2 =? 10).
  - by destruct (b1 =? 10).
  - destruct (Z.eqb_spec b1 10) as [->|N1], (Z.eqb_spec b2 10) as [->|N2]; cbn [app] in E; injection E.
    + intros E'. f_equal. by apply IH.
    + intros E' _. symmetry in E'. by destruct (wire_head _ _ _ E').
    + intros E' _. by destruct (wire_head _ _ _ E').
    + intros E' ->. f_equal. by apply IH.
Qed.

Lemma log_all_sends info n fuel es (d : Board.board) :
  line_ready n d -> (n < fuel)%nat ->
  exists d', log_all info fuel d es = Some d' /\
    Board.sent (Board.uart d') = Board.sent (Board.uart d) ++ wire (transcript info es).
Proof.
  revert d. induction es as [|e es IH]; intros d Hd Hf.
  - exists d. split; [done|]. unfold transcript. cbn. by rewrite app_nil_r.
  - destruct (write_str_sends n fuel d (entry_bytes info e) Hd Hf) as (d1 & Hw & Hd1 & Hs1 & _).
    destruct (IH d1 Hd1 Hf) as (d2 & Hl & Hs2). exists d2. cbn [log_all]. unfold Logging.log.
    fold (entry_bytes info e). rewrite Hw. split; [exact Hl|]. rewrite Hs2, Hs1, <- app_assoc. f_equal.
    unfold transcript. rewrite fmap_cons. cbn [List.concat]. unfold wire. by rewrite flat_map_app.
Qed.

(** C16 The console identifies the log.  Take any two logs of the kernel, lists of
    the lines of [kernel_main], of the interrupt handler and of the exception
    handler with their levels, in which numbers are [u64] and strings have no
    line end.  After [Serial::init], on a transmitter that is busy for at most
    [n] polls, both are sent completely; and if the line has carried the same
    bytes, the logs are the same: the same lines in the same order, with the
    same levels, the same error behind each message, and the same numbers.  A
    line counts as sent without a break: [log] takes no lock, so on the real
    line an interrupt handler's line can stand inside one of [kernel_main]. *)
Theorem console_identifies_log info n fuel (d : Board.board) es1 es2 :
  (Board.busy (Board.uart d) <= n)%nat -> (Board.latency (Board.uart d) <= n)%nat -> (n < fuel)%nat ->
  Forall (entry_ok info) es1 -> Forall (entry_ok info) es2 ->
  exists d1 d2 : Board.board, log_all info fuel (Serial.init d) es1 = Some d1 /\ log_all info fuel (Serial.init d) es2 = Some d2 /\
    (Board.sent (Board.uart d1) = Board.sent (Board.uart d2) -> es1 = es2).
Proof.
  intros Hb Hl Hf H1 H2.
  assert (Hr : line_ready n (Serial.init d)) by (rewrite serial_init_eq; split; cbn; [done|lia]).
  destruct (log_all_sends info n fuel es1 _ Hr Hf) as (d1 & -> & S1), (log_all_sends info n fuel es2 _ Hr Hf) as (d2 & -> & S2).
  exists d1, d2. split; [done|]. split; [done|]. rewrite S1, S2. intros E. apply app_inv_head, wire_inj in E.
  by apply (transcript_inj info).
Qed.

Lemma console_identifies_log_witness :
  exists d1 d2, log_all "" 4 (Serial.init Board.wild) [OfThreads Logging.Info (ServiceReached 0x2B 64 7)] = Some d1 /\
    log_all "" 4 (Serial.init Board.wild) [OfThreads Logging.Info (ServiceReached 0x2B 6 47)] = Some d2 /\
    Board.sent (Board.uart d1) <> Board.sent (Board.uart d2).
Proof.
  destruct (console_identifies_log "" 3 4 Board.wild [OfThreads Logging.Info (ServiceReached 0x2B 64 7)]
    [OfThreads Logging.Info (ServiceReached 0x2B 6 47)]) as (d1 & d2 & H1 & H2 & H).
  - cbn. lia.
  - cbn. lia.
  - lia.
  - repeat constructor; discriminate.
  - repeat constructor; discriminate.
  - exists d1, d2. split; [exact H1|]. split; [exact H2|]. intros E. discriminate (H E).
Defined.

(** An example: the last line of a successful run. *)
Example exit_line :
  entry_bytes "" (OfMain Logging.Info (ExitCode 37 0xF4 0x12)) =
    Logging.bytes_of "[kernel] 退出码 37 (isa-debug-exit 端口 0xF4 <- 0x12)" ++ [10].
Proof. vm_compute. reflexivity. Qed.
